(** * Kernelcoin web wallet: wallet derivation, node client and server

    A shallow embedding of the wallet file of the Kernelcoin web wallet
    ([Wallet], [KernelcoinParams], [GenerateNewWallet],
    [GenerateWalletFromMnemonic]) together with the parts of its
    dependencies (go-bip39, hdkeychain, btcutil, base58, bech32) that the
    two entry points call, of the client of the node (rpc_client.go) and
    of the handlers of the server (main.go) that use them. *)

From Stdlib Require Import ZArith String Ascii Bool List Lia.
From Stdlib Require Import Init.Byte Strings.Byte.
From Stdlib Require Import Permutation.
From Stdlib Require Floats.
Import ListNotations.
Local Open Scope Z_scope.

(* ================================================================== *)
(** * Part I: definitions *)
(* ================================================================== *)

(** ** Byte slices and math/big integers *)

Module Bytes.

(** Go's [byte] as a number. *)
Definition b2z (b : byte) : Z := Z.of_N (Byte.to_N b).

(** Go's conversion [byte(x)]: the low eight bits. *)
Definition z2b (z : Z) : byte :=
  match Byte.of_N (Z.to_N (z mod 256)) with
  | Some b => b
  | None => x00
  end.

(** [[]byte(s)] and [string(b)]: a Go string is its bytes. *)
Definition ofString (s : string) : list byte := list_byte_of_string s.
Definition toString (b : list byte) : string := string_of_list_byte b.

(** Value of a big-endian digit sequence in base [base]. *)
Definition undigits (base : Z) (ds : list Z) : Z :=
  fold_left (fun acc d => acc * base + d) ds 0.

(** Digits of [x], least significant first; [fuel] bounds the number of
    divisions. *)
Fixpoint digitsLE (fuel : nat) (base x : Z) : list Z :=
  match fuel with
  | O => []
  | S f => if x <=? 0 then [] else (x mod base) :: digitsLE f base (x / base)
  end.

(** Digits of [x], most significant first, with no leading zero digit
    (the empty sequence for zero). *)
Definition digits (base x : Z) : list Z :=
  rev (digitsLE (S (Z.to_nat (Z.log2 x))) base x).

(** [new(big.Int).SetBytes(b)]: the big-endian unsigned value of [b]. *)
Definition SetBytes (b : list byte) : Z := undigits 256 (map b2z b).

(** [x.Bytes()]: the big-endian bytes of [x], without leading zero bytes. *)
Definition BigBytes (x : Z) : list byte := map z2b (digits 256 x).

Definition zeros (n : nat) : list byte := repeat x00 n.

(** bip39's [padByteSlice] and btcutil's [paddedAppend]: left-pad with zero
    bytes up to [n] bytes; a longer slice is left as it is. *)
Definition padByteSlice (slice : list byte) (n : nat) : list byte :=
  zeros (n - length slice) ++ slice.

(** [binary.BigEndian.PutUint32]. *)
Definition PutUint32 (i : Z) : list byte :=
  [z2b (Z.shiftr i 24); z2b (Z.shiftr i 16); z2b (Z.shiftr i 8); z2b i].

(** Go's slice expressions [b[:n]] and [b[n:]] on slices that are long
    enough. *)
Definition take (n : nat) (b : list byte) : list byte := firstn n b.
Definition drop (n : nat) (b : list byte) : list byte := skipn n b.

(** Bytewise exclusive or of two slices. *)
Definition xorByte (a b : byte) : byte := z2b (Z.lxor (b2z a) (b2z b)).
Fixpoint xorBytes (a b : list byte) : list byte :=
  match a, b with
  | x :: a', y :: b' => xorByte x y :: xorBytes a' b'
  | _, _ => []
  end.

(** A Go array [[n]byte]: a slice whose length is fixed by its type. *)
Record array (n : nat) : Type := mkArray {
  elems :> list byte;
  elems_len : length elems = n
}.
Arguments elems {n} _.
Arguments elems_len {n} _.

End Bytes.
Import Bytes.

(** ** encoding/hex *)

Module Hex.

Definition hextable : string := "0123456789abcdef".

Definition hexdigit (v : Z) : byte :=
  nth (Z.to_nat v) (ofString hextable) x00.

(** [hex.EncodeToString]: two lower-case digits for each byte. *)
Definition EncodeToString (src : list byte) : string :=
  toString (flat_map (fun b => [hexdigit (Z.shiftr (b2z b) 4);
                               hexdigit (Z.land (b2z b) 15)]) src).

End Hex.

(** ** btcutil/base58 *)

Module Base58.

Definition alphabet : string :=
  "123456789ABCDEFGHJKLMNPQRSTUVWXYZabcdefghijkmnopqrstuvwxyz".

Definition alphabetIdx0 : byte := "1"%byte.

Definition encodeDigit (d : Z) : byte :=
  nth (Z.to_nat d) (ofString alphabet) x00.

(** Position of a character in the alphabet ([b58] table of the
    library, 255 standing for a character outside it). *)
Fixpoint indexOf (c : byte) (l : list byte) (i : Z) : option Z :=
  match l with
  | [] => None
  | x :: l' => if Byte.eqb c x then Some i else indexOf c l' (i + 1)
  end.

Definition decodeDigit (c : byte) : option Z := indexOf c (ofString alphabet) 0.

(** Number of leading elements of [l] equal to [z]. *)
Fixpoint countLeading (z : byte) (l : list byte) : nat :=
  match l with
  | x :: l' => if Byte.eqb x z then S (countLeading z l') else O
  | [] => O
  end.

(** [base58.Encode]: the digits of the big-endian value of [b] in base
    58, preceded by one ['1'] for each leading zero byte of [b]. *)
Definition Encode (b : list byte) : string :=
  toString (repeat alphabetIdx0 (countLeading x00 b)
            ++ map encodeDigit (digits 58 (SetBytes b))).

Fixpoint decodeValue (acc : Z) (s : list byte) : option Z :=
  match s with
  | [] => Some acc
  | c :: s' =>
      match decodeDigit c with
      | Some d => decodeValue (acc * 58 + d) s'
      | None => None
      end
  end.

(** [base58.Decode]: the empty slice when a character is outside the
    alphabet. *)
Definition Decode (s : string) : list byte :=
  match decodeValue 0 (ofString s) with
  | Some v => zeros (countLeading alphabetIdx0 (ofString s)) ++ BigBytes v
  | None => []
  end.

End Base58.

(** ** Errors and results *)

(** Go's [error] values: the sentinel errors of the dependencies,
    [fmt.Errorf] without a wrapped error, and [fmt.Errorf] with [%w]. *)
Inductive error : Type :=
| ErrEntropySource            (* crypto/rand could not fill the buffer *)
| ErrEntropyLengthInvalid     (* bip39 *)
| ErrInvalidMnemonic          (* bip39 *)
| ErrChecksumIncorrect        (* bip39 *)
| ErrWordNotFound (w : string)(* bip39: word not in the reverse map *)
| ErrInvalidSeedLen           (* hdkeychain *)
| ErrUnusableSeed             (* hdkeychain *)
| ErrInvalidChild             (* hdkeychain *)
| ErrDeriveBeyondMaxDepth     (* hdkeychain *)
| ErrInvalidHashLength        (* btcutil: hash is not 20 bytes *)
| ErrBech32 (what : string)   (* bech32 and segwit address decoding *)
| ErrBase58 (what : string)   (* base58.CheckDecode *)
| Errorf (msg : string)
| Errorfw (msg : string) (err : error).

Inductive Result (A : Type) : Type :=
| Ok (a : A)
| Error (e : error).
Arguments Ok {A} a.
Arguments Error {A} e.

Definition bindR {A B} (r : Result A) (k : A -> Result B) : Result B :=
  match r with
  | Ok a => k a
  | Error e => Error e
  end.

Declare Scope result_scope.
Delimit Scope result_scope with result.
Notation "x <- r ;; k" := (bindR r (fun x => k))
  (at level 61, r at next level, right associativity) : result_scope.

(** ** btcutil/bech32 *)

Module Bech32.

Definition charset : string := "qpzry9x8gf2tvdw0s3jn54khce6mua7l".

Definition gen : list Z :=
  [0x3b6a57b2; 0x26508e6d; 0x1ea119fa; 0x3d4233dd; 0x2a1462b3].

(** [if (b>>i)&1 == 1 { chk ^= gen[i] }]. *)
Definition genXor (b : Z) (i : nat) (chk : Z) : Z :=
  if Z.testbit b (Z.of_nat i) then Z.lxor chk (nth i gen 0) else chk.

(** One round of the checksum over the 5-bit value [v]. *)
Definition polymodStep (chk v : Z) : Z :=
  let b := Z.shiftr chk 25 in
  let chk := Z.lxor (Z.shiftl (Z.land chk 0x1ffffff) 5) v in
  genXor b 4 (genXor b 3 (genXor b 2 (genXor b 1 (genXor b 0 chk)))).

(** The high bits of each character of the prefix, a zero, and the low
    five bits of each character. *)
Definition hrpExpand (hrp : list byte) : list Z :=
  map (fun c => Z.shiftr (b2z c) 5) hrp ++ [0]
  ++ map (fun c => Z.land (b2z c) 31) hrp.

(** [bech32Polymod]: the 30-bit checksum state after the prefix, the
    data values and the checksum values. *)
Definition bech32Polymod (hrp : list byte) (values checksum : list byte) : Z :=
  fold_left polymodStep
    (hrpExpand hrp ++ map b2z values ++ map b2z checksum) 1.

(** [writeBech32Checksum] for the first bech32 version (constant 1): the
    six 5-bit groups of the checksum, most significant first. *)
Definition checksumValues (hrp : list byte) (data : list byte) : list byte :=
  let polymod := Z.lxor (bech32Polymod hrp data (zeros 6)) 1 in
  map (fun i => z2b (Z.land (Z.shiftr polymod (5 * (5 - i))) 31))
      [0; 1; 2; 3; 4; 5].

Definition toLowerByte (c : byte) : byte :=
  if (65 <=? b2z c) && (b2z c <=? 90) then z2b (b2z c + 32) else c.

(** [strings.ToLower] on ASCII text. *)
Definition ToLower (s : list byte) : list byte := map toLowerByte s.

Fixpoint toChars (data : list byte) : Result (list byte) :=
  match data with
  | [] => Ok []
  | b :: data' =>
      if 32 <=? b2z b then Error (ErrBech32 "invalid data byte")
      else
        match toChars data' with
        | Ok cs => Ok (nth (Z.to_nat (b2z b)) (ofString charset) x00 :: cs)
        | Error e => Error e
        end
  end.

(** [bech32.Encode]: lower-case prefix, the separator ['1'], the data
    part in the bech32 character set, and the six checksum characters. *)
Definition Encode (hrp : string) (data : list byte) : Result string :=
  let hrp := ToLower (ofString hrp) in
  match toChars data, toChars (checksumValues hrp data) with
  | Ok cs, Ok ck => Ok (toString (hrp ++ ["1"%byte] ++ cs ++ ck))
  | Error e, _ => Error e
  | _, Error e => Error e
  end.

Fixpoint toBytes (chars : list byte) : Result (list byte) :=
  match chars with
  | [] => Ok []
  | c :: chars' =>
      match Base58.indexOf c (ofString charset) 0 with
      | None => Error (ErrBech32 "non-charset character")
      | Some v =>
          match toBytes chars' with
          | Ok vs => Ok (z2b v :: vs)
          | Error e => Error e
          end
      end
  end.

(** [strings.LastIndexByte]. *)
Fixpoint lastIndexByte (s : list byte) (c : byte) (i : Z) (found : Z) : Z :=
  match s with
  | [] => found
  | x :: s' => lastIndexByte s' c (i + 1) (if Byte.eqb x c then i else found)
  end.

Definition isLower (c : byte) : bool := (97 <=? b2z c) && (b2z c <=? 122).
Definition isUpper (c : byte) : bool := (65 <=? b2z c) && (b2z c <=? 90).
Definition printable (c : byte) : bool := (33 <=? b2z c) && (b2z c <=? 126).

(** [bech32.Decode]: at most 90 and at least 8 characters, all printable
    and of one case; the prefix is the text before the last ['1'];
    the checksum must verify against the constant 1. Returns the prefix
    and the data values without the checksum. *)
Definition Decode (bech : string) : Result (list byte * list byte) :=
  let b := ofString bech in
  if (90 <? Z.of_nat (length b)) || (Z.of_nat (length b) <? 8)
  then Error (ErrBech32 "invalid length")
  else if negb (forallb printable b)
  then Error (ErrBech32 "invalid character")
  else if existsb isLower b && existsb isUpper b
  then Error (ErrBech32 "mixed case")
  else
    let b := ToLower b in
    let one := lastIndexByte b "1"%byte 0 (-1) in
    if (one <? 1) || (Z.of_nat (length b) <? one + 7)
    then Error (ErrBech32 "invalid separator index")
    else
      let hrp := take (Z.to_nat one) b in
      let data := drop (Z.to_nat (one + 1)) b in
      match toBytes data with
      | Error e => Error e
      | Ok decoded =>
          let n := (length decoded - 6)%nat in
          if bech32Polymod hrp (take n decoded) (drop n decoded) =? 1
          then Ok (hrp, take n decoded)
          else Error (ErrBech32 "invalid checksum")
      end.

(** The [w] low bits of [v], most significant first. *)
Fixpoint bitsOf (w : nat) (v : Z) : list bool :=
  match w with
  | O => []
  | S w' => Z.testbit v (Z.of_nat w') :: bitsOf w' v
  end.

(** The number a bit sequence (most significant first) denotes. *)
Definition ofBits (bs : list bool) : Z :=
  fold_left (fun acc (b : bool) => 2 * acc + (if b then 1 else 0)) bs 0.

(** Cut [l] into groups of [k] elements; what is left over (fewer than
    [k] elements) is returned apart. *)
Fixpoint groupsOf (fuel k : nat) (l : list bool) : list (list bool) * list bool :=
  match fuel with
  | O => ([], l)
  | S f =>
      if (length l <? k)%nat then ([], l)
      else let (gs, r) := groupsOf f k (skipn k l) in (firstn k l :: gs, r)
  end.

(** [bech32.ConvertBits]: regroup a sequence of [fromBits]-bit values
    into [toBits]-bit values. With [pad] an unfinished last group is
    filled with zero bits; without it an unfinished group must be at
    most four bits, all zero, and is dropped. *)
Definition ConvertBits (data : list byte) (fromBits toBits : nat) (pad : bool)
  : Result (list byte) :=
  if (fromBits <? 1)%nat || (8 <? fromBits)%nat
     || (toBits <? 1)%nat || (8 <? toBits)%nat
  then Error (ErrBech32 "invalid bit groups")
  else
    let bits := flat_map (fun b => bitsOf fromBits (b2z b)) data in
    let (gs, r) := groupsOf (length bits) toBits bits in
    let regrouped := map (fun g => z2b (ofBits g)) gs in
    match r with
    | [] => Ok regrouped
    | _ :: _ =>
        if pad
        then Ok (regrouped ++ [z2b (ofBits (r ++ repeat false (toBits - length r)))])
        else if (4 <? length r)%nat || existsb (fun b : bool => b) r
        then Error (ErrBech32 "invalid incomplete group")
        else Ok regrouped
    end.

End Bech32.

(** ** strings *)

Module Strings.

(** Width in bytes of the white-space rune that starts [s], and 0 when
    [s] does not start with one. The white-space runes of
    [unicode.IsSpace] in UTF-8: U+0009..U+000D, U+0020, U+0085, U+00A0,
    U+1680, U+2000..U+200A, U+2028, U+2029, U+202F, U+205F, U+3000. Their
    first bytes are never continuation bytes, so looking for them at each
    byte finds the same runes as decoding the text rune by rune. *)
Definition spaceWidth (s : list byte) : nat :=
  match map b2z s with
  | [] => 0%nat
  | c :: rest =>
      if (c =? 0x20) || ((0x09 <=? c) && (c <=? 0x0d)) then 1%nat
      else
        match rest with
        | [] => 0%nat
        | c1 :: rest' =>
            if (c =? 0xc2) && ((c1 =? 0x85) || (c1 =? 0xa0)) then 2%nat
            else
              match rest' with
              | [] => 0%nat
              | c2 :: _ =>
                  if (c =? 0xe1) && (c1 =? 0x9a) && (c2 =? 0x80) then 3%nat
                  else if (c =? 0xe2) && (c1 =? 0x80)
                          && (((0x80 <=? c2) && (c2 <=? 0x8a))
                              || (c2 =? 0xa8) || (c2 =? 0xa9) || (c2 =? 0xaf))
                  then 3%nat
                  else if (c =? 0xe2) && (c1 =? 0x81) && (c2 =? 0x9f) then 3%nat
                  else if (c =? 0xe3) && (c1 =? 0x80) && (c2 =? 0x80) then 3%nat
                  else 0%nat
              end
        end
  end.

Definition flush (cur : list byte) : list (list byte) :=
  match cur with
  | [] => []
  | _ :: _ => [cur]
  end.

(** The fields of [s] after the field in progress [cur]; [skip] counts
    the bytes of a white-space rune still to pass over. *)
Fixpoint fieldsFrom (skip : nat) (cur s : list byte) : list (list byte) :=
  match s with
  | [] => flush cur
  | c :: rest =>
      match skip with
      | S k => fieldsFrom k cur rest
      | O =>
          match spaceWidth s with
          | O => fieldsFrom O (cur ++ [c]) rest
          | S k => flush cur ++ fieldsFrom k [] rest
          end
      end
  end.

(** [strings.Fields]: the maximal runs of non-white-space text. *)
Definition Fields (s : string) : list string :=
  map toString (fieldsFrom 0 [] (ofString s)).

(** [strings.Join]. *)
Definition Join (elems : list string) (sep : string) : string :=
  String.concat sep elems.

End Strings.

(** ** The primitives behind the dependencies

    The hash functions, the public point of a private scalar and the
    word list are data and code of the dependencies. Everything below is
    stated over any choice of them with the result sizes the dependencies
    give them. *)

Class Primitives : Type := {
  (** crypto/sha256 *)
  sha256 : list byte -> array 32;
  (** crypto/sha512 *)
  sha512 : list byte -> array 64;
  (** x/crypto/ripemd160 *)
  ripemd160 : list byte -> array 20;
  (** btcec: the compressed serialization of the public key of a private
      scalar *)
  pubkeyCompressed : Z -> array 33;
  (** go-bip39: the English word list *)
  wordList : list string
}.

(** ** crypto/hmac and x/crypto/pbkdf2 *)

Module Pbkdf2.
Section WithPrimitives.
Context {P : Primitives}.

Definition blockSize : nat := 128.

(** [hmac.New(sha512.New, key)] then [Write(msg)] and [Sum(nil)]: a key
    longer than the block is hashed first, then zero-padded to the block
    size. *)
Definition hmacSha512 (key msg : list byte) : list byte :=
  let key := if (blockSize <? length key)%nat then elems (sha512 key) else key in
  let key := key ++ zeros (blockSize - length key) in
  let ipad := map (fun b => xorByte b "6"%byte) key in
  let opad := map (fun b => xorByte b "\"%byte) key in
  elems (sha512 (opad ++ elems (sha512 (ipad ++ msg)))).

(** The inner loop of [pbkdf2.Key]: [n] more rounds [U = prf(U)],
    [T ^= U]. *)
Fixpoint rounds (prf : list byte -> list byte) (n : nat) (U T : list byte)
  : list byte :=
  match n with
  | O => T
  | S n' => let U' := prf U in rounds prf n' U' (xorBytes T U')
  end.

Definition block (prf : list byte -> list byte) (salt : list byte)
  (iter : nat) (i : Z) : list byte :=
  let U1 := prf (salt ++ PutUint32 i) in
  rounds prf (iter - 1) U1 U1.

(** [pbkdf2.Key(password, salt, iter, keyLen, sha512.New)]. *)
Definition Key (password salt : list byte) (iter keyLen : nat) : list byte :=
  let prf := hmacSha512 password in
  let hashLen := 64%nat in
  let numBlocks := ((keyLen + hashLen - 1) / hashLen)%nat in
  take keyLen
    (flat_map (fun i => block prf salt iter (Z.of_nat i)) (seq 1 numBlocks)).

End WithPrimitives.
End Pbkdf2.

(** ** crypto/rand: the state both entry points run in *)

(** The bytes the system's random source has still to deliver. A read of
    [n] bytes takes the next [n]; the source fails when it cannot fill
    the buffer. *)
Definition World : Type := list byte.

(** A Go function that may read the random source and may fail. *)
Definition M (A : Type) : Type := World -> Result A * World.

Definition ret {A} (a : A) : M A := fun w => (Ok a, w).

Definition bind {A B} (m : M A) (k : A -> M B) : M B :=
  fun w =>
    match m w with
    | (Ok a, w') => k a w'
    | (Error e, w') => (Error e, w')
    end.

(** A call that does not touch the random source. *)
Definition pure {A} (r : Result A) : M A := fun w => (r, w).

(** [if err != nil { return nil, fmt.Errorf(msg + ": %w", err) }]. *)
Definition orWrap {A} (m : M A) (msg : string) : M A :=
  fun w =>
    match m w with
    | (Ok a, w') => (Ok a, w')
    | (Error e, w') => (Error (Errorfw msg e), w')
    end.

Declare Scope go_scope.
Delimit Scope go_scope with go.
Notation "x <- m ;; k" := (bind m (fun x => k))
  (at level 61, m at next level, right associativity) : go_scope.
Notation "m 'or' msg" := (orWrap m msg) (at level 60) : go_scope.

Module Rand.

(** [rand.Read(b)] for a buffer of [n] bytes. *)
Definition Read (n : nat) : M (list byte) :=
  fun w =>
    if (length w <? n)%nat then (Error ErrEntropySource, w)
    else (Ok (firstn n w), skipn n w).

End Rand.

(** ** go-bip39 *)

Module Bip39.
Section WithPrimitives.
Context {P : Primitives}.

Definition validateEntropyBitSize (bitSize : Z) : Result unit :=
  if negb (bitSize mod 32 =? 0) || (bitSize <? 128) || (256 <? bitSize)
  then Error ErrEntropyLengthInvalid
  else Ok tt.

(** Modelled from the spec: [GenerateEntropy(bits)], the dependency's
    [bip39.NewEntropy], is not under src/. [bits/8] bytes from the secure
    random source; fails when the size is not supported or the source
    cannot deliver. *)
Definition NewEntropy (bitSize : Z) : M (list byte) :=
  match validateEntropyBitSize bitSize with
  | Error e => pure (Error e)
  | Ok _ => Rand.Read (Z.to_nat (bitSize / 8))
  end.

Definition computeChecksum (data : list byte) : list byte :=
  elems (sha256 data).

(** Shift the data left once for each checksum bit and set the new low
    bit to the checksum bit, taken from the left of the first hash
    byte. *)
Definition addChecksum (data : list byte) : list byte :=
  let firstChecksumByte := b2z (nth 0 (computeChecksum data) x00) in
  let checksumBitLength := (length data / 4)%nat in
  BigBytes
    (fold_left
       (fun dataBigInt i =>
          let dataBigInt := dataBigInt * 2 in
          if 0 <? Z.land firstChecksumByte (Z.shiftl 1 (7 - Z.of_nat i))
          then Z.lor dataBigInt 1
          else dataBigInt)
       (seq 0 checksumBitLength) (SetBytes data)).

(** The words of the sentence, last word first: the low eleven bits name
    a word, then the number is shifted right by eleven bits. *)
Fixpoint wordsLoop (n : nat) (entropyInt : Z) (words : list string)
  : list string :=
  match n with
  | O => words
  | S n' =>
      let word := Z.land entropyInt 2047 in
      let wordBytes := padByteSlice (BigBytes word) 2 in
      wordsLoop n' (entropyInt / 2048)
        (nth (Z.to_nat (SetBytes wordBytes)) wordList EmptyString :: words)
  end.

(** Modelled from the spec: [EntropyToMnemonic(entropy)], the
    dependency's [bip39.NewMnemonic], is not under src/. SHA-256 of the
    entropy, its first [bits/32] bits appended as checksum, the bit
    stream split into 11-bit groups, each group mapped to a word; the
    words are joined by single spaces. *)
Definition NewMnemonic (entropy : list byte) : Result string :=
  let entropyBitLength := Z.of_nat (length entropy) * 8 in
  let checksumBitLength := entropyBitLength / 32 in
  let sentenceLength := (entropyBitLength + checksumBitLength) / 11 in
  match validateEntropyBitSize entropyBitLength with
  | Error e => Error e
  | Ok _ =>
      let entropy := addChecksum entropy in
      let entropyInt := SetBytes entropy in
      let words := wordsLoop (Z.to_nat sentenceLength) entropyInt [] in
      Ok (Strings.Join words " ")
  end.

(** The reverse map of the word list, built by assigning [wordMap[v] = i]
    in list order. *)
Fixpoint lookupFrom (w : string) (l : list string) (i : Z) (found : option Z)
  : option Z :=
  match l with
  | [] => found
  | v :: l' => lookupFrom w l' (i + 1) (if String.eqb v w then Some i else found)
  end.

Definition wordMap (w : string) : option Z := lookupFrom w wordList 0 None.

(** The number of words should be 12, 15, 18, 21 or 24. *)
Definition splitMnemonicWords (mnemonic : string) : option (list string) :=
  let words := Strings.Fields mnemonic in
  let numOfWords := length words in
  if negb (numOfWords mod 3 =? 0)%nat || (numOfWords <? 12)%nat
     || (24 <? numOfWords)%nat
  then None
  else Some words.

(** Decode the words into one number, eleven bits a word. *)
Fixpoint decodeWords (ws : list string) (b : Z) : Result Z :=
  match ws with
  | [] => Ok b
  | v :: ws' =>
      match wordMap v with
      | None => Error (ErrWordNotFound v)
      | Some index => decodeWords ws' (Z.lor (b * 2048) index)
      end
  end.

Definition wordLengthChecksumMasksMapping (n : nat) : Z :=
  match n with
  | 12%nat => 15 | 15%nat => 31 | 18%nat => 63 | 21%nat => 127
  | 24%nat => 255 | _ => 0
  end.

Definition wordLengthChecksumShiftMapping (n : nat) : Z :=
  match n with
  | 12%nat => 16 | 15%nat => 8 | 18%nat => 4 | 21%nat => 2 | _ => 1
  end.

Definition EntropyFromMnemonic (mnemonic : string) : Result (list byte) :=
  match splitMnemonicWords mnemonic with
  | None => Error ErrInvalidMnemonic
  | Some mnemonicSlice =>
      match decodeWords mnemonicSlice 0 with
      | Error e => Error e
      | Ok b =>
          let l := length mnemonicSlice in
          let checksumMask := wordLengthChecksumMasksMapping l in
          let checksum := Z.land b checksumMask in
          let b := b / (checksumMask + 1) in
          let entropy := padByteSlice (BigBytes b) (l / 3 * 4) in
          let entropyChecksumBytes := computeChecksum entropy in
          let entropyChecksum := b2z (nth 0 entropyChecksumBytes x00) in
          let entropyChecksum :=
            if (l =? 24)%nat then entropyChecksum
            else entropyChecksum / wordLengthChecksumShiftMapping l in
          if checksum =? entropyChecksum then Ok entropy
          else Error ErrChecksumIncorrect
      end
  end.

(** Modelled from the spec: [ValidateMnemonic(words)], the dependency's
    [bip39.IsMnemonicValid], is not under src/. Reverse the mapping,
    recompute the checksum, compare; rejects words not in the list, a
    wrong word count and a checksum mismatch. *)
Definition IsMnemonicValid (mnemonic : string) : bool :=
  match EntropyFromMnemonic mnemonic with
  | Ok _ => true
  | Error _ => false
  end.

(** Modelled from the spec: [MnemonicToSeed(mnemonic, passphrase)], the
    dependency's [bip39.NewSeed], is not under src/. PBKDF2-HMAC-SHA512,
    2048 iterations, 64 bytes, salt ["mnemonic" + passphrase]. *)
Definition NewSeed (mnemonic password : string) : list byte :=
  Pbkdf2.Key (ofString mnemonic) (ofString ("mnemonic" ++ password)%string) 2048 64.

End WithPrimitives.
End Bip39.

(** ** chaincfg *)

Module Chaincfg.

(** The fields of [chaincfg.Params] the wallet file sets. *)
Record Params : Type := mkParams {
  Name : string;
  Net : Z;
  PubKeyHashAddrID : byte;
  ScriptHashAddrID : byte;
  PrivateKeyID : byte;
  WitnessPubKeyHashAddrID : byte;
  WitnessScriptHashAddrID : byte;
  HDPrivateKeyID : list byte;
  HDPublicKeyID : list byte;
  Bech32HRPSegwit : string
}.

End Chaincfg.

(** ** btcec *)

Module Btcec.
Section WithPrimitives.
Context {P : Primitives}.

(** The order of the secp256k1 group. *)
Definition N : Z :=
  0xFFFFFFFFFFFFFFFFFFFFFFFFFFFFFFFEBAAEDCE6AF48A03BBFD25E8CD0364141.

Definition PrivKeyBytesLen : nat := 32.

(** A private key is its scalar. *)
Record PrivateKey : Type := mkPrivateKey { D : Z }.

(** A public key, kept as its compressed serialization. *)
Record PublicKey : Type := mkPublicKey { compressed : array 33 }.

(** [btcec.PrivKeyFromBytes]: the first 32 bytes as a big-endian number,
    reduced modulo the group order. *)
Definition PrivKeyFromBytes (b : list byte) : PrivateKey :=
  {| D := SetBytes (take PrivKeyBytesLen b) mod N |}.

(** [privKey.Serialize()]: the scalar as 32 big-endian bytes. *)
Definition Serialize (k : PrivateKey) : list byte :=
  padByteSlice (BigBytes (D k)) PrivKeyBytesLen.

(** Modelled from the spec: [ToECPublicKey(privateKey)], the
    dependency's [privKey.PubKey()], is not under src/. The compressed
    (33-byte) public key point of the scalar. *)
Definition PubKey (k : PrivateKey) : PublicKey :=
  {| compressed := pubkeyCompressed (D k) |}.

Definition SerializeCompressed (p : PublicKey) : list byte :=
  elems (compressed p).

End WithPrimitives.
End Btcec.

(** ** btcutil: hashes, WIF and addresses *)

Module Btcutil.
Section WithPrimitives.
Context {P : Primitives}.

(** Modelled from the spec: [Hash160(pubkeyCompressed)], the
    dependency's [btcutil.Hash160], is not under src/.
    RIPEMD160(SHA256(b)), 20 bytes. *)
Definition Hash160 (buf : list byte) : list byte :=
  elems (ripemd160 (elems (sha256 buf))).

(** [chainhash.DoubleHashB]. *)
Definition DoubleHashB (b : list byte) : list byte :=
  elems (sha256 (elems (sha256 b))).

(** The base58check checksum: first four bytes of the double SHA-256. *)
Definition checksum (input : list byte) : list byte :=
  take 4 (DoubleHashB input).

(** [base58.CheckEncode]. *)
Definition CheckEncode (input : list byte) (version : byte) : string :=
  let b := version :: input in
  Base58.Encode (b ++ checksum b).

(** [base58.CheckDecode]: the payload and the version byte. *)
Definition CheckDecode (input : string) : Result (list byte * byte) :=
  let decoded := Base58.Decode input in
  if (length decoded <? 5)%nat then Error (ErrBase58 "invalid format")
  else
    let version := nth 0 decoded x00 in
    let n := (length decoded - 4)%nat in
    let cksum := drop n decoded in
    if list_eq_dec Byte.byte_eq_dec (checksum (take n decoded)) cksum
    then Ok (drop 1 (take n decoded), version)
    else Error (ErrBase58 "checksum error").

Definition compressMagic : byte := x01.

Record WIF : Type := mkWIF {
  PrivKey : Btcec.PrivateKey;
  CompressPubKey : bool;
  netID : byte
}.

(** [btcutil.NewWIF]; the network is never [nil] here. *)
Definition NewWIF (privKey : Btcec.PrivateKey) (net : Chaincfg.Params)
  (compress : bool) : Result WIF :=
  Ok {| PrivKey := privKey; CompressPubKey := compress;
        netID := Chaincfg.PrivateKeyID net |}.

(** Modelled from the spec: [ToWIF(privateKey, profile, compressed)],
    the dependency's [WIF.String], is not under src/. Version byte,
    32-byte scalar, 0x01 if compressed, then the first four bytes of the
    double SHA-256 of those; base58 of the whole. *)
Definition WIFString (w : WIF) : string :=
  let a := [netID w] in
  let a := a ++ padByteSlice (Btcec.Serialize (PrivKey w)) Btcec.PrivKeyBytesLen in
  let a := if CompressPubKey w then a ++ [compressMagic] else a in
  let cksum := take 4 (DoubleHashB a) in
  Base58.Encode (a ++ cksum).

Record AddressPubKeyHash : Type := mkAddressPubKeyHash {
  hash : list byte;
  addrNetID : byte
}.

(** [btcutil.NewAddressPubKeyHash]: the hash must be 20 bytes. *)
Definition NewAddressPubKeyHash (pkHash : list byte) (net : Chaincfg.Params)
  : Result AddressPubKeyHash :=
  if negb (length pkHash =? 20)%nat then Error ErrInvalidHashLength
  else Ok {| hash := pkHash; addrNetID := Chaincfg.PubKeyHashAddrID net |}.

(** Modelled from the spec: [ToLegacyAddress(pubkeyHash, profile)], the
    dependency's [AddressPubKeyHash.EncodeAddress], is not under
    src/. Base58check of the version byte and the hash. *)
Definition EncodeAddressPubKeyHash (a : AddressPubKeyHash) : string :=
  CheckEncode (take 20 (hash a)) (addrNetID a).

Record AddressWitnessPubKeyHash : Type := mkAddressWitnessPubKeyHash {
  hrp : string;
  witnessVersion : byte;
  witnessProgram : list byte
}.

(** [btcutil.NewAddressWitnessPubKeyHash]: the program must be 20
    bytes; the prefix is lower-cased and the witness version is 0. *)
Definition NewAddressWitnessPubKeyHash (witnessProg : list byte)
  (net : Chaincfg.Params) : Result AddressWitnessPubKeyHash :=
  if negb (length witnessProg =? 20)%nat then Error ErrInvalidHashLength
  else Ok {| hrp := toString (Bech32.ToLower
                                (ofString (Chaincfg.Bech32HRPSegwit net)));
             witnessVersion := x00;
             witnessProgram := witnessProg |}.

(** [decodeSegWitAddress]: witness version and program of a bech32
    address. *)
Definition decodeSegWitAddress (address : string) : Result (byte * list byte) :=
  match Bech32.Decode address with
  | Error e => Error e
  | Ok (_, data) =>
      match data with
      | [] => Error (ErrBech32 "no witness version")
      | version :: data' =>
          if 16 <? b2z version then Error (ErrBech32 "invalid witness version")
          else
            match Bech32.ConvertBits data' 5 8 false with
            | Error e => Error e
            | Ok regrouped =>
                let n := length regrouped in
                if (n <? 2)%nat || (40 <? n)%nat
                then Error (ErrBech32 "invalid data length")
                else if (b2z version =? 0) && negb (n =? 20)%nat
                        && negb (n =? 32)%nat
                then Error (ErrBech32 "invalid data length for witness version 0")
                else Ok (version, regrouped)
            end
      end
  end.

(** [encodeSegWitAddress] for witness version 0: the version followed by
    the program in 5-bit groups, bech32-encoded; the result is checked by
    decoding it. *)
Definition encodeSegWitAddress (hrp : string) (witnessVersion : byte)
  (witnessProgram : list byte) : Result string :=
  match Bech32.ConvertBits witnessProgram 8 5 true with
  | Error e => Error e
  | Ok converted =>
      let combined := witnessVersion :: converted in
      match Bech32.Encode hrp combined with
      | Error e => Error e
      | Ok bech =>
          match decodeSegWitAddress bech with
          | Error e => Error (ErrBech32 "invalid segwit address")
          | Ok (version, program) =>
              if Byte.eqb version witnessVersion
                 && (if list_eq_dec Byte.byte_eq_dec program witnessProgram
                     then true else false)
              then Ok bech
              else Error (ErrBech32 "invalid segwit address")
          end
      end
  end.

(** Modelled from the spec: [ToSegwitAddress(pubkeyHash, profile)], the
    dependency's [AddressWitnessPubKeyHash.EncodeAddress], is not
    under src/. Bech32 of witness version 0 and the hash under the
    profile's prefix; the empty string if encoding fails. *)
Definition EncodeAddressWitnessPubKeyHash (a : AddressWitnessPubKeyHash)
  : string :=
  match encodeSegWitAddress (hrp a) (witnessVersion a) (witnessProgram a) with
  | Ok str => str
  | Error _ => EmptyString
  end.

End WithPrimitives.
End Btcutil.

(** ** hdkeychain *)

Module Hdkeychain.
Section WithPrimitives.
Context {P : Primitives}.

Definition HardenedKeyStart : Z := 0x80000000.
Definition MinSeedBytes : nat := 16.
Definition MaxSeedBytes : nat := 64.
Definition masterKey : list byte := ofString "Bitcoin seed".

(** An extended private key. The wallet file never turns a key into an
    extended public key, so the public variant is left out. *)
Record ExtendedKey : Type := mkExtendedKey {
  key : list byte;
  chainCode : list byte;
  depth : Z;
  parentFP : list byte;
  childNum : Z;
  version : list byte
}.

(** Modelled from the spec: [NewMasterKey(seed, networkProfile)], the
    dependency's [hdkeychain.NewMaster], is not under src/.
    HMAC-SHA512(key="Bitcoin seed", data=seed); the left 32 bytes are the
    private scalar, which must be nonzero and below the curve order, the
    right 32 bytes the chain code; depth 0. The dependency also refuses
    a seed of fewer than 16 or more than 64 bytes. *)
Definition NewMaster (seed : list byte) (net : Chaincfg.Params)
  : Result ExtendedKey :=
  if (length seed <? MinSeedBytes)%nat || (MaxSeedBytes <? length seed)%nat
  then Error ErrInvalidSeedLen
  else
    let lr := Pbkdf2.hmacSha512 masterKey seed in
    let secretKey := take (length lr / 2) lr in
    let chainCode := drop (length lr / 2) lr in
    let secretKeyNum := SetBytes secretKey in
    if (Btcec.N <=? secretKeyNum) || (secretKeyNum =? 0)
    then Error ErrUnusableSeed
    else Ok {| key := secretKey; chainCode := chainCode; depth := 0;
               parentFP := [x00; x00; x00; x00]; childNum := 0;
               version := Chaincfg.HDPrivateKeyID net |}.

Definition isChildHardened (i : Z) : bool := HardenedKeyStart <=? i.

(** The compressed public key of an extended private key. *)
Definition pubKeyBytes (k : ExtendedKey) : list byte :=
  Btcec.SerializeCompressed (Btcec.PubKey (Btcec.PrivKeyFromBytes (key k))).

(** Modelled from the spec: [Derive(parentKey, index)], the dependency's
    [ExtendedKey.Derive], is not under src/. Hardened ([index >=
    2^31]): HMAC-SHA512(chain code, 0x00 ‖ parent private key ‖ index);
    otherwise HMAC-SHA512(chain code, parent compressed public key ‖
    index). The child scalar is the left 32 bytes plus the parent scalar
    modulo the curve order; it fails if the left 32 bytes are not below
    the curve order or the child scalar is zero. The child chain code is
    the right 32 bytes. *)
Definition Derive (k : ExtendedKey) (i : Z) : Result ExtendedKey :=
  if depth k =? 255 then Error ErrDeriveBeyondMaxDepth
  else
    let data :=
      (if isChildHardened i
       then zeros (33 - length (key k)) ++ key k
       else pubKeyBytes k) ++ PutUint32 i in
    let ilr := Pbkdf2.hmacSha512 (chainCode k) data in
    let il := take (length ilr / 2) ilr in
    let childChainCode := drop (length ilr / 2) ilr in
    let ilNum := SetBytes il in
    if Btcec.N <=? ilNum then Error ErrInvalidChild
    else
      let childNum := (ilNum + SetBytes (key k)) mod Btcec.N in
      if childNum =? 0 then Error ErrInvalidChild
      else
        Ok {| key := BigBytes childNum; chainCode := childChainCode;
              depth := depth k + 1;
              parentFP := take 4 (Btcutil.Hash160 (pubKeyBytes k));
              childNum := i; version := version k |}.

(** Modelled from the spec: [ToECPrivateKey(extendedKey)], the
    dependency's [ExtendedKey.ECPrivKey], is not under src/. *)
Definition ECPrivKey (k : ExtendedKey) : Result Btcec.PrivateKey :=
  Ok (Btcec.PrivKeyFromBytes (key k)).

End WithPrimitives.
End Hdkeychain.

(** ** The wallet file *)

Section WalletFile.
Context {P : Primitives}.

(** Wallet represents a generated Kernelcoin wallet. *)
Record Wallet : Type := mkWallet {
  Mnemonic : string;
  PrivateKeyHex : string;
  PrivateKeyWIF : string;
  PublicKeyHex : string;
  LegacyAddress : string;
  SegWitAddress : string;
  PublicKeyHash : string;
  DerivationPath : string
}.

(** KernelcoinParams defines the network parameters for Kernelcoin
    mainnet. *)
Definition KernelcoinParams : Chaincfg.Params :=
  {| Chaincfg.Name := "kernelcoin";
     Chaincfg.Net := 0xf1c8d2fd;
     Chaincfg.PubKeyHashAddrID := z2b 45;
     Chaincfg.ScriptHashAddrID := z2b 23;
     Chaincfg.PrivateKeyID := z2b 28;
     Chaincfg.WitnessPubKeyHashAddrID := z2b 0x06;
     Chaincfg.WitnessScriptHashAddrID := z2b 0x0A;
     Chaincfg.HDPrivateKeyID := map z2b [0x77; 0x88; 0xad; 0xe4];
     Chaincfg.HDPublicKeyID := map z2b [0x77; 0x88; 0xb2; 0x1e];
     Chaincfg.Bech32HRPSegwit := "kcn" |}.

Local Open Scope go_scope.

(** GenerateNewWallet creates a new Kernelcoin wallet. *)
Definition GenerateNewWallet : M Wallet :=
  entropy <- Bip39.NewEntropy 128 or "failed to generate entropy" ;;
  mnemonic <- pure (Bip39.NewMnemonic entropy) or "failed to generate mnemonic" ;;
  let seed := Bip39.NewSeed mnemonic "" in
  masterKey <- pure (Hdkeychain.NewMaster seed KernelcoinParams)
                 or "failed to create master key" ;;
  let derivationPath := "m/44'/2'/0'/0/0"%string in
  purpose <- pure (Hdkeychain.Derive masterKey (Hdkeychain.HardenedKeyStart + 44))
               or "failed to derive purpose" ;;
  coinType <- pure (Hdkeychain.Derive purpose (Hdkeychain.HardenedKeyStart + 2))
                or "failed to derive coin type" ;;
  account <- pure (Hdkeychain.Derive coinType (Hdkeychain.HardenedKeyStart + 0))
               or "failed to derive account" ;;
  change <- pure (Hdkeychain.Derive account 0) or "failed to derive change" ;;
  addressKey <- pure (Hdkeychain.Derive change 0)
                  or "failed to derive address key" ;;
  privKey <- pure (Hdkeychain.ECPrivKey addressKey)
               or "failed to get private key" ;;
  wif <- pure (Btcutil.NewWIF privKey KernelcoinParams true)
           or "failed to create WIF" ;;
  let pubKey := Btcec.PubKey privKey in
  let pubKeyHash := Btcutil.Hash160 (Btcec.SerializeCompressed pubKey) in
  legacyAddr <- pure (Btcutil.NewAddressPubKeyHash pubKeyHash KernelcoinParams)
                  or "failed to create legacy address" ;;
  bech32Addr <- pure (Btcutil.NewAddressWitnessPubKeyHash pubKeyHash KernelcoinParams)
                  or "failed to create bech32 address" ;;
  ret {| Mnemonic := mnemonic;
         PrivateKeyHex := Hex.EncodeToString (Btcec.Serialize privKey);
         PrivateKeyWIF := Btcutil.WIFString wif;
         PublicKeyHex := Hex.EncodeToString (Btcec.SerializeCompressed pubKey);
         LegacyAddress := Btcutil.EncodeAddressPubKeyHash legacyAddr;
         SegWitAddress := Btcutil.EncodeAddressWitnessPubKeyHash bech32Addr;
         PublicKeyHash := Hex.EncodeToString pubKeyHash;
         DerivationPath := derivationPath |}.

(** GenerateWalletFromMnemonic creates a wallet from an existing
    mnemonic. *)
Definition GenerateWalletFromMnemonic (mnemonic : string) : M Wallet :=
  if negb (Bip39.IsMnemonicValid mnemonic)
  then pure (Error (Errorf "invalid mnemonic phrase"))
  else
  let seed := Bip39.NewSeed mnemonic "" in
  masterKey <- pure (Hdkeychain.NewMaster seed KernelcoinParams)
                 or "failed to create master key" ;;
  let derivationPath := "m/44'/2'/0'/0/0"%string in
  purpose <- pure (Hdkeychain.Derive masterKey (Hdkeychain.HardenedKeyStart + 44))
               or "failed to derive purpose" ;;
  coinType <- pure (Hdkeychain.Derive purpose (Hdkeychain.HardenedKeyStart + 2))
                or "failed to derive coin type" ;;
  account <- pure (Hdkeychain.Derive coinType (Hdkeychain.HardenedKeyStart + 0))
               or "failed to derive account" ;;
  change <- pure (Hdkeychain.Derive account 0) or "failed to derive change" ;;
  addressKey <- pure (Hdkeychain.Derive change 0)
                  or "failed to derive address key" ;;
  privKey <- pure (Hdkeychain.ECPrivKey addressKey)
               or "failed to get private key" ;;
  wif <- pure (Btcutil.NewWIF privKey KernelcoinParams true)
           or "failed to create WIF" ;;
  let pubKey := Btcec.PubKey privKey in
  let pubKeyHash := Btcutil.Hash160 (Btcec.SerializeCompressed pubKey) in
  legacyAddr <- pure (Btcutil.NewAddressPubKeyHash pubKeyHash KernelcoinParams)
                  or "failed to create legacy address" ;;
  bech32Addr <- pure (Btcutil.NewAddressWitnessPubKeyHash pubKeyHash KernelcoinParams)
                  or "failed to create bech32 address" ;;
  ret {| Mnemonic := mnemonic;
         PrivateKeyHex := Hex.EncodeToString (Btcec.Serialize privKey);
         PrivateKeyWIF := Btcutil.WIFString wif;
         PublicKeyHex := Hex.EncodeToString (Btcec.SerializeCompressed pubKey);
         LegacyAddress := Btcutil.EncodeAddressPubKeyHash legacyAddr;
         SegWitAddress := Btcutil.EncodeAddressWitnessPubKeyHash bech32Addr;
         PublicKeyHash := Hex.EncodeToString pubKeyHash;
         DerivationPath := derivationPath |}.

End WalletFile.

(* ================================================================== *)
(** * The node client and the HTTP handlers *)
(* ================================================================== *)

(** The client of the node ([KernelcoinRPCClient] and its methods) and
    the handlers of the wallet server, run in a state that holds what
    they act on: the random source, the environment, the node at the
    other end of the connection, the log and the response being
    written. The calls into encoding/json, fmt, net/url and strconv whose
    results depend on the text of a document are kept as the operations
    of a [Runtime]. *)

(** ** Values of type [interface{}] *)

Module Any.

(** What encoding/json stores in an [interface{}] (nil, bool, float64,
    string, [[]interface{}], [map[string]interface{}]) and the [int]
    values the program passes as parameters. A map is the list of its
    bindings; the first binding of a key is the one that counts. The
    same values stand for the JSON documents written to a response. *)
#[local] Set Warnings "-register-all".
Inductive any : Type :=
| VNil
| VBool (b : bool)
| VInt (n : Z)
| VFloat64 (f : PrimFloat.float)
| VString (s : string)
| VSlice (l : list any)
| VMap (m : list (string * any)).

(** [m[key]]: the nil interface when the key is missing. *)
Fixpoint index (m : list (string * any)) (key : string) : any :=
  match m with
  | [] => VNil
  | (k, v) :: m' => if String.eqb k key then v else index m' key
  end.

(** The type assertions [v.(string)], [v.(float64)], [v.(bool)],
    [v.(map[string]interface{})] and [v.([]interface{})] with their
    [ok]. *)
Definition asString (v : any) : option string :=
  match v with VString s => Some s | _ => None end.

Definition asFloat64 (v : any) : option PrimFloat.float :=
  match v with VFloat64 f => Some f | _ => None end.

Definition asBool (v : any) : option bool :=
  match v with VBool b => Some b | _ => None end.

Definition asMap (v : any) : option (list (string * any)) :=
  match v with VMap m => Some m | _ => None end.

Definition asSlice (v : any) : option (list any) :=
  match v with VSlice l => Some l | _ => None end.

(** The text of [%T]. *)
Definition typeName (v : any) : string :=
  match v with
  | VNil => "<nil>"
  | VBool _ => "bool"
  | VInt _ => "int"
  | VFloat64 _ => "float64"
  | VString _ => "string"
  | VSlice _ => "[]interface {}"
  | VMap _ => "map[string]interface {}"
  end.

(** The keys of a map, each once. *)
Definition keys (m : list (string * any)) : list string :=
  nodup string_dec (map fst m).

(** A binding of a map literal or a field of a JSON object. *)
Definition field (key : string) (v : any) : string * any := (key, v).

(** [map[string]string{...}] as a value. *)
Definition ofStrings (m : list (string * string)) : any :=
  VMap (map (fun kv => (fst kv, VString (snd kv))) m).

End Any.
Import Any.

(** ** float64 *)

Module Float64.

(** The integer part of a finite number, toward zero. *)
Definition truncate (f : PrimFloat.float) : option Z :=
  match FloatOps.Prim2SF f with
  | SpecFloat.S754_zero _ => Some 0
  | SpecFloat.S754_finite s m e =>
      let a := if 0 <=? e then Z.pos m * 2 ^ e else Z.pos m / 2 ^ (- e) in
      Some (if s then - a else a)
  | _ => None
  end.

(** Neither an infinity nor a NaN. *)
Definition finite (f : PrimFloat.float) : bool :=
  negb (PrimFloat.is_nan f || PrimFloat.is_infinity f).

End Float64.

(** ** encoding/json, writing *)

Module Json.

(** [json.Marshal] fails on a value that holds an infinity or a NaN;
    every other value of the program has a JSON text. *)
Fixpoint encodable (v : any) : bool :=
  match v with
  | VFloat64 f => Float64.finite f
  | VSlice l => forallb encodable l
  | VMap m => forallb (fun kv => match kv with (_, x) => encodable x end) m
  | _ => true
  end.

(** A string field tagged [omitempty]: left out when empty. *)
Definition omitempty (key : string) (s : string) : list (string * any) :=
  if String.eqb s "" then [] else [(key, VString s)].

(** A slice field tagged [omitempty]: left out when it has no element. *)
Definition omitemptySlice (key : string) (l : list any) : list (string * any) :=
  match l with
  | [] => []
  | _ :: _ => [(key, VSlice l)]
  end.

End Json.

(** ** The structures of the two files *)

(** KernelcoinRPCClient communicates with kernelcoind. *)
Module KernelcoinRPCClient.
Record t : Type := mk {
  url : string;
  user : string;
  password : string
}.
End KernelcoinRPCClient.

(** JSONRPCRequest represents a JSON-RPC 2.0 request. *)
Module JSONRPCRequest.
Record t : Type := mk {
  JSONRPC : string;
  Method : string;
  Params : list any;
  ID : Z
}.
End JSONRPCRequest.

(** JSONRPCResponse represents JSON-RPC 2.0 response. *)
Module JSONRPCResponse.
Record t : Type := mk {
  JSONRPC : string;
  Result : any;
  Error : any;
  ID : Z
}.
End JSONRPCResponse.

(** BalanceInfo holds confirmed and unconfirmed balance information. *)
Module BalanceInfo.
Record t : Type := mk {
  Confirmed : PrimFloat.float;
  Unconfirmed : PrimFloat.float;
  Total : PrimFloat.float
}.
End BalanceInfo.

(** WalletSession stores information about a wallet session. *)
Module WalletSession.
Record t : Type := mk {
  ID : string;
  Wallet : Wallet;
  CreatedAt : Z;
  LastUsed : Z
}.
End WalletSession.

(** WalletServer manages wallet operations and serves the web
    interface. No method reads or writes [wallets]. *)
Module WalletServer.
Record t : Type := mk {
  rpcClient : KernelcoinRPCClient.t;
  wallets : list (string * WalletSession.t)
}.
End WalletServer.

(** The response structures, each with the JSON object its tags
    describe: the fields in their order, a field tagged [omitempty]
    left out when it is empty. *)

Module BalanceResponse.
Record t : Type := mk {
  Total : PrimFloat.float;
  Confirmed : PrimFloat.float;
  Unconfirmed : PrimFloat.float;
  Immature : PrimFloat.float
}.
Definition toJSON (r : t) : any :=
  VMap [field "total" (VFloat64 (Total r));
        field "confirmed" (VFloat64 (Confirmed r));
        field "unconfirmed" (VFloat64 (Unconfirmed r));
        field "immature" (VFloat64 (Immature r))].
End BalanceResponse.

Module TransactionResponse.
Record t : Type := mk {
  Account : string;
  Address : string;
  Category : string;
  Amount : PrimFloat.float;
  Confirmations : Z;
  Txid : string;
  Time : Z;
  TimeReceived : Z;
  Comment : string
}.
Definition toJSON (r : t) : any :=
  VMap ([field "account" (VString (Account r));
         field "address" (VString (Address r));
         field "category" (VString (Category r));
         field "amount" (VFloat64 (Amount r));
         field "confirmations" (VInt (Confirmations r));
         field "txid" (VString (Txid r));
         field "time" (VInt (Time r));
         field "timereceived" (VInt (TimeReceived r))]
        ++ Json.omitempty "comment" (Comment r)).
End TransactionResponse.

Module SendTransactionRequest.
Record t : Type := mk {
  ToAddress : string;
  Amount : PrimFloat.float
}.
End SendTransactionRequest.

Module SendTransactionResponse.
Record t : Type := mk {
  Success : bool;
  Txid : string;
  Error : string
}.
Definition toJSON (r : t) : any :=
  VMap ([field "success" (VBool (Success r))]
        ++ Json.omitempty "txid" (Txid r)
        ++ Json.omitempty "error" (Error r)).
End SendTransactionResponse.

Module ImportKeyRequest.
Record t : Type := mk { WIF : string }.
End ImportKeyRequest.

Module ImportKeyResponse.
Record t : Type := mk {
  Success : bool;
  Error : string
}.
Definition toJSON (r : t) : any :=
  VMap ([field "success" (VBool (Success r))]
        ++ Json.omitempty "error" (Error r)).
End ImportKeyResponse.

Module MnemonicToWIFRequest.
Record t : Type := mk { Mnemonic : string }.
End MnemonicToWIFRequest.

Module MnemonicToWIFResponse.
Record t : Type := mk {
  Success : bool;
  WIF : string;
  Error : string
}.
Definition toJSON (r : t) : any :=
  VMap ([field "success" (VBool (Success r))]
        ++ Json.omitempty "wif" (WIF r)
        ++ Json.omitempty "error" (Error r)).
End MnemonicToWIFResponse.

Module NewAddressResponse.
Record t : Type := mk {
  Success : bool;
  LegacyAddress : string;
  SegWitAddress : string;
  Error : string
}.
Definition toJSON (r : t) : any :=
  VMap ([field "success" (VBool (Success r))]
        ++ Json.omitempty "legacy_address" (LegacyAddress r)
        ++ Json.omitempty "segwit_address" (SegWitAddress r)
        ++ Json.omitempty "error" (Error r)).
End NewAddressResponse.

Module AddressInfo.
Record t : Type := mk {
  Address : string;
  Type_ : string
}.
Definition toJSON (r : t) : any :=
  VMap [field "address" (VString (Address r));
        field "type" (VString (Type_ r))].
End AddressInfo.

Module AddressesResponse.
Record t : Type := mk {
  Success : bool;
  Addresses : list AddressInfo.t;
  Error : string
}.
Definition toJSON (r : t) : any :=
  VMap ([field "success" (VBool (Success r))]
        ++ Json.omitemptySlice "addresses"
             (map AddressInfo.toJSON (Addresses r))
        ++ Json.omitempty "error" (Error r)).
End AddressesResponse.

Module GetNewAddressRequest.
Record t : Type := mk { AddressType : string }.
End GetNewAddressRequest.

Module GetNewAddressResponse.
Record t : Type := mk {
  Success : bool;
  Address : string;
  Error : string
}.
Definition toJSON (r : t) : any :=
  VMap ([field "success" (VBool (Success r))]
        ++ Json.omitempty "address" (Address r)
        ++ Json.omitempty "error" (Error r)).
End GetNewAddressResponse.

Module GenerateAddressRequest.
Record t : Type := mk { Type_ : string }.
End GenerateAddressRequest.

Module GenerateAddressResponse.
Record t : Type := mk {
  Success : bool;
  Address : string;
  Error : string
}.
Definition toJSON (r : t) : any :=
  VMap ([field "success" (VBool (Success r))]
        ++ Json.omitempty "address" (Address r)
        ++ Json.omitempty "error" (Error r)).
End GenerateAddressResponse.

Module ValidateAddressRequest.
Record t : Type := mk { Address : string }.
End ValidateAddressRequest.

Module ValidateAddressResponse.
Record t : Type := mk {
  Isvalid : bool;
  Error : string
}.
Definition toJSON (r : t) : any :=
  VMap ([field "isvalid" (VBool (Isvalid r))]
        ++ Json.omitempty "error" (Error r)).
End ValidateAddressResponse.

Module NewWalletResponse.
Record t : Type := mk {
  Success : bool;
  Mnemonic : string;
  PrivateKeyWIF : string;
  LegacyAddress : string;
  SegWitAddress : string;
  Error : string
}.
Definition toJSON (r : t) : any :=
  VMap ([field "success" (VBool (Success r))]
        ++ Json.omitempty "mnemonic" (Mnemonic r)
        ++ Json.omitempty "private_key_wif" (PrivateKeyWIF r)
        ++ Json.omitempty "legacy_address" (LegacyAddress r)
        ++ Json.omitempty "segwit_address" (SegWitAddress r)
        ++ Json.omitempty "error" (Error r)).
End NewWalletResponse.

Module TransactionsListResponse.
Record t : Type := mk {
  Success : bool;
  Transactions : list TransactionResponse.t;
  Error : string
}.
Definition toJSON (r : t) : any :=
  VMap ([field "success" (VBool (Success r))]
        ++ Json.omitemptySlice "transactions"
             (map TransactionResponse.toJSON (Transactions r))
        ++ Json.omitempty "error" (Error r)).
End TransactionsListResponse.

(** ** net/http *)

Module Http.

Definition MethodPost : string := "POST".
Definition StatusOK : Z := 200.
Definition StatusBadRequest : Z := 400.
Definition StatusMethodNotAllowed : Z := 405.
Definition StatusInternalServerError : Z := 500.

(** A request as a handler receives it: its method, the address of the
    peer, the bytes of its body and [r.URL.Query().Get]. *)
Module Request.
Record t : Type := mk {
  Method : string;
  RemoteAddr : string;
  Body : list byte;
  Query : string -> string
}.
End Request.

(** A request as the client sends it. *)
Module ClientRequest.
Record t : Type := mk {
  Method : string;
  URL : string;
  Body : list byte;
  BasicAuth : option (string * string);
  Header : list (string * string)
}.
End ClientRequest.

(** A response as the client receives it; reading its body may fail. *)
Module Response.
Record t : Type := mk {
  StatusCode : Z;
  Status : string;
  Body : Result (list byte)
}.
End Response.

(** [Header.Set]: the value of the key is replaced. *)
Definition HeaderSet (key value : string) (h : list (string * string))
  : list (string * string) :=
  (key, value) :: filter (fun kv => negb (String.eqb (fst kv) key)) h.

(** An [http.ResponseWriter]: the header map, the status line with the
    header as it was sent, and the JSON documents written to the body. *)
Module ResponseWriter.
Record t : Type := mk {
  header : list (string * string);
  wrote : option (Z * list (string * string));
  body : list any
}.

Definition new : t := {| header := []; wrote := None; body := [] |}.

(** [w.WriteHeader(code)]: the first call sends the status and the
    header; later calls change nothing. *)
Definition WriteHeader (code : Z) (w : t) : t :=
  match wrote w with
  | Some _ => w
  | None => {| header := header w; wrote := Some (code, header w);
               body := body w |}
  end.

(** [w.Write]: sends the header with status 200 if none was sent. *)
Definition Write (doc : any) (w : t) : t :=
  let w := WriteHeader StatusOK w in
  {| header := header w; wrote := wrote w; body := body w ++ [doc] |}.

End ResponseWriter.

End Http.

(** ** log *)

Module Log.

(** An argument of [log.Printf]. *)
Inductive arg : Type :=
| LString (s : string)
| LInt (n : Z)
| LFloat (f : PrimFloat.float)
| LBool (b : bool)
| LValue (v : any)
| LError (e : error).

(** A call of [log.Printf]: the format and the arguments. *)
Record Entry : Type := mkEntry {
  format : string;
  args : list arg
}.

End Log.
Import Log.

(** ** The runtime *)

(** What the program takes from the standard library and the platform
    without this development looking inside: the JSON text of a
    request, the reading of JSON texts into the structures, the texts
    [fmt] prints for a value and for the errors of the libraries, the
    parsing of a URL and of a number, and the integer a conversion
    gives for a float64 outside the range of [int]. *)
Class Runtime : Type := {
  Marshal : JSONRPCRequest.t -> Result (list byte);
  Unmarshal : list byte -> Result JSONRPCResponse.t;
  DecodeSendTransactionRequest : list byte -> Result SendTransactionRequest.t;
  DecodeImportKeyRequest : list byte -> Result ImportKeyRequest.t;
  DecodeMnemonicToWIFRequest : list byte -> Result MnemonicToWIFRequest.t;
  DecodeStringMap : list byte -> Result (list (string * string));
  DecodeGetNewAddressRequest : list byte -> Result GetNewAddressRequest.t;
  DecodeGenerateAddressRequest : list byte -> Result GenerateAddressRequest.t;
  DecodeValidateAddressRequest : list byte -> Result ValidateAddressRequest.t;
  FormatValue : any -> string;
  ErrorText : error -> string;
  ParseURL : string -> Result unit;
  Atoi : string -> Result Z;
  ConvertOutOfRange : PrimFloat.float -> Z
}.

(** ** The state the server runs in *)

Record State : Type := mkState {
  random : World;
  environ : string -> string;
  node : list Http.ClientRequest.t -> Http.ClientRequest.t
         -> Result Http.Response.t;
  sent : list Http.ClientRequest.t;
  logged : list Log.Entry;
  picks : list nat;
  writer : Http.ResponseWriter.t
}.

(** [random]: the bytes crypto/rand has still to deliver. [environ]:
    [os.Getenv]. [node]: what [client.Do] returns for a request, given
    the requests sent before it. [sent]: the requests sent so far.
    [logged]: the calls of [log.Printf] so far. [picks]: the choices
    the runtime makes when it ranges over a map. [writer]: the response
    of the request being handled. *)

Definition IO (A : Type) : Type := State -> A * State.

Module IO.

Definition ret {A} (a : A) : IO A := fun st => (a, st).

Definition bind {A B} (m : IO A) (k : A -> IO B) : IO B :=
  fun st => let (a, st') := m st in k a st'.

End IO.

Declare Scope io_scope.
Delimit Scope io_scope with io.
Notation "x <- m ;; k" := (IO.bind m (fun x => k))
  (at level 61, m at next level, right associativity) : io_scope.
Notation "m ;; k" := (IO.bind m (fun _ => k))
  (at level 61, right associativity) : io_scope.

(** [log.Printf]. *)
Definition Printf (format : string) (args : list Log.arg) : IO unit :=
  fun st =>
    (tt, {| random := random st; environ := environ st; node := node st;
            sent := sent st;
            logged := logged st ++ [{| Log.format := format; Log.args := args |}];
            picks := picks st; writer := writer st |}).

(** [os.Getenv]. *)
Definition Getenv (key : string) : IO string :=
  fun st => (environ st key, st).

(** [client.Do(req)]. *)
Definition Do (req : Http.ClientRequest.t) : IO (Result Http.Response.t) :=
  fun st =>
    (node st (sent st) req,
     {| random := random st; environ := environ st; node := node st;
        sent := sent st ++ [req]; logged := logged st;
        picks := picks st; writer := writer st |}).

(** A call of the wallet file, which reads the random source. *)
Definition withRandom {A} (m : M A) : IO (Result A) :=
  fun st =>
    let (r, w') := m (random st) in
    (r, {| random := w'; environ := environ st; node := node st;
           sent := sent st; logged := logged st;
           picks := picks st; writer := writer st |}).

Definition updateWriter (f : Http.ResponseWriter.t -> Http.ResponseWriter.t)
  : IO unit :=
  fun st =>
    (tt, {| random := random st; environ := environ st; node := node st;
            sent := sent st; logged := logged st;
            picks := picks st; writer := f (writer st) |}).

(** [w.Header().Set(key, value)]. *)
Definition HeaderSet (key value : string) : IO unit :=
  updateWriter (fun w =>
    {| Http.ResponseWriter.header :=
         Http.HeaderSet key value (Http.ResponseWriter.header w);
       Http.ResponseWriter.wrote := Http.ResponseWriter.wrote w;
       Http.ResponseWriter.body := Http.ResponseWriter.body w |}).

(** [w.WriteHeader(code)]. *)
Definition WriteHeader (code : Z) : IO unit :=
  updateWriter (Http.ResponseWriter.WriteHeader code).

(** [json.NewEncoder(w).Encode(v)]: the document is written when the
    value has a JSON text; otherwise nothing is written, and the
    handlers drop the error. *)
Definition Encode (v : any) : IO unit :=
  if Json.encodable v
  then updateWriter (Http.ResponseWriter.Write v)
  else IO.ret tt.

(** The order in which a [range] visits the keys of a map: each key
    once, the next one chosen by the runtime among those left. *)
Fixpoint visit (fuel : nat) (picks : list nat) (keys : list string)
  : list string * list nat :=
  match fuel, keys with
  | S fuel', k0 :: _ =>
      let (i, picks') :=
        match picks with
        | [] => (0%nat, [])
        | p :: ps => ((p mod length keys)%nat, ps)
        end in
      let (rest, picks'') :=
        visit fuel' picks' (firstn i keys ++ skipn (S i) keys) in
      (nth i keys k0 :: rest, picks'')
  | _, _ => ([], picks)
  end.

(** [for key := range m]: the keys in the order of the visit. *)
Definition rangeKeys (m : list (string * any)) : IO (list string) :=
  fun st =>
    let (ks, picks') := visit (length (keys m)) (picks st) (keys m) in
    (ks, {| random := random st; environ := environ st; node := node st;
            sent := sent st; logged := logged st;
            picks := picks'; writer := writer st |}).

Local Open Scope io_scope.

(** ** The client of the node *)

Section RpcClientFile.
Context {R : Runtime}.

(** The text of [%v] and of [Error()] for an error. *)
Fixpoint errorString (e : error) : string :=
  match e with
  | Errorf msg => msg
  | Errorfw msg err => (msg ++ ": " ++ errorString err)%string
  | _ => ErrorText e
  end.

(** [http.NewRequest(method, url, body)]: fails when the URL does not
    parse. *)
Definition NewRequest (method url : string) (body : list byte)
  : Result Http.ClientRequest.t :=
  match ParseURL url with
  | Error err => Error err
  | Ok _ =>
      Ok {| Http.ClientRequest.Method := method;
            Http.ClientRequest.URL := url;
            Http.ClientRequest.Body := body;
            Http.ClientRequest.BasicAuth := None;
            Http.ClientRequest.Header := [] |}
  end.

(** [req.SetBasicAuth(username, password)]. *)
Definition SetBasicAuth (username password : string)
  (req : Http.ClientRequest.t) : Http.ClientRequest.t :=
  {| Http.ClientRequest.Method := Http.ClientRequest.Method req;
     Http.ClientRequest.URL := Http.ClientRequest.URL req;
     Http.ClientRequest.Body := Http.ClientRequest.Body req;
     Http.ClientRequest.BasicAuth := Some (username, password);
     Http.ClientRequest.Header := Http.ClientRequest.Header req |}.

(** [req.Header.Set(key, value)]. *)
Definition RequestHeaderSet (key value : string)
  (req : Http.ClientRequest.t) : Http.ClientRequest.t :=
  {| Http.ClientRequest.Method := Http.ClientRequest.Method req;
     Http.ClientRequest.URL := Http.ClientRequest.URL req;
     Http.ClientRequest.Body := Http.ClientRequest.Body req;
     Http.ClientRequest.BasicAuth := Http.ClientRequest.BasicAuth req;
     Http.ClientRequest.Header :=
       Http.HeaderSet key value (Http.ClientRequest.Header req) |}.

(** NewKernelcoinRPCClient creates an authenticated RPC client. *)
Definition NewKernelcoinRPCClient (url user password : string)
  : KernelcoinRPCClient.t :=
  {| KernelcoinRPCClient.url := url;
     KernelcoinRPCClient.user := user;
     KernelcoinRPCClient.password := password |}.

Definition quietMethod (method : string) : bool :=
  String.eqb method "listtransactions" || String.eqb method "listunspent".

(** call makes an authenticated RPC call. *)
Definition call (c : KernelcoinRPCClient.t) (method : string)
  (params : list any) : IO (Result any) :=
  Printf "[RPC] Calling method: %s with params: %v"
    [LString method; LValue (VSlice params)] ;;
  Printf "[RPC] URL: %s, User: %s"
    [LString (KernelcoinRPCClient.url c); LString (KernelcoinRPCClient.user c)] ;;
  let request :=
    {| JSONRPCRequest.JSONRPC := "2.0";
       JSONRPCRequest.Method := method;
       JSONRPCRequest.Params := params;
       JSONRPCRequest.ID := 1 |} in
  match Marshal request with
  | Error err =>
      Printf "[RPC] ERROR: Failed to marshal request: %v" [LError err] ;;
      IO.ret (Error (Errorfw "failed to marshal request" err))
  | Ok requestBody =>
  Printf "[RPC] Request body: %s" [LString (toString requestBody)] ;;
  match NewRequest "POST" (KernelcoinRPCClient.url c) requestBody with
  | Error err =>
      Printf "[RPC] ERROR: Failed to create HTTP request: %v" [LError err] ;;
      IO.ret (Error (Errorfw "failed to create request" err))
  | Ok req =>
  let req := SetBasicAuth (KernelcoinRPCClient.user c)
               (KernelcoinRPCClient.password c) req in
  let req := RequestHeaderSet "Content-Type" "application/json" req in
  done <- Do req ;;
  match done with
  | Error err =>
      Printf "[RPC] ERROR: RPC POST failed: %v" [LError err] ;;
      IO.ret (Error (Errorfw "RPC POST failed" err))
  | Ok resp =>
  Printf "[RPC] Response status: %d %s"
    [LInt (Http.Response.StatusCode resp); LString (Http.Response.Status resp)] ;;
  match Http.Response.Body resp with
  | Error err =>
      Printf "[RPC] ERROR: Failed to read response body: %v" [LError err] ;;
      IO.ret (Error (Errorfw "RPC read error" err))
  | Ok body =>
  (if quietMethod method
   then Printf "[RPC] Response body: <truncated for %s, size: %d bytes>"
          [LString method; LInt (Z.of_nat (length body))]
   else Printf "[RPC] Response body: %s" [LString (toString body)]) ;;
  match Unmarshal body with
  | Error err =>
      Printf "[RPC] ERROR: Failed to unmarshal response: %v" [LError err] ;;
      IO.ret (Error (Errorfw "unmarshal error" err))
  | Ok response =>
  match JSONRPCResponse.Error response with
  | VNil =>
      (if quietMethod method
       then
         match asSlice (JSONRPCResponse.Result response) with
         | Some array =>
             Printf "[RPC] SUCCESS: Retrieved %d items"
               [LInt (Z.of_nat (length array))]
         | None =>
             Printf "[RPC] SUCCESS: Result type: %T"
               [LValue (JSONRPCResponse.Result response)]
         end
       else Printf "[RPC] SUCCESS: Result type: %T, value: %v"
              [LValue (JSONRPCResponse.Result response);
               LValue (JSONRPCResponse.Result response)]) ;;
      IO.ret (Ok (JSONRPCResponse.Result response))
  | rpcError =>
      Printf "[RPC] ERROR: RPC returned error: %v" [LValue rpcError] ;;
      IO.ret (Error (Errorf ("RPC error: " ++ FormatValue rpcError)))
  end end end end end end.

(** [v, _ := m[key].(float64)]: zero when the key is missing or holds
    another type. *)
Definition float64Or0 (v : any) : PrimFloat.float :=
  match asFloat64 v with
  | Some f => f
  | None => PrimFloat.zero
  end.

Definition GetBalanceInfo (c : KernelcoinRPCClient.t) (address : string)
  : IO (Result BalanceInfo.t) :=
  Printf "[RPC] GetBalanceInfo: Fetching balance for wallet (address: %s)"
    [LString address] ;;
  res <- call c "getbalances" [] ;;
  match res with
  | Error err =>
      Printf "[RPC] GetBalanceInfo ERROR: %v" [LError err] ;;
      IO.ret (Error err)
  | Ok result =>
  match asMap result with
  | None =>
      Printf "[RPC] GetBalanceInfo ERROR: unexpected result type: %T"
        [LValue result] ;;
      IO.ret (Error (Errorf ("unexpected getbalances response type: "
                             ++ typeName result)))
  | Some balances =>
  match asMap (index balances "mine") with
  | None =>
      Printf "[RPC] GetBalanceInfo ERROR: missing 'mine' field" [] ;;
      IO.ret (Error (Errorf "getbalances missing 'mine' field"))
  | Some mine =>
  let trusted := float64Or0 (index mine "trusted") in
  let untrustedPending := float64Or0 (index mine "untrusted_pending") in
  let immature := float64Or0 (index mine "immature") in
  let confirmedBalance := trusted in
  let unconfirmedBalance := untrustedPending in
  let totalBalance :=
    PrimFloat.add (PrimFloat.add confirmedBalance unconfirmedBalance)
      immature in
  Printf "[RPC] GetBalanceInfo: Total %.8f (Confirmed: %.8f, Unconfirmed: %.8f, Immature: %.8f)"
    [LFloat totalBalance; LFloat confirmedBalance; LFloat unconfirmedBalance;
     LFloat immature] ;;
  IO.ret (Ok {| BalanceInfo.Confirmed := confirmedBalance;
                BalanceInfo.Unconfirmed := unconfirmedBalance;
                BalanceInfo.Total := totalBalance |})
  end end end.

Definition GetBalance (c : KernelcoinRPCClient.t) (address : string)
  : IO (Result PrimFloat.float) :=
  res <- GetBalanceInfo c address ;;
  match res with
  | Error err => IO.ret (Error err)
  | Ok balanceInfo => IO.ret (Ok (BalanceInfo.Total balanceInfo))
  end.

Definition ImportPrivateKey (c : KernelcoinRPCClient.t) (wif : string)
  : IO (Result any) :=
  Printf "[RPC] ImportPrivateKey: importing private key" [] ;;
  res <- call c "importprivkey" [VString wif] ;;
  match res with
  | Error err =>
      Printf "[RPC] ImportPrivateKey ERROR: %v" [LError err] ;;
      IO.ret (Error err)
  | Ok result =>
      Printf "[RPC] ImportPrivateKey SUCCESS" [] ;;
      IO.ret (Ok result)
  end.

Definition SendTransaction (c : KernelcoinRPCClient.t)
  (fromWIF toAddress : string) (amount : PrimFloat.float)
  : IO (Result string) :=
  Printf "[RPC] SendTransaction: importing private key and sending %.8f to %s"
    [LFloat amount; LString toAddress] ;;
  call c "importprivkey" [VString fromWIF] ;;
  res <- call c "sendtoaddress" [VString toAddress; VFloat64 amount] ;;
  match res with
  | Error err =>
      Printf "[RPC] SendTransaction ERROR: %v" [LError err] ;;
      IO.ret (Error err)
  | Ok txID =>
      match asString txID with
      | Some s =>
          Printf "[RPC] SendTransaction SUCCESS: txid=%s" [LString s] ;;
          IO.ret (Ok s)
      | None =>
          Printf "[RPC] SendTransaction ERROR: unexpected txid type: %T, value: %v"
            [LValue txID; LValue txID] ;;
          IO.ret (Error (Errorf ("unexpected txid type: " ++ typeName txID)))
      end
  end.

Definition SendToAddress (c : KernelcoinRPCClient.t) (toAddress : string)
  (amount : PrimFloat.float) : IO (Result string) :=
  Printf "[RPC] SendToAddress: sending %.8f to %s using loaded wallet"
    [LFloat amount; LString toAddress] ;;
  res <- call c "sendtoaddress" [VString toAddress; VFloat64 amount] ;;
  match res with
  | Error err =>
      Printf "[RPC] SendToAddress ERROR: %v" [LError err] ;;
      IO.ret (Error err)
  | Ok txID =>
      match asString txID with
      | Some s =>
          Printf "[RPC] SendToAddress SUCCESS: txid=%s" [LString s] ;;
          IO.ret (Ok s)
      | None =>
          Printf "[RPC] SendToAddress ERROR: unexpected txid type: %T, value: %v"
            [LValue txID; LValue txID] ;;
          IO.ret (Error (Errorf ("unexpected txid type: " ++ typeName txID)))
      end
  end.

Definition ValidateAddress (c : KernelcoinRPCClient.t) (addr : string)
  : IO (Result bool) :=
  res <- call c "validateaddress" [VString addr] ;;
  match res with
  | Error err => IO.ret (Error err)
  | Ok result =>
      match asMap result with
      | None =>
          IO.ret (Error (Errorf ("unexpected validateaddress type: "
                                 ++ typeName result)))
      | Some m =>
          match asBool (index m "isvalid") with
          | Some v => IO.ret (Ok v)
          | None => IO.ret (Error (Errorf "validateaddress missing isvalid"))
          end
      end
  end.

Definition ListTransactions (c : KernelcoinRPCClient.t) (address : string)
  (count : Z) : IO (Result (list any)) :=
  Printf "[RPC] ListTransactions: Fetching up to %d transactions..."
    [LInt count] ;;
  res <- call c "listtransactions"
           [VString "*"; VInt count; VInt 0; VBool true] ;;
  match res with
  | Error err =>
      Printf "[RPC] ListTransactions ERROR: %v" [LError err] ;;
      IO.ret (Error err)
  | Ok result =>
      match asSlice result with
      | None =>
          Printf "[RPC] ListTransactions ERROR: unexpected result type: %T"
            [LValue result] ;;
          IO.ret (Error (Errorf ("unexpected listtransactions response type: "
                                 ++ typeName result)))
      | Some txs =>
          Printf "[RPC] ListTransactions: Retrieved %d transactions"
            [LInt (Z.of_nat (length txs))] ;;
          IO.ret (Ok txs)
      end
  end.

Definition GetRawTransaction (c : KernelcoinRPCClient.t) (txid : string)
  (verbose : bool) : IO (Result any) :=
  Printf "[RPC] GetRawTransaction called for txid: %s" [LString txid] ;;
  let verboseInt := if verbose then 1 else 0 in
  res <- call c "getrawtransaction" [VString txid; VInt verboseInt] ;;
  match res with
  | Error err =>
      Printf "[RPC] GetRawTransaction ERROR: %v" [LError err] ;;
      IO.ret (Error err)
  | Ok result =>
      Printf "[RPC] GetRawTransaction SUCCESS" [] ;;
      IO.ret (Ok result)
  end.

Definition GetAddressesByLabel (c : KernelcoinRPCClient.t) (label : string)
  : IO (Result (list string)) :=
  Printf "[RPC] GetAddressesByLabel: Fetching addresses with label '%s'"
    [LString label] ;;
  res <- call c "getaddressesbylabel" [VString label] ;;
  match res with
  | Error err =>
      Printf "[RPC] GetAddressesByLabel ERROR: %v" [LError err] ;;
      IO.ret (Error err)
  | Ok result =>
      Printf "[RPC] GetAddressesByLabel result type: %T, value: %v"
        [LValue result; LValue result] ;;
      match asMap result with
      | None =>
          Printf "[RPC] GetAddressesByLabel ERROR: unexpected result type: %T"
            [LValue result] ;;
          IO.ret (Error (Errorf
                           ("unexpected getaddressesbylabel response type: "
                            ++ typeName result)))
      | Some addressMap =>
          visited <- rangeKeys addressMap ;;
          let addresses :=
            fold_left (fun addresses addr => addresses ++ [addr]) visited [] in
          Printf "[RPC] GetAddressesByLabel SUCCESS: Retrieved %d addresses"
            [LInt (Z.of_nat (length addresses))] ;;
          IO.ret (Ok addresses)
      end
  end.

Definition GetNewAddress (c : KernelcoinRPCClient.t)
  (label addressType : string) : IO (Result string) :=
  Printf "[RPC] GetNewAddress: Generating new address with type '%s'"
    [LString addressType] ;;
  res <- call c "getnewaddress" [VString label; VString addressType] ;;
  match res with
  | Error err =>
      Printf "[RPC] GetNewAddress ERROR: %v" [LError err] ;;
      IO.ret (Error err)
  | Ok result =>
      match asString result with
      | None =>
          Printf "[RPC] GetNewAddress ERROR: unexpected result type: %T"
            [LValue result] ;;
          IO.ret (Error (Errorf ("unexpected getnewaddress response type: "
                                 ++ typeName result)))
      | Some addr =>
          Printf "[RPC] GetNewAddress SUCCESS: %s" [LString addr] ;;
          IO.ret (Ok addr)
      end
  end.

Definition GetNetworkInfo (c : KernelcoinRPCClient.t) : IO (Result any) :=
  Printf "[RPC] GetNetworkInfo: Fetching network information" [] ;;
  res <- call c "getnetworkinfo" [] ;;
  match res with
  | Error err =>
      Printf "[RPC] GetNetworkInfo ERROR: %v" [LError err] ;;
      IO.ret (Error err)
  | Ok result =>
      Printf "[RPC] GetNetworkInfo SUCCESS" [] ;;
      IO.ret (Ok result)
  end.

Definition GetBlockchainInfo (c : KernelcoinRPCClient.t) : IO (Result any) :=
  Printf "[RPC] GetBlockchainInfo: Fetching blockchain information" [] ;;
  res <- call c "getblockchaininfo" [] ;;
  match res with
  | Error err =>
      Printf "[RPC] GetBlockchainInfo ERROR: %v" [LError err] ;;
      IO.ret (Error err)
  | Ok result =>
      Printf "[RPC] GetBlockchainInfo SUCCESS" [] ;;
      IO.ret (Ok result)
  end.

End RpcClientFile.

(** ** The handlers *)

Section MainFile.
Context {P : Primitives} {R : Runtime}.

(** NewWalletServer creates a new wallet server instance. *)
Definition NewWalletServer (rpcURL rpcUser rpcPass : string)
  : WalletServer.t :=
  let rpcClient := NewKernelcoinRPCClient rpcURL rpcUser rpcPass in
  {| WalletServer.rpcClient := rpcClient; WalletServer.wallets := [] |}.

(** [map[string]string{"error": message}]. *)
Definition errorMap (message : string) : any :=
  ofStrings [("error"%string, message)].

(** The reply every handler that wants a POST gives to another
    method. *)
Definition postOnly : IO unit :=
  HeaderSet "Content-Type" "application/json" ;;
  WriteHeader Http.StatusMethodNotAllowed ;;
  Encode (errorMap "POST only").

(** HandleBalance returns the current balance. *)
Definition HandleBalance (ws : WalletServer.t) (r : Http.Request.t)
  : IO unit :=
  Printf "[API] Balance request from %s" [LString (Http.Request.RemoteAddr r)] ;;
  res <- GetBalanceInfo (WalletServer.rpcClient ws) "" ;;
  match res with
  | Error err =>
      Printf "[API] Balance ERROR: %v" [LError err] ;;
      HeaderSet "Content-Type" "application/json" ;;
      WriteHeader Http.StatusInternalServerError ;;
      Encode (errorMap "Failed to get balance")
  | Ok balanceInfo =>
      let response :=
        {| BalanceResponse.Total := BalanceInfo.Total balanceInfo;
           BalanceResponse.Confirmed := BalanceInfo.Confirmed balanceInfo;
           BalanceResponse.Unconfirmed := BalanceInfo.Unconfirmed balanceInfo;
           BalanceResponse.Immature :=
             PrimFloat.sub
               (PrimFloat.sub (BalanceInfo.Total balanceInfo)
                  (BalanceInfo.Confirmed balanceInfo))
               (BalanceInfo.Unconfirmed balanceInfo) |} in
      HeaderSet "Content-Type" "application/json" ;;
      Encode (BalanceResponse.toJSON response) ;;
      Printf "[API] Balance response: %+v"
        [LValue (BalanceResponse.toJSON response)]
  end.

(** HandleSendTransaction handles sending coins. *)
Definition HandleSendTransaction (ws : WalletServer.t) (r : Http.Request.t)
  : IO unit :=
  Printf "[API] SendTransaction request from %s"
    [LString (Http.Request.RemoteAddr r)] ;;
  if negb (String.eqb (Http.Request.Method r) Http.MethodPost)
  then postOnly
  else
  match DecodeSendTransactionRequest (Http.Request.Body r) with
  | Error err =>
      Printf "[API] SendTransaction ERROR: Invalid request - %v" [LError err] ;;
      HeaderSet "Content-Type" "application/json" ;;
      WriteHeader Http.StatusBadRequest ;;
      Encode (SendTransactionResponse.toJSON
                {| SendTransactionResponse.Success := false;
                   SendTransactionResponse.Txid := "";
                   SendTransactionResponse.Error := "Invalid request format" |})
  | Ok req =>
  Printf "[API] SendTransaction: %f KCN to %s"
    [LFloat (SendTransactionRequest.Amount req);
     LString (SendTransactionRequest.ToAddress req)] ;;
  checked <- ValidateAddress (WalletServer.rpcClient ws)
               (SendTransactionRequest.ToAddress req) ;;
  match checked with
  | Ok true =>
      res <- SendToAddress (WalletServer.rpcClient ws)
               (SendTransactionRequest.ToAddress req)
               (SendTransactionRequest.Amount req) ;;
      match res with
      | Error err =>
          Printf "[API] SendTransaction ERROR: %v" [LError err] ;;
          HeaderSet "Content-Type" "application/json" ;;
          WriteHeader Http.StatusBadRequest ;;
          Encode (SendTransactionResponse.toJSON
                    {| SendTransactionResponse.Success := false;
                       SendTransactionResponse.Txid := "";
                       SendTransactionResponse.Error :=
                         "Failed to send transaction: " ++ errorString err |})
      | Ok txid =>
          Printf "[API] SendTransaction SUCCESS: txid=%s" [LString txid] ;;
          HeaderSet "Content-Type" "application/json" ;;
          Encode (SendTransactionResponse.toJSON
                    {| SendTransactionResponse.Success := true;
                       SendTransactionResponse.Txid := txid;
                       SendTransactionResponse.Error := "" |})
      end
  | invalid =>
      Printf "[API] SendTransaction ERROR: Invalid address - %v"
        [match invalid with
         | Error err => LError err
         | Ok _ => LValue VNil
         end] ;;
      HeaderSet "Content-Type" "application/json" ;;
      WriteHeader Http.StatusBadRequest ;;
      Encode (SendTransactionResponse.toJSON
                {| SendTransactionResponse.Success := false;
                   SendTransactionResponse.Txid := "";
                   SendTransactionResponse.Error :=
                     "Invalid recipient address" |})
  end end.

(** HandleImportKey imports a private key. *)
Definition HandleImportKey (ws : WalletServer.t) (r : Http.Request.t)
  : IO unit :=
  Printf "[API] ImportKey request from %s"
    [LString (Http.Request.RemoteAddr r)] ;;
  if negb (String.eqb (Http.Request.Method r) Http.MethodPost)
  then postOnly
  else
  match DecodeImportKeyRequest (Http.Request.Body r) with
  | Error err =>
      Printf "[API] ImportKey ERROR: Invalid request - %v" [LError err] ;;
      HeaderSet "Content-Type" "application/json" ;;
      WriteHeader Http.StatusBadRequest ;;
      Encode (ImportKeyResponse.toJSON
                {| ImportKeyResponse.Success := false;
                   ImportKeyResponse.Error := "Invalid request format" |})
  | Ok req =>
  res <- ImportPrivateKey (WalletServer.rpcClient ws)
           (ImportKeyRequest.WIF req) ;;
  match res with
  | Error err =>
      Printf "[API] ImportKey ERROR: %v" [LError err] ;;
      HeaderSet "Content-Type" "application/json" ;;
      WriteHeader Http.StatusBadRequest ;;
      Encode (ImportKeyResponse.toJSON
                {| ImportKeyResponse.Success := false;
                   ImportKeyResponse.Error :=
                     "Failed to import key: " ++ errorString err |})
  | Ok _ =>
      Printf "[API] ImportKey SUCCESS" [] ;;
      HeaderSet "Content-Type" "application/json" ;;
      Encode (ImportKeyResponse.toJSON
                {| ImportKeyResponse.Success := true;
                   ImportKeyResponse.Error := "" |})
  end end.

(** HandleNewWallet generates a new wallet. *)
Definition HandleNewWallet (ws : WalletServer.t) (r : Http.Request.t)
  : IO unit :=
  Printf "[API] NewWallet request from %s"
    [LString (Http.Request.RemoteAddr r)] ;;
  if negb (String.eqb (Http.Request.Method r) Http.MethodPost)
  then postOnly
  else
  res <- withRandom GenerateNewWallet ;;
  match res with
  | Error err =>
      Printf "[API] NewWallet ERROR: %v" [LError err] ;;
      HeaderSet "Content-Type" "application/json" ;;
      WriteHeader Http.StatusInternalServerError ;;
      Encode (NewWalletResponse.toJSON
                {| NewWalletResponse.Success := false;
                   NewWalletResponse.Mnemonic := "";
                   NewWalletResponse.PrivateKeyWIF := "";
                   NewWalletResponse.LegacyAddress := "";
                   NewWalletResponse.SegWitAddress := "";
                   NewWalletResponse.Error :=
                     "Failed to generate wallet: " ++ errorString err |})
  | Ok wallet =>
      Printf "[API] NewWallet SUCCESS: %s" [LString (LegacyAddress wallet)] ;;
      HeaderSet "Content-Type" "application/json" ;;
      Encode (NewWalletResponse.toJSON
                {| NewWalletResponse.Success := true;
                   NewWalletResponse.Mnemonic := Mnemonic wallet;
                   NewWalletResponse.PrivateKeyWIF := PrivateKeyWIF wallet;
                   NewWalletResponse.LegacyAddress := LegacyAddress wallet;
                   NewWalletResponse.SegWitAddress := SegWitAddress wallet;
                   NewWalletResponse.Error := "" |})
  end.

(** [value, ok := m[key]] on a [map[string]string]. *)
Fixpoint lookupString (m : list (string * string)) (key : string)
  : option string :=
  match m with
  | [] => None
  | (k, v) :: m' => if String.eqb k key then Some v else lookupString m' key
  end.

(** HandleNewAddress generates a new address from an existing wallet. *)
Definition HandleNewAddress (ws : WalletServer.t) (r : Http.Request.t)
  : IO unit :=
  Printf "[API] NewAddress request from %s"
    [LString (Http.Request.RemoteAddr r)] ;;
  if negb (String.eqb (Http.Request.Method r) Http.MethodPost)
  then postOnly
  else
  match DecodeStringMap (Http.Request.Body r) with
  | Error err =>
      Printf "[API] NewAddress ERROR: Invalid request - %v" [LError err] ;;
      HeaderSet "Content-Type" "application/json" ;;
      WriteHeader Http.StatusBadRequest ;;
      Encode (NewAddressResponse.toJSON
                {| NewAddressResponse.Success := false;
                   NewAddressResponse.LegacyAddress := "";
                   NewAddressResponse.SegWitAddress := "";
                   NewAddressResponse.Error := "Invalid request format" |})
  | Ok req =>
  let (mnemonic, ok) :=
    match lookupString req "mnemonic" with
    | Some v => (v, true)
    | None => (EmptyString, false)
    end in
  if negb ok || String.eqb mnemonic ""
  then
    HeaderSet "Content-Type" "application/json" ;;
    WriteHeader Http.StatusBadRequest ;;
    Encode (NewAddressResponse.toJSON
              {| NewAddressResponse.Success := false;
                 NewAddressResponse.LegacyAddress := "";
                 NewAddressResponse.SegWitAddress := "";
                 NewAddressResponse.Error := "Mnemonic is required" |})
  else
  res <- withRandom (GenerateWalletFromMnemonic mnemonic) ;;
  match res with
  | Error err =>
      Printf "[API] NewAddress ERROR: %v" [LError err] ;;
      HeaderSet "Content-Type" "application/json" ;;
      WriteHeader Http.StatusBadRequest ;;
      Encode (NewAddressResponse.toJSON
                {| NewAddressResponse.Success := false;
                   NewAddressResponse.LegacyAddress := "";
                   NewAddressResponse.SegWitAddress := "";
                   NewAddressResponse.Error :=
                     "Failed to generate address: " ++ errorString err |})
  | Ok wallet =>
      Printf "[API] NewAddress SUCCESS: %s" [LString (LegacyAddress wallet)] ;;
      HeaderSet "Content-Type" "application/json" ;;
      Encode (NewAddressResponse.toJSON
                {| NewAddressResponse.Success := true;
                   NewAddressResponse.LegacyAddress := LegacyAddress wallet;
                   NewAddressResponse.SegWitAddress := SegWitAddress wallet;
                   NewAddressResponse.Error := "" |})
  end end.

(** Helper functions to safely extract values from interface{} maps. *)
Definition getString (m : list (string * any)) (key : string) : string :=
  match asString (index m key) with
  | Some v => v
  | None => EmptyString
  end.

Definition getFloat64 (m : list (string * any)) (key : string)
  : PrimFloat.float :=
  match asFloat64 (index m key) with
  | Some v => v
  | None => PrimFloat.zero
  end.

(** [int(v)] and [int64(v)]: the integer part when it is in the range
    of a 64-bit integer. *)
Definition intOfFloat (v : PrimFloat.float) : Z :=
  match Float64.truncate v with
  | Some z =>
      if (- 2 ^ 63 <=? z) && (z <? 2 ^ 63) then z else ConvertOutOfRange v
  | None => ConvertOutOfRange v
  end.

Definition getInt (m : list (string * any)) (key : string) : Z :=
  match asFloat64 (index m key) with
  | Some v => intOfFloat v
  | None => 0
  end.

Definition getInt64 (m : list (string * any)) (key : string) : Z :=
  match asFloat64 (index m key) with
  | Some v => intOfFloat v
  | None => 0
  end.

(** HandleListTransactions lists transactions. *)
Definition HandleListTransactions (ws : WalletServer.t) (r : Http.Request.t)
  : IO unit :=
  Printf "[API] ListTransactions request from %s"
    [LString (Http.Request.RemoteAddr r)] ;;
  let countStr := Http.Request.Query r "count" in
  let count := 50 in
  let count :=
    if negb (String.eqb countStr "")
    then match Atoi countStr with
         | Ok c => c
         | Error _ => count
         end
    else count in
  res <- ListTransactions (WalletServer.rpcClient ws) "" count ;;
  match res with
  | Error err =>
      Printf "[API] ListTransactions ERROR: %v" [LError err] ;;
      HeaderSet "Content-Type" "application/json" ;;
      WriteHeader Http.StatusInternalServerError ;;
      Encode (TransactionsListResponse.toJSON
                {| TransactionsListResponse.Success := false;
                   TransactionsListResponse.Transactions := [];
                   TransactionsListResponse.Error :=
                     "Failed to list transactions" |})
  | Ok txs =>
      let transactions :=
        fold_left
          (fun transactions tx =>
             match asMap tx with
             | Some txMap =>
                 let txResp :=
                   {| TransactionResponse.Account := getString txMap "account";
                      TransactionResponse.Address := getString txMap "address";
                      TransactionResponse.Category := getString txMap "category";
                      TransactionResponse.Amount := getFloat64 txMap "amount";
                      TransactionResponse.Confirmations :=
                        getInt txMap "confirmations";
                      TransactionResponse.Txid := getString txMap "txid";
                      TransactionResponse.Time := getInt64 txMap "time";
                      TransactionResponse.TimeReceived :=
                        getInt64 txMap "timereceived";
                      TransactionResponse.Comment := getString txMap "comment" |} in
                 transactions ++ [txResp]
             | None => transactions
             end)
          txs [] in
      Printf "[API] ListTransactions SUCCESS: Retrieved %d transactions"
        [LInt (Z.of_nat (length transactions))] ;;
      HeaderSet "Content-Type" "application/json" ;;
      Encode (TransactionsListResponse.toJSON
                {| TransactionsListResponse.Success := true;
                   TransactionsListResponse.Transactions := transactions;
                   TransactionsListResponse.Error := "" |})
  end.

(** HandleGetAddresses lists all addresses with label "". *)
Definition HandleGetAddresses (ws : WalletServer.t) (r : Http.Request.t)
  : IO unit :=
  Printf "[API] GetAddresses request from %s"
    [LString (Http.Request.RemoteAddr r)] ;;
  res <- GetAddressesByLabel (WalletServer.rpcClient ws) "" ;;
  match res with
  | Error err =>
      Printf "[API] GetAddresses ERROR: %v" [LError err] ;;
      HeaderSet "Content-Type" "application/json" ;;
      WriteHeader Http.StatusInternalServerError ;;
      Encode (AddressesResponse.toJSON
                {| AddressesResponse.Success := false;
                   AddressesResponse.Addresses := [];
                   AddressesResponse.Error :=
                     "Failed to get addresses: " ++ errorString err |})
  | Ok addrs =>
      Printf "[API] GetAddresses: Retrieved %d addresses from RPC"
        [LInt (Z.of_nat (length addrs))] ;;
      let addresses :=
        fold_left
          (fun addresses addr =>
             addresses ++ [{| AddressInfo.Address := addr;
                              AddressInfo.Type_ := "Address" |}])
          addrs [] in
      Printf "[API] GetAddresses SUCCESS: Returning %d addresses"
        [LInt (Z.of_nat (length addresses))] ;;
      HeaderSet "Content-Type" "application/json" ;;
      Encode (AddressesResponse.toJSON
                {| AddressesResponse.Success := true;
                   AddressesResponse.Addresses := addresses;
                   AddressesResponse.Error := "" |})
  end.

(** HandleGetNewAddress generates a new address. *)
Definition HandleGetNewAddress (ws : WalletServer.t) (r : Http.Request.t)
  : IO unit :=
  Printf "[API] GetNewAddress request from %s"
    [LString (Http.Request.RemoteAddr r)] ;;
  if negb (String.eqb (Http.Request.Method r) Http.MethodPost)
  then postOnly
  else
  match DecodeGetNewAddressRequest (Http.Request.Body r) with
  | Error err =>
      Printf "[API] GetNewAddress ERROR: Invalid request - %v" [LError err] ;;
      HeaderSet "Content-Type" "application/json" ;;
      WriteHeader Http.StatusBadRequest ;;
      Encode (GetNewAddressResponse.toJSON
                {| GetNewAddressResponse.Success := false;
                   GetNewAddressResponse.Address := "";
                   GetNewAddressResponse.Error := "Invalid request format" |})
  | Ok req =>
  res <- GetNewAddress (WalletServer.rpcClient ws) ""
           (GetNewAddressRequest.AddressType req) ;;
  match res with
  | Error err =>
      Printf "[API] GetNewAddress ERROR: %v" [LError err] ;;
      HeaderSet "Content-Type" "application/json" ;;
      WriteHeader Http.StatusBadRequest ;;
      Encode (GetNewAddressResponse.toJSON
                {| GetNewAddressResponse.Success := false;
                   GetNewAddressResponse.Address := "";
                   GetNewAddressResponse.Error :=
                     "Failed to generate address: " ++ errorString err |})
  | Ok addr =>
      Printf "[API] GetNewAddress SUCCESS: %s" [LString addr] ;;
      HeaderSet "Content-Type" "application/json" ;;
      Encode (GetNewAddressResponse.toJSON
                {| GetNewAddressResponse.Success := true;
                   GetNewAddressResponse.Address := addr;
                   GetNewAddressResponse.Error := "" |})
  end end.

(** HandleGenerateAddress generates a new address (frontend-compatible
    endpoint). *)
Definition HandleGenerateAddress (ws : WalletServer.t) (r : Http.Request.t)
  : IO unit :=
  Printf "[API] GenerateAddress request from %s"
    [LString (Http.Request.RemoteAddr r)] ;;
  if negb (String.eqb (Http.Request.Method r) Http.MethodPost)
  then postOnly
  else
  match DecodeGenerateAddressRequest (Http.Request.Body r) with
  | Error err =>
      Printf "[API] GenerateAddress ERROR: Invalid request - %v" [LError err] ;;
      HeaderSet "Content-Type" "application/json" ;;
      WriteHeader Http.StatusBadRequest ;;
      Encode (GenerateAddressResponse.toJSON
                {| GenerateAddressResponse.Success := false;
                   GenerateAddressResponse.Address := "";
                   GenerateAddressResponse.Error := "Invalid request format" |})
  | Ok req =>
  res <- GetNewAddress (WalletServer.rpcClient ws) ""
           (GenerateAddressRequest.Type_ req) ;;
  match res with
  | Error err =>
      Printf "[API] GenerateAddress ERROR: %v" [LError err] ;;
      HeaderSet "Content-Type" "application/json" ;;
      WriteHeader Http.StatusBadRequest ;;
      Encode (GenerateAddressResponse.toJSON
                {| GenerateAddressResponse.Success := false;
                   GenerateAddressResponse.Address := "";
                   GenerateAddressResponse.Error :=
                     "Failed to generate address: " ++ errorString err |})
  | Ok addr =>
      Printf "[API] GenerateAddress SUCCESS: %s" [LString addr] ;;
      HeaderSet "Content-Type" "application/json" ;;
      Encode (GenerateAddressResponse.toJSON
                {| GenerateAddressResponse.Success := true;
                   GenerateAddressResponse.Address := addr;
                   GenerateAddressResponse.Error := "" |})
  end end.

(** HandleValidateAddress validates an address format. *)
Definition HandleValidateAddress (ws : WalletServer.t) (r : Http.Request.t)
  : IO unit :=
  Printf "[API] ValidateAddress request from %s"
    [LString (Http.Request.RemoteAddr r)] ;;
  if negb (String.eqb (Http.Request.Method r) Http.MethodPost)
  then postOnly
  else
  match DecodeValidateAddressRequest (Http.Request.Body r) with
  | Error err =>
      Printf "[API] ValidateAddress ERROR: Invalid request - %v" [LError err] ;;
      HeaderSet "Content-Type" "application/json" ;;
      WriteHeader Http.StatusBadRequest ;;
      Encode (ValidateAddressResponse.toJSON
                {| ValidateAddressResponse.Isvalid := false;
                   ValidateAddressResponse.Error := "Invalid request format" |})
  | Ok req =>
  res <- ValidateAddress (WalletServer.rpcClient ws)
           (ValidateAddressRequest.Address req) ;;
  match res with
  | Error err =>
      Printf "[API] ValidateAddress ERROR: %v" [LError err] ;;
      HeaderSet "Content-Type" "application/json" ;;
      Encode (ValidateAddressResponse.toJSON
                {| ValidateAddressResponse.Isvalid := false;
                   ValidateAddressResponse.Error :=
                     "Validation error: " ++ errorString err |})
  | Ok valid =>
      Printf "[API] ValidateAddress: %s is valid=%v"
        [LString (ValidateAddressRequest.Address req); LBool valid] ;;
      HeaderSet "Content-Type" "application/json" ;;
      Encode (ValidateAddressResponse.toJSON
                {| ValidateAddressResponse.Isvalid := valid;
                   ValidateAddressResponse.Error := "" |})
  end end.

(** [map[string]interface{}{"loaded": loaded}]. *)
Definition loadedMap (loaded : bool) : any :=
  VMap [field "loaded" (VBool loaded)].

(** HandleCheckWallet checks if a wallet is loaded. *)
Definition HandleCheckWallet (ws : WalletServer.t) (r : Http.Request.t)
  : IO unit :=
  Printf "[API] CheckWallet request from %s"
    [LString (Http.Request.RemoteAddr r)] ;;
  res <- GetAddressesByLabel (WalletServer.rpcClient ws) "" ;;
  match res with
  | Error err =>
      Printf "[API] CheckWallet ERROR: %v" [LError err] ;;
      HeaderSet "Content-Type" "application/json" ;;
      Encode (loadedMap false)
  | Ok addrs =>
      let loaded := (0 <? length addrs)%nat in
      Printf "[API] CheckWallet: Wallet loaded=%v (addresses: %d)"
        [LBool loaded; LInt (Z.of_nat (length addrs))] ;;
      HeaderSet "Content-Type" "application/json" ;;
      Encode (loadedMap loaded)
  end.

(** HandleMnemonicToWIF converts a mnemonic phrase to WIF format. *)
Definition HandleMnemonicToWIF (ws : WalletServer.t) (r : Http.Request.t)
  : IO unit :=
  Printf "[API] MnemonicToWIF request from %s"
    [LString (Http.Request.RemoteAddr r)] ;;
  if negb (String.eqb (Http.Request.Method r) Http.MethodPost)
  then postOnly
  else
  match DecodeMnemonicToWIFRequest (Http.Request.Body r) with
  | Error err =>
      Printf "[API] MnemonicToWIF ERROR: Invalid request - %v" [LError err] ;;
      HeaderSet "Content-Type" "application/json" ;;
      WriteHeader Http.StatusBadRequest ;;
      Encode (MnemonicToWIFResponse.toJSON
                {| MnemonicToWIFResponse.Success := false;
                   MnemonicToWIFResponse.WIF := "";
                   MnemonicToWIFResponse.Error := "Invalid request format" |})
  | Ok req =>
  if String.eqb (MnemonicToWIFRequest.Mnemonic req) ""
  then
    HeaderSet "Content-Type" "application/json" ;;
    WriteHeader Http.StatusBadRequest ;;
    Encode (MnemonicToWIFResponse.toJSON
              {| MnemonicToWIFResponse.Success := false;
                 MnemonicToWIFResponse.WIF := "";
                 MnemonicToWIFResponse.Error := "Mnemonic phrase is required" |})
  else
  res <- withRandom (GenerateWalletFromMnemonic
                       (MnemonicToWIFRequest.Mnemonic req)) ;;
  match res with
  | Error err =>
      Printf "[API] MnemonicToWIF ERROR: %v" [LError err] ;;
      HeaderSet "Content-Type" "application/json" ;;
      WriteHeader Http.StatusBadRequest ;;
      Encode (MnemonicToWIFResponse.toJSON
                {| MnemonicToWIFResponse.Success := false;
                   MnemonicToWIFResponse.WIF := "";
                   MnemonicToWIFResponse.Error :=
                     "Failed to convert mnemonic: " ++ errorString err |})
  | Ok wallet =>
      Printf "[API] MnemonicToWIF SUCCESS: Converted mnemonic to WIF" [] ;;
      HeaderSet "Content-Type" "application/json" ;;
      Encode (MnemonicToWIFResponse.toJSON
                {| MnemonicToWIFResponse.Success := true;
                   MnemonicToWIFResponse.WIF := PrivateKeyWIF wallet;
                   MnemonicToWIFResponse.Error := "" |})
  end end.

(** HandleNetworkInfo returns network information. *)
Definition HandleNetworkInfo (ws : WalletServer.t) (r : Http.Request.t)
  : IO unit :=
  Printf "[API] NetworkInfo request from %s"
    [LString (Http.Request.RemoteAddr r)] ;;
  res <- GetNetworkInfo (WalletServer.rpcClient ws) ;;
  match res with
  | Error err =>
      Printf "[API] NetworkInfo ERROR: %v" [LError err] ;;
      HeaderSet "Content-Type" "application/json" ;;
      WriteHeader Http.StatusInternalServerError ;;
      Encode (errorMap "Failed to get network info")
  | Ok info =>
      HeaderSet "Content-Type" "application/json" ;;
      Encode info ;;
      Printf "[API] NetworkInfo response sent" []
  end.

(** HandleBlockchainInfo returns blockchain information. *)
Definition HandleBlockchainInfo (ws : WalletServer.t) (r : Http.Request.t)
  : IO unit :=
  Printf "[API] BlockchainInfo request from %s"
    [LString (Http.Request.RemoteAddr r)] ;;
  res <- GetBlockchainInfo (WalletServer.rpcClient ws) ;;
  match res with
  | Error err =>
      Printf "[API] BlockchainInfo ERROR: %v" [LError err] ;;
      HeaderSet "Content-Type" "application/json" ;;
      WriteHeader Http.StatusInternalServerError ;;
      Encode (errorMap "Failed to get blockchain info")
  | Ok info =>
      HeaderSet "Content-Type" "application/json" ;;
      Encode info ;;
      Printf "[API] BlockchainInfo response sent" []
  end.

(** InitializeWalletFromEnv loads and imports a wallet from the
    WALLET_WIF environment variable. *)
Definition InitializeWalletFromEnv (ws : WalletServer.t)
  : IO (Result unit) :=
  walletWIF <- Getenv "WALLET_WIF" ;;
  if String.eqb walletWIF ""
  then
    Printf "[INIT] No WALLET_WIF environment variable set - wallet will need to be imported manually" [] ;;
    IO.ret (Ok tt)
  else
  Printf "[INIT] Loading wallet from WALLET_WIF environment variable..." [] ;;
  res <- ImportPrivateKey (WalletServer.rpcClient ws) walletWIF ;;
  match res with
  | Error err =>
      Printf "[INIT] WARNING: Failed to import wallet from WALLET_WIF: %v"
        [LError err] ;;
      IO.ret (Error err)
  | Ok _ =>
      Printf "[INIT] Wallet successfully imported from WALLET_WIF" [] ;;
      IO.ret (Ok tt)
  end.

End MainFile.

Local Close Scope io_scope.


(* ================================================================== *)
(** * Part II: properties *)
(* ================================================================== *)

(** ** Bytes and big-endian numbers *)

Module BytesFacts.

Lemma b2z_range (b : byte) : 0 <= b2z b < 256.
Proof.
  unfold b2z. pose proof (Byte.to_N_bounded b). lia.
Qed.

Lemma z2b_b2z (b : byte) : z2b (b2z b) = b.
Proof.
  unfold z2b. rewrite Z.mod_small by apply b2z_range.
  unfold b2z. rewrite N2Z.id, Byte.of_to_N. reflexivity.
Qed.

Lemma b2z_z2b_mod (z : Z) : b2z (z2b z) = z mod 256.
Proof.
  unfold z2b, b2z.
  assert (Hr : 0 <= z mod 256 < 256) by (apply Z.mod_pos_bound; lia).
  destruct (Byte.of_N (Z.to_N (z mod 256))) as [b|] eqn:E.
  - apply Byte.to_of_N in E. rewrite E. lia.
  - apply Byte.of_N_None_iff in E. lia.
Qed.

Lemma b2z_z2b (z : Z) : 0 <= z < 256 -> b2z (z2b z) = z.
Proof.
  intros H. rewrite b2z_z2b_mod. apply Z.mod_small; assumption.
Qed.

Lemma b2z_inj (a b : byte) : b2z a = b2z b -> a = b.
Proof.
  intros H. rewrite <- (z2b_b2z a), <- (z2b_b2z b), H. reflexivity.
Qed.

Lemma map_z2b_b2z (l : list byte) : map z2b (map b2z l) = l.
Proof.
  induction l as [|b l IH]; simpl; [reflexivity|].
  rewrite z2b_b2z, IH. reflexivity.
Qed.

Lemma map_b2z_z2b (l : list Z) :
  Forall (fun d => 0 <= d < 256) l -> map b2z (map z2b l) = l.
Proof.
  induction 1 as [|d l Hd _ IH]; simpl; [reflexivity|].
  rewrite b2z_z2b, IH by assumption. reflexivity.
Qed.

Lemma ofString_toString (l : list byte) : ofString (toString l) = l.
Proof. apply list_byte_of_string_of_list_byte. Qed.

Lemma toString_ofString (s : string) : toString (ofString s) = s.
Proof. apply string_of_list_byte_of_string. Qed.

Lemma toString_inj (a b : list byte) : toString a = toString b -> a = b.
Proof.
  intros H. rewrite <- (ofString_toString a), <- (ofString_toString b), H.
  reflexivity.
Qed.

Lemma eqb_refl (b : byte) : Byte.eqb b b = true.
Proof. apply Byte.byte_dec_lb. reflexivity. Qed.

Lemma eqb_neq (a b : byte) : a <> b -> Byte.eqb a b = false.
Proof.
  intros H. destruct (Byte.eqb a b) eqn:E; [|reflexivity].
  apply Byte.byte_dec_bl in E. contradiction.
Qed.

(** *** Digit sequences *)

Lemma undigits_app (base : Z) (l1 l2 : list Z) :
  undigits base (l1 ++ l2)
  = fold_left (fun acc d => acc * base + d) l2 (undigits base l1).
Proof. unfold undigits. apply fold_left_app. Qed.

Lemma undigits_snoc (base : Z) (l : list Z) (d : Z) :
  undigits base (l ++ [d]) = undigits base l * base + d.
Proof. rewrite undigits_app. reflexivity. Qed.

Lemma digitsLE_nonpos (fuel : nat) (base x : Z) :
  x <= 0 -> digitsLE fuel base x = [].
Proof.
  intros H. destruct fuel; simpl; [reflexivity|].
  destruct (Z.leb_spec x 0); [reflexivity|lia].
Qed.

Lemma div_below (base x : Z) (f : nat) :
  2 <= base -> 0 < x -> x < 2 ^ Z.of_nat (S f) -> x / base < 2 ^ Z.of_nat f.
Proof.
  intros Hb Hx Hlt.
  rewrite Nat2Z.inj_succ, Z.pow_succ_r in Hlt by lia.
  apply Z.div_lt_upper_bound; [lia|].
  assert (0 < 2 ^ Z.of_nat f) by (apply Z.pow_pos_nonneg; lia).
  nia.
Qed.

Lemma digitsLE_fuel (base : Z) (f1 : nat) :
  2 <= base ->
  forall (f2 : nat) (x : Z),
    x < 2 ^ Z.of_nat f1 -> x < 2 ^ Z.of_nat f2 ->
    digitsLE f1 base x = digitsLE f2 base x.
Proof.
  intros Hb. induction f1 as [|f1 IH]; intros f2 x H1 H2.
  - simpl in H1. rewrite !digitsLE_nonpos by lia. reflexivity.
  - destruct f2 as [|f2].
    + simpl in H2. rewrite !digitsLE_nonpos by lia. reflexivity.
    + simpl. destruct (Z.leb_spec x 0); [reflexivity|].
      f_equal. apply IH; apply div_below; assumption || lia.
Qed.

Lemma log2_fuel (x : Z) : x < 2 ^ Z.of_nat (S (Z.to_nat (Z.log2 x))).
Proof.
  destruct (Z.leb_spec x 0) as [Hx|Hx].
  - assert (0 < 2 ^ Z.of_nat (S (Z.to_nat (Z.log2 x))))
      by (apply Z.pow_pos_nonneg; lia).
    lia.
  - rewrite Nat2Z.inj_succ, Z2Nat.id by apply Z.log2_nonneg.
    apply Z.log2_spec. assumption.
Qed.

Lemma digits_nonpos (base x : Z) : x <= 0 -> digits base x = [].
Proof.
  intros H. unfold digits. rewrite digitsLE_nonpos by assumption. reflexivity.
Qed.

Lemma digits_step (base x : Z) :
  2 <= base -> 0 < x ->
  digits base x = digits base (x / base) ++ [x mod base].
Proof.
  intros Hb Hx. unfold digits at 1.
  cbn [digitsLE]. destruct (Z.leb_spec x 0); [lia|].
  cbn [rev]. f_equal. unfold digits. f_equal.
  apply digitsLE_fuel; [assumption| |apply log2_fuel].
  apply div_below; [assumption|assumption|apply log2_fuel].
Qed.

(** Induction along the divisions [digits] performs. *)
Lemma div_induction (base : Z) (Q : Z -> Prop) :
  2 <= base ->
  (forall x, x <= 0 -> Q x) ->
  (forall x, 0 < x -> Q (x / base) -> Q x) ->
  forall x, Q x.
Proof.
  intros Hb H0 Hstep x.
  assert (H : forall (n : nat) x, (Z.to_nat x <= n)%nat -> Q x).
  { induction n as [|n IH]; intros y Hy.
    - apply H0. lia.
    - destruct (Z.leb_spec y 0); [apply H0; assumption|].
      apply Hstep; [assumption|]. apply IH.
      assert (y / base < y) by (apply Z.div_lt; lia).
      assert (0 <= y / base) by (apply Z.div_pos; lia).
      lia. }
  apply (H (Z.to_nat x)). lia.
Qed.

Lemma undigits_digits (base x : Z) :
  2 <= base -> 0 <= x -> undigits base (digits base x) = x.
Proof.
  intros Hb. pattern x. apply (div_induction base); [assumption| |]; clear x.
  - intros x Hx Hx'. rewrite digits_nonpos by assumption. cbn. lia.
  - intros x Hx IH _. rewrite digits_step, undigits_snoc by assumption.
    rewrite IH by (apply Z.div_pos; lia).
    pose proof (Z.div_mod x base). lia.
Qed.

Lemma digits_range (base x : Z) :
  2 <= base -> Forall (fun d => 0 <= d < base) (digits base x).
Proof.
  intros Hb. pattern x. apply (div_induction base); [assumption| |]; clear x.
  - intros x Hx. rewrite digits_nonpos by assumption. constructor.
  - intros x Hx IH. rewrite digits_step by assumption.
    apply Forall_app. split; [assumption|].
    constructor; [apply Z.mod_pos_bound; lia|constructor].
Qed.

(** A digit sequence is canonical when it has no leading zero. *)
Definition canonical (base : Z) (ds : list Z) : Prop :=
  Forall (fun d => 0 <= d < base) ds /\ hd 1 ds <> 0.

Lemma digits_hd (base x : Z) : 2 <= base -> hd 1 (digits base x) <> 0.
Proof.
  intros Hb. pattern x. apply (div_induction base); [assumption| |]; clear x.
  - intros x Hx. rewrite digits_nonpos by assumption. cbn. lia.
  - intros x Hx IH. rewrite digits_step by assumption.
    destruct (digits base (x / base)) as [|d ds] eqn:E.
    + cbn. assert (Hq : x / base = 0).
      { destruct (Z.leb_spec (x / base) 0) as [Hle|Hgt].
        - assert (0 <= x / base) by (apply Z.div_pos; lia). lia.
        - rewrite digits_step in E by assumption.
          destruct (digits base (x / base / base)); discriminate. }
      pose proof (Z.div_mod x base). lia.
    + exact IH.
Qed.

Lemma digits_canonical (base x : Z) : 2 <= base -> canonical base (digits base x).
Proof.
  intros Hb. split; [apply digits_range|apply digits_hd]; assumption.
Qed.

Lemma undigits_nonneg (base : Z) (ds : list Z) :
  2 <= base -> Forall (fun d => 0 <= d < base) ds -> 0 <= undigits base ds.
Proof.
  intros Hb. induction ds as [|d ds IH] using rev_ind; intros H.
  - cbn. lia.
  - apply Forall_app in H. destruct H as [H1 H2]. inversion H2; subst.
    rewrite undigits_snoc. specialize (IH H1). nia.
Qed.

Lemma undigits_pos (base : Z) (ds : list Z) :
  2 <= base -> canonical base ds -> ds <> [] -> 0 < undigits base ds.
Proof.
  intros Hb. induction ds as [|d ds IH] using rev_ind; intros [Hr Hh] Hne.
  - contradiction.
  - apply Forall_app in Hr. destruct Hr as [H1 H2]. inversion H2; subst.
    rewrite undigits_snoc. destruct ds as [|e ds'].
    + cbn in *. lia.
    + assert (0 < undigits base (e :: ds')).
      { apply IH; [split; [assumption|exact Hh]|discriminate]. }
      nia.
Qed.

Lemma digits_undigits (base : Z) (ds : list Z) :
  2 <= base -> canonical base ds -> digits base (undigits base ds) = ds.
Proof.
  intros Hb. induction ds as [|d ds IH] using rev_ind; intros [Hr Hh].
  - cbn. reflexivity.
  - apply Forall_app in Hr. destruct Hr as [H1 H2]. inversion H2; subst.
    rewrite undigits_snoc.
    assert (Hn : 0 <= undigits base ds) by (apply undigits_nonneg; assumption).
    assert (Hdiv : (undigits base ds * base + d) / base = undigits base ds).
    { rewrite Z.div_add_l by lia. rewrite Z.div_small by lia. lia. }
    assert (Hmod : (undigits base ds * base + d) mod base = d).
    { rewrite Z.add_comm, Z.mod_add by lia. apply Z.mod_small; lia. }
    destruct ds as [|e ds'].
    + cbn in Hh. cbn [undigits fold_left app]. cbn in Hn.
      rewrite digits_step by lia.
      replace (0 * base + d) with d by lia.
      rewrite Z.div_small, Z.mod_small by lia.
      rewrite digits_nonpos by lia. reflexivity.
    + assert (0 < undigits base (e :: ds')).
      { apply undigits_pos; [assumption|split; assumption|discriminate]. }
      rewrite digits_step by nia.
      rewrite Hdiv, Hmod, IH by (split; assumption). reflexivity.
Qed.

Lemma undigits_zeros (base : Z) (n : nat) (l : list Z) :
  undigits base (repeat 0 n ++ l) = undigits base l.
Proof.
  induction n as [|n IH]; [reflexivity|].
  cbn [repeat app]. unfold undigits in *. cbn [fold_left].
  replace (0 * base + 0) with 0 by lia. exact IH.
Qed.

Lemma undigits_bound (base : Z) (ds : list Z) :
  2 <= base -> Forall (fun d => 0 <= d < base) ds ->
  undigits base ds < base ^ Z.of_nat (length ds).
Proof.
  intros Hb. induction ds as [|d ds IH] using rev_ind; intros H.
  - cbn. lia.
  - apply Forall_app in H. destruct H as [H1 H2]. inversion H2; subst.
    rewrite undigits_snoc, length_app. cbn [length].
    replace (Z.of_nat (length ds + 1)) with (Z.succ (Z.of_nat (length ds))) by lia.
    rewrite Z.pow_succ_r by lia. specialize (IH H1). nia.
Qed.

Lemma digits_length (base x : Z) (n : nat) :
  2 <= base -> 0 <= x < base ^ Z.of_nat n -> (length (digits base x) <= n)%nat.
Proof.
  intros Hb. revert n. pattern x. apply (div_induction base); [assumption| |]; clear x.
  - intros x Hx n _. rewrite digits_nonpos by assumption. cbn. lia.
  - intros x Hx IH n Hn. rewrite digits_step, length_app by assumption.
    cbn [length]. destruct n as [|n].
    + cbn in Hn. lia.
    + specialize (IH n). rewrite Nat2Z.inj_succ, Z.pow_succ_r in Hn by lia.
      assert (0 <= x / base < base ^ Z.of_nat n).
      { split; [apply Z.div_pos; lia|].
        apply Z.div_lt_upper_bound; lia. }
      specialize (IH H). lia.
Qed.

(** *** [SetBytes] and [Bytes] *)

Lemma bytes_range (l : list byte) : Forall (fun d => 0 <= d < 256) (map b2z l).
Proof.
  induction l; simpl; constructor; [apply b2z_range|assumption].
Qed.

Lemma SetBytes_nonneg (l : list byte) : 0 <= SetBytes l.
Proof. apply undigits_nonneg; [lia|apply bytes_range]. Qed.

Lemma SetBytes_bound (l : list byte) : SetBytes l < 256 ^ Z.of_nat (length l).
Proof.
  unfold SetBytes. rewrite <- (length_map b2z l).
  apply undigits_bound; [lia|apply bytes_range].
Qed.

Lemma SetBytes_BigBytes (x : Z) : 0 <= x -> SetBytes (BigBytes x) = x.
Proof.
  intros Hx. unfold SetBytes, BigBytes.
  rewrite map_b2z_z2b by (apply digits_range; lia).
  apply undigits_digits; lia.
Qed.

Lemma SetBytes_zeros (n : nat) (l : list byte) :
  SetBytes (zeros n ++ l) = SetBytes l.
Proof.
  unfold SetBytes, zeros. rewrite map_app, map_repeat.
  change (b2z x00) with 0. apply undigits_zeros.
Qed.

Lemma SetBytes_pad (x : Z) (n : nat) :
  0 <= x -> SetBytes (padByteSlice (BigBytes x) n) = x.
Proof.
  intros Hx. unfold padByteSlice. rewrite SetBytes_zeros.
  apply SetBytes_BigBytes. assumption.
Qed.

Lemma BigBytes_length (x : Z) (n : nat) :
  0 <= x < 256 ^ Z.of_nat n -> (length (BigBytes x) <= n)%nat.
Proof.
  intros H. unfold BigBytes. rewrite length_map.
  apply digits_length; [lia|assumption].
Qed.

Lemma padByteSlice_length (l : list byte) (n : nat) :
  (length l <= n)%nat -> length (padByteSlice l n) = n.
Proof.
  intros H. unfold padByteSlice, zeros.
  rewrite length_app, repeat_length. lia.
Qed.

(** [Bytes] gives back a slice without its leading zero bytes. *)
Lemma BigBytes_SetBytes (l : list byte) :
  hd x01 l <> x00 -> BigBytes (SetBytes l) = l.
Proof.
  intros Hh. unfold BigBytes, SetBytes.
  rewrite digits_undigits; [apply map_z2b_b2z|lia|].
  split; [apply bytes_range|].
  destruct l as [|b l]; cbn in *; [lia|].
  intros E. apply Hh. apply b2z_inj. rewrite E. reflexivity.
Qed.

End BytesFacts.

(** ** Base58 *)

Module Base58Facts.
Import BytesFacts.

(** A property checked on every number below [n] holds below [n]. *)
Lemma below_forallb (f : Z -> bool) (n : nat) :
  forallb f (map Z.of_nat (seq 0 n)) = true ->
  forall d, 0 <= d < Z.of_nat n -> f d = true.
Proof.
  intros H d Hd. rewrite forallb_forall in H. apply H.
  apply in_map_iff. exists (Z.to_nat d). split; [lia|].
  apply in_seq. lia.
Qed.

Lemma decodeDigit_encodeDigit (d : Z) :
  0 <= d < 58 -> Base58.decodeDigit (Base58.encodeDigit d) = Some d.
Proof.
  intros Hd.
  pose (f := fun d => match Base58.decodeDigit (Base58.encodeDigit d) with
                      | Some e => d =? e
                      | None => false
                      end).
  assert (Hf : f d = true) by (apply (below_forallb f 58); [reflexivity|lia]).
  unfold f in Hf. destruct (Base58.decodeDigit (Base58.encodeDigit d));
    [|discriminate].
  apply Z.eqb_eq in Hf. subst. reflexivity.
Qed.

Lemma encodeDigit_nonzero (d : Z) :
  0 < d < 58 -> Base58.encodeDigit d <> Base58.alphabetIdx0.
Proof.
  intros Hd E.
  assert (H : Base58.decodeDigit (Base58.encodeDigit d) = Some d)
    by (apply decodeDigit_encodeDigit; lia).
  rewrite E in H. cbv in H. injection H as H. lia.
Qed.

Lemma countLeading_repeat (z : byte) (k : nat) (l : list byte) :
  Base58.countLeading z (repeat z k ++ l) = (k + Base58.countLeading z l)%nat.
Proof.
  induction k as [|k IH]; [reflexivity|].
  cbn [repeat app Base58.countLeading]. rewrite eqb_refl, IH. reflexivity.
Qed.

Lemma countLeading_hd (z d : byte) (l : list byte) :
  hd d l <> z -> d <> z -> Base58.countLeading z l = 0%nat.
Proof.
  intros H Hd. destruct l as [|x l]; [reflexivity|].
  cbn in *. rewrite eqb_neq by assumption. reflexivity.
Qed.

(** A slice is its leading zero bytes followed by a slice that does not
    start with a zero byte. *)
Lemma split_leading (z : byte) (l : list byte) :
  l = repeat z (Base58.countLeading z l) ++ skipn (Base58.countLeading z l) l.
Proof.
  induction l as [|x l IH]; [reflexivity|].
  cbn [Base58.countLeading]. destruct (Byte.eqb x z) eqn:E.
  - apply Byte.byte_dec_bl in E. subst x. cbn [repeat app skipn].
    f_equal. exact IH.
  - reflexivity.
Qed.

Lemma skip_leading_hd (z d : byte) (l : list byte) :
  d <> z -> hd d (skipn (Base58.countLeading z l) l) <> z.
Proof.
  intros Hd. induction l as [|x l IH]; [exact Hd|].
  cbn [Base58.countLeading]. destruct (Byte.eqb x z) eqn:E.
  - cbn [skipn]. exact IH.
  - cbn. apply Byte.eqb_false in E. exact E.
Qed.

Lemma decodeValue_digits (ds : list Z) (acc : Z) :
  Forall (fun d => 0 <= d < 58) ds ->
  Base58.decodeValue acc (map Base58.encodeDigit ds)
  = Some (fold_left (fun a d => a * 58 + d) ds acc).
Proof.
  intros H. revert acc. induction H as [|d ds Hd _ IH]; intros acc.
  - reflexivity.
  - cbn [map Base58.decodeValue fold_left].
    rewrite decodeDigit_encodeDigit by assumption. apply IH.
Qed.

Lemma decodeValue_ones (k : nat) (l : list byte) :
  Base58.decodeValue 0 (repeat Base58.alphabetIdx0 k ++ l)
  = Base58.decodeValue 0 l.
Proof.
  induction k as [|k IH]; [reflexivity|].
  cbn [repeat app Base58.decodeValue].
  change (Base58.decodeDigit Base58.alphabetIdx0) with (Some 0).
  exact IH.
Qed.

Lemma countLeading_digits (x : Z) :
  Base58.countLeading Base58.alphabetIdx0
    (map Base58.encodeDigit (digits 58 x)) = 0%nat.
Proof.
  pose proof (digits_canonical 58 x ltac:(lia)) as [Hr Hh].
  destruct (digits 58 x) as [|d ds]; [reflexivity|].
  cbn in Hh. inversion Hr; subst.
  cbn [map Base58.countLeading].
  rewrite eqb_neq; [reflexivity|]. apply encodeDigit_nonzero. lia.
Qed.

(** Decoding gives back every byte slice that was encoded. *)
Lemma Decode_Encode (b : list byte) : Base58.Decode (Base58.Encode b) = b.
Proof.
  unfold Base58.Decode, Base58.Encode. rewrite ofString_toString.
  rewrite decodeValue_ones, decodeValue_digits by (apply digits_range; lia).
  change (fold_left (fun a d => a * 58 + d) (digits 58 (SetBytes b)) 0)
    with (undigits 58 (digits 58 (SetBytes b))).
  rewrite undigits_digits by (lia || apply SetBytes_nonneg).
  rewrite countLeading_repeat, countLeading_digits, Nat.add_0_r.
  rewrite (split_leading x00 b) at 3.
  f_equal.
  rewrite (split_leading x00 b) at 1.
  change (repeat x00 (Base58.countLeading x00 b))
    with (zeros (Base58.countLeading x00 b)).
  rewrite SetBytes_zeros. apply BigBytes_SetBytes.
  apply skip_leading_hd. discriminate.
Qed.

End Base58Facts.

(** ** Bech32 *)

Module Bech32Facts.
Import BytesFacts.

(** *** The checksum *)

Lemma lxor_swap (a b c : Z) : Z.lxor (Z.lxor a b) c = Z.lxor (Z.lxor a c) b.
Proof.
  rewrite !Z.lxor_assoc. f_equal. apply Z.lxor_comm.
Qed.

Lemma lxor_bound (n a b : Z) :
  0 <= n -> 0 <= a < 2 ^ n -> 0 <= b < 2 ^ n -> 0 <= Z.lxor a b < 2 ^ n.
Proof.
  intros Hn Ha Hb.
  assert (H0 : 0 <= Z.lxor a b) by (apply Z.lxor_nonneg; lia).
  split; [assumption|].
  destruct (Z.eq_dec (Z.lxor a b) 0) as [E|E].
  - rewrite E. apply Z.pow_pos_nonneg; lia.
  - assert (Hn0 : 0 < n).
    { destruct (Z.eq_dec n 0) as [->|]; [|lia].
      change (2 ^ 0) with 1 in *.
      assert (a = 0) by lia. assert (b = 0) by lia. subst.
      cbn in E. contradiction. }
    apply Z.log2_lt_pow2; [lia|].
    eapply Z.le_lt_trans; [apply Z.log2_lxor; lia|].
    apply Z.max_lub_lt.
    + destruct (Z.eq_dec a 0); [subst; cbn; lia|apply Z.log2_lt_pow2; lia].
    + destruct (Z.eq_dec b 0); [subst; cbn; lia|apply Z.log2_lt_pow2; lia].
Qed.

(** The generator a bit of [b] selects. *)
Definition sel (b : Z) (i : nat) : Z :=
  if Z.testbit b (Z.of_nat i) then nth i Bech32.gen 0 else 0.

Lemma genXor_sel (b : Z) (i : nat) (chk : Z) :
  Bech32.genXor b i chk = Z.lxor chk (sel b i).
Proof.
  unfold Bech32.genXor, sel. destruct (Z.testbit b (Z.of_nat i));
    [reflexivity|]. rewrite Z.lxor_0_r. reflexivity.
Qed.

Lemma sel_bound (b : Z) (i : nat) : 0 <= sel b i < 2 ^ 30.
Proof.
  unfold sel. destruct (Z.testbit b (Z.of_nat i)); [|lia].
  do 6 (destruct i as [|i]; [cbn; lia|]).
  destruct i; cbn; lia.
Qed.

(** A round over [v] is the round over zero with [v] added in. *)
Lemma polymodStep_value (chk v : Z) :
  Bech32.polymodStep chk v = Z.lxor (Bech32.polymodStep chk 0) v.
Proof.
  unfold Bech32.polymodStep. rewrite !genXor_sel, Z.lxor_0_r.
  rewrite !(lxor_swap _ _ v). reflexivity.
Qed.

(** Adding a number below [2^25] to the state before a round adds it,
    shifted by five bits, to the state after the round. *)
Lemma polymodStep_low (chk d v : Z) :
  0 <= d < 2 ^ 25 ->
  Bech32.polymodStep (Z.lxor chk d) v
  = Z.lxor (Bech32.polymodStep chk v) (Z.shiftl d 5).
Proof.
  intros Hd. unfold Bech32.polymodStep. rewrite !genXor_sel.
  assert (Hb : Z.shiftr (Z.lxor chk d) 25 = Z.shiftr chk 25).
  { rewrite Z.shiftr_lxor. rewrite (Z.shiftr_div_pow2 d) by lia.
    rewrite (Z.div_small d) by lia. apply Z.lxor_0_r. }
  assert (Hl : Z.land (Z.lxor chk d) 33554431
               = Z.lxor (Z.land chk 33554431) d).
  { apply Z.bits_inj'. intros n Hn.
    rewrite Z.land_spec, !Z.lxor_spec, Z.land_spec.
    change 33554431 with (Z.ones 25).
    destruct (Z.ltb_spec n 25).
    - rewrite Z.ones_spec_low by lia. rewrite !andb_true_r. reflexivity.
    - rewrite Z.ones_spec_high by lia. rewrite !andb_false_r.
      rewrite (Z.bits_above_log2 d n); [reflexivity|lia|].
      destruct (Z.eq_dec d 0); [subst; cbn; lia|].
      assert (Z.log2 d < 25) by (apply Z.log2_lt_pow2; lia). lia. }
  rewrite Hb, Hl, Z.shiftl_lxor.
  rewrite !(lxor_swap _ _ (Z.shiftl d 5)). reflexivity.
Qed.

Lemma polymodStep_bound (chk v : Z) :
  0 <= v < 2 ^ 30 -> 0 <= Bech32.polymodStep chk v < 2 ^ 30.
Proof.
  intros Hv. unfold Bech32.polymodStep. rewrite !genXor_sel.
  repeat (apply lxor_bound; [lia| |apply sel_bound]).
  apply lxor_bound; [lia| |assumption].
  rewrite Z.shiftl_mul_pow2 by lia.
  change 33554431 with (Z.ones 25). rewrite Z.land_ones by lia.
  pose proof (Z.mod_pos_bound chk (2 ^ 25) ltac:(lia)). lia.
Qed.

(** Appending a 5-bit value to a packed number. *)
Definition pack (D v : Z) : Z := Z.lxor (Z.shiftl D 5) v.

Lemma pack_arith (D v : Z) : 0 <= D -> 0 <= v < 32 -> pack D v = D * 32 + v.
Proof.
  intros HD Hv. unfold pack. rewrite Z.shiftl_mul_pow2 by lia.
  change (2 ^ 5) with 32. symmetry. apply Z.add_nocarry_lxor.
  apply Z.bits_inj'. intros n Hn. rewrite Z.land_spec, Z.bits_0.
  destruct (Z.ltb_spec n 5).
  - replace (D * 32) with (D * 2 ^ 5) by lia.
    rewrite Z.mul_pow2_bits_low by lia. reflexivity.
  - rewrite (Z.bits_above_log2 v n); [apply andb_false_r|lia|].
    destruct (Z.eq_dec v 0); [subst; cbn; lia|].
    assert (Z.log2 v < 5) by (apply Z.log2_lt_pow2; cbn; lia). lia.
Qed.

(** The state after rounds over [vs], started with [D] added in, is the
    state after as many rounds over zero with the values packed onto
    [D] added in; [k] counts the values already packed into [D]. *)
Lemma fold_polymod_pack (vs : list Z) :
  forall (k : nat) (c D : Z),
    (k + length vs <= 6)%nat ->
    0 <= D < 2 ^ (5 * Z.of_nat k) ->
    Forall (fun v => 0 <= v < 32) vs ->
    fold_left Bech32.polymodStep vs (Z.lxor c D)
    = Z.lxor (fold_left Bech32.polymodStep (map (fun _ => 0) vs) c)
             (fold_left pack vs D).
Proof.
  induction vs as [|v vs IH]; intros k c D Hk HD Hvs.
  - reflexivity.
  - inversion Hvs as [|? ? Hv Hvs']; subst. cbn [fold_left map length] in *.
    assert (HD25 : 0 <= D < 2 ^ 25).
    { split; [lia|]. eapply Z.lt_le_trans; [apply HD|].
      apply Z.pow_le_mono_r; lia. }
    rewrite polymodStep_low by assumption.
    rewrite polymodStep_value, lxor_swap, Z.lxor_assoc.
    fold (pack D v).
    apply (IH (S k)); [lia| |assumption].
    rewrite pack_arith by lia.
    replace (5 * Z.of_nat (S k)) with (5 * Z.of_nat k + 5) by lia.
    rewrite Z.pow_add_r by lia. change (2 ^ 5) with 32. lia.
Qed.

(** The six 5-bit groups of a 30-bit number pack back to it. *)
Lemma pack_groups (p : Z) :
  0 <= p < 2 ^ 30 ->
  fold_left pack
    (map (fun i => Z.land (Z.shiftr p (5 * (5 - i))) 31) [0; 1; 2; 3; 4; 5]) 0
  = p.
Proof.
  intros Hp. cbn [map fold_left].
  change (5 * (5 - 0)) with 25. change (5 * (5 - 1)) with 20.
  change (5 * (5 - 2)) with 15. change (5 * (5 - 3)) with 10.
  change (5 * (5 - 4)) with 5. change (5 * (5 - 5)) with 0.
  change 31 with (Z.ones 5).
  rewrite !Z.land_ones, !Z.shiftr_div_pow2 by lia.
  change (2 ^ 30) with 1073741824 in Hp.
  change (2 ^ 25) with 33554432. change (2 ^ 20) with 1048576.
  change (2 ^ 15) with 32768. change (2 ^ 10) with 1024.
  change (2 ^ 5) with 32. change (2 ^ 0) with 1.
  assert (R : forall q, 0 <= q mod 32 < 32)
    by (intros q; apply Z.mod_pos_bound; lia).
  pose proof (R (p / 33554432)) as R0. pose proof (R (p / 1048576)) as R1.
  pose proof (R (p / 32768)) as R2. pose proof (R (p / 1024)) as R3.
  pose proof (R (p / 32)) as R4. pose proof (R (p / 1)) as R5.
  rewrite (pack_arith 0) by lia.
  rewrite (pack_arith (0 * 32 + _)) by lia.
  rewrite (pack_arith ((0 * 32 + _) * 32 + _)) by lia.
  rewrite (pack_arith (((0 * 32 + _) * 32 + _) * 32 + _)) by lia.
  rewrite (pack_arith ((((0 * 32 + _) * 32 + _) * 32 + _) * 32 + _)) by lia.
  rewrite (pack_arith (((((0 * 32 + _) * 32 + _) * 32 + _) * 32 + _) * 32 + _))
    by lia.
  clear R R0 R1 R2 R3 R4 R5.
  Z.to_euclidean_division_equations. lia.
Qed.

Lemma land31_range (x : Z) : 0 <= Z.land x 31 < 32.
Proof.
  change 31 with (Z.ones 5). rewrite Z.land_ones by lia.
  apply Z.mod_pos_bound. lia.
Qed.

(** The checksum written by the encoder verifies. *)
Lemma checksum_verifies (hrp data : list byte) :
  Bech32.bech32Polymod hrp data (Bech32.checksumValues hrp data) = 1.
Proof.
  unfold Bech32.checksumValues, Bech32.bech32Polymod.
  rewrite !app_assoc, !fold_left_app.
  set (c0 := fold_left Bech32.polymodStep (map b2z data)
               (fold_left Bech32.polymodStep (Bech32.hrpExpand hrp) 1)).
  set (P0 := fold_left Bech32.polymodStep (map b2z (zeros 6)) c0).
  assert (HP0 : 0 <= P0 < 2 ^ 30).
  { unfold P0. cbn [zeros repeat map fold_left].
    apply polymodStep_bound. change (b2z x00) with 0. lia. }
  assert (HP : 0 <= Z.lxor P0 1 < 2 ^ 30)
    by (apply lxor_bound; [lia|exact HP0|split; [lia|reflexivity]]).
  rewrite map_map.
  assert (Hvs : Forall (fun v => 0 <= v < 32)
                  (map (fun i => Z.land (Z.shiftr (Z.lxor P0 1) (5 * (5 - i))) 31)
                       [0; 1; 2; 3; 4; 5])).
  { apply Forall_forall. intros v Hv. apply in_map_iff in Hv.
    destruct Hv as [i [<- _]]. apply land31_range. }
  assert (Hmap : map (fun i => b2z (z2b (Z.land (Z.shiftr (Z.lxor P0 1)
                                                   (5 * (5 - i))) 31)))
                     [0; 1; 2; 3; 4; 5]
                 = map (fun i => Z.land (Z.shiftr (Z.lxor P0 1) (5 * (5 - i))) 31)
                       [0; 1; 2; 3; 4; 5]).
  { apply map_ext. intros i. apply b2z_z2b.
    pose proof (land31_range (Z.shiftr (Z.lxor P0 1) (5 * (5 - i)))). lia. }
  rewrite Hmap.
  rewrite <- (Z.lxor_0_r c0) at 1.
  rewrite (fold_polymod_pack _ 0 c0 0); [|cbn; lia|cbn; lia|assumption].
  rewrite pack_groups by assumption.
  change (fold_left Bech32.polymodStep
            (map (fun _ : Z => 0)
               (map (fun i => Z.land (Z.shiftr (Z.lxor P0 1) (5 * (5 - i))) 31)
                    [0; 1; 2; 3; 4; 5])) c0) with P0.
  rewrite <- Z.lxor_assoc, Z.lxor_nilpotent. reflexivity.
Qed.

(** *** Characters *)

Definition chars (data : list byte) : list byte :=
  map (fun b => nth (Z.to_nat (b2z b)) (ofString Bech32.charset) x00) data.

(** A character the data part may hold: printable, not upper case, not
    the separator. *)
Definition dataChar (c : byte) : bool :=
  Bech32.printable c && negb (Bech32.isUpper c) && negb (Byte.eqb c "1"%byte).

Lemma toChars_chars (data : list byte) :
  Forall (fun b => b2z b < 32) data -> Bech32.toChars data = Ok (chars data).
Proof.
  induction 1 as [|b data Hb _ IH]; [reflexivity|].
  cbn [Bech32.toChars chars map].
  destruct (Z.leb_spec 32 (b2z b)); [lia|].
  rewrite IH. reflexivity.
Qed.

Lemma charset_index (v : Z) :
  0 <= v < 32 ->
  Base58.indexOf (nth (Z.to_nat v) (ofString Bech32.charset) x00)
    (ofString Bech32.charset) 0 = Some v.
Proof.
  intros Hv.
  pose (f := fun v =>
               match Base58.indexOf
                       (nth (Z.to_nat v) (ofString Bech32.charset) x00)
                       (ofString Bech32.charset) 0 with
               | Some e => v =? e
               | None => false
               end).
  assert (Hf : f v = true)
    by (apply (Base58Facts.below_forallb f 32); [reflexivity|lia]).
  unfold f in Hf.
  destruct (Base58.indexOf _ _ 0); [|discriminate].
  apply Z.eqb_eq in Hf. subst. reflexivity.
Qed.

Lemma toBytes_chars (data : list byte) :
  Forall (fun b => b2z b < 32) data -> Bech32.toBytes (chars data) = Ok data.
Proof.
  induction 1 as [|b data Hb _ IH]; [reflexivity|].
  cbn [Bech32.toBytes chars map]. pose proof (b2z_range b).
  rewrite charset_index by lia. fold (chars data).
  rewrite IH, z2b_b2z. reflexivity.
Qed.

Lemma chars_dataChar (data : list byte) :
  Forall (fun b => b2z b < 32) data -> forallb dataChar (chars data) = true.
Proof.
  intros H. apply forallb_forall. intros c Hc.
  apply in_map_iff in Hc. destruct Hc as [b [<- Hb]].
  rewrite Forall_forall in H. specialize (H b Hb). pose proof (b2z_range b).
  assert (Hall : forallb dataChar (ofString Bech32.charset) = true)
    by reflexivity.
  rewrite forallb_forall in Hall. apply Hall.
  apply nth_In. change (length (ofString Bech32.charset)) with 32%nat. lia.
Qed.

Lemma lower_dataChar (c : byte) : Bech32.isLower c = true -> dataChar c = true.
Proof.
  unfold Bech32.isLower, dataChar, Bech32.printable, Bech32.isUpper.
  intros H. apply andb_prop in H. destruct H as [H1 H2].
  apply Z.leb_le in H1. apply Z.leb_le in H2.
  rewrite !andb_true_iff, !negb_true_iff. repeat split.
  - apply Z.leb_le. lia.
  - apply Z.leb_le. lia.
  - apply andb_false_iff. right. apply Z.leb_gt. lia.
  - apply eqb_neq. intros ->. cbn in H1. lia.
Qed.

Lemma dataChar_forall (l : list byte) :
  forallb dataChar l = true ->
  forallb Bech32.printable l = true
  /\ existsb Bech32.isUpper l = false
  /\ Bech32.ToLower l = l
  /\ Forall (fun c => Byte.eqb c "1"%byte = false) l.
Proof.
  induction l as [|c l IH]; intros H.
  - repeat split; constructor.
  - cbn [forallb] in H. apply andb_prop in H. destruct H as [Hc Hl].
    destruct (IH Hl) as (I1 & I2 & I3 & I4).
    unfold dataChar in Hc. rewrite !andb_true_iff, !negb_true_iff in Hc.
    destruct Hc as [[Hp Hu] Hs].
    cbn [forallb existsb Bech32.ToLower map]. fold (Bech32.ToLower l).
    rewrite Hp, Hu, I1, I2, I3. repeat split.
    + unfold Bech32.toLowerByte. unfold Bech32.isUpper in Hu.
      rewrite Hu. reflexivity.
    + constructor; assumption.
Qed.

Lemma lastIndexByte_absent (l : list byte) (c : byte) :
  Forall (fun x => Byte.eqb x c = false) l ->
  forall i found, Bech32.lastIndexByte l c i found = found.
Proof.
  induction 1 as [|x l Hx _ IH]; intros i found; [reflexivity|].
  cbn [Bech32.lastIndexByte]. rewrite Hx. apply IH.
Qed.

Lemma lastIndexByte_sep (l r : list byte) (c : byte) :
  Forall (fun x => Byte.eqb x c = false) r ->
  forall i found,
    Bech32.lastIndexByte (l ++ c :: r) c i found = i + Z.of_nat (length l).
Proof.
  intros Hr. induction l as [|x l IH]; intros i found.
  - cbn [app Bech32.lastIndexByte length]. rewrite eqb_refl.
    rewrite lastIndexByte_absent by assumption. cbn. lia.
  - cbn [app Bech32.lastIndexByte length]. rewrite IH. lia.
Qed.

(** Decoding gives back the prefix and the data of an encoded string,
    for a lower-case prefix and 5-bit data within the length limit. *)
Lemma bech32_Decode_Encode (hrp : string) (data : list byte) :
  ofString hrp <> [] ->
  forallb Bech32.isLower (ofString hrp) = true ->
  Forall (fun b => b2z b < 32) data ->
  (length (ofString hrp) + length data + 7 <= 90)%nat ->
  exists bech,
    Bech32.Encode hrp data = Ok bech
    /\ Bech32.Decode bech = Ok (ofString hrp, data).
Proof.
  intros Hne Hlow Hdata Hlen.
  set (h := ofString hrp) in *.
  assert (Hh : forallb dataChar h = true).
  { apply forallb_forall. intros c Hc. apply lower_dataChar.
    rewrite forallb_forall in Hlow. apply Hlow. assumption. }
  destruct (dataChar_forall h Hh) as (_ & _ & HhL & _).
  assert (Hck : Forall (fun b => b2z b < 32) (Bech32.checksumValues h data)).
  { unfold Bech32.checksumValues. apply Forall_forall. intros b Hb.
    apply in_map_iff in Hb. destruct Hb as [i [<- _]].
    pose proof (land31_range
                  (Z.shiftr (Z.lxor (Bech32.bech32Polymod h data (zeros 6)) 1)
                            (5 * (5 - i)))).
    rewrite b2z_z2b; lia. }
  unfold Bech32.Encode. fold h. rewrite HhL.
  rewrite (toChars_chars data Hdata), (toChars_chars _ Hck).
  eexists. split; [reflexivity|].
  unfold Bech32.Decode. rewrite ofString_toString.
  set (cs := chars data ++ chars (Bech32.checksumValues h data)).
  change (h ++ ["1"%byte] ++ cs) with (h ++ "1"%byte :: cs).
  assert (Hcs : forallb dataChar cs = true).
  { unfold cs. rewrite forallb_app, !chars_dataChar by assumption.
    reflexivity. }
  assert (Hcslen : length cs = (length data + 6)%nat).
  { unfold cs, chars, Bech32.checksumValues.
    rewrite length_app, !length_map. reflexivity. }
  assert (Hblen : length (h ++ "1"%byte :: cs)
                  = (length h + length data + 7)%nat).
  { rewrite length_app. cbn [length]. rewrite Hcslen. lia. }
  assert (Hhpos : (0 < length h)%nat)
    by (destruct h; [contradiction|cbn; lia]).
  (* The separator is not a data character, but it is printable and not
     upper case. *)
  assert (Hb : forallb Bech32.printable (h ++ "1"%byte :: cs) = true
               /\ existsb Bech32.isUpper (h ++ "1"%byte :: cs) = false
               /\ Bech32.ToLower (h ++ "1"%byte :: cs) = h ++ "1"%byte :: cs).
  { destruct (dataChar_forall h Hh) as (A1 & A2 & A3 & _).
    destruct (dataChar_forall cs Hcs) as (B1 & B2 & B3 & _).
    rewrite forallb_app, existsb_app. unfold Bech32.ToLower in *.
    rewrite map_app. cbn [forallb existsb map].
    rewrite A1, A2, A3, B1, B2, B3. repeat split. }
  destruct Hb as (Hp & Hu & HL).
  rewrite Hblen, Hp, Hu, andb_false_r, HL.
  destruct (dataChar_forall cs Hcs) as (_ & _ & _ & Hsep).
  rewrite (lastIndexByte_sep h cs "1"%byte Hsep).
  rewrite Hblen.
  replace ((90 <? Z.of_nat (length h + length data + 7))
           || (Z.of_nat (length h + length data + 7) <? 8)) with false
    by (symmetry; apply orb_false_iff; split; apply Z.ltb_ge; lia).
  replace ((0 + Z.of_nat (length h) <? 1)
           || (Z.of_nat (length h + length data + 7)
               <? 0 + Z.of_nat (length h) + 7)) with false
    by (symmetry; apply orb_false_iff; split; apply Z.ltb_ge; lia).
  cbn [negb].
  replace (Z.to_nat (0 + Z.of_nat (length h))) with (length h) by lia.
  replace (Z.to_nat (0 + Z.of_nat (length h) + 1)) with (S (length h)) by lia.
  unfold take, drop.
  rewrite firstn_app, firstn_all, Nat.sub_diag, firstn_O, app_nil_r.
  replace (skipn (S (length h)) (h ++ "1"%byte :: cs)) with cs.
  2:{ rewrite skipn_app, skipn_all2 by lia.
      replace (S (length h) - length h)%nat with 1%nat by lia. reflexivity. }
  assert (Ecs : cs = chars (data ++ Bech32.checksumValues h data))
    by (unfold cs, chars; symmetry; apply map_app).
  rewrite Ecs.
  rewrite toBytes_chars by (apply Forall_app; split; assumption).
  rewrite length_app.
  replace (length (Bech32.checksumValues h data)) with 6%nat by reflexivity.
  replace (length data + 6 - 6)%nat with (length data) by lia.
  rewrite firstn_app, firstn_all, Nat.sub_diag, firstn_O, app_nil_r.
  rewrite skipn_app, skipn_all, Nat.sub_diag. cbn [app skipn].
  rewrite checksum_verifies. reflexivity.
Qed.

(** *** Regrouping bits *)

Lemma bitsOf_length (w : nat) (v : Z) : length (Bech32.bitsOf w v) = w.
Proof. induction w; cbn; congruence. Qed.

Lemma ofBits_acc (bs : list bool) (acc : Z) :
  fold_left (fun a (b : bool) => 2 * a + (if b then 1 else 0)) bs acc
  = acc * 2 ^ Z.of_nat (length bs) + Bech32.ofBits bs.
Proof.
  unfold Bech32.ofBits. revert acc.
  induction bs as [|b bs IH]; intros acc.
  - cbn. lia.
  - cbn [fold_left length]. rewrite IH, (IH (2 * 0 + _)).
    rewrite Nat2Z.inj_succ, Z.pow_succ_r by lia. lia.
Qed.

Lemma ofBits_cons (b : bool) (bs : list bool) :
  Bech32.ofBits (b :: bs)
  = (if b then 1 else 0) * 2 ^ Z.of_nat (length bs) + Bech32.ofBits bs.
Proof.
  unfold Bech32.ofBits at 1. cbn [fold_left]. rewrite ofBits_acc. lia.
Qed.

Lemma ofBits_range (bs : list bool) :
  0 <= Bech32.ofBits bs < 2 ^ Z.of_nat (length bs).
Proof.
  induction bs as [|b bs IH]; [cbn; lia|].
  rewrite ofBits_cons. cbn [length].
  rewrite Nat2Z.inj_succ, Z.pow_succ_r by lia.
  destruct b; lia.
Qed.

Lemma ofBits_bitsOf (w : nat) (v : Z) :
  Bech32.ofBits (Bech32.bitsOf w v) = v mod 2 ^ Z.of_nat w.
Proof.
  induction w as [|w IH].
  - cbn. rewrite Z.mod_1_r. reflexivity.
  - cbn [Bech32.bitsOf]. rewrite ofBits_cons, bitsOf_length, IH.
    rewrite Nat2Z.inj_succ, Z.pow_succ_r by lia.
    assert (Hp : 0 < 2 ^ Z.of_nat w) by (apply Z.pow_pos_nonneg; lia).
    rewrite (Z.mul_comm 2), Z.rem_mul_r by lia.
    pose proof (Z.testbit_spec' v (Z.of_nat w) ltac:(lia)) as Hs.
    destruct (Z.testbit v (Z.of_nat w)); cbn [Z.b2z] in Hs; rewrite <- Hs; lia.
Qed.

Lemma bitsOf_ext (w : nat) (a b : Z) :
  (forall i, 0 <= i < Z.of_nat w -> Z.testbit a i = Z.testbit b i) ->
  Bech32.bitsOf w a = Bech32.bitsOf w b.
Proof.
  induction w as [|w IH]; intros H; [reflexivity|].
  cbn [Bech32.bitsOf]. f_equal; [apply H; lia|].
  apply IH. intros i Hi. apply H. lia.
Qed.

Lemma bitsOf_ofBits (g : list bool) :
  Bech32.bitsOf (length g) (Bech32.ofBits g) = g.
Proof.
  induction g as [|b g IH]; [reflexivity|].
  cbn [length Bech32.bitsOf]. rewrite ofBits_cons.
  pose proof (ofBits_range g) as Hr.
  assert (Hp : 0 < 2 ^ Z.of_nat (length g)) by (apply Z.pow_pos_nonneg; lia).
  f_equal.
  - pose proof (Z.testbit_spec'
                  ((if b then 1 else 0) * 2 ^ Z.of_nat (length g)
                   + Bech32.ofBits g) (Z.of_nat (length g)) ltac:(lia)) as Hs.
    rewrite Z.div_add_l, (Z.div_small (Bech32.ofBits g)) in Hs by lia.
    destruct (Z.testbit _ _); destruct b; cbn in Hs; congruence.
  - transitivity (Bech32.bitsOf (length g) (Bech32.ofBits g)); [|exact IH].
    apply bitsOf_ext. intros i Hi.
    rewrite <- (Z.mod_pow2_bits_low _ (Z.of_nat (length g)) i) by lia.
    rewrite Z.add_comm, Z.mod_add by lia.
    rewrite Z.mod_pow2_bits_low by lia. reflexivity.
Qed.

Lemma groupsOf_spec (k : nat) :
  (0 < k)%nat ->
  forall (fuel : nat) (l : list bool) gs r,
    (length l <= fuel)%nat ->
    Bech32.groupsOf fuel k l = (gs, r) ->
    concat gs ++ r = l
    /\ Forall (fun g => length g = k) gs
    /\ (length r < k)%nat.
Proof.
  intros Hk. induction fuel as [|fuel IH]; intros l gs r Hf H.
  - cbn in H. injection H as <- <-. destruct l; [|cbn in Hf; lia].
    repeat split; [constructor|cbn; lia].
  - cbn [Bech32.groupsOf] in H.
    destruct (Nat.ltb_spec (length l) k) as [Hlt|Hge].
    + injection H as <- <-. repeat split; [constructor|assumption].
    + destruct (Bech32.groupsOf fuel k (skipn k l)) as [gs' r'] eqn:E.
      injection H as <- <-.
      destruct (IH (skipn k l) gs' r') as (I1 & I2 & I3);
        [rewrite length_skipn; lia|assumption|].
      repeat split.
      * cbn [concat]. rewrite <- app_assoc, I1. apply firstn_skipn.
      * constructor; [rewrite length_firstn; lia|assumption].
      * assumption.
Qed.

Lemma groupsOf_concat (k : nat) (gs : list (list bool)) (r : list bool) :
  Forall (fun g => length g = k) gs ->
  (length r < k)%nat ->
  forall fuel, (length gs <= fuel)%nat ->
    Bech32.groupsOf fuel k (concat gs ++ r) = (gs, r).
Proof.
  intros Hgs Hr. induction Hgs as [|g gs Hg _ IH]; intros fuel Hf.
  - cbn [concat app]. destruct fuel; [reflexivity|].
    cbn [Bech32.groupsOf].
    destruct (Nat.ltb_spec (length r) k); [reflexivity|lia].
  - destruct fuel as [|fuel]; [cbn in Hf; lia|].
    cbn [Bech32.groupsOf concat]. rewrite <- app_assoc.
    destruct (Nat.ltb_spec (length (g ++ concat gs ++ r)) k) as [Hlt|_].
    + rewrite length_app in Hlt. lia.
    + assert (Hs : skipn k (g ++ concat gs ++ r) = concat gs ++ r).
      { rewrite <- Hg, skipn_app, skipn_all, Nat.sub_diag. reflexivity. }
      assert (Hfi : firstn k (g ++ concat gs ++ r) = g).
      { rewrite <- Hg, firstn_app, firstn_all, Nat.sub_diag, firstn_O.
        apply app_nil_r. }
      rewrite Hs, Hfi, IH by (cbn in Hf; lia). reflexivity.
Qed.

Lemma concat_length_groups (k : nat) (gs : list (list bool)) :
  Forall (fun g => length g = k) gs ->
  length (concat gs) = (k * length gs)%nat.
Proof.
  induction 1 as [|g gs Hg _ IH]; [cbn; lia|].
  cbn [concat length]. rewrite length_app, IH, Hg. lia.
Qed.

(** Bytes regrouped into 5-bit values with padding regroup to the same
    bytes without padding. *)
Lemma ConvertBits_roundtrip (data : list byte) :
  exists out,
    Bech32.ConvertBits data 8 5 true = Ok out
    /\ Forall (fun b => b2z b < 32) out
    /\ (5 * length out <= 8 * length data + 4)%nat
    /\ Bech32.ConvertBits out 5 8 false = Ok data.
Proof.
  unfold Bech32.ConvertBits at 1. cbn [Nat.ltb Nat.leb orb].
  set (bits := flat_map (fun b => Bech32.bitsOf 8 (b2z b)) data).
  assert (Hbits : bits = concat (map (fun b => Bech32.bitsOf 8 (b2z b)) data))
    by apply flat_map_concat_map.
  assert (Hbl : length bits = (8 * length data)%nat).
  { rewrite Hbits, (concat_length_groups 8), length_map; [reflexivity|].
    apply Forall_forall. intros g Hg. apply in_map_iff in Hg.
    destruct Hg as [b [<- _]]. apply bitsOf_length. }
  destruct (Bech32.groupsOf (length bits) 5 bits) as [gs r] eqn:E.
  destruct (groupsOf_spec 5 ltac:(lia) _ _ _ _ (Nat.le_refl _) E)
    as (Hcat & Hgs & Hr).
  (* The groups written, the padded last one included, and the padding. *)
  set (pad := match r with
              | [] => []
              | _ :: _ => repeat false (5 - length r)
              end).
  set (gs' := match r with
              | [] => gs
              | _ :: _ => gs ++ [r ++ repeat false (5 - length r)]
              end).
  assert (Hgs' : Forall (fun g => length g = 5%nat) gs').
  { unfold gs'. destruct r as [|x r']; [assumption|].
    apply Forall_app. split; [assumption|]. constructor; [|constructor].
    rewrite length_app, repeat_length. lia. }
  assert (Hcat' : concat gs' = bits ++ pad).
  { unfold gs', pad. destruct r as [|x r'].
    - rewrite app_nil_r in *. assumption.
    - rewrite concat_app. cbn [concat]. rewrite app_nil_r, app_assoc, Hcat.
      reflexivity. }
  assert (Hpad : (length pad <= 4)%nat /\ existsb (fun b : bool => b) pad = false).
  { unfold pad. destruct r as [|x r']; [cbn; split; [lia|reflexivity]|].
    rewrite repeat_length. cbn [length] in *. split; [lia|].
    generalize (5 - S (length r'))%nat. intros n.
    induction n; cbn; auto. }
  exists (map (fun g => z2b (Bech32.ofBits g)) gs').
  assert (Hout : (match r with
                  | [] => Ok (map (fun g => z2b (Bech32.ofBits g)) gs)
                  | _ :: _ =>
                      Ok (map (fun g => z2b (Bech32.ofBits g)) gs
                          ++ [z2b (Bech32.ofBits (r ++ repeat false (5 - length r)))])
                  end)
                 = Ok (map (fun g => z2b (Bech32.ofBits g)) gs')).
  { unfold gs'. destruct r; [reflexivity|]. rewrite map_app. reflexivity. }
  split; [exact Hout|].
  assert (Hval : forall g, In g gs' -> b2z (z2b (Bech32.ofBits g)) = Bech32.ofBits g
                                       /\ Bech32.ofBits g < 32).
  { intros g Hg. rewrite Forall_forall in Hgs'. specialize (Hgs' g Hg).
    pose proof (ofBits_range g) as Hrg. rewrite Hgs' in Hrg.
    change (2 ^ Z.of_nat 5) with 32 in Hrg.
    rewrite b2z_z2b by lia. lia. }
  split; [|split].
  - apply Forall_forall. intros b Hb. apply in_map_iff in Hb.
    destruct Hb as [g [<- Hg]]. destruct (Hval g Hg) as [-> ?]. assumption.
  - rewrite length_map.
    rewrite <- (concat_length_groups 5 gs' Hgs'), Hcat', length_app, Hbl.
    lia.
  - unfold Bech32.ConvertBits. cbn [Nat.ltb Nat.leb orb].
    assert (Hbits' : flat_map (fun b => Bech32.bitsOf 5 (b2z b))
                       (map (fun g => z2b (Bech32.ofBits g)) gs')
                     = concat gs').
    { rewrite flat_map_concat_map, map_map. f_equal.
      rewrite <- (map_id gs') at 2. apply map_ext_in. intros g Hg.
      destruct (Hval g Hg) as [-> _].
      rewrite Forall_forall in Hgs'. rewrite <- (Hgs' g Hg).
      apply bitsOf_ofBits. }
    rewrite Hbits', Hcat', Hbits.
    rewrite groupsOf_concat.
    + rewrite map_map.
      assert (Hid : map (fun b => z2b (Bech32.ofBits (Bech32.bitsOf 8 (b2z b)))) data
                    = data).
      { rewrite <- (map_id data) at 2. apply map_ext. intros b.
        rewrite ofBits_bitsOf. change (2 ^ Z.of_nat 8) with 256.
        rewrite Z.mod_small by apply b2z_range. apply z2b_b2z. }
      rewrite Hid. destruct Hpad as [Hp1 Hp2].
      destruct pad as [|p pad']; [reflexivity|].
      rewrite Hp2.
      destruct pad' as [|? [|? [|? [|? ?]]]]; cbn [length] in Hp1;
        solve [reflexivity | lia].
    + apply Forall_forall. intros g Hg. apply in_map_iff in Hg.
      destruct Hg as [b [<- _]]. apply bitsOf_length.
    + destruct Hpad. lia.
    + rewrite length_app, length_map, <- Hbits, Hbl. lia.
Qed.

End Bech32Facts.

(** ** Splitting and joining words *)

Module StringsFacts.
Import BytesFacts.

(** A word of lower-case letters [a]..[z], at least one. *)
Definition lowerWord (w : string) : bool :=
  match ofString w with
  | [] => false
  | l => forallb Bech32.isLower l
  end.

Lemma ofString_app (s t : string) :
  ofString (s ++ t)%string = ofString s ++ ofString t.
Proof.
  unfold ofString, list_byte_of_string.
  induction s as [|c s IH]; [reflexivity|].
  cbn [String.append list_ascii_of_string map app]. f_equal. exact IH.
Qed.

Lemma spaceWidth_lower (c : byte) (rest : list byte) :
  Bech32.isLower c = true -> Strings.spaceWidth (c :: rest) = 0%nat.
Proof.
  unfold Bech32.isLower. intros H. apply andb_prop in H.
  destruct H as [H1 H2]. apply Z.leb_le in H1. apply Z.leb_le in H2.
  unfold Strings.spaceWidth. cbn [map].
  replace (b2z c =? 32) with false by (symmetry; apply Z.eqb_neq; lia).
  replace (b2z c <=? 13) with false by (symmetry; apply Z.leb_gt; lia).
  replace (b2z c =? 194) with false by (symmetry; apply Z.eqb_neq; lia).
  replace (b2z c =? 225) with false by (symmetry; apply Z.eqb_neq; lia).
  replace (b2z c =? 226) with false by (symmetry; apply Z.eqb_neq; lia).
  replace (b2z c =? 227) with false by (symmetry; apply Z.eqb_neq; lia).
  rewrite andb_false_r. cbn [orb andb].
  destruct (map b2z rest) as [|c1 [|c2 r]]; reflexivity.
Qed.

Lemma fieldsFrom_word (w : list byte) :
  forallb Bech32.isLower w = true ->
  forall cur rest,
    Strings.fieldsFrom 0 cur (w ++ rest) = Strings.fieldsFrom 0 (cur ++ w) rest.
Proof.
  induction w as [|c w IH]; intros Hw cur rest.
  - rewrite app_nil_r. reflexivity.
  - cbn [forallb] in Hw. apply andb_prop in Hw. destruct Hw as [Hc Hw].
    cbn [app Strings.fieldsFrom]. rewrite spaceWidth_lower by assumption.
    rewrite IH by assumption. rewrite <- app_assoc. reflexivity.
Qed.

Lemma fieldsFrom_space (cur rest : list byte) :
  Strings.fieldsFrom 0 cur (" "%byte :: rest)
  = Strings.flush cur ++ Strings.fieldsFrom 0 [] rest.
Proof. reflexivity. Qed.

Lemma lowerWord_bytes (w : string) :
  lowerWord w = true ->
  forallb Bech32.isLower (ofString w) = true
  /\ Strings.flush (ofString w) = [ofString w].
Proof.
  unfold lowerWord. destruct (ofString w) as [|c l]; [discriminate|].
  intros H. split; [exact H|reflexivity].
Qed.

(** Splitting the words joined by single spaces gives the words back. *)
Lemma Fields_Join (ws : list string) :
  forallb lowerWord ws = true -> Strings.Fields (Strings.Join ws " ") = ws.
Proof.
  unfold Strings.Fields, Strings.Join.
  induction ws as [|w ws IH]; intros H; [reflexivity|].
  cbn [forallb] in H. apply andb_prop in H. destruct H as [Hw Hws].
  destruct (lowerWord_bytes w Hw) as [Hl Hf].
  destruct ws as [|w' ws'].
  - cbn [String.concat]. rewrite <- (app_nil_r (ofString w)).
    rewrite fieldsFrom_word by assumption. cbn [app Strings.fieldsFrom].
    rewrite Hf. cbn [map]. rewrite toString_ofString. reflexivity.
  - cbn [String.concat]. rewrite !ofString_app.
    change (ofString " ") with [" "%byte].
    rewrite fieldsFrom_word by assumption. cbn [app].
    rewrite fieldsFrom_space, Hf. cbn [app map].
    rewrite toString_ofString. f_equal.
    apply IH. assumption.
Qed.

End StringsFacts.

(** ** Mnemonics *)

Module Bip39Facts.
Import BytesFacts StringsFacts.

Fixpoint nodupb (l : list string) : bool :=
  match l with
  | [] => true
  | x :: l' => negb (existsb (String.eqb x) l') && nodupb l'
  end.

(** What the mnemonic code relies on in a word list: 2048 different
    words of lower-case letters. *)
Definition wellFormedWordList (l : list string) : bool :=
  (length l =? 2048)%nat && forallb lowerWord l && nodupb l.

Lemma nodupb_NoDup (l : list string) : nodupb l = true -> NoDup l.
Proof.
  induction l as [|x l IH]; intros H; [constructor|].
  cbn [nodupb] in H. apply andb_prop in H. destruct H as [Hx Hl].
  constructor; [|apply IH; assumption].
  intros Hin. apply negb_true_iff in Hx.
  assert (existsb (String.eqb x) l = true).
  { apply existsb_exists. exists x. split; [assumption|apply String.eqb_refl]. }
  congruence.
Qed.

Lemma land_shift_low (D v n : Z) :
  0 <= n -> 0 <= v < 2 ^ n -> Z.land (D * 2 ^ n) v = 0.
Proof.
  intros Hn Hv. apply Z.bits_inj'. intros i Hi.
  rewrite Z.land_spec, Z.bits_0.
  destruct (Z.ltb_spec i n).
  - rewrite Z.mul_pow2_bits_low by lia. reflexivity.
  - destruct (Z.eq_dec v 0) as [->|Hv0].
    + rewrite Z.bits_0. apply andb_false_r.
    + rewrite (Z.bits_above_log2 v i); [apply andb_false_r|lia|].
      assert (Z.log2 v < n) by (apply Z.log2_lt_pow2; lia). lia.
Qed.

Lemma lor_add (a b : Z) : Z.land a b = 0 -> Z.lor a b = a + b.
Proof.
  intros H. pose proof (Z.add_lor_land a b). lia.
Qed.

Lemma land_pow2 (c m : Z) :
  0 <= m -> Z.land c (2 ^ m) = if Z.testbit c m then 2 ^ m else 0.
Proof.
  intros Hm. apply Z.bits_inj'. intros i Hi.
  rewrite Z.land_spec, Z.pow2_bits_eqb by lia.
  destruct (Z.eqb_spec m i) as [->|Hne].
  - destruct (Z.testbit c i) eqn:E.
    + rewrite Z.pow2_bits_true by lia. reflexivity.
    + rewrite Z.bits_0. reflexivity.
  - rewrite andb_false_r. destruct (Z.testbit c m).
    + rewrite Z.pow2_bits_false by lia. reflexivity.
    + rewrite Z.bits_0. reflexivity.
Qed.

(** The loop of [addChecksum]: after [k] rounds the data is followed by
    the first [k] bits of the checksum byte. *)
Lemma addChecksum_loop (c E : Z) (k : nat) :
  0 <= c < 256 -> 0 <= E -> (k <= 8)%nat ->
  fold_left
    (fun dataBigInt i =>
       let dataBigInt := dataBigInt * 2 in
       if 0 <? Z.land c (Z.shiftl 1 (7 - Z.of_nat i))
       then Z.lor dataBigInt 1
       else dataBigInt)
    (seq 0 k) E
  = E * 2 ^ Z.of_nat k + c / 2 ^ (8 - Z.of_nat k).
Proof.
  intros Hc HE. induction k as [|k IH]; intros Hk.
  - cbn [seq fold_left]. change (8 - Z.of_nat 0) with 8.
    rewrite Z.div_small by (cbn; lia). cbn. lia.
  - rewrite seq_S, fold_left_app, IH by lia. cbn [fold_left Nat.add].
    rewrite Z.shiftl_1_l, land_pow2 by lia.
    pose proof (Z.testbit_spec' c (7 - Z.of_nat k) ltac:(lia)) as Hs.
    assert (Hp : 0 < 2 ^ (7 - Z.of_nat k)) by (apply Z.pow_pos_nonneg; lia).
    assert (Hd : c / 2 ^ (8 - Z.of_nat k) = c / 2 ^ (7 - Z.of_nat k) / 2).
    { replace (8 - Z.of_nat k) with (7 - Z.of_nat k + 1) by lia.
      rewrite Z.pow_add_r, Z.div_div by lia. reflexivity. }
    replace (8 - Z.of_nat (S k)) with (7 - Z.of_nat k) by lia.
    rewrite Nat2Z.inj_succ, Z.pow_succ_r by lia. rewrite Hd.
    pose proof (Z.div_mod (c / 2 ^ (7 - Z.of_nat k)) 2 ltac:(lia)) as Hdm.
    set (q := c / 2 ^ (7 - Z.of_nat k)) in *.
    set (p := 2 ^ Z.of_nat k) in *.
    set (h := q / 2) in *. set (m := q mod 2) in *.
    destruct (Z.testbit c (7 - Z.of_nat k)); cbn [Z.b2z] in Hs.
    + destruct (Z.ltb_spec 0 (2 ^ (7 - Z.of_nat k))); [|lia].
      rewrite lor_add.
      * lia.
      * change 1 with (Z.ones 1). rewrite Z.land_ones by lia.
        change (2 ^ 1) with 2. apply Z.mod_mul. lia.
    + cbn [Z.ltb Z.compare]. lia.
Qed.

(** The eleven-bit groups of [x], the last [n] of them, most
    significant first, before [acc]. *)
Fixpoint groups11 (n : nat) (x : Z) (acc : list Z) : list Z :=
  match n with
  | O => acc
  | S n' => groups11 n' (x / 2048) (Z.land x 2047 :: acc)
  end.

Lemma groups11_acc (n : nat) :
  forall x acc, groups11 n x acc = groups11 n x [] ++ acc.
Proof.
  induction n as [|n IH]; intros x acc; [reflexivity|].
  cbn [groups11]. rewrite IH, (IH _ [_]), <- app_assoc. reflexivity.
Qed.

Lemma groups11_length (n : nat) (x : Z) : length (groups11 n x []) = n.
Proof.
  revert x. induction n as [|n IH]; intros x; [reflexivity|].
  cbn [groups11]. rewrite groups11_acc, length_app, IH. cbn. lia.
Qed.

Lemma land_2047 (x : Z) : Z.land x 2047 = x mod 2048.
Proof. change 2047 with (Z.ones 11). apply Z.land_ones. lia. Qed.

Lemma groups11_range (n : nat) (x : Z) :
  Forall (fun d => 0 <= d < 2048) (groups11 n x []).
Proof.
  revert x. induction n as [|n IH]; intros x; [constructor|].
  cbn [groups11]. rewrite groups11_acc. apply Forall_app. split; [apply IH|].
  constructor; [|constructor]. rewrite land_2047.
  apply Z.mod_pos_bound. lia.
Qed.

Lemma groups11_value (n : nat) :
  forall x acc b,
    fold_left (fun b d => b * 2048 + d) (groups11 n x acc) b
    = fold_left (fun b d => b * 2048 + d) acc
        (b * 2048 ^ Z.of_nat n + x mod 2048 ^ Z.of_nat n).
Proof.
  induction n as [|n IH]; intros x acc b.
  - cbn [groups11]. f_equal. rewrite Z.pow_0_r, Z.mod_1_r. lia.
  - cbn [groups11]. rewrite IH. cbn [fold_left]. f_equal.
    rewrite land_2047, Nat2Z.inj_succ, Z.pow_succ_r by lia.
    assert (0 < 2048 ^ Z.of_nat n) by (apply Z.pow_pos_nonneg; lia).
    rewrite (Z.rem_mul_r x 2048) by lia. lia.
Qed.

Lemma pad_BigBytes_SetBytes (l : list byte) :
  padByteSlice (BigBytes (SetBytes l)) (length l) = l.
Proof.
  pose proof (Base58Facts.split_leading x00 l) as E.
  pose proof (Base58Facts.skip_leading_hd x00 x01 l ltac:(discriminate)) as Hh.
  set (k := Base58.countLeading x00 l) in *. set (t := skipn k l) in *.
  assert (Hs : SetBytes l = SetBytes t).
  { rewrite E. apply (SetBytes_zeros k t). }
  assert (Hl : length l = (k + length t)%nat).
  { rewrite E at 1. rewrite length_app, repeat_length. reflexivity. }
  unfold padByteSlice. rewrite Hs, BigBytes_SetBytes by exact Hh.
  replace (length l - length t)%nat with k by lia.
  symmetry. exact E.
Qed.

Section WithPrimitives.
Context {P : Primitives}.

(** The word at an index. *)
Definition word (d : Z) : string := nth (Z.to_nat d) wordList EmptyString.

Lemma lookupFrom_notin (w : string) (l : list string) :
  ~ In w l -> forall i found, Bip39.lookupFrom w l i found = found.
Proof.
  induction l as [|v l IH]; intros Hn i found; [reflexivity|].
  cbn [Bip39.lookupFrom]. destruct (String.eqb_spec v w) as [->|_].
  - exfalso. apply Hn. left. reflexivity.
  - apply IH. intros H. apply Hn. right. assumption.
Qed.

Lemma lookupFrom_nth (l : list string) :
  NoDup l ->
  forall (j : nat) i found,
    (j < length l)%nat ->
    Bip39.lookupFrom (nth j l EmptyString) l i found = Some (i + Z.of_nat j).
Proof.
  induction 1 as [|v l Hv Hl IH]; intros j i found Hj; [cbn in Hj; lia|].
  cbn [Bip39.lookupFrom]. destruct j as [|j]; cbn [nth].
  - rewrite String.eqb_refl, lookupFrom_notin by assumption. f_equal. lia.
  - cbn [length] in Hj.
    destruct (String.eqb_spec v (nth j l EmptyString)) as [E|_].
    + exfalso. apply Hv. rewrite E. apply nth_In. lia.
    + rewrite IH by lia. f_equal. lia.
Qed.

Lemma lookupFrom_None (w : string) (l : list string) :
  forall i, Bip39.lookupFrom w l i None = None <-> ~ In w l.
Proof.
  induction l as [|v l IH]; intros i.
  - cbn. tauto.
  - cbn [Bip39.lookupFrom In]. destruct (String.eqb_spec v w) as [->|Hne].
    + split; [|tauto]. intros H. exfalso.
      assert (Hs : forall l j f, Bip39.lookupFrom w l j (Some f) <> None).
      { clear. induction l as [|x l IH]; intros j f; [discriminate|].
        cbn [Bip39.lookupFrom]. destruct (String.eqb x w); apply IH. }
      exact (Hs _ _ _ H).
    + rewrite IH. tauto.
Qed.

Lemma wordMap_None (w : string) : Bip39.wordMap w = None <-> ~ In w wordList.
Proof. apply lookupFrom_None. Qed.

(** The word counts a mnemonic may have. *)
Definition wordCounts : list nat := [12; 15; 18; 21; 24]%nat.

Lemma splitMnemonicWords_spec (mnemonic : string) :
  (In (length (Strings.Fields mnemonic)) wordCounts
   /\ Bip39.splitMnemonicWords mnemonic = Some (Strings.Fields mnemonic))
  \/ (~ In (length (Strings.Fields mnemonic)) wordCounts
      /\ Bip39.splitMnemonicWords mnemonic = None).
Proof.
  unfold Bip39.splitMnemonicWords, wordCounts. cbv zeta.
  set (n := length (Strings.Fields mnemonic)).
  destruct (Nat.eqb_spec (n mod 3) 0) as [H3|H3];
    destruct (Nat.ltb_spec n 12) as [Hlo|Hlo];
    destruct (Nat.ltb_spec 24 n) as [Hhi|Hhi]; cbn [negb orb In];
    try (right; split; [|reflexivity];
         intros [H|[H|[H|[H|[H|[]]]]]]; subst n; rewrite <- H in *;
         cbn in *; lia).
  left. split; [|reflexivity].
  assert (Hn : exists k, n = (12 + k)%nat /\ (k <= 12)%nat)
    by (exists (n - 12)%nat; lia).
  destruct Hn as (k & Hk & Hle). rewrite Hk in *. clear Hk Hlo Hhi.
  do 13 (destruct k as [|k]; [cbn in H3; try discriminate; cbn; tauto|]).
  lia.
Qed.

Lemma decodeWords_Error (ws : list string) :
  forall b e, Bip39.decodeWords ws b = Error e ->
    exists v, e = ErrWordNotFound v /\ In v ws /\ ~ In v wordList.
Proof.
  induction ws as [|v ws IH]; intros b e H; [discriminate|].
  cbn [Bip39.decodeWords] in H. destruct (Bip39.wordMap v) as [i|] eqn:E.
  - destruct (IH _ _ H) as (v' & -> & Hin & Hn).
    exists v'. cbn [In]. auto.
  - injection H as <-. exists v. cbn [In]. split; [reflexivity|].
    split; [auto|]. apply wordMap_None. assumption.
Qed.

Lemma decodeWords_unknown (ws : list string) (v : string) :
  In v ws -> ~ In v wordList ->
  forall b, exists e, Bip39.decodeWords ws b = Error e.
Proof.
  intros Hin Hn. induction ws as [|x ws IH]; intros b; [contradiction|].
  cbn [Bip39.decodeWords]. destruct (Bip39.wordMap x) as [i|] eqn:E.
  - destruct Hin as [->|Hin].
    + apply wordMap_None in Hn. congruence.
    + apply IH. assumption.
  - eauto.
Qed.

(** Why validation fails: the word count, a word that is not in the
    list, or the checksum. *)
Lemma EntropyFromMnemonic_Error (mnemonic : string) (e : error) :
  Bip39.EntropyFromMnemonic mnemonic = Error e ->
  (e = ErrInvalidMnemonic
   /\ ~ In (length (Strings.Fields mnemonic)) wordCounts)
  \/ (exists v, e = ErrWordNotFound v
                /\ In v (Strings.Fields mnemonic) /\ ~ In v wordList)
  \/ e = ErrChecksumIncorrect.
Proof.
  unfold Bip39.EntropyFromMnemonic.
  destruct (splitMnemonicWords_spec mnemonic) as [[_ ->]|[Hn ->]].
  - destruct (Bip39.decodeWords (Strings.Fields mnemonic) 0) as [b|e'] eqn:E.
    + cbv zeta. destruct (_ =? _); [discriminate|].
      intros H. injection H as <-. auto.
    + intros H. injection H as <-.
      right. left. eapply decodeWords_Error. eassumption.
  - intros H. injection H as <-. auto.
Qed.

Lemma invalid_word_count (mnemonic : string) :
  ~ In (length (Strings.Fields mnemonic)) wordCounts ->
  Bip39.EntropyFromMnemonic mnemonic = Error ErrInvalidMnemonic.
Proof.
  intros Hn. unfold Bip39.EntropyFromMnemonic.
  destruct (splitMnemonicWords_spec mnemonic) as [[Hin _]|[_ ->]];
    [contradiction|reflexivity].
Qed.

Lemma invalid_unknown_word (mnemonic v : string) :
  In v (Strings.Fields mnemonic) -> ~ In v wordList ->
  Bip39.IsMnemonicValid mnemonic = false.
Proof.
  intros Hin Hn. unfold Bip39.IsMnemonicValid, Bip39.EntropyFromMnemonic.
  destruct (splitMnemonicWords_spec mnemonic) as [[_ ->]|[_ ->]];
    [|reflexivity].
  destruct (decodeWords_unknown _ _ Hin Hn 0) as [e ->]. reflexivity.
Qed.

Section WordList.
Hypothesis wordList_ok : wellFormedWordList wordList = true.

Lemma wordList_facts :
  length wordList = 2048%nat
  /\ forallb lowerWord wordList = true
  /\ NoDup wordList.
Proof.
  unfold wellFormedWordList in wordList_ok.
  apply andb_prop in wordList_ok. destruct wordList_ok as [H12 H3].
  apply andb_prop in H12. destruct H12 as [H1 H2].
  apply Nat.eqb_eq in H1. apply nodupb_NoDup in H3. auto.
Qed.

Lemma wordMap_word (d : Z) : 0 <= d < 2048 -> Bip39.wordMap (word d) = Some d.
Proof.
  intros Hd. destruct wordList_facts as (Hl & _ & Hn).
  unfold Bip39.wordMap, word. rewrite lookupFrom_nth by (assumption || lia).
  f_equal. lia.
Qed.

Lemma word_lower (d : Z) : 0 <= d < 2048 -> lowerWord (word d) = true.
Proof.
  intros Hd. destruct wordList_facts as (Hl & Hw & _).
  rewrite forallb_forall in Hw. apply Hw. apply nth_In. lia.
Qed.

Lemma wordsLoop_groups (n : nat) :
  forall x ws, 0 <= x ->
    Bip39.wordsLoop n x ws = map word (groups11 n x []) ++ ws.
Proof.
  induction n as [|n IH]; intros x ws Hx; [reflexivity|].
  cbn [Bip39.wordsLoop groups11].
  assert (Hw : 0 <= Z.land x 2047) by (apply Z.land_nonneg; lia).
  rewrite SetBytes_pad by assumption.
  rewrite IH by (apply Z.div_pos; lia).
  rewrite (groups11_acc n _ [_]), map_app, <- app_assoc. reflexivity.
Qed.

Lemma decodeWords_groups (ds : list Z) :
  Forall (fun d => 0 <= d < 2048) ds ->
  forall b, Bip39.decodeWords (map word ds) b
            = Ok (fold_left (fun b d => b * 2048 + d) ds b).
Proof.
  induction 1 as [|d ds Hd _ IH]; intros b; [reflexivity|].
  cbn [map Bip39.decodeWords fold_left]. rewrite wordMap_word by assumption.
  rewrite lor_add by (apply (land_shift_low b d 11); cbn; lia).
  apply IH.
Qed.

(** The sentence of an entropy and what its parts are: [cs] checksum
    bits, [n] words. *)
Lemma mnemonic_roundtrip_gen (entropy : list byte) (L n : nat) (cs : Z) :
  length entropy = L ->
  0 <= cs <= 8 ->
  Bip39.validateEntropyBitSize (Z.of_nat L * 8) = Ok tt ->
  (L / 4)%nat = Z.to_nat cs ->
  Z.to_nat ((Z.of_nat L * 8 + Z.of_nat L * 8 / 32) / 11) = n ->
  Z.of_nat L * 8 + cs = 11 * Z.of_nat n ->
  negb (n mod 3 =? 0)%nat || (n <? 12)%nat || (24 <? n)%nat = false ->
  Bip39.wordLengthChecksumMasksMapping n = 2 ^ cs - 1 ->
  (forall c, (if (n =? 24)%nat then c
              else c / Bip39.wordLengthChecksumShiftMapping n)
             = c / 2 ^ (8 - cs)) ->
  (n / 3 * 4)%nat = L ->
  let X := SetBytes entropy * 2 ^ cs
           + b2z (nth 0 (Bip39.computeChecksum entropy) x00) / 2 ^ (8 - cs) in
  let m := Strings.Join (map word (groups11 n X [])) " " in
  Bip39.NewMnemonic entropy = Ok m
  /\ Strings.Fields m = map word (groups11 n X [])
  /\ Bip39.EntropyFromMnemonic m = Ok entropy.
Proof.
  intros Hlen Hcs Hvalid HL4 Hn Hbits Hsplit Hmask Hshift HnL X m.
  set (c := b2z (nth 0 (Bip39.computeChecksum entropy) x00)) in *.
  assert (Hc : 0 <= c < 256) by apply b2z_range.
  assert (HE : 0 <= SetBytes entropy) by apply SetBytes_nonneg.
  assert (Hpcs : 0 < 2 ^ cs) by (apply Z.pow_pos_nonneg; lia).
  assert (Hp8 : 0 < 2 ^ (8 - cs)) by (apply Z.pow_pos_nonneg; lia).
  assert (Hr : 0 <= c / 2 ^ (8 - cs) < 2 ^ cs).
  { split; [apply Z.div_pos; lia|].
    apply Z.div_lt_upper_bound; [lia|].
    rewrite <- Z.pow_add_r by lia.
    replace (8 - cs + cs) with 8 by lia. cbn. lia. }
  assert (HX : 0 <= X < 2048 ^ Z.of_nat n).
  { unfold X. split; [nia|].
    change 2048 with (2 ^ 11). rewrite <- Z.pow_mul_r by lia.
    rewrite <- Hbits, Z.pow_add_r by lia.
    pose proof (SetBytes_bound entropy) as Hb. rewrite Hlen in Hb.
    change 256 with (2 ^ 8) in Hb. rewrite <- Z.pow_mul_r in Hb by lia.
    replace (8 * Z.of_nat L) with (Z.of_nat L * 8) in Hb by lia.
    nia. }
  assert (Hnew : Bip39.NewMnemonic entropy = Ok m).
  { unfold Bip39.NewMnemonic. cbv zeta. rewrite Hlen, Hvalid, Hn.
    unfold Bip39.addChecksum. cbv zeta. rewrite Hlen, HL4.
    fold c. rewrite addChecksum_loop by lia.
    rewrite Z2Nat.id by lia. fold X.
    rewrite SetBytes_BigBytes by lia.
    rewrite wordsLoop_groups by lia. rewrite app_nil_r. reflexivity. }
  assert (Hfields : Strings.Fields m = map word (groups11 n X [])).
  { apply Fields_Join. apply forallb_forall. intros w Hw.
    apply in_map_iff in Hw. destruct Hw as [d [<- Hd]].
    apply word_lower.
    pose proof (groups11_range n X) as Hrng. rewrite Forall_forall in Hrng.
    apply Hrng. assumption. }
  split; [exact Hnew|]. split; [exact Hfields|].
  unfold Bip39.EntropyFromMnemonic, Bip39.splitMnemonicWords. cbv zeta.
  rewrite Hfields, length_map, groups11_length, Hsplit.
  rewrite decodeWords_groups by apply groups11_range.
  rewrite groups11_value. cbn [fold_left].
  rewrite Z.mul_0_l, Z.add_0_l, (Z.mod_small X) by lia.
  rewrite !length_map, !groups11_length.
  rewrite Hmask, Hshift, HnL.
  replace (2 ^ cs - 1 + 1) with (2 ^ cs) by lia.
  replace (2 ^ cs - 1) with (Z.ones cs) by (rewrite Z.ones_equiv; lia).
  rewrite Z.land_ones by lia.
  assert (HXm : X mod 2 ^ cs = c / 2 ^ (8 - cs)).
  { unfold X. rewrite Z.add_comm, Z.mod_add by lia.
    apply Z.mod_small. assumption. }
  assert (HXd : X / 2 ^ cs = SetBytes entropy).
  { unfold X. rewrite Z.div_add_l by lia.
    rewrite (Z.div_small (c / 2 ^ (8 - cs))) by lia. lia. }
  rewrite HXm, HXd. rewrite <- Hlen.
  rewrite pad_BigBytes_SetBytes. fold c.
  rewrite Z.eqb_refl. reflexivity.
Qed.

(** Every entropy of a supported size has a sentence, of three words for
    every four bytes, that validates and decodes to the entropy. *)
Lemma mnemonic_roundtrip (entropy : list byte) :
  In (length entropy) [16; 20; 24; 28; 32]%nat ->
  exists m,
    Bip39.NewMnemonic entropy = Ok m
    /\ length (Strings.Fields m) = (length entropy / 4 * 3)%nat
    /\ Bip39.EntropyFromMnemonic m = Ok entropy.
Proof.
  intros Hin.
  assert (Hgen : exists n cs,
             length (Strings.Fields
                       (Strings.Join
                          (map word
                             (groups11 n
                                (SetBytes entropy * 2 ^ cs
                                 + b2z (nth 0 (Bip39.computeChecksum entropy) x00)
                                   / 2 ^ (8 - cs)) [])) " "))
             = (length entropy / 4 * 3)%nat
             /\ Bip39.NewMnemonic entropy
                = Ok (Strings.Join
                        (map word
                           (groups11 n
                              (SetBytes entropy * 2 ^ cs
                               + b2z (nth 0 (Bip39.computeChecksum entropy) x00)
                                 / 2 ^ (8 - cs)) [])) " ")
             /\ Bip39.EntropyFromMnemonic
                  (Strings.Join
                     (map word
                        (groups11 n
                           (SetBytes entropy * 2 ^ cs
                            + b2z (nth 0 (Bip39.computeChecksum entropy) x00)
                              / 2 ^ (8 - cs)) [])) " ")
                = Ok entropy).
  { cbn [In] in Hin.
    destruct Hin as [H|[H|[H|[H|[H|[]]]]]]; symmetry in H;
      [pose proof (mnemonic_roundtrip_gen entropy _ 12%nat 4 H) as G
      |pose proof (mnemonic_roundtrip_gen entropy _ 15%nat 5 H) as G
      |pose proof (mnemonic_roundtrip_gen entropy _ 18%nat 6 H) as G
      |pose proof (mnemonic_roundtrip_gen entropy _ 21%nat 7 H) as G
      |pose proof (mnemonic_roundtrip_gen entropy _ 24%nat 8 H) as G];
      repeat match type of G with
             | ?A -> _ =>
                 let h := fresh "Hside" in
                 assert (h : A)
                   by (first [reflexivity | lia
                             | intro; cbn; rewrite ?Z.div_1_r; reflexivity]);
                 specialize (G h); clear h
             end;
      cbv zeta in G; destruct G as (Hnew & Hf & Hdec);
      do 2 eexists;
      (split; [rewrite Hf, length_map, groups11_length, H; reflexivity|]);
      (split; [exact Hnew|exact Hdec]). }
  destruct Hgen as (n & cs & Hlenf & Hnew & Hdec).
  eexists. split; [exact Hnew|]. split; assumption.
Qed.

(** *** Valid mnemonics are the sentences of entropies *)

Lemma lookupFrom_Some (w : string) (l : list string) :
  forall i found j,
    Bip39.lookupFrom w l i found = Some j ->
    found = Some j
    \/ (i <= j < i + Z.of_nat (length l)
        /\ nth (Z.to_nat (j - i)) l EmptyString = w).
Proof.
  induction l as [|v l IH]; intros i found j H; [left; exact H|].
  cbn [Bip39.lookupFrom] in H. apply IH in H. cbn [length].
  destruct H as [H|[Hr Hn]].
  - destruct (String.eqb_spec v w) as [->|_]; [|left; exact H].
    injection H as <-. right. split; [lia|].
    rewrite Z.sub_diag. reflexivity.
  - right. split; [lia|].
    replace (Z.to_nat (j - i)) with (S (Z.to_nat (j - (i + 1)))) by lia.
    exact Hn.
Qed.

Lemma wordMap_Some (w : string) (i : Z) :
  Bip39.wordMap w = Some i -> 0 <= i < 2048 /\ word i = w.
Proof.
  intros H. destruct wordList_facts as (Hl & _ & _).
  apply lookupFrom_Some in H. destruct H as [H|[Hr Hn]]; [discriminate|].
  rewrite Hl in Hr. rewrite Z.sub_0_r in Hn. split; [lia|exact Hn].
Qed.

Lemma decodeWords_Ok (ws : list string) :
  forall b0 b,
    Bip39.decodeWords ws b0 = Ok b ->
    exists ds,
      Forall (fun d => 0 <= d < 2048) ds
      /\ ws = map word ds
      /\ b = fold_left (fun b d => b * 2048 + d) ds b0.
Proof.
  induction ws as [|v ws IH]; intros b0 b H.
  - injection H as <-. exists []. repeat split. constructor.
  - cbn [Bip39.decodeWords] in H.
    destruct (Bip39.wordMap v) as [i|] eqn:E; [|discriminate].
    apply wordMap_Some in E. destruct E as [Hi Hw].
    rewrite lor_add in H by (apply (land_shift_low b0 i 11); cbn; lia).
    destruct (IH _ _ H) as (ds & Hr & -> & ->).
    exists (i :: ds). split; [constructor; assumption|].
    split; [cbn [map]; rewrite Hw; reflexivity|reflexivity].
Qed.

Lemma groups11_fold (ds : list Z) :
  Forall (fun d => 0 <= d < 2048) ds ->
  forall acc,
    groups11 (length ds) (fold_left (fun b d => b * 2048 + d) ds 0) acc
    = ds ++ acc.
Proof.
  induction ds as [|d ds IH] using rev_ind; intros Hr acc; [reflexivity|].
  apply Forall_app in Hr. destruct Hr as [Hr Hd]. inversion Hd; subst.
  rewrite length_app, fold_left_app. cbn [length fold_left].
  rewrite Nat.add_1_r. cbn [groups11].
  rewrite land_2047.
  set (x := fold_left (fun b d => b * 2048 + d) ds 0) in *.
  assert (Hq : (x * 2048 + d) / 2048 = x)
    by (rewrite Z.div_add_l, (Z.div_small d) by lia; lia).
  assert (Hm : (x * 2048 + d) mod 2048 = d)
    by (rewrite (Z.add_comm (x * 2048)), Z.mod_add by lia;
        apply Z.mod_small; lia).
  rewrite Hq, Hm, IH by assumption.
  rewrite <- app_assoc. reflexivity.
Qed.

(** A mnemonic that decodes to an entropy has the words of that
    entropy's sentence. *)
Lemma valid_sentence_gen (mnemonic : string) (entropy : list byte)
  (L n : nat) (cs : Z) :
  length (Strings.Fields mnemonic) = n ->
  0 <= cs <= 8 ->
  Bip39.validateEntropyBitSize (Z.of_nat L * 8) = Ok tt ->
  (L / 4)%nat = Z.to_nat cs ->
  Z.to_nat ((Z.of_nat L * 8 + Z.of_nat L * 8 / 32) / 11) = n ->
  Z.of_nat L * 8 + cs = 11 * Z.of_nat n ->
  negb (n mod 3 =? 0)%nat || (n <? 12)%nat || (24 <? n)%nat = false ->
  Bip39.wordLengthChecksumMasksMapping n = 2 ^ cs - 1 ->
  (forall c, (if (n =? 24)%nat then c
              else c / Bip39.wordLengthChecksumShiftMapping n)
             = c / 2 ^ (8 - cs)) ->
  (n / 3 * 4)%nat = L ->
  Bip39.EntropyFromMnemonic mnemonic = Ok entropy ->
  exists m',
    Bip39.NewMnemonic entropy = Ok m'
    /\ Strings.Fields m' = Strings.Fields mnemonic.
Proof.
  intros Hn Hcs Hvalid HL4 HnZ Hbits Hsplit Hmask Hshift HnL H.
  unfold Bip39.EntropyFromMnemonic, Bip39.splitMnemonicWords in H.
  cbv zeta in H. rewrite Hn, Hsplit in H.
  destruct (Bip39.decodeWords (Strings.Fields mnemonic) 0) as [b|e] eqn:E;
    [|discriminate].
  apply decodeWords_Ok in E. destruct E as (ds & Hr & Hws & Hb).
  assert (Hlen : length ds = n).
  { rewrite <- Hn, Hws, length_map. reflexivity. }
  rewrite Hn, Hmask, Hshift, HnL in H.
  replace (2 ^ cs - 1 + 1) with (2 ^ cs) in H by lia.
  replace (2 ^ cs - 1) with (Z.ones cs) in H by (rewrite Z.ones_equiv; lia).
  rewrite Z.land_ones in H by lia.
  assert (Hpcs : 0 < 2 ^ cs) by (apply Z.pow_pos_nonneg; lia).
  assert (Hbr : 0 <= b < 2048 ^ Z.of_nat n).
  { rewrite Hb, <- Hlen. split.
    - apply (undigits_nonneg 2048 ds); [lia|assumption].
    - apply (undigits_bound 2048 ds); [lia|assumption]. }
  assert (HE : 0 <= b / 2 ^ cs < 256 ^ Z.of_nat L).
  { split; [apply Z.div_pos; lia|].
    apply Z.div_lt_upper_bound; [lia|].
    change 256 with (2 ^ 8). rewrite <- Z.pow_mul_r, <- Z.pow_add_r by lia.
    replace (cs + 8 * Z.of_nat L) with (11 * Z.of_nat n) by lia.
    rewrite Z.pow_mul_r by lia. exact (proj2 Hbr). }
  set (ent := padByteSlice (BigBytes (b / 2 ^ cs)) L) in *.
  assert (HentL : length ent = L)
    by (apply padByteSlice_length, BigBytes_length; exact HE).
  assert (HentV : SetBytes ent = b / 2 ^ cs)
    by (apply SetBytes_pad; lia).
  destruct (Z.eqb_spec (b mod 2 ^ cs)
              (b2z (nth 0 (Bip39.computeChecksum ent) x00) / 2 ^ (8 - cs)))
    as [Hck|_]; [|discriminate].
  injection H as <-.
  destruct (mnemonic_roundtrip_gen ent L n cs HentL Hcs Hvalid HL4 HnZ Hbits
              Hsplit Hmask Hshift HnL) as (Hnew & Hf & _).
  eexists. split; [exact Hnew|].
  rewrite Hf, HentV, <- Hck.
  replace (b / 2 ^ cs * 2 ^ cs + b mod 2 ^ cs) with b
    by (pose proof (Z.div_mod b (2 ^ cs)); lia).
  rewrite Hb, <- Hlen, groups11_fold, app_nil_r by assumption.
  symmetry. exact Hws.
Qed.

Lemma EntropyFromMnemonic_Fields (m m' : string) :
  Strings.Fields m = Strings.Fields m' ->
  Bip39.EntropyFromMnemonic m = Bip39.EntropyFromMnemonic m'.
Proof.
  intros H. unfold Bip39.EntropyFromMnemonic, Bip39.splitMnemonicWords.
  rewrite H. reflexivity.
Qed.

Lemma NewMnemonic_size (entropy : list byte) (m : string) :
  Bip39.NewMnemonic entropy = Ok m ->
  In (length entropy) [16; 20; 24; 28; 32]%nat.
Proof.
  unfold Bip39.NewMnemonic, Bip39.validateEntropyBitSize. cbv zeta.
  set (L := length entropy).
  destruct (Z.eqb_spec ((Z.of_nat L * 8) mod 32) 0) as [H32|]; [|discriminate].
  destruct (Z.ltb_spec (Z.of_nat L * 8) 128); [discriminate|].
  destruct (Z.ltb_spec 256 (Z.of_nat L * 8)); [discriminate|].
  intros _. cbn [In].
  assert (HL : exists k, L = (16 + k)%nat /\ (k <= 16)%nat)
    by (exists (L - 16)%nat; lia).
  destruct HL as (k & -> & Hk).
  do 17 (destruct k as [|k]; [cbn in H32; try discriminate; tauto|]).
  lia.
Qed.

(** A mnemonic validates exactly when its words are those of the
    sentence of some entropy. *)
Lemma valid_iff_sentence (mnemonic : string) :
  Bip39.IsMnemonicValid mnemonic = true <->
  exists entropy m',
    Bip39.NewMnemonic entropy = Ok m'
    /\ Strings.Fields mnemonic = Strings.Fields m'.
Proof.
  split.
  - unfold Bip39.IsMnemonicValid.
    destruct (Bip39.EntropyFromMnemonic mnemonic) as [entropy|e] eqn:E;
      [|discriminate].
    intros _. exists entropy.
    destruct (splitMnemonicWords_spec mnemonic) as [[Hin _]|[_ Hs]].
    + unfold wordCounts in Hin. cbn [In] in Hin.
      assert (G : exists m', Bip39.NewMnemonic entropy = Ok m'
                             /\ Strings.Fields m' = Strings.Fields mnemonic).
      { destruct Hin as [H|[H|[H|[H|[H|[]]]]]]; symmetry in H;
          [pose proof (valid_sentence_gen mnemonic entropy 16%nat _ 4 H) as G
          |pose proof (valid_sentence_gen mnemonic entropy 20%nat _ 5 H) as G
          |pose proof (valid_sentence_gen mnemonic entropy 24%nat _ 6 H) as G
          |pose proof (valid_sentence_gen mnemonic entropy 28%nat _ 7 H) as G
          |pose proof (valid_sentence_gen mnemonic entropy 32%nat _ 8 H) as G];
          repeat match type of G with
                 | Bip39.EntropyFromMnemonic _ = _ -> _ => fail 1
                 | ?A -> _ =>
                     let h := fresh "Hside" in
                     assert (h : A)
                       by (first [reflexivity | lia
                                 | intro; cbn; rewrite ?Z.div_1_r; reflexivity]);
                     specialize (G h); clear h
                 end;
          exact (G E). }
      destruct G as (m' & Hnew & Hf). exists m'. auto.
    + unfold Bip39.EntropyFromMnemonic in E. rewrite Hs in E. discriminate.
  - intros (entropy & m' & Hnew & Hf).
    destruct (mnemonic_roundtrip entropy (NewMnemonic_size _ _ Hnew))
      as (m'' & Hnew' & _ & Hdec).
    rewrite Hnew in Hnew'. injection Hnew' as <-.
    unfold Bip39.IsMnemonicValid.
    rewrite (EntropyFromMnemonic_Fields _ _ Hf), Hdec. reflexivity.
Qed.

End WordList.
End WithPrimitives.
End Bip39Facts.

(** ** Addresses, WIF and seeds *)

Module EncodingFacts.
Import BytesFacts.

(** *** Segwit addresses *)

Lemma list_eq_dec_refl (l : list byte) :
  (if list_eq_dec Byte.byte_eq_dec l l then true else false) = true.
Proof. destruct (list_eq_dec Byte.byte_eq_dec l l); congruence. Qed.

(** A 20-byte program encodes under the prefix [kcn], and the address
    decodes to witness version 0 and the program. *)
Lemma segwit_roundtrip (prog : list byte) :
  length prog = 20%nat ->
  exists bech conv,
    Btcutil.encodeSegWitAddress "kcn" x00 prog = Ok bech
    /\ Bech32.Decode bech = Ok (ofString "kcn", x00 :: conv)
    /\ Bech32.ConvertBits conv 5 8 false = Ok prog
    /\ Btcutil.decodeSegWitAddress bech = Ok (x00, prog).
Proof.
  intros Hlen.
  destruct (Bech32Facts.ConvertBits_roundtrip prog)
    as (conv & Hconv & Hval & Hclen & Hback).
  destruct (Bech32Facts.bech32_Decode_Encode "kcn" (x00 :: conv))
    as (bech & Henc & Hdec).
  - discriminate.
  - reflexivity.
  - constructor; [cbn; lia|assumption].
  - cbn [length ofString]. change (length (ofString "kcn")) with 3%nat.
    cbn [length]. lia.
  - assert (Hseg : Btcutil.decodeSegWitAddress bech = Ok (x00, prog)).
    { unfold Btcutil.decodeSegWitAddress. rewrite Hdec.
      change (16 <? b2z x00) with false. cbv iota.
      rewrite Hback, Hlen. reflexivity. }
    exists bech, conv. repeat split; try assumption.
    unfold Btcutil.encodeSegWitAddress. rewrite Hconv, Henc, Hseg.
    rewrite list_eq_dec_refl. reflexivity.
Qed.

Section WithPrimitives.
Context {P : Primitives}.

(** *** Base58check *)

Lemma checksum_length (b : list byte) : length (Btcutil.checksum b) = 4%nat.
Proof.
  unfold Btcutil.checksum, Btcutil.DoubleHashB, take.
  rewrite length_firstn, elems_len. reflexivity.
Qed.

(** Decoding a base58check string gives the payload and the version it
    was made from. *)
Lemma CheckDecode_CheckEncode (input : list byte) (version : byte) :
  Btcutil.CheckDecode (Btcutil.CheckEncode input version) = Ok (input, version).
Proof.
  unfold Btcutil.CheckDecode, Btcutil.CheckEncode.
  rewrite Base58Facts.Decode_Encode.
  set (b := version :: input).
  assert (Hl : length (b ++ Btcutil.checksum b) = (length b + 4)%nat)
    by (rewrite length_app, checksum_length; reflexivity).
  rewrite Hl. replace (length b + 4 - 4)%nat with (length b) by lia.
  destruct (Nat.ltb_spec (length b + 4) 5) as [Hlt|_];
    [unfold b in Hlt; cbn [length] in Hlt; lia|].
  unfold take, drop.
  rewrite firstn_app, firstn_all, Nat.sub_diag, firstn_O, app_nil_r.
  rewrite skipn_app, skipn_all, Nat.sub_diag. cbn [app skipn].
  destruct (list_eq_dec Byte.byte_eq_dec (Btcutil.checksum b)
              (Btcutil.checksum b)) as [_|Hne]; [|contradiction].
  reflexivity.
Qed.

(** *** PBKDF2 *)

(** As RFC 8018 states PBKDF2: [U_1 = PRF(P, S ‖ INT(i))],
    [U_j = PRF(P, U_(j-1))]; here [Uj j] is [U_(j+1)]. *)
Fixpoint Uj (prf : list byte -> list byte) (salt : list byte) (i : Z)
  (j : nat) : list byte :=
  match j with
  | O => prf (salt ++ PutUint32 i)
  | S j' => prf (Uj prf salt i j')
  end.

(** [T_i = U_1 xor U_2 xor ... xor U_c]. *)
Definition Tspec (prf : list byte -> list byte) (salt : list byte) (c : nat)
  (i : Z) : list byte :=
  fold_left xorBytes (map (Uj prf salt i) (seq 1 (c - 1))) (Uj prf salt i 0).

Lemma rounds_spec (prf : list byte -> list byte) (salt : list byte) (i : Z)
  (n : nat) :
  forall (k : nat) (T : list byte),
    Pbkdf2.rounds prf n (Uj prf salt i k) T
    = fold_left xorBytes (map (Uj prf salt i) (seq (S k) n)) T.
Proof.
  induction n as [|n IH]; intros k T; [reflexivity|].
  cbn [Pbkdf2.rounds seq map fold_left].
  change (prf (Uj prf salt i k)) with (Uj prf salt i (S k)).
  apply IH.
Qed.

Lemma block_spec (prf : list byte -> list byte) (salt : list byte) (c : nat)
  (i : Z) :
  Pbkdf2.block prf salt c i = Tspec prf salt c i.
Proof.
  unfold Pbkdf2.block, Tspec. cbv zeta.
  change (prf (salt ++ PutUint32 i)) with (Uj prf salt i 0).
  apply rounds_spec.
Qed.

Lemma hmacSha512_length (key msg : list byte) :
  length (Pbkdf2.hmacSha512 key msg) = 64%nat.
Proof. unfold Pbkdf2.hmacSha512. cbv zeta. apply elems_len. Qed.

Lemma xorBytes_length (a b : list byte) :
  length a = length b -> length (xorBytes a b) = length a.
Proof.
  revert b. induction a as [|x a IH]; intros [|y b] H; cbn in *;
    try lia. rewrite IH by lia. reflexivity.
Qed.

Lemma Uj_length (key salt : list byte) (i : Z) (j : nat) :
  length (Uj (Pbkdf2.hmacSha512 key) salt i j) = 64%nat.
Proof. destruct j; apply hmacSha512_length. Qed.

Lemma Tspec_length (key salt : list byte) (c : nat) (i : Z) :
  length (Tspec (Pbkdf2.hmacSha512 key) salt c i) = 64%nat.
Proof.
  unfold Tspec.
  assert (H : forall js T, length T = 64%nat ->
            length (fold_left xorBytes
                      (map (Uj (Pbkdf2.hmacSha512 key) salt i) js) T)
            = 64%nat).
  { induction js as [|j js IH]; intros T HT; [assumption|].
    cbn [map fold_left]. apply IH.
    rewrite xorBytes_length; [assumption|]. rewrite Uj_length. assumption. }
  apply H. apply Uj_length.
Qed.

(** The seed: one block of PBKDF2-HMAC-SHA512 over the mnemonic with
    salt ["mnemonic" + passphrase], 2048 iterations. *)
Lemma NewSeed_spec (mnemonic password : string) :
  Bip39.NewSeed mnemonic password
  = Tspec (Pbkdf2.hmacSha512 (ofString mnemonic))
      (ofString "mnemonic" ++ ofString password) 2048 1.
Proof.
  unfold Bip39.NewSeed, Pbkdf2.Key. cbv zeta.
  change ((64 + 64 - 1) / 64)%nat with 1%nat.
  cbn [seq flat_map]. rewrite app_nil_r, block_spec.
  rewrite StringsFacts.ofString_app.
  unfold take. apply firstn_all2. rewrite Tspec_length. lia.
Qed.

Lemma NewSeed_length (mnemonic password : string) :
  length (Bip39.NewSeed mnemonic password) = 64%nat.
Proof. rewrite NewSeed_spec. apply Tspec_length. Qed.

End WithPrimitives.
End EncodingFacts.

(** ** The wallet file *)

Module WalletFacts.
Import BytesFacts.

(** The child indices the two entry points pass to [Derive], in
    order. *)
Definition walletPath : list Z :=
  [Hdkeychain.HardenedKeyStart + 44; Hdkeychain.HardenedKeyStart + 2;
   Hdkeychain.HardenedKeyStart + 0; 0; 0].

(** A number in decimal. *)
Definition decimal (x : Z) : string :=
  match digits 10 x with
  | [] => "0"
  | ds => toString (map (fun d => z2b (48 + d)) ds)
  end.

(** The usual notation of a derivation path: [m], then each index
    without its hardened bit, with an apostrophe when it is hardened. *)
Definition showIndex (i : Z) : string :=
  (decimal (i mod Hdkeychain.HardenedKeyStart)
   ++ (if Hdkeychain.isChildHardened i then "'" else ""))%string.

Definition showPath (path : list Z) : string :=
  ("m" ++ String.concat "" (map (fun i => "/" ++ showIndex i) path))%string.

Lemma showPath_walletPath : showPath walletPath = "m/44'/2'/0'/0/0"%string.
Proof. reflexivity. Qed.

Definition walletOf {A} (r : Result A * World) : option A :=
  match fst r with
  | Ok a => Some a
  | Error _ => None
  end.

Definition errorOf {A} (r : Result A * World) : option error :=
  match fst r with
  | Ok _ => None
  | Error e => Some e
  end.

Section WithPrimitives.
Context {P : Primitives}.

(** Child derivation along a path. *)
Fixpoint DerivePath (k : Hdkeychain.ExtendedKey) (path : list Z)
  : Result Hdkeychain.ExtendedKey :=
  match path with
  | [] => Ok k
  | i :: path' =>
      match Hdkeychain.Derive k i with
      | Ok child => DerivePath child path'
      | Error e => Error e
      end
  end.

(** The wallet of a mnemonic and the extended key of its address. *)
Definition walletOfKey (mnemonic : string) (addressKey : Hdkeychain.ExtendedKey)
  : Wallet :=
  let privKey := Btcec.PrivKeyFromBytes (Hdkeychain.key addressKey) in
  let pubKey := Btcec.SerializeCompressed (Btcec.PubKey privKey) in
  let pubKeyHash := Btcutil.Hash160 pubKey in
  {| Mnemonic := mnemonic;
     PrivateKeyHex := Hex.EncodeToString (Btcec.Serialize privKey);
     PrivateKeyWIF :=
       Btcutil.WIFString
         {| Btcutil.PrivKey := privKey; Btcutil.CompressPubKey := true;
            Btcutil.netID := z2b 28 |};
     PublicKeyHex := Hex.EncodeToString pubKey;
     LegacyAddress := Btcutil.CheckEncode (take 20 pubKeyHash) (z2b 45);
     SegWitAddress :=
       match Btcutil.encodeSegWitAddress "kcn" x00 pubKeyHash with
       | Ok str => str
       | Error _ => EmptyString
       end;
     PublicKeyHash := Hex.EncodeToString pubKeyHash;
     DerivationPath := "m/44'/2'/0'/0/0" |}.

(** What both entry points do once they hold a mnemonic and its seed. *)
Definition fromSeed (mnemonic : string) (seed : list byte) : Result Wallet :=
  match Hdkeychain.NewMaster seed KernelcoinParams with
  | Error e => Error (Errorfw "failed to create master key" e)
  | Ok masterKey =>
  match Hdkeychain.Derive masterKey (Hdkeychain.HardenedKeyStart + 44) with
  | Error e => Error (Errorfw "failed to derive purpose" e)
  | Ok purpose =>
  match Hdkeychain.Derive purpose (Hdkeychain.HardenedKeyStart + 2) with
  | Error e => Error (Errorfw "failed to derive coin type" e)
  | Ok coinType =>
  match Hdkeychain.Derive coinType (Hdkeychain.HardenedKeyStart + 0) with
  | Error e => Error (Errorfw "failed to derive account" e)
  | Ok account =>
  match Hdkeychain.Derive account 0 with
  | Error e => Error (Errorfw "failed to derive change" e)
  | Ok change =>
  match Hdkeychain.Derive change 0 with
  | Error e => Error (Errorfw "failed to derive address key" e)
  | Ok addressKey => Ok (walletOfKey mnemonic addressKey)
  end end end end end end.

Local Abbreviation fromMnemonic mnemonic :=
  (fromSeed mnemonic (Bip39.NewSeed mnemonic "")).

Lemma pair_fst_eq {A B} (a c : A) (b d : B) : (a, b) = (c, d) -> a = c.
Proof. intros H. injection H as H _. exact H. Qed.

Lemma pair_snd_eq {A B} (a c : A) (b d : B) : (a, b) = (c, d) -> b = d.
Proof. intros H. injection H as _ H. exact H. Qed.

Lemma bind_pure_wrap {A B} (r : Result A) (msg : string) (k : A -> M B)
  (w : World) :
  bind (orWrap (pure r) msg) k w
  = match r with
    | Ok a => k a w
    | Error e => (Error (Errorfw msg e), w)
    end.
Proof. unfold bind, orWrap, pure. destruct r; reflexivity. Qed.

Lemma Hash160_length (b : list byte) : length (Btcutil.Hash160 b) = 20%nat.
Proof. unfold Btcutil.Hash160. apply elems_len. Qed.

(** After the address key is derived nothing can fail. *)
Lemma assemble_eq (mnemonic : string) (addressKey : Hdkeychain.ExtendedKey)
  (w : World) :
  (privKey <- pure (Hdkeychain.ECPrivKey addressKey)
                or "failed to get private key" ;;
   wif <- pure (Btcutil.NewWIF privKey KernelcoinParams true)
            or "failed to create WIF" ;;
   let pubKey := Btcec.PubKey privKey in
   let pubKeyHash := Btcutil.Hash160 (Btcec.SerializeCompressed pubKey) in
   legacyAddr <- pure (Btcutil.NewAddressPubKeyHash pubKeyHash KernelcoinParams)
                   or "failed to create legacy address" ;;
   bech32Addr <- pure (Btcutil.NewAddressWitnessPubKeyHash pubKeyHash
                         KernelcoinParams)
                   or "failed to create bech32 address" ;;
   ret {| Mnemonic := mnemonic;
          PrivateKeyHex := Hex.EncodeToString (Btcec.Serialize privKey);
          PrivateKeyWIF := Btcutil.WIFString wif;
          PublicKeyHex := Hex.EncodeToString (Btcec.SerializeCompressed pubKey);
          LegacyAddress := Btcutil.EncodeAddressPubKeyHash legacyAddr;
          SegWitAddress := Btcutil.EncodeAddressWitnessPubKeyHash bech32Addr;
          PublicKeyHash := Hex.EncodeToString pubKeyHash;
          DerivationPath := "m/44'/2'/0'/0/0" |})%go w
  = (Ok (walletOfKey mnemonic addressKey), w).
Proof.
  rewrite bind_pure_wrap. unfold Hdkeychain.ECPrivKey.
  rewrite bind_pure_wrap. unfold Btcutil.NewWIF. cbv zeta.
  rewrite bind_pure_wrap. unfold Btcutil.NewAddressPubKeyHash.
  rewrite Hash160_length. cbn [Nat.eqb negb].
  rewrite bind_pure_wrap. unfold Btcutil.NewAddressWitnessPubKeyHash.
  rewrite Hash160_length. cbn [Nat.eqb negb].
  reflexivity.
Qed.

Lemma GenerateWalletFromMnemonic_eq (mnemonic : string) (w : World) :
  GenerateWalletFromMnemonic mnemonic w
  = (if Bip39.IsMnemonicValid mnemonic then fromMnemonic mnemonic
     else Error (Errorf "invalid mnemonic phrase"), w).
Proof.
  unfold GenerateWalletFromMnemonic, fromSeed.
  destruct (Bip39.IsMnemonicValid mnemonic); [|reflexivity].
  cbn [negb]. cbv zeta.
  repeat (rewrite bind_pure_wrap;
          match goal with
          | |- context [match ?r with Ok _ => _ | Error _ => _ end] =>
              destruct r; [|reflexivity]
          end).
  apply assemble_eq.
Qed.

Lemma GenerateNewWallet_eq (w : World) :
  GenerateNewWallet w
  = if (length w <? 16)%nat
    then (Error (Errorfw "failed to generate entropy" ErrEntropySource), w)
    else
      match Bip39.NewMnemonic (firstn 16 w) with
      | Error e => (Error (Errorfw "failed to generate mnemonic" e), skipn 16 w)
      | Ok mnemonic => (fromMnemonic mnemonic, skipn 16 w)
      end.
Proof.
  unfold GenerateNewWallet, fromSeed.
  unfold bind at 1. unfold orWrap at 1.
  unfold Bip39.NewEntropy, Bip39.validateEntropyBitSize.
  cbn [Z.modulo Z.eqb Z.ltb negb orb Z.div_eucl Z.pos_div_eucl Z.compare
       Pos.compare Pos.compare_cont Z.leb Z.add Z.mul Z.sub Z.opp Z.pos_sub
       Z.succ_double Z.double Z.pred_double Pos.pred_double Pos.mul Pos.add
       Pos.succ fst snd].
  change (Z.to_nat (128 / 8)) with 16%nat.
  unfold Rand.Read.
  destruct (length w <? 16)%nat; [reflexivity|].
  rewrite bind_pure_wrap.
  destruct (Bip39.NewMnemonic (firstn 16 w)) as [mnemonic|e]; [|reflexivity].
  cbv zeta.
  repeat (rewrite bind_pure_wrap;
          match goal with
          | |- context [match ?r with Ok _ => _ | Error _ => _ end] =>
              destruct r; [|reflexivity]
          end).
  apply assemble_eq.
Qed.

(** *** Keys along the path *)

(** The data [Derive] authenticates for child [i] of [k]. *)
Definition deriveData (k : Hdkeychain.ExtendedKey) (i : Z) : list byte :=
  (if Hdkeychain.isChildHardened i
   then zeros (33 - length (Hdkeychain.key k)) ++ Hdkeychain.key k
   else Hdkeychain.pubKeyBytes k) ++ PutUint32 i.

Lemma Derive_Ok (k c : Hdkeychain.ExtendedKey) (i : Z) :
  Hdkeychain.Derive k i = Ok c ->
  let ilr := Pbkdf2.hmacSha512 (Hdkeychain.chainCode k) (deriveData k i) in
  Hdkeychain.key c
  = BigBytes ((SetBytes (take 32 ilr) + SetBytes (Hdkeychain.key k))
              mod Btcec.N)
  /\ Hdkeychain.chainCode c = drop 32 ilr
  /\ Hdkeychain.depth c = Hdkeychain.depth k + 1
  /\ Hdkeychain.childNum c = i.
Proof.
  unfold Hdkeychain.Derive. fold (deriveData k i). cbv zeta.
  rewrite EncodingFacts.hmacSha512_length.
  change (64 / 2)%nat with 32%nat.
  destruct (Hdkeychain.depth k =? 255); [discriminate|].
  destruct (Btcec.N <=? _); [discriminate|].
  destruct (_ =? 0); [discriminate|].
  intros H. injection H as <-. cbn. repeat split.
Qed.

Lemma NewMaster_depth (seed : list byte) (k : Hdkeychain.ExtendedKey) :
  Hdkeychain.NewMaster seed KernelcoinParams = Ok k -> Hdkeychain.depth k = 0.
Proof.
  unfold Hdkeychain.NewMaster. cbv zeta.
  destruct (_ || _)%bool; [discriminate|].
  destruct (_ || _)%bool; [discriminate|].
  intros H. injection H as <-. reflexivity.
Qed.


(** A wallet comes from a master key and the five derivations. *)
Lemma fromSeed_Ok (mnemonic : string) (seed : list byte) (wallet : Wallet) :
  fromSeed mnemonic seed = Ok wallet <->
  exists masterKey purpose coinType account change addressKey,
    Hdkeychain.NewMaster seed KernelcoinParams = Ok masterKey
    /\ Hdkeychain.Derive masterKey (Hdkeychain.HardenedKeyStart + 44) = Ok purpose
    /\ Hdkeychain.Derive purpose (Hdkeychain.HardenedKeyStart + 2) = Ok coinType
    /\ Hdkeychain.Derive coinType (Hdkeychain.HardenedKeyStart + 0) = Ok account
    /\ Hdkeychain.Derive account 0 = Ok change
    /\ Hdkeychain.Derive change 0 = Ok addressKey
    /\ wallet = walletOfKey mnemonic addressKey.
Proof.
  unfold fromSeed. split.
  - intros H.
    destruct (Hdkeychain.NewMaster _ _) as [k0|] eqn:H0; [|discriminate].
    destruct (Hdkeychain.Derive k0 _) as [k1|] eqn:H1; [|discriminate].
    destruct (Hdkeychain.Derive k1 _) as [k2|] eqn:H2; [|discriminate].
    destruct (Hdkeychain.Derive k2 _) as [k3|] eqn:H3; [|discriminate].
    destruct (Hdkeychain.Derive k3 _) as [k4|] eqn:H4; [|discriminate].
    destruct (Hdkeychain.Derive k4 _) as [k5|] eqn:H5; [|discriminate].
    injection H as <-.
    exists k0, k1, k2, k3, k4, k5. auto 10.
  - intros (k0 & k1 & k2 & k3 & k4 & k5 & H0 & H1 & H2 & H3 & H4 & H5 & ->).
    rewrite H0, H1, H2, H3, H4, H5. reflexivity.
Qed.

Lemma fromSeed_path (mnemonic : string) (seed : list byte) (wallet : Wallet) :
  fromSeed mnemonic seed = Ok wallet <->
  exists masterKey addressKey,
    Hdkeychain.NewMaster seed KernelcoinParams = Ok masterKey
    /\ DerivePath masterKey walletPath = Ok addressKey
    /\ wallet = walletOfKey mnemonic addressKey.
Proof.
  rewrite fromSeed_Ok. unfold walletPath. cbn [DerivePath]. split.
  - intros (k0 & k1 & k2 & k3 & k4 & k5 & H0 & H1 & H2 & H3 & H4 & H5 & ->).
    exists k0, k5. rewrite H1, H2, H3, H4, H5. auto.
  - intros (k0 & k5 & H0 & H & ->).
    destruct (Hdkeychain.Derive k0 _) as [k1|] eqn:H1; [|discriminate].
    destruct (Hdkeychain.Derive k1 _) as [k2|] eqn:H2; [|discriminate].
    destruct (Hdkeychain.Derive k2 _) as [k3|] eqn:H3; [|discriminate].
    destruct (Hdkeychain.Derive k3 _) as [k4|] eqn:H4; [|discriminate].
    destruct (Hdkeychain.Derive k4 _) as [k5'|] eqn:H5; [|discriminate].
    injection H as ->.
    exists k0, k1, k2, k3, k4, k5. auto 10.
Qed.

(** Every failure after validation wraps the failure of a call. *)
Lemma fromSeed_Error (mnemonic : string) (seed : list byte) (e : error) :
  fromSeed mnemonic seed = Error e -> exists msg e', e = Errorfw msg e'.
Proof.
  unfold fromSeed. intros H.
  repeat match type of H with
         | match ?r with Ok _ => _ | Error _ => _ end = Error _ =>
             destruct r; [|injection H as <-; eauto]
         end.
  discriminate.
Qed.

(** A wallet returned by either entry point, seen from its mnemonic. *)
Definition returned (wallet : Wallet) : Prop :=
  (exists w w', GenerateNewWallet w = (Ok wallet, w'))
  \/ (exists mnemonic w w',
        GenerateWalletFromMnemonic mnemonic w = (Ok wallet, w')).

Lemma returned_fromMnemonic (wallet : Wallet) :
  returned wallet -> fromMnemonic (Mnemonic wallet) = Ok wallet.
Proof.
  assert (Hm : forall m wl, fromMnemonic m = Ok wl -> Mnemonic wl = m).
  { intros m wl H. apply fromSeed_path in H.
    destruct H as (? & ? & _ & _ & ->). reflexivity. }
  intros [(w & w' & H)|(m & w & w' & H)].
  - rewrite GenerateNewWallet_eq in H.
    destruct (length w <? 16)%nat; [apply pair_fst_eq in H; discriminate|].
    destruct (Bip39.NewMnemonic (firstn 16 w)) as [m|e];
      apply pair_fst_eq in H; [|discriminate].
    rewrite (Hm _ _ H). exact H.
  - rewrite GenerateWalletFromMnemonic_eq in H. apply pair_fst_eq in H.
    destruct (Bip39.IsMnemonicValid m); [|discriminate].
    rewrite (Hm _ _ H). exact H.
Qed.

(** *** The two entry points *)

(** C1 — determinism of [GenerateWalletFromMnemonic]: for every mnemonic
    (valid or not), calls in any two states of the random source return
    the same result, so the same mnemonic, private-key hex, WIF,
    public-key hex, legacy address, segwit address, public-key hash and
    derivation path; the call reads nothing from the random source and
    its result is a function of the mnemonic alone. *)
Theorem GenerateWalletFromMnemonic_deterministic (mnemonic : string)
  (w1 w2 : World) :
  fst (GenerateWalletFromMnemonic mnemonic w1)
  = fst (GenerateWalletFromMnemonic mnemonic w2)
  /\ snd (GenerateWalletFromMnemonic mnemonic w1) = w1
  /\ (forall a b,
        fst (GenerateWalletFromMnemonic mnemonic w1) = Ok a ->
        fst (GenerateWalletFromMnemonic mnemonic w2) = Ok b ->
        Mnemonic a = Mnemonic b
        /\ PrivateKeyHex a = PrivateKeyHex b
        /\ PrivateKeyWIF a = PrivateKeyWIF b
        /\ PublicKeyHex a = PublicKeyHex b
        /\ LegacyAddress a = LegacyAddress b
        /\ SegWitAddress a = SegWitAddress b
        /\ PublicKeyHash a = PublicKeyHash b
        /\ DerivationPath a = DerivationPath b)
  /\ fst (GenerateWalletFromMnemonic mnemonic w1)
     = (if Bip39.IsMnemonicValid mnemonic then fromMnemonic mnemonic
        else Error (Errorf "invalid mnemonic phrase")).
Proof.
  rewrite !GenerateWalletFromMnemonic_eq. cbn [fst snd].
  split; [reflexivity|]. split; [reflexivity|]. split; [|reflexivity].
  intros a b Ha Hb. rewrite Ha in Hb. injection Hb as ->.
  repeat split.
Qed.


(** C3 — rejection of invalid mnemonics: [GenerateWalletFromMnemonic]
    fails with the invalid-mnemonic error exactly when the mnemonic does
    not validate, and then returns no wallet; a mnemonic does not
    validate exactly when its word count is not 12, 15, 18, 21 or 24, or
    one of its words is not in the word list, or its checksum does not
    match. In particular the empty mnemonic and every 13-word mnemonic
    are rejected. Over a word list of 2048 distinct lower-case words the
    mnemonics that validate are exactly those whose words are the words
    of the sentence of some entropy. *)
Theorem invalid_mnemonic_rejected (mnemonic : string) (w : World) :
  (fst (GenerateWalletFromMnemonic mnemonic w)
   = Error (Errorf "invalid mnemonic phrase")
   <-> Bip39.IsMnemonicValid mnemonic = false)
  /\ (Bip39.IsMnemonicValid mnemonic = false ->
      walletOf (GenerateWalletFromMnemonic mnemonic w) = None)
  /\ (Bip39.IsMnemonicValid mnemonic = false <->
      ~ In (length (Strings.Fields mnemonic)) Bip39Facts.wordCounts
      \/ (exists v, In v (Strings.Fields mnemonic) /\ ~ In v wordList)
      \/ Bip39.EntropyFromMnemonic mnemonic = Error ErrChecksumIncorrect)
  /\ Bip39.IsMnemonicValid "" = false
  /\ (length (Strings.Fields mnemonic) = 13%nat ->
      Bip39.IsMnemonicValid mnemonic = false)
  /\ (Bip39Facts.wellFormedWordList wordList = true ->
      (Bip39.IsMnemonicValid mnemonic = true <->
       exists entropy sentence,
         Bip39.NewMnemonic entropy = Ok sentence
         /\ Strings.Fields mnemonic = Strings.Fields sentence)).
Proof.
  assert (Hcount : forall m,
             ~ In (length (Strings.Fields m)) Bip39Facts.wordCounts ->
             Bip39.IsMnemonicValid m = false).
  { intros m Hn. unfold Bip39.IsMnemonicValid.
    rewrite Bip39Facts.invalid_word_count by assumption. reflexivity. }
  split; [|split; [|split; [|split; [|split]]]];
    [| | | | |intros Hwl; apply Bip39Facts.valid_iff_sentence; exact Hwl].
  - rewrite GenerateWalletFromMnemonic_eq. cbn [fst].
    destruct (Bip39.IsMnemonicValid mnemonic); split; try reflexivity.
    + intros H. apply fromSeed_Error in H. destruct H as (msg & e' & H).
      discriminate.
    + discriminate.
  - intros H. unfold walletOf.
    rewrite GenerateWalletFromMnemonic_eq, H. reflexivity.
  - split.
    + unfold Bip39.IsMnemonicValid.
      destruct (Bip39.EntropyFromMnemonic mnemonic) as [x|e] eqn:E;
        [discriminate|]. intros _.
      destruct (Bip39Facts.EntropyFromMnemonic_Error _ _ E)
        as [[_ H]|[(v & _ & H1 & H2)| -> ]]; eauto.
    + intros [H|[(v & H1 & H2)|H]].
      * apply Hcount. assumption.
      * eapply Bip39Facts.invalid_unknown_word; eassumption.
      * unfold Bip39.IsMnemonicValid. rewrite H. reflexivity.
  - apply Hcount. cbn. intuition discriminate.
  - intros H. apply Hcount. rewrite H. cbn. intuition discriminate.
Qed.

Lemma N_bound : 0 < Btcec.N < 256 ^ Z.of_nat 32.
Proof. split; reflexivity. Qed.

Lemma PrivKeyFromBytes_range (b : list byte) :
  0 <= Btcec.D (Btcec.PrivKeyFromBytes b) < Btcec.N.
Proof.
  unfold Btcec.PrivKeyFromBytes. cbn [Btcec.D].
  apply Z.mod_pos_bound. apply N_bound.
Qed.

Lemma Serialize_length (k : Btcec.PrivateKey) :
  0 <= Btcec.D k < Btcec.N -> length (Btcec.Serialize k) = 32%nat.
Proof.
  intros H. unfold Btcec.Serialize, Btcec.PrivKeyBytesLen.
  apply padByteSlice_length. apply BigBytes_length.
  pose proof N_bound. lia.
Qed.

Lemma padByteSlice_full (l : list byte) (n : nat) :
  length l = n -> padByteSlice l n = l.
Proof.
  intros <-. unfold padByteSlice. rewrite Nat.sub_diag. reflexivity.
Qed.

(** The fields of a wallet in terms of the private scalar of its address
    key. *)
Lemma walletOfKey_fields (mnemonic : string) (k : Hdkeychain.ExtendedKey) :
  let d := Btcec.D (Btcec.PrivKeyFromBytes (Hdkeychain.key k)) in
  let scalar := padByteSlice (BigBytes d) 32 in
  let pub := elems (pubkeyCompressed d) in
  let h := elems (ripemd160 (elems (sha256 pub))) in
  let payload := z2b 28 :: scalar ++ [x01] in
  0 <= d < Btcec.N
  /\ length scalar = 32%nat
  /\ length h = 20%nat
  /\ PrivateKeyHex (walletOfKey mnemonic k) = Hex.EncodeToString scalar
  /\ PrivateKeyWIF (walletOfKey mnemonic k)
     = Base58.Encode (payload ++ take 4 (Btcutil.DoubleHashB payload))
  /\ PublicKeyHex (walletOfKey mnemonic k) = Hex.EncodeToString pub
  /\ PublicKeyHash (walletOfKey mnemonic k) = Hex.EncodeToString h
  /\ LegacyAddress (walletOfKey mnemonic k) = Btcutil.CheckEncode h (z2b 45)
  /\ Btcutil.encodeSegWitAddress "kcn" x00 h
     = Ok (SegWitAddress (walletOfKey mnemonic k)).
Proof.
  intros d scalar pub h payload.
  pose proof (PrivKeyFromBytes_range (Hdkeychain.key k)) as Hd. fold d in Hd.
  assert (Hs : length scalar = 32%nat)
    by (apply (Serialize_length (Btcec.PrivKeyFromBytes (Hdkeychain.key k)));
        exact Hd).
  assert (Hh : length h = 20%nat) by apply elems_len.
  split; [exact Hd|]. split; [exact Hs|]. split; [exact Hh|].
  split; [reflexivity|]. split.
  - cbn [walletOfKey PrivateKeyWIF]. unfold Btcutil.WIFString.
    cbn [Btcutil.netID Btcutil.PrivKey Btcutil.CompressPubKey].
    cbv zeta. unfold Btcec.Serialize, Btcec.PrivKeyBytesLen,
      Btcutil.compressMagic.
    fold d. fold scalar. rewrite (padByteSlice_full scalar 32 Hs).
    reflexivity.
  - split; [reflexivity|]. split; [reflexivity|]. split.
    + cbn [walletOfKey LegacyAddress]. f_equal.
      apply firstn_all2. unfold Btcutil.Hash160, Btcec.SerializeCompressed,
        Btcec.PubKey. cbn [Btcec.compressed]. fold d. fold pub. fold h.
      rewrite Hh. lia.
    + destruct (EncodingFacts.segwit_roundtrip h Hh)
        as (bech & conv & Henc & _).
      cbn [walletOfKey SegWitAddress].
      unfold Btcutil.Hash160, Btcec.SerializeCompressed, Btcec.PubKey.
      cbn [Btcec.compressed]. fold d. fold pub. fold h.
      rewrite Henc. reflexivity.
Qed.

(** C4 — address well-formedness: in every wallet returned by either
    entry point, the legacy address base58-decodes to the version byte
    45, a 20-byte hash and the first four bytes of the double SHA-256 of
    those 21 bytes, so it base58check-decodes to version 45 and the
    hash; the segwit address bech32-decodes under the prefix kcn to
    witness version 0 and the same hash; the hash is
    RIPEMD160(SHA256(compressed public key)), the public key being that
    of the private scalar PrivateKeyHex shows; and the PublicKeyHash
    field is the hex encoding of the hash. *)
Theorem addresses_well_formed (wallet : Wallet) :
  returned wallet ->
  exists (d : Z) (pub h : list byte),
    PrivateKeyHex wallet = Hex.EncodeToString (padByteSlice (BigBytes d) 32)
    /\ PublicKeyHex wallet = Hex.EncodeToString pub
    /\ pub = elems (pubkeyCompressed d)
    /\ h = elems (ripemd160 (elems (sha256 pub)))
    /\ length h = 20%nat
    /\ PublicKeyHash wallet = Hex.EncodeToString h
    /\ Base58.Decode (LegacyAddress wallet)
       = z2b 45 :: h
         ++ take 4 (elems (sha256 (elems (sha256 (z2b 45 :: h)))))
    /\ length (take 4 (elems (sha256 (elems (sha256 (z2b 45 :: h)))))) = 4%nat
    /\ Btcutil.CheckDecode (LegacyAddress wallet) = Ok (h, z2b 45)
    /\ (exists conv,
          Bech32.Decode (SegWitAddress wallet)
          = Ok (ofString "kcn", x00 :: conv)
          /\ Bech32.ConvertBits conv 5 8 false = Ok h)
    /\ Btcutil.decodeSegWitAddress (SegWitAddress wallet) = Ok (x00, h).
Proof.
  intros Hret. apply returned_fromMnemonic in Hret.
  apply fromSeed_path in Hret. destruct Hret as (k0 & k & _ & _ & Hw).
  pose proof (walletOfKey_fields (Mnemonic wallet) k) as F. cbv zeta in F.
  rewrite <- Hw in F.
  destruct F as (_ & _ & Hh & Fpriv & _ & Fpub & Fhash & Fleg & Fseg).
  set (d := Btcec.D (Btcec.PrivKeyFromBytes (Hdkeychain.key k))) in *.
  set (pub := elems (pubkeyCompressed d)) in *.
  set (h := elems (ripemd160 (elems (sha256 pub)))) in *.
  exists d, pub, h.
  split; [exact Fpriv|]. split; [exact Fpub|]. split; [reflexivity|]. split; [reflexivity|].
  split; [exact Hh|]. split; [exact Fhash|].
  rewrite Fleg. split.
  { unfold Btcutil.CheckEncode. cbv zeta.
    rewrite Base58Facts.Decode_Encode. reflexivity. }
  split; [apply (EncodingFacts.checksum_length (z2b 45 :: h))|].
  split; [apply EncodingFacts.CheckDecode_CheckEncode|].
  destruct (EncodingFacts.segwit_roundtrip h Hh)
    as (bech & conv & Henc & Hdec & Hconv & Hseg).
  rewrite Fseg in Henc. apply (f_equal (fun r => match r with
                                                   | Ok a => a
                                                   | Error _ => EmptyString
                                                   end)) in Henc.
  cbv beta iota in Henc. rewrite Henc.
  split; [exists conv; split; assumption|exact Hseg].
Qed.

(** C5 — the WIF: in every wallet returned by either entry point the
    PrivateKeyWIF field is the base58 encoding of the version byte 28,
    the 32-byte big-endian private scalar (the one PrivateKeyHex shows),
    the compression flag 0x01 and the first four bytes of the double
    SHA-256 of those 34 bytes; base58 decoding gives these 38 bytes
    back. Creating the WIF never fails. *)
Theorem wif_encoding (wallet : Wallet) :
  returned wallet ->
  (exists d : Z,
      let scalar := padByteSlice (BigBytes d) 32 in
      let payload := z2b 28 :: scalar ++ [x01] in
      let cksum := take 4 (elems (sha256 (elems (sha256 payload)))) in
      0 <= d < Btcec.N
      /\ length scalar = 32%nat
      /\ length cksum = 4%nat
      /\ PrivateKeyHex wallet = Hex.EncodeToString scalar
      /\ PrivateKeyWIF wallet = Base58.Encode (payload ++ cksum)
      /\ Base58.Decode (PrivateKeyWIF wallet) = payload ++ cksum)
  /\ (forall privKey,
        exists wif,
          Btcutil.NewWIF privKey KernelcoinParams true = Ok wif
          /\ Btcutil.netID wif = z2b 28
          /\ Btcutil.CompressPubKey wif = true).
Proof.
  intros Hret. split.
  - apply returned_fromMnemonic in Hret.
    apply fromSeed_path in Hret. destruct Hret as (k0 & k & _ & _ & Hw).
    pose proof (walletOfKey_fields (Mnemonic wallet) k) as F. cbv zeta in F.
    rewrite <- Hw in F. destruct F as (Hd & Hs & _ & Fhex & Fwif & _).
    exists (Btcec.D (Btcec.PrivKeyFromBytes (Hdkeychain.key k))). cbv zeta.
    split; [exact Hd|]. split; [exact Hs|].
    split; [apply (EncodingFacts.checksum_length
                     (z2b 28 :: padByteSlice _ 32 ++ [x01]))|].
    split; [exact Fhex|]. split; [exact Fwif|].
    rewrite Fwif. apply Base58Facts.Decode_Encode.
  - intros privKey. eexists. split; [reflexivity|]. split; reflexivity.
Qed.

(** C6 — the seed: both entry points derive the seed from the mnemonic
    by PBKDF2 with HMAC-SHA512 as the pseudo-random function keyed by
    the mnemonic, 2048 iterations, one block, and the salt "mnemonic"
    followed by the passphrase, which is the empty string; the seed is
    64 bytes long. *)
Theorem seed_derivation :
  (forall mnemonic,
      let seed := EncodingFacts.Tspec (Pbkdf2.hmacSha512 (ofString mnemonic))
                    (ofString "mnemonic" ++ ofString "") 2048 1 in
      Bip39.NewSeed mnemonic "" = seed
      /\ length seed = 64%nat
      /\ forall w,
           GenerateWalletFromMnemonic mnemonic w
           = (if Bip39.IsMnemonicValid mnemonic then fromSeed mnemonic seed
              else Error (Errorf "invalid mnemonic phrase"), w))
  /\ (forall w,
        GenerateNewWallet w
        = if (length w <? 16)%nat
          then (Error (Errorfw "failed to generate entropy" ErrEntropySource), w)
          else
            match Bip39.NewMnemonic (firstn 16 w) with
            | Error e =>
                (Error (Errorfw "failed to generate mnemonic" e), skipn 16 w)
            | Ok mnemonic =>
                (fromSeed mnemonic
                   (EncodingFacts.Tspec (Pbkdf2.hmacSha512 (ofString mnemonic))
                      (ofString "mnemonic" ++ ofString "") 2048 1),
                 skipn 16 w)
            end).
Proof.
  split.
  - intros mnemonic seed. unfold seed.
    split; [apply EncodingFacts.NewSeed_spec|].
    split; [apply EncodingFacts.Tspec_length|].
    intros w. rewrite GenerateWalletFromMnemonic_eq.
    rewrite EncodingFacts.NewSeed_spec. reflexivity.
  - intros w. rewrite GenerateNewWallet_eq.
    destruct (length w <? 16)%nat; [reflexivity|].
    destruct (Bip39.NewMnemonic (firstn 16 w)) as [mnemonic|e];
      [|reflexivity].
    rewrite EncodingFacts.NewSeed_spec. reflexivity.
Qed.

(** The derivations a returned wallet comes from, the last two written
    with the fourth and fifth index of the path. *)
Lemma returned_walk (wallet : Wallet) :
  returned wallet ->
  exists masterKey account change addressKey,
    Hdkeychain.NewMaster (Bip39.NewSeed (Mnemonic wallet) "") KernelcoinParams
    = Ok masterKey
    /\ DerivePath masterKey (firstn 3 walletPath) = Ok account
    /\ Hdkeychain.Derive account (nth 3 walletPath 0) = Ok change
    /\ Hdkeychain.Derive change (nth 4 walletPath 0) = Ok addressKey
    /\ wallet = walletOfKey (Mnemonic wallet) addressKey.
Proof.
  intros Hret. apply returned_fromMnemonic in Hret.
  apply fromSeed_Ok in Hret.
  destruct Hret as (k0 & k1 & k2 & k3 & k4 & k5
                    & H0 & H1 & H2 & H3 & H4 & H5 & Hw).
  exists k0, k3, k4, k5.
  split; [exact H0|]. split.
  { unfold walletPath. cbn [firstn DerivePath]. rewrite H1, H2, H3.
    reflexivity. }
  split; [exact H4|]. split; [exact H5|exact Hw].
Qed.

Lemma deriveData_normal (k : Hdkeychain.ExtendedKey) :
  deriveData k 0 = Hdkeychain.pubKeyBytes k ++ [x00; x00; x00; x00].
Proof. reflexivity. Qed.

(** C7 (amended) — in every wallet returned by either entry point the
    change and address-index levels are derived with index 0, which is
    below 2^31: non-hardened derivation, whose HMAC-SHA512 data is the
    parent's compressed public key followed by the index, and not a zero
    byte and the parent's private key. Only the first three levels are
    hardened. *)
Theorem change_and_address_index_not_hardened (wallet : Wallet) :
  returned wallet ->
  exists masterKey account change addressKey,
    Hdkeychain.NewMaster (Bip39.NewSeed (Mnemonic wallet) "") KernelcoinParams
    = Ok masterKey
    /\ DerivePath masterKey (firstn 3 walletPath) = Ok account
    /\ Hdkeychain.Derive account 0 = Ok change
    /\ Hdkeychain.Derive change 0 = Ok addressKey
    /\ wallet = walletOfKey (Mnemonic wallet) addressKey
    /\ Hdkeychain.isChildHardened 0 = false
    /\ map Hdkeychain.isChildHardened walletPath
       = [true; true; true; false; false]
    /\ Hdkeychain.childNum change = 0
    /\ Hdkeychain.childNum addressKey = 0
    /\ Hdkeychain.key change
       = BigBytes
           ((SetBytes
               (take 32
                  (Pbkdf2.hmacSha512 (Hdkeychain.chainCode account)
                     (Hdkeychain.pubKeyBytes account ++ [x00; x00; x00; x00])))
             + SetBytes (Hdkeychain.key account)) mod Btcec.N)
    /\ Hdkeychain.key addressKey
       = BigBytes
           ((SetBytes
               (take 32
                  (Pbkdf2.hmacSha512 (Hdkeychain.chainCode change)
                     (Hdkeychain.pubKeyBytes change ++ [x00; x00; x00; x00])))
             + SetBytes (Hdkeychain.key change)) mod Btcec.N).
Proof.
  intros Hret.
  destruct (returned_walk wallet Hret) as (k0 & k3 & k4 & k5
                                           & H0 & H123 & H4 & H5 & Hw).
  change (nth 3 walletPath 0) with 0 in H4.
  change (nth 4 walletPath 0) with 0 in H5.
  exists k0, k3, k4, k5.
  pose proof (Derive_Ok _ _ _ H4) as D4. cbv zeta in D4.
  pose proof (Derive_Ok _ _ _ H5) as D5. cbv zeta in D5.
  rewrite deriveData_normal in D4, D5.
  destruct D4 as (K4 & _ & _ & C4). destruct D5 as (K5 & _ & _ & C5).
  split; [exact H0|]. split; [exact H123|].
  split; [exact H4|]. split; [exact H5|]. split; [exact Hw|].
  split; [reflexivity|]. split; [reflexivity|].
  split; [exact C4|]. split; [exact C5|]. split; [exact K4|exact K5].
Qed.

Lemma fst_pair {A B} (a : A) (b : B) : fst (a, b) = a.
Proof. reflexivity. Qed.

Lemma snd_pair {A B} (a : A) (b : B) : snd (a, b) = b.
Proof. reflexivity. Qed.

Lemma valid_of_entropy (mnemonic : string) (entropy : list byte) :
  Bip39.EntropyFromMnemonic mnemonic = Ok entropy ->
  Bip39.IsMnemonicValid mnemonic = true.
Proof. intros H. unfold Bip39.IsMnemonicValid. rewrite H. reflexivity. Qed.

Lemma Mnemonic_fromSeed (mnemonic : string) (seed : list byte)
  (wallet : Wallet) :
  fromSeed mnemonic seed = Ok wallet -> Mnemonic wallet = mnemonic.
Proof.
  intros H. apply fromSeed_path in H.
  destruct H as (? & ? & _ & _ & ->). reflexivity.
Qed.

Section WordList.
Hypothesis wordList_ok : Bip39Facts.wellFormedWordList wordList = true.

(** C8 — a fresh wallet: [GenerateNewWallet] reads exactly 16 bytes (128
    bits) from the random source; their mnemonic has 12 words, passes
    validation and decodes to those 16 bytes, and it is the mnemonic of
    the wallet returned; when the source cannot deliver 16 bytes the
    call returns no wallet and the source's failure wrapped in its
    error, and every failure it returns is a wrapped failure of a
    call it made. *)
Theorem GenerateNewWallet_entropy (w : World) :
  ((length w < 16)%nat ->
   GenerateNewWallet w
   = (Error (Errorfw "failed to generate entropy" ErrEntropySource), w)
   /\ walletOf (GenerateNewWallet w) = None)
  /\ ((16 <= length w)%nat ->
      exists mnemonic,
        Bip39.NewMnemonic (firstn 16 w) = Ok mnemonic
        /\ (length (firstn 16 w) * 8)%nat = 128%nat
        /\ length (Strings.Fields mnemonic) = 12%nat
        /\ Bip39.IsMnemonicValid mnemonic = true
        /\ Bip39.EntropyFromMnemonic mnemonic = Ok (firstn 16 w)
        /\ snd (GenerateNewWallet w) = skipn 16 w
        /\ fst (GenerateNewWallet w) = fromMnemonic mnemonic
        /\ forall wallet,
             fst (GenerateNewWallet w) = Ok wallet ->
             Mnemonic wallet = mnemonic)
  /\ (forall e,
        fst (GenerateNewWallet w) = Error e ->
        walletOf (GenerateNewWallet w) = None
        /\ exists msg e', e = Errorfw msg e').
Proof.
  rewrite GenerateNewWallet_eq. split; [|split].
  - intros Hlt. destruct (Nat.ltb_spec (length w) 16) as [_|Hge]; [|lia].
    split; reflexivity.
  - intros Hge. destruct (Nat.ltb_spec (length w) 16) as [Hlt|_]; [lia|].
    assert (Hlen : length (firstn 16 w) = 16%nat)
      by (rewrite length_firstn; lia).
    destruct (Bip39Facts.mnemonic_roundtrip wordList_ok (firstn 16 w))
      as (m & Hnew & Hcount & Hdec).
    { rewrite Hlen. cbn. auto. }
    exists m. rewrite Hnew, Hlen in *.
    split; [reflexivity|]. split; [reflexivity|]. split; [exact Hcount|].
    split; [exact (valid_of_entropy _ _ Hdec)|]. split; [exact Hdec|].
    split; [apply snd_pair|]. split; [apply fst_pair|].
    intros wallet H. rewrite fst_pair in H.
    exact (Mnemonic_fromSeed _ _ _ H).
  - intros e. unfold walletOf.
    destruct (length w <? 16)%nat.
    + rewrite fst_pair. intros H. injection H as <-. eauto.
    + destruct (Bip39.NewMnemonic (firstn 16 w)) as [m|e0].
      * rewrite fst_pair. intros H. rewrite H. split; [reflexivity|].
        exact (fromSeed_Error _ _ _ H).
      * rewrite fst_pair. intros H. injection H as <-. eauto.
Qed.

(** C9 — restore after generate: the mnemonic of every wallet that
    [GenerateNewWallet] returns is accepted by
    [GenerateWalletFromMnemonic], whatever the state of the random
    source, and the wallet it returns is the same in every field:
    mnemonic, private-key hex, WIF, public-key hex, legacy address,
    segwit address, public-key hash and derivation path. *)
Theorem restore_after_generate (w w' : World) (wallet : Wallet) :
  GenerateNewWallet w = (Ok wallet, w') ->
  forall w2,
    GenerateWalletFromMnemonic (Mnemonic wallet) w2 = (Ok wallet, w2)
    /\ exists restored,
         fst (GenerateWalletFromMnemonic (Mnemonic wallet) w2) = Ok restored
         /\ Mnemonic restored = Mnemonic wallet
         /\ PrivateKeyHex restored = PrivateKeyHex wallet
         /\ PrivateKeyWIF restored = PrivateKeyWIF wallet
         /\ PublicKeyHex restored = PublicKeyHex wallet
         /\ LegacyAddress restored = LegacyAddress wallet
         /\ SegWitAddress restored = SegWitAddress wallet
         /\ PublicKeyHash restored = PublicKeyHash wallet
         /\ DerivationPath restored = DerivationPath wallet.
Proof.
  intros Hgen w2.
  assert (Heq : GenerateWalletFromMnemonic (Mnemonic wallet) w2
                = (Ok wallet, w2)).
  { rewrite GenerateNewWallet_eq in Hgen.
    destruct (Nat.ltb_spec (length w) 16) as [Hlt|Hge];
      [apply pair_fst_eq in Hgen; discriminate|].
    destruct (Bip39Facts.mnemonic_roundtrip wordList_ok (firstn 16 w))
      as (m & Hnew & _ & Hdec).
    { rewrite length_firstn.
      replace (Nat.min 16 (length w)) with 16%nat by lia. cbn. auto. }
    rewrite Hnew in Hgen. apply pair_fst_eq in Hgen.
    rewrite (Mnemonic_fromSeed _ _ _ Hgen).
    rewrite GenerateWalletFromMnemonic_eq.
    rewrite (valid_of_entropy _ _ Hdec), Hgen. reflexivity. }
  split; [exact Heq|].
  exists wallet. rewrite Heq. repeat split.
Qed.


End WordList.
End WithPrimitives.

(** C7 as claimed fails: whatever the primitives, a returned wallet
    comes from deriving the change key and the address key with the
    fourth and the fifth index of the path, and these two indices, both
    0, are not hardened. *)
Lemma change_and_address_index_hardened_fails :
  (forall (P : Primitives) (wallet : Wallet),
      returned wallet ->
      exists masterKey account change addressKey,
        Hdkeychain.NewMaster (Bip39.NewSeed (Mnemonic wallet) "")
          KernelcoinParams = Ok masterKey
        /\ DerivePath masterKey (firstn 3 walletPath) = Ok account
        /\ Hdkeychain.Derive account (nth 3 walletPath 0) = Ok change
        /\ Hdkeychain.Derive change (nth 4 walletPath 0) = Ok addressKey
        /\ wallet = walletOfKey (Mnemonic wallet) addressKey)
  /\ nth 3 walletPath 0 = 0
  /\ nth 4 walletPath 0 = 0
  /\ ~ (Hdkeychain.isChildHardened (nth 3 walletPath 0) = true
        /\ Hdkeychain.isChildHardened (nth 4 walletPath 0) = true).
Proof.
  split; [intros P wallet; apply returned_walk|].
  split; [reflexivity|]. split; [reflexivity|].
  cbv. intros [H _]. discriminate.
Qed.

End WalletFacts.

(** ** The text of a wallet's fields *)

Module FormatFacts.
Import BytesFacts WalletFacts.

(** *** Lengths and leading digits *)

Lemma length_toString (l : list byte) : String.length (toString l) = length l.
Proof.
  unfold toString, string_of_list_byte.
  induction l as [|b l IH]; [reflexivity|].
  cbn [map string_of_list_ascii String.length length]. rewrite IH.
  reflexivity.
Qed.

Lemma fold_digits_acc (base : Z) (l : list Z) :
  forall acc,
    fold_left (fun a d => a * base + d) l acc
    = acc * base ^ Z.of_nat (length l) + undigits base l.
Proof.
  unfold undigits. induction l as [|d l IH]; intros acc.
  - cbn. lia.
  - cbn [fold_left length]. rewrite IH, (IH (0 * base + d)).
    rewrite Nat2Z.inj_succ, Z.pow_succ_r by lia. ring.
Qed.

Lemma SetBytes_cons (b : byte) (l : list byte) :
  SetBytes (b :: l) = b2z b * 256 ^ Z.of_nat (length l) + SetBytes l.
Proof.
  unfold SetBytes, undigits. cbn [map fold_left].
  rewrite fold_digits_acc, length_map. unfold undigits. ring.
Qed.

(** A number from [d * base^n] up to [(d + 1) * base^n] has [n + 1]
    digits, the first of which is [d]. *)
Lemma digits_leading (base d : Z) (n : nat) :
  2 <= base -> 0 < d < base ->
  forall x,
    d * base ^ Z.of_nat n <= x < (d + 1) * base ^ Z.of_nat n ->
    exists ds, digits base x = d :: ds /\ length ds = n.
Proof.
  intros Hb Hd. induction n as [|n IH]; intros x Hx.
  - cbn in Hx. assert (x = d) by lia. subst x.
    rewrite digits_step by lia. rewrite Z.div_small, Z.mod_small by lia.
    rewrite digits_nonpos by lia. exists []. split; reflexivity.
  - rewrite Nat2Z.inj_succ, Z.pow_succ_r in Hx by lia.
    set (p := base ^ Z.of_nat n) in *.
    assert (Hp : 0 < p) by (apply Z.pow_pos_nonneg; lia).
    assert (Hq : d * p <= x / base < (d + 1) * p).
    { split.
      - apply Z.div_le_lower_bound; lia.
      - apply Z.div_lt_upper_bound; lia. }
    destruct (IH _ Hq) as (ds & E & L).
    rewrite digits_step by nia. rewrite E.
    exists (ds ++ [x mod base]). split; [reflexivity|].
    rewrite length_app. cbn [length]. lia.
Qed.

(** The base58 text of a slice that starts with a nonzero byte. *)
Lemma Encode_leading (b : byte) (rest : list byte) (d : Z) (n : nat) :
  b <> x00 -> 0 < d < 58 ->
  d * 58 ^ Z.of_nat n <= SetBytes (b :: rest) < (d + 1) * 58 ^ Z.of_nat n ->
  exists ds,
    Base58.Encode (b :: rest)
    = toString (Base58.encodeDigit d :: map Base58.encodeDigit ds)
    /\ length ds = n
    /\ Forall (fun x => 0 <= x < 58) ds.
Proof.
  intros Hb Hd Hx. unfold Base58.Encode.
  cbn [Base58.countLeading]. rewrite eqb_neq by assumption.
  cbn [repeat app].
  destruct (digits_leading 58 d n ltac:(lia) Hd _ Hx) as (ds & E & L).
  pose proof (digits_range 58 (SetBytes (b :: rest)) ltac:(lia)) as Hr.
  rewrite E in Hr. inversion Hr; subst.
  exists ds. rewrite E. repeat split; assumption.
Qed.

Lemma encodeDigit_alphabet (d : Z) :
  0 <= d < 58 -> In (Base58.encodeDigit d) (ofString Base58.alphabet).
Proof.
  intros Hd. unfold Base58.encodeDigit. apply nth_In.
  change (length (ofString Base58.alphabet)) with 58%nat. lia.
Qed.

(** The shape of the base58 text of [n + 1] bytes that start with the
    byte [v], when all such values have the leading digit [d] and
    [k + 1] digits. *)
Lemma Encode_shape (v d : Z) (k : nat) (rest : list byte) :
  0 < v < 256 -> 0 < d < 58 ->
  d * 58 ^ Z.of_nat k <= v * 256 ^ Z.of_nat (length rest) ->
  (v + 1) * 256 ^ Z.of_nat (length rest) <= (d + 1) * 58 ^ Z.of_nat k ->
  let text := Base58.Encode (z2b v :: rest) in
  String.length text = S k
  /\ (exists tail, text = String (ascii_of_byte (Base58.encodeDigit d)) tail)
  /\ Forall (fun c => In c (ofString Base58.alphabet)) (ofString text).
Proof.
  intros Hv Hd Hlo Hhi text.
  assert (Hb : z2b v <> x00).
  { intros E. apply (f_equal b2z) in E. rewrite b2z_z2b in E by lia.
    change (b2z x00) with 0 in E. lia. }
  destruct (Encode_leading (z2b v) rest d k Hb Hd) as (ds & E & L & R).
  { rewrite SetBytes_cons, b2z_z2b by lia.
    pose proof (SetBytes_nonneg rest). pose proof (SetBytes_bound rest).
    set (B := 256 ^ Z.of_nat (length rest)) in *.
    set (C := 58 ^ Z.of_nat k) in *. lia. }
  unfold text. rewrite E. split; [|split].
  - rewrite length_toString. cbn [length]. rewrite length_map, L. reflexivity.
  - eexists. unfold toString. cbn [string_of_list_byte]. reflexivity.
  - rewrite ofString_toString. constructor.
    + apply encodeDigit_alphabet. lia.
    + apply Forall_forall. intros c Hc. apply in_map_iff in Hc.
      destruct Hc as (x & <- & Hx). rewrite Forall_forall in R.
      apply encodeDigit_alphabet. apply R. exact Hx.
Qed.

(** *** Hexadecimal text *)

Lemma hexdigit_table (v : Z) :
  0 <= v < 16 -> In (Hex.hexdigit v) (ofString Hex.hextable).
Proof.
  intros Hv. unfold Hex.hexdigit. apply nth_In.
  change (length (ofString Hex.hextable)) with 16%nat. lia.
Qed.

Lemma EncodeToString_shape (src : list byte) :
  String.length (Hex.EncodeToString src) = (2 * length src)%nat
  /\ Forall (fun c => In c (ofString Hex.hextable))
       (ofString (Hex.EncodeToString src)).
Proof.
  unfold Hex.EncodeToString. rewrite length_toString, ofString_toString.
  induction src as [|b src [IHl IHf]]; [split; [reflexivity|constructor]|].
  cbn [flat_map app length]. split; [rewrite IHl; lia|].
  pose proof (b2z_range b) as Hb.
  constructor; [|constructor; [|exact IHf]].
  - apply hexdigit_table. rewrite Z.shiftr_div_pow2 by lia.
    change (2 ^ 4) with 16. split; [apply Z.div_pos; lia|].
    apply Z.div_lt_upper_bound; lia.
  - apply hexdigit_table. change 15 with (Z.ones 4).
    rewrite Z.land_ones by lia. apply Z.mod_pos_bound. lia.
Qed.

(** *** Bech32 text *)

Lemma ConvertBits_pad_length (data out : list byte) :
  Bech32.ConvertBits data 8 5 true = Ok out ->
  (8 * length data <= 5 * length out)%nat.
Proof.
  unfold Bech32.ConvertBits. cbn [Nat.ltb Nat.leb orb].
  set (bits := flat_map (fun b => Bech32.bitsOf 8 (b2z b)) data).
  assert (Hbl : length bits = (8 * length data)%nat).
  { unfold bits. rewrite flat_map_concat_map.
    rewrite (Bech32Facts.concat_length_groups 8), length_map; [reflexivity|].
    apply Forall_forall. intros g Hg. apply in_map_iff in Hg.
    destruct Hg as [b [<- _]]. apply Bech32Facts.bitsOf_length. }
  destruct (Bech32.groupsOf (length bits) 5 bits) as [gs r] eqn:E.
  destruct (Bech32Facts.groupsOf_spec 5 ltac:(lia) _ _ _ _ (Nat.le_refl _) E)
    as (Hcat & Hgs & Hr).
  pose proof (Bech32Facts.concat_length_groups 5 gs Hgs) as Hc.
  apply (f_equal (@length bool)) in Hcat. rewrite length_app, Hc, Hbl in Hcat.
  destruct r as [|x r]; intros H; injection H as <-.
  - rewrite length_map. cbn [length] in Hcat. lia.
  - rewrite length_app, length_map. cbn [length] in *. lia.
Qed.

Lemma Encode_text (hrp : string) (data : list byte) :
  Forall (fun b => b2z b < 32) data ->
  let h := Bech32.ToLower (ofString hrp) in
  Bech32.Encode hrp data
  = Ok (toString (h ++ ["1"%byte] ++ Bech32Facts.chars data
                  ++ Bech32Facts.chars (Bech32.checksumValues h data))).
Proof.
  intros Hdata h.
  assert (Hck : Forall (fun b => b2z b < 32) (Bech32.checksumValues h data)).
  { unfold Bech32.checksumValues. apply Forall_forall. intros b Hb.
    apply in_map_iff in Hb. destruct Hb as [i [<- _]].
    pose proof (Bech32Facts.land31_range
                  (Z.shiftr (Z.lxor (Bech32.bech32Polymod h data (zeros 6)) 1)
                            (5 * (5 - i)))).
    rewrite b2z_z2b; lia. }
  unfold Bech32.Encode. fold h.
  rewrite (Bech32Facts.toChars_chars data Hdata),
    (Bech32Facts.toChars_chars _ Hck).
  reflexivity.
Qed.

Lemma chars_charset (data : list byte) :
  Forall (fun b => b2z b < 32) data ->
  Forall (fun c => In c (ofString Bech32.charset)) (Bech32Facts.chars data).
Proof.
  intros H. unfold Bech32Facts.chars. apply Forall_forall. intros c Hc.
  apply in_map_iff in Hc. destruct Hc as (b & <- & Hb).
  rewrite Forall_forall in H. specialize (H b Hb). pose proof (b2z_range b).
  apply nth_In. change (length (ofString Bech32.charset)) with 32%nat. lia.
Qed.

Section WithPrimitives.
Context {P : Primitives}.

Local Abbreviation fromMnemonic mnemonic :=
  (fromSeed mnemonic (Bip39.NewSeed mnemonic "")).

(** The fields of a returned wallet, by the scalar of its address key. *)
Lemma returned_fields (wallet : Wallet) :
  returned wallet ->
  exists d : Z,
    let scalar := padByteSlice (BigBytes d) 32 in
    let pub := elems (pubkeyCompressed d) in
    let h := elems (ripemd160 (elems (sha256 pub))) in
    let payload := z2b 28 :: scalar ++ [x01] in
    length scalar = 32%nat
    /\ length h = 20%nat
    /\ PrivateKeyHex wallet = Hex.EncodeToString scalar
    /\ PrivateKeyWIF wallet
       = Base58.Encode (payload ++ take 4 (Btcutil.DoubleHashB payload))
    /\ PublicKeyHex wallet = Hex.EncodeToString pub
    /\ PublicKeyHash wallet = Hex.EncodeToString h
    /\ LegacyAddress wallet = Btcutil.CheckEncode h (z2b 45)
    /\ Btcutil.encodeSegWitAddress "kcn" x00 h = Ok (SegWitAddress wallet).
Proof.
  intros Hret. apply returned_fromMnemonic in Hret.
  apply fromSeed_path in Hret. destruct Hret as (k0 & k & _ & _ & Hw).
  pose proof (walletOfKey_fields (Mnemonic wallet) k) as F. cbv zeta in F.
  rewrite <- Hw in F.
  exists (Btcec.D (Btcec.PrivKeyFromBytes (Hdkeychain.key k))). cbv zeta.
  tauto.
Qed.

(** X1 — the legacy address of every wallet returned by either entry
    point has 34 characters, all of the base58 alphabet, and begins with
    the letter K. *)
Theorem legacy_address_shape (wallet : Wallet) :
  returned wallet ->
  String.length (LegacyAddress wallet) = 34%nat
  /\ (exists tail, LegacyAddress wallet = String "K" tail)
  /\ Forall (fun c => In c (ofString Base58.alphabet))
       (ofString (LegacyAddress wallet)).
Proof.
  intros Hret. destruct (returned_fields wallet Hret) as (d & F).
  cbv zeta in F. destruct F as (_ & Hh & _ & _ & _ & _ & -> & _).
  unfold Btcutil.CheckEncode. cbv zeta.
  set (h := elems (ripemd160 (elems (sha256 (elems (pubkeyCompressed d)))))) in *.
  change ((z2b 45 :: h) ++ Btcutil.checksum (z2b 45 :: h))
    with (z2b 45 :: (h ++ Btcutil.checksum (z2b 45 :: h))).
  assert (Hl : length (h ++ Btcutil.checksum (z2b 45 :: h)) = 24%nat)
    by (rewrite length_app, Hh, EncodingFacts.checksum_length; reflexivity).
  apply (Encode_shape 45 18 33); rewrite ?Hl; try lia;
    apply Z.leb_le; vm_compute; reflexivity.
Qed.

(** X2 — the WIF of every wallet returned by either entry point has 52
    characters, all of the base58 alphabet, and begins with the digit
    5. *)
Theorem wif_shape (wallet : Wallet) :
  returned wallet ->
  String.length (PrivateKeyWIF wallet) = 52%nat
  /\ (exists tail, PrivateKeyWIF wallet = String "5" tail)
  /\ Forall (fun c => In c (ofString Base58.alphabet))
       (ofString (PrivateKeyWIF wallet)).
Proof.
  intros Hret. destruct (returned_fields wallet Hret) as (d & F).
  cbv zeta in F. destruct F as (Hs & _ & _ & -> & _).
  set (scalar := padByteSlice (BigBytes d) 32) in *.
  set (payload := z2b 28 :: scalar ++ [x01]).
  change (payload ++ take 4 (Btcutil.DoubleHashB payload))
    with (z2b 28 :: ((scalar ++ [x01]) ++ Btcutil.checksum payload)).
  assert (Hl : length ((scalar ++ [x01]) ++ Btcutil.checksum payload) = 37%nat)
    by (rewrite !length_app, Hs, EncodingFacts.checksum_length; reflexivity).
  apply (Encode_shape 28 4 51); rewrite ?Hl; try lia;
    apply Z.leb_le; vm_compute; reflexivity.
Qed.

(** X3 — the segwit address of every wallet returned by either entry
    point has 43 characters: the prefix kcn, the separator 1, the letter
    q of witness version 0, and 38 more characters of the bech32
    character set. *)
Theorem segwit_address_shape (wallet : Wallet) :
  returned wallet ->
  String.length (SegWitAddress wallet) = 43%nat
  /\ exists tail,
       SegWitAddress wallet = ("kcn1q" ++ toString tail)%string
       /\ length tail = 38%nat
       /\ Forall (fun c => In c (ofString Bech32.charset)) tail.
Proof.
  intros Hret. destruct (returned_fields wallet Hret) as (d & F).
  cbv zeta in F. destruct F as (_ & Hh & _ & _ & _ & _ & _ & Hseg).
  set (h := elems (ripemd160 (elems (sha256 (elems (pubkeyCompressed d)))))) in *.
  destruct (Bech32Facts.ConvertBits_roundtrip h)
    as (conv & Hconv & Hval & Hup & _).
  pose proof (ConvertBits_pad_length h conv Hconv) as Hlow.
  assert (Hcl : length conv = 32%nat) by lia.
  assert (Hdata : Forall (fun b => b2z b < 32) (x00 :: conv))
    by (constructor; [cbn; lia|assumption]).
  unfold Btcutil.encodeSegWitAddress in Hseg. rewrite Hconv in Hseg.
  pose proof (Encode_text "kcn" (x00 :: conv) Hdata) as Henc.
  cbv zeta in Henc. rewrite Henc in Hseg.
  set (hrp := Bech32.ToLower (ofString "kcn")) in *.
  set (ck := Bech32Facts.chars (Bech32.checksumValues hrp (x00 :: conv))) in *.
  assert (Hckl : length ck = 6%nat) by reflexivity.
  assert (Hckc : Forall (fun c => In c (ofString Bech32.charset)) ck).
  { apply chars_charset. unfold Bech32.checksumValues.
    apply Forall_forall. intros b Hb. apply in_map_iff in Hb.
    destruct Hb as [i [<- _]].
    pose proof (Bech32Facts.land31_range
                  (Z.shiftr
                     (Z.lxor (Bech32.bech32Polymod hrp (x00 :: conv) (zeros 6)) 1)
                     (5 * (5 - i)))).
    rewrite b2z_z2b; lia. }
  match type of Hseg with
  | match ?r with Ok _ => _ | Error _ => _ end = _ => destruct r as [[v p]|e]
  end; [|discriminate].
  destruct (Byte.eqb v x00 && _)%bool; [|discriminate].
  injection Hseg as <-.
  split.
  - rewrite length_toString. cbn [length]. rewrite length_app, Hckl.
    unfold Bech32Facts.chars. rewrite length_map, Hcl. reflexivity.
  - exists (Bech32Facts.chars conv ++ ck). split; [|split].
    + reflexivity.
    + rewrite length_app, Hckl. unfold Bech32Facts.chars.
      rewrite length_map, Hcl. reflexivity.
    + apply Forall_app. split; [apply chars_charset; assumption|exact Hckc].
Qed.

(** X4 — in every wallet returned by either entry point the private key
    is 64 hexadecimal digits, the public key 66 and the public-key hash
    40, all lower case: the private key keeps its leading zeros. *)
Theorem hex_fields_shape (wallet : Wallet) :
  returned wallet ->
  String.length (PrivateKeyHex wallet) = 64%nat
  /\ String.length (PublicKeyHex wallet) = 66%nat
  /\ String.length (PublicKeyHash wallet) = 40%nat
  /\ Forall (fun c => In c (ofString "0123456789abcdef"))
       (ofString (PrivateKeyHex wallet) ++ ofString (PublicKeyHex wallet)
        ++ ofString (PublicKeyHash wallet)).
Proof.
  intros Hret. destruct (returned_fields wallet Hret) as (d & F).
  cbv zeta in F. destruct F as (Hs & Hh & -> & _ & -> & -> & _).
  destruct (EncodeToString_shape (padByteSlice (BigBytes d) 32)) as [L1 C1].
  destruct (EncodeToString_shape (elems (pubkeyCompressed d))) as [L2 C2].
  destruct (EncodeToString_shape
              (elems (ripemd160 (elems (sha256 (elems (pubkeyCompressed d)))))))
    as [L3 C3].
  rewrite L1, L2, L3, Hs, Hh, elems_len.
  repeat split. rewrite !Forall_app. auto.
Qed.

(** The three texts of a returned wallet that a reply may carry are
    never empty. *)
Lemma returned_nonempty (wallet : Wallet) :
  returned wallet ->
  PrivateKeyWIF wallet <> EmptyString
  /\ LegacyAddress wallet <> EmptyString
  /\ SegWitAddress wallet <> EmptyString.
Proof.
  intros Hret. destruct (returned_fields wallet Hret) as (d & F).
  cbv zeta in F. destruct F as (_ & Hh & _ & Hwif & _ & _ & Hleg & Hseg).
  assert (Hne : forall v rest, 0 < v < 256 ->
                  Base58.Encode (z2b v :: rest) <> EmptyString).
  { intros v rest Hv E. apply (f_equal String.length) in E.
    unfold Base58.Encode in E. rewrite length_toString, length_app in E.
    pose proof (SetBytes_nonneg rest).
    assert (Hpos : 0 < SetBytes (z2b v :: rest)).
    { rewrite SetBytes_cons, b2z_z2b by lia.
      assert (0 < 256 ^ Z.of_nat (length rest))
        by (apply Z.pow_pos_nonneg; lia).
      nia. }
    rewrite digits_step, length_map, length_app in E by lia.
    cbn [length String.length] in E. lia. }
  split; [|split].
  - rewrite Hwif. apply Hne. lia.
  - rewrite Hleg. apply Hne. lia.
  - set (h := elems (ripemd160 (elems (sha256 (elems (pubkeyCompressed d)))))) in *.
    destruct (Bech32Facts.ConvertBits_roundtrip h)
      as (conv & Hconv & Hval & _ & _).
    assert (Hdata : Forall (fun b => b2z b < 32) (x00 :: conv))
      by (constructor; [cbn; lia|assumption]).
    unfold Btcutil.encodeSegWitAddress in Hseg. rewrite Hconv in Hseg.
    pose proof (Encode_text "kcn" (x00 :: conv) Hdata) as Henc.
    cbv zeta in Henc. rewrite Henc in Hseg.
    match type of Hseg with
    | match ?r with Ok _ => _ | Error _ => _ end = _ =>
        destruct r as [[v p]|e]
    end; [|discriminate].
    destruct (Byte.eqb v x00 && _)%bool; [|discriminate].
    intros E. rewrite E in Hseg. apply (f_equal (fun r => match r with
                                                          | Ok t => String.length t
                                                          | Error _ => 0%nat
                                                          end)) in Hseg.
    cbv beta iota in Hseg. rewrite length_toString in Hseg.
    rewrite length_app in Hseg. cbn [length String.length app] in Hseg. lia.
Qed.

End WithPrimitives.
End FormatFacts.

(** ** Failures and mnemonics of the two entry points *)

Module EntryPointFacts.
Import BytesFacts WalletFacts.

Section WithPrimitives.
Context {P : Primitives}.

Local Abbreviation fromMnemonic mnemonic :=
  (fromSeed mnemonic (Bip39.NewSeed mnemonic "")).

(** The failures of the steps that follow the seed. *)
Definition pipelineFailures : list error :=
  [Errorfw "failed to create master key" ErrUnusableSeed;
   Errorfw "failed to derive purpose" ErrInvalidChild;
   Errorfw "failed to derive coin type" ErrInvalidChild;
   Errorfw "failed to derive account" ErrInvalidChild;
   Errorfw "failed to derive change" ErrInvalidChild;
   Errorfw "failed to derive address key" ErrInvalidChild].

Lemma NewMaster_Error (seed : list byte) (e : error) :
  length seed = 64%nat ->
  Hdkeychain.NewMaster seed KernelcoinParams = Error e ->
  e = ErrUnusableSeed.
Proof.
  intros Hl. unfold Hdkeychain.NewMaster. rewrite Hl. cbv zeta.
  cbn [Nat.ltb Nat.leb orb Hdkeychain.MinSeedBytes Hdkeychain.MaxSeedBytes].
  destruct (_ || _)%bool; [|discriminate].
  intros H. injection H as <-. reflexivity.
Qed.

Lemma Derive_Error (k : Hdkeychain.ExtendedKey) (i : Z) (e : error) :
  Hdkeychain.depth k <> 255 ->
  Hdkeychain.Derive k i = Error e ->
  e = ErrInvalidChild.
Proof.
  intros Hd. unfold Hdkeychain.Derive. cbv zeta.
  destruct (Z.eqb_spec (Hdkeychain.depth k) 255) as [E|_]; [contradiction|].
  destruct (Btcec.N <=? _); [intros H; injection H as <-; reflexivity|].
  destruct (_ =? 0); [intros H; injection H as <-; reflexivity|].
  discriminate.
Qed.

Lemma Derive_depth (k c : Hdkeychain.ExtendedKey) (i : Z) :
  Hdkeychain.Derive k i = Ok c ->
  Hdkeychain.depth c = Hdkeychain.depth k + 1.
Proof.
  intros H. apply Derive_Ok in H. cbv zeta in H. tauto.
Qed.

Lemma fromSeed_failures (mnemonic : string) (seed : list byte) (e : error) :
  length seed = 64%nat ->
  fromSeed mnemonic seed = Error e -> In e pipelineFailures.
Proof.
  intros Hl. unfold fromSeed, pipelineFailures.
  destruct (Hdkeychain.NewMaster _ _) as [k0|e0] eqn:H0.
  2:{ intros H. injection H as <-.
      rewrite (NewMaster_Error _ _ Hl H0). cbn. auto. }
  pose proof (NewMaster_depth _ _ H0) as D0.
  destruct (Hdkeychain.Derive k0 _) as [k1|e1] eqn:H1.
  2:{ intros H. injection H as <-.
      rewrite (Derive_Error k0 _ _ ltac:(lia) H1). cbn. auto. }
  pose proof (Derive_depth _ _ _ H1) as D1.
  destruct (Hdkeychain.Derive k1 _) as [k2|e2] eqn:H2.
  2:{ intros H. injection H as <-.
      rewrite (Derive_Error k1 _ _ ltac:(lia) H2). cbn. auto. }
  pose proof (Derive_depth _ _ _ H2) as D2.
  destruct (Hdkeychain.Derive k2 _) as [k3|e3] eqn:H3.
  2:{ intros H. injection H as <-.
      rewrite (Derive_Error k2 _ _ ltac:(lia) H3). cbn. auto 10. }
  pose proof (Derive_depth _ _ _ H3) as D3.
  destruct (Hdkeychain.Derive k3 _) as [k4|e4] eqn:H4.
  2:{ intros H. injection H as <-.
      rewrite (Derive_Error k3 _ _ ltac:(lia) H4). cbn. auto 10. }
  pose proof (Derive_depth _ _ _ H4) as D4.
  destruct (Hdkeychain.Derive k4 _) as [k5|e5] eqn:H5.
  2:{ intros H. injection H as <-.
      rewrite (Derive_Error k4 _ _ ltac:(lia) H5). cbn. auto 10. }
  discriminate.
Qed.

Lemma NewMnemonic_16 (entropy : list byte) :
  length entropy = 16%nat -> exists m, Bip39.NewMnemonic entropy = Ok m.
Proof.
  intros Hl. unfold Bip39.NewMnemonic. rewrite Hl. cbv zeta.
  eexists. reflexivity.
Qed.

(** X5 — the failures of the two entry points: [GenerateWalletFromMnemonic]
    fails only with the invalid-mnemonic error, with an unusable seed
    wrapped as a master-key failure, or with an invalid child wrapped as
    the failure of one of the five derivations; [GenerateNewWallet] fails
    only with the failure of the random source wrapped as an entropy
    failure or with one of those master-key and derivation failures. The
    failures the source words for the mnemonic, the private key, the
    WIF and the two addresses never occur. *)
Theorem failure_causes (e : error) :
  (forall mnemonic w,
      fst (GenerateWalletFromMnemonic mnemonic w) = Error e ->
      In e (Errorf "invalid mnemonic phrase" :: pipelineFailures))
  /\ (forall w,
        fst (GenerateNewWallet w) = Error e ->
        In e (Errorfw "failed to generate entropy" ErrEntropySource
              :: pipelineFailures)).
Proof.
  split.
  - intros mnemonic w. rewrite GenerateWalletFromMnemonic_eq, fst_pair.
    destruct (Bip39.IsMnemonicValid mnemonic).
    + intros H. right.
      exact (fromSeed_failures _ _ _ (EncodingFacts.NewSeed_length _ _) H).
    + intros H. injection H as <-. left. reflexivity.
  - intros w. rewrite GenerateNewWallet_eq.
    destruct (Nat.ltb_spec (length w) 16) as [_|Hge].
    + rewrite fst_pair. intros H. injection H as <-. left. reflexivity.
    + destruct (NewMnemonic_16 (firstn 16 w)) as (m & Hm);
        [rewrite length_firstn; lia|].
      rewrite Hm, fst_pair. intros H. right.
      exact (fromSeed_failures _ _ _ (EncodingFacts.NewSeed_length _ _) H).
Qed.

(** X6 — spacing of a phrase: two phrases with the same words, whatever
    the white space between and around them, are both rejected as
    invalid or both pass validation; a wallet returned holds the phrase
    exactly as it was passed, so the wallets of two phrases that differ
    in spacing differ. *)
Theorem spacing_of_the_phrase (m m' : string) (w : World) :
  Strings.Fields m = Strings.Fields m' ->
  (fst (GenerateWalletFromMnemonic m w)
   = Error (Errorf "invalid mnemonic phrase")
   <-> fst (GenerateWalletFromMnemonic m' w)
       = Error (Errorf "invalid mnemonic phrase"))
  /\ forall wallet wallet',
       fst (GenerateWalletFromMnemonic m w) = Ok wallet ->
       fst (GenerateWalletFromMnemonic m' w) = Ok wallet' ->
       Mnemonic wallet = m
       /\ Mnemonic wallet' = m'
       /\ (m <> m' -> wallet <> wallet').
Proof.
  intros Hf.
  assert (Hv : Bip39.IsMnemonicValid m = Bip39.IsMnemonicValid m').
  { unfold Bip39.IsMnemonicValid.
    rewrite (Bip39Facts.EntropyFromMnemonic_Fields m m' Hf). reflexivity. }
  assert (Hinv : forall x,
             fst (GenerateWalletFromMnemonic x w)
             = Error (Errorf "invalid mnemonic phrase")
             <-> Bip39.IsMnemonicValid x = false).
  { intros x. rewrite GenerateWalletFromMnemonic_eq, fst_pair.
    destruct (Bip39.IsMnemonicValid x); split; try reflexivity.
    - intros H. apply fromSeed_Error in H. destruct H as (msg & e' & H).
      discriminate.
    - discriminate. }
  split; [rewrite !Hinv, Hv; reflexivity|].
  intros wallet wallet'.
  rewrite !GenerateWalletFromMnemonic_eq, !fst_pair.
  destruct (Bip39.IsMnemonicValid m); [|discriminate].
  destruct (Bip39.IsMnemonicValid m'); [|discriminate].
  intros H H'.
  pose proof (Mnemonic_fromSeed _ _ _ H) as E.
  pose proof (Mnemonic_fromSeed _ _ _ H') as E'.
  split; [exact E|]. split; [exact E'|].
  intros Hne Heq. apply Hne. rewrite <- E, <- E', Heq. reflexivity.
Qed.

Section WordList.
Hypothesis wordList_ok : Bip39Facts.wellFormedWordList wordList = true.

(** What [GenerateNewWallet] returned, by the sixteen bytes it read. *)
Lemma generated_from (w w' : World) (wallet : Wallet) :
  GenerateNewWallet w = (Ok wallet, w') ->
  length (firstn 16 w) = 16%nat
  /\ Bip39.NewMnemonic (firstn 16 w) = Ok (Mnemonic wallet)
  /\ Bip39.EntropyFromMnemonic (Mnemonic wallet) = Ok (firstn 16 w)
  /\ fromMnemonic (Mnemonic wallet) = Ok wallet.
Proof.
  rewrite GenerateNewWallet_eq.
  destruct (Nat.ltb_spec (length w) 16) as [Hlt|Hge];
    [intros H; apply pair_fst_eq in H; discriminate|].
  assert (Hlen : length (firstn 16 w) = 16%nat)
    by (rewrite length_firstn; lia).
  destruct (Bip39Facts.mnemonic_roundtrip wordList_ok (firstn 16 w))
    as (m & Hnew & _ & Hdec).
  { rewrite Hlen. cbn. auto. }
  rewrite Hnew. intros H. apply pair_fst_eq in H.
  rewrite (Mnemonic_fromSeed _ _ _ H). auto.
Qed.

(** X7 — the mnemonic of a generated wallet names its entropy: two
    wallets that [GenerateNewWallet] returns have the same mnemonic
    exactly when the sixteen random bytes read for them were the same,
    and wallets of the same mnemonic are the same in every field. *)
Theorem mnemonic_names_entropy (w1 w1' w2 w2' : World)
  (wallet1 wallet2 : Wallet) :
  GenerateNewWallet w1 = (Ok wallet1, w1') ->
  GenerateNewWallet w2 = (Ok wallet2, w2') ->
  (Mnemonic wallet1 = Mnemonic wallet2 <-> firstn 16 w1 = firstn 16 w2)
  /\ (Mnemonic wallet1 = Mnemonic wallet2 <-> wallet1 = wallet2).
Proof.
  intros H1 H2.
  destruct (generated_from _ _ _ H1) as (_ & N1 & D1 & F1).
  destruct (generated_from _ _ _ H2) as (_ & N2 & D2 & F2).
  assert (Hm : Mnemonic wallet1 = Mnemonic wallet2 -> wallet1 = wallet2).
  { intros E. rewrite E in F1. congruence. }
  split; split.
  - intros E. rewrite E in D1. congruence.
  - intros E. rewrite E in N1. congruence.
  - exact Hm.
  - intros ->. reflexivity.
Qed.

End WordList.
End WithPrimitives.
End EntryPointFacts.

(** ** The node client and the handlers *)

Module ServerFacts.
Import BytesFacts WalletFacts.

(** The float64 numbers nearest to 0.1, 0.2 and 0.3. *)
Module Amounts.
Import PrimFloat.
Definition tenth : float := 0x1.999999999999ap-4%float.
Definition fifth : float := 0x1.999999999999ap-3%float.
Definition threeTenths : float := 0x1.3333333333333p-2%float.
End Amounts.

(** *** Running a program of [IO] *)

Lemma bind_eq {A B} (m : IO A) (k : A -> IO B) (st : State) :
  IO.bind m k st = k (fst (m st)) (snd (m st)).
Proof. unfold IO.bind. destruct (m st). reflexivity. Qed.

(** [st'] is [st] after some lines were logged and some requests were
    sent: the random source, the environment, the node and the response
    are as they were. *)
Definition extends (st st' : State) : Prop :=
  random st' = random st
  /\ environ st' = environ st
  /\ node st' = node st
  /\ writer st' = writer st
  /\ (exists q, sent st' = sent st ++ q)
  /\ (exists l, logged st' = logged st ++ l).

Lemma extends_refl (st : State) : extends st st.
Proof.
  repeat split; try (exists []; rewrite app_nil_r; reflexivity).
Qed.

Lemma extends_trans (a b c : State) : extends a b -> extends b c -> extends a c.
Proof.
  intros (R1 & E1 & N1 & W1 & (q1 & S1) & (l1 & L1))
         (R2 & E2 & N2 & W2 & (q2 & S2) & (l2 & L2)).
  repeat split; try congruence.
  - exists (q1 ++ q2). rewrite S2, S1, app_assoc. reflexivity.
  - exists (l1 ++ l2). rewrite L2, L1, app_assoc. reflexivity.
Qed.

(** A program that only logs and sends. *)
Definition talks {A} (m : IO A) : Prop := forall st, extends st (snd (m st)).

Lemma talks_ret {A} (a : A) : talks (IO.ret a).
Proof. intros st. apply extends_refl. Qed.

Lemma talks_bind {A B} (m : IO A) (k : A -> IO B) :
  talks m -> (forall a, talks (k a)) -> talks (IO.bind m k).
Proof.
  intros Hm Hk st. rewrite bind_eq.
  exact (extends_trans _ _ _ (Hm st) (Hk _ _)).
Qed.

Lemma talks_Printf (format : string) (args : list Log.arg) :
  talks (Printf format args).
Proof.
  intros st. repeat split; cbn.
  - exists []. rewrite app_nil_r. reflexivity.
  - eexists. reflexivity.
Qed.

Lemma talks_Do (req : Http.ClientRequest.t) : talks (Do req).
Proof.
  intros st. repeat split; cbn.
  - eexists. reflexivity.
  - exists []. rewrite app_nil_r. reflexivity.
Qed.

Lemma talks_if {A} (b : bool) (m1 m2 : IO A) :
  talks m1 -> talks m2 -> talks (if b then m1 else m2).
Proof. destruct b; auto. Qed.

(** Run the next steps of a program. *)
Ltac run :=
  repeat (progress
            (cbv beta iota;
             rewrite ?bind_eq;
             cbn [Printf Do Getenv IO.ret fst snd
                  node sent logged random environ picks writer])).

Ltac talks_tac :=
  repeat first
    [ apply talks_ret
    | apply talks_Printf
    | apply talks_Do
    | apply talks_bind; [|intros ?]
    | apply talks_if
    | match goal with
      | |- talks (match ?x with _ => _ end) => destruct x
      end ].

Section WithRuntime.
Context {R : Runtime}.

Lemma talks_call (c : KernelcoinRPCClient.t) (method : string)
  (params : list any) : talks (call c method params).
Proof. unfold call. cbv zeta. talks_tac. Qed.

(** The request a call sends. *)
Definition requestOf (c : KernelcoinRPCClient.t) (requestBody : list byte)
  : Http.ClientRequest.t :=
  {| Http.ClientRequest.Method := "POST";
     Http.ClientRequest.URL := KernelcoinRPCClient.url c;
     Http.ClientRequest.Body := requestBody;
     Http.ClientRequest.BasicAuth :=
       Some (KernelcoinRPCClient.user c, KernelcoinRPCClient.password c);
     Http.ClientRequest.Header := [("Content-Type", "application/json")%string] |}.

Definition rpcRequest (method : string) (params : list any)
  : JSONRPCRequest.t :=
  {| JSONRPCRequest.JSONRPC := "2.0";
     JSONRPCRequest.Method := method;
     JSONRPCRequest.Params := params;
     JSONRPCRequest.ID := 1 |}.

(** The requests a call sends: one, unless the request has no JSON text
    or the URL does not parse. *)
Definition traffic (c : KernelcoinRPCClient.t) (method : string)
  (params : list any) : list Http.ClientRequest.t :=
  match Marshal (rpcRequest method params) with
  | Error _ => []
  | Ok requestBody =>
      match ParseURL (KernelcoinRPCClient.url c) with
      | Error _ => []
      | Ok _ => [requestOf c requestBody]
      end
  end.

(** What a call returns, by what the node does. *)
Definition answer (c : KernelcoinRPCClient.t) (method : string)
  (params : list any)
  (node : list Http.ClientRequest.t -> Http.ClientRequest.t
          -> Result Http.Response.t)
  (sent : list Http.ClientRequest.t) : Result any :=
  match Marshal (rpcRequest method params) with
  | Error err => Error (Errorfw "failed to marshal request" err)
  | Ok requestBody =>
  match ParseURL (KernelcoinRPCClient.url c) with
  | Error err => Error (Errorfw "failed to create request" err)
  | Ok _ =>
  match node sent (requestOf c requestBody) with
  | Error err => Error (Errorfw "RPC POST failed" err)
  | Ok resp =>
  match Http.Response.Body resp with
  | Error err => Error (Errorfw "RPC read error" err)
  | Ok body =>
  match Unmarshal body with
  | Error err => Error (Errorfw "unmarshal error" err)
  | Ok response =>
  match JSONRPCResponse.Error response with
  | VNil => Ok (JSONRPCResponse.Result response)
  | rpcError => Error (Errorf ("RPC error: " ++ FormatValue rpcError))
  end end end end end end.

Lemma requestOf_eq (c : KernelcoinRPCClient.t) (requestBody : list byte) :
  RequestHeaderSet "Content-Type" "application/json"
    (SetBasicAuth (KernelcoinRPCClient.user c) (KernelcoinRPCClient.password c)
       {| Http.ClientRequest.Method := "POST";
          Http.ClientRequest.URL := KernelcoinRPCClient.url c;
          Http.ClientRequest.Body := requestBody;
          Http.ClientRequest.BasicAuth := None;
          Http.ClientRequest.Header := [] |})
  = requestOf c requestBody.
Proof. reflexivity. Qed.

Lemma call_answer (c : KernelcoinRPCClient.t) (method : string)
  (params : list any) (st : State) :
  fst (call c method params st) = answer c method params (node st) (sent st)
  /\ sent (snd (call c method params st)) = sent st ++ traffic c method params.
Proof.
  unfold call, answer, traffic, NewRequest. cbv zeta.
  fold (rpcRequest method params). run.
  destruct (Marshal (rpcRequest method params)) as [requestBody|e1]; run;
    [|rewrite app_nil_r; auto].
  destruct (ParseURL (KernelcoinRPCClient.url c)) as [[]|e2]; run;
    [|rewrite app_nil_r; auto].
  rewrite !requestOf_eq.
  destruct (node st (sent st) (requestOf c requestBody)) as [resp|e3]; run;
    [|auto].
  destruct (Http.Response.Body resp) as [body|e4]; run; [|auto].
  destruct (Unmarshal body) as [response|e5];
    destruct (quietMethod method); run; auto;
    destruct (JSONRPCResponse.Error response) eqn:E; run; auto;
    destruct (asSlice (JSONRPCResponse.Result response)); run; auto.
Qed.

(** What a call returns does not depend on the log, the response or
    the random source. *)
Lemma call_fst (c : KernelcoinRPCClient.t) (method : string)
  (params : list any) (st st' : State) :
  extends st st' -> sent st' = sent st ->
  fst (call c method params st') = fst (call c method params st).
Proof.
  intros (_ & _ & N & _) S.
  rewrite (proj1 (call_answer c method params st')),
    (proj1 (call_answer c method params st)), N, S.
  reflexivity.
Qed.

End WithRuntime.

(** *** The handlers of the wallet file's functions *)

Section WithPrimitives.
Context {P : Primitives} {R : Runtime}.

Definition jsonHeader : list (string * string) :=
  [("Content-Type", "application/json")%string].

(** The response after one JSON document was sent with a status. *)
Definition reply (code : Z) (doc : any) : Http.ResponseWriter.t :=
  {| Http.ResponseWriter.header := jsonHeader;
     Http.ResponseWriter.wrote := Some (code, jsonHeader);
     Http.ResponseWriter.body := [doc] |}.

Definition entry (format : string) (args : list Log.arg) : Log.Entry :=
  {| Log.format := format; Log.args := args |}.

(** The handlers that want a POST. *)
Definition postHandlers
  : list (WalletServer.t -> Http.Request.t -> IO unit) :=
  [HandleSendTransaction; HandleImportKey; HandleNewWallet; HandleNewAddress;
   HandleGetNewAddress; HandleGenerateAddress; HandleValidateAddress;
   HandleMnemonicToWIF].

Lemma withRandom_eq {A} (m : M A) (st : State) :
  withRandom m st
  = (fst (m (random st)),
     {| random := snd (m (random st)); environ := environ st;
        node := node st; sent := sent st; logged := logged st;
        picks := picks st; writer := writer st |}).
Proof. unfold withRandom. destruct (m (random st)). reflexivity. Qed.

Lemma omitempty_nonempty (key s : string) :
  s <> EmptyString -> Json.omitempty key s = [(key, VString s)].
Proof.
  intros H. unfold Json.omitempty.
  destruct (String.eqb_spec s ""); [contradiction|reflexivity].
Qed.

Ltac respond :=
  cbn [HeaderSet WriteHeader Encode updateWriter postOnly errorMap ofStrings
       Http.ResponseWriter.WriteHeader Http.ResponseWriter.Write
       Http.ResponseWriter.header Http.ResponseWriter.wrote
       Http.ResponseWriter.body Http.ResponseWriter.new
       Http.HeaderSet filter map fst snd field
       Json.encodable forallb andb app
       node sent logged random environ picks writer IO.ret].

(** X8 — a handler that wants a POST answers every other method with
    status 405 and the JSON document error: POST only; it logs the
    request line and does nothing else: no byte is read from the random
    source and nothing is sent to the node. *)
Theorem post_only (handler : WalletServer.t -> Http.Request.t -> IO unit)
  (ws : WalletServer.t) (r : Http.Request.t) (st : State) :
  In handler postHandlers ->
  Http.Request.Method r <> "POST"%string ->
  writer st = Http.ResponseWriter.new ->
  let st' := snd (handler ws r st) in
  writer st' = reply 405 (VMap [field "error" (VString "POST only")])
  /\ random st' = random st
  /\ sent st' = sent st
  /\ exists line, logged st' = logged st ++ [line].
Proof.
  intros Hin Hm Hw st'. subst st'.
  assert (Hpost : forall st0,
             writer st0 = Http.ResponseWriter.new ->
             writer (snd (postOnly st0))
             = reply 405 (VMap [field "error" (VString "POST only")])
             /\ random (snd (postOnly st0)) = random st0
             /\ sent (snd (postOnly st0)) = sent st0
             /\ logged (snd (postOnly st0)) = logged st0).
  { intros st0 H0. unfold postOnly. run. respond. rewrite H0.
    repeat split. }
  assert (Hneq : negb (String.eqb (Http.Request.Method r) Http.MethodPost) = true).
  { destruct (String.eqb_spec (Http.Request.Method r) Http.MethodPost);
      [contradiction|reflexivity]. }
  unfold postHandlers in Hin. cbn [In] in Hin.
  repeat match type of Hin with
         | _ \/ _ => destruct Hin as [<-|Hin]
         | False => contradiction
         end;
    cbv delta [HandleSendTransaction HandleImportKey HandleNewWallet
               HandleNewAddress HandleGetNewAddress HandleGenerateAddress
               HandleValidateAddress HandleMnemonicToWIF];
    run; rewrite Hneq; cbv iota;
    match goal with
    | |- context [postOnly ?s] =>
        destruct (Hpost s Hw) as (A & B & C & D)
    end;
    rewrite A, B, C, D; cbn [random sent logged];
    (split; [reflexivity|]; split; [reflexivity|]; split; [reflexivity|]);
    eexists; reflexivity.
Qed.

Lemma wordsLoop_length (n : nat) :
  forall x ws, length (Bip39.wordsLoop n x ws) = (n + length ws)%nat.
Proof.
  induction n as [|n IH]; intros x ws; [reflexivity|].
  cbn [Bip39.wordsLoop]. cbv zeta. rewrite IH. cbn [length]. lia.
Qed.

Lemma Join_nonempty (a b : string) (l : list string) :
  Strings.Join (a :: b :: l) " " <> EmptyString.
Proof.
  unfold Strings.Join. cbn [String.concat].
  destruct a; cbn; discriminate.
Qed.

(** The mnemonic of a generated wallet is not the empty text. *)
Lemma generated_mnemonic_nonempty (w w' : World) (wallet : Wallet) :
  GenerateNewWallet w = (Ok wallet, w') -> Mnemonic wallet <> EmptyString.
Proof.
  rewrite GenerateNewWallet_eq.
  destruct (Nat.ltb_spec (length w) 16) as [Hlt|Hge];
    [intros H; apply pair_fst_eq in H; discriminate|].
  assert (Hlen : length (firstn 16 w) = 16%nat)
    by (rewrite length_firstn; lia).
  unfold Bip39.NewMnemonic. rewrite Hlen. cbv zeta.
  change (Bip39.validateEntropyBitSize (Z.of_nat 16 * 8)) with (Ok tt).
  cbv iota.
  change (Z.to_nat ((Z.of_nat 16 * 8 + Z.of_nat 16 * 8 / 32) / 11))
    with 12%nat.
  intros H. apply pair_fst_eq in H.
  rewrite (Mnemonic_fromSeed _ _ _ H).
  pose proof (wordsLoop_length 12
                (SetBytes (Bip39.addChecksum (firstn 16 w))) []) as Hl.
  destruct (Bip39.wordsLoop 12 _ []) as [|a [|b l]];
    cbn [length] in Hl; try lia.
  apply Join_nonempty.
Qed.

Lemma returned_new (w w' : World) (wallet : Wallet) :
  GenerateNewWallet w = (Ok wallet, w') -> returned wallet.
Proof. intros H. left. exists w, w'. exact H. Qed.

Lemma returned_restored (mnemonic : string) (w w' : World) (wallet : Wallet) :
  GenerateWalletFromMnemonic mnemonic w = (Ok wallet, w') -> returned wallet.
Proof. intros H. right. exists mnemonic, w, w'. exact H. Qed.

(** X9 — a new wallet over HTTP: when [GenerateNewWallet] returns a
    wallet, the handler answers a POST with status 200 and one JSON
    document of exactly five keys: success, the mnemonic, the WIF, the
    legacy address and the segwit address of that wallet; the keys in
    hexadecimal and the derivation path are not sent. It takes the
    bytes of the wallet from the random source, sends nothing to the
    node, and logs the address of the peer and the legacy address
    only. *)
Theorem HandleNewWallet_reply (ws : WalletServer.t) (r : Http.Request.t)
  (st : State) (wallet : Wallet) (w' : World) :
  Http.Request.Method r = "POST"%string ->
  writer st = Http.ResponseWriter.new ->
  GenerateNewWallet (random st) = (Ok wallet, w') ->
  let st' := snd (HandleNewWallet ws r st) in
  writer st'
  = reply 200
      (VMap [field "success" (VBool true);
             field "mnemonic" (VString (Mnemonic wallet));
             field "private_key_wif" (VString (PrivateKeyWIF wallet));
             field "legacy_address" (VString (LegacyAddress wallet));
             field "segwit_address" (VString (SegWitAddress wallet))])
  /\ random st' = w'
  /\ sent st' = sent st
  /\ logged st'
     = logged st
       ++ [entry "[API] NewWallet request from %s"
             [LString (Http.Request.RemoteAddr r)];
           entry "[API] NewWallet SUCCESS: %s"
             [LString (LegacyAddress wallet)]].
Proof.
  intros Hm Hw Hgen st'. subst st'.
  pose proof (generated_mnemonic_nonempty _ _ _ Hgen) as Nm.
  destruct (FormatFacts.returned_nonempty wallet (returned_new _ _ _ Hgen))
    as (Nw & Nl & Ns).
  unfold HandleNewWallet. run. rewrite Hm.
  change (negb (String.eqb "POST" Http.MethodPost)) with false. run.
  rewrite withRandom_eq. cbn [random]. rewrite Hgen. run.
  unfold NewWalletResponse.toJSON.
  cbn [NewWalletResponse.Success NewWalletResponse.Mnemonic
       NewWalletResponse.PrivateKeyWIF NewWalletResponse.LegacyAddress
       NewWalletResponse.SegWitAddress NewWalletResponse.Error].
  rewrite !omitempty_nonempty by assumption.
  change (Json.omitempty "error" "") with (@nil (string * any)).
  respond. rewrite Hw. rewrite <- app_assoc. repeat split.
Qed.

Lemma GenerateWalletFromMnemonic_snd (mnemonic : string) (w : World) :
  snd (GenerateWalletFromMnemonic mnemonic w) = w.
Proof. rewrite GenerateWalletFromMnemonic_eq. reflexivity. Qed.

Lemma returned_fst (mnemonic : string) (w : World) (wallet : Wallet) :
  fst (GenerateWalletFromMnemonic mnemonic w) = Ok wallet -> returned wallet.
Proof.
  intros H. apply (returned_restored mnemonic w w).
  rewrite <- (GenerateWalletFromMnemonic_snd mnemonic w) at 2.
  rewrite <- H. apply surjective_pairing.
Qed.

(** The failure a handler reports with a status. *)
Definition failure (code : Z) (message : string) : Http.ResponseWriter.t :=
  reply code (VMap [field "success" (VBool false);
                    field "error" (VString message)]).

Ltac fields :=
  cbv delta [MnemonicToWIFResponse.toJSON NewAddressResponse.toJSON
             NewWalletResponse.toJSON SendTransactionResponse.toJSON
             ImportKeyResponse.toJSON GetNewAddressResponse.toJSON
             GenerateAddressResponse.toJSON ValidateAddressResponse.toJSON
             AddressesResponse.toJSON TransactionsListResponse.toJSON];
  cbv beta;
  cbn [MnemonicToWIFResponse.Success MnemonicToWIFResponse.WIF
       MnemonicToWIFResponse.Error
       NewAddressResponse.Success NewAddressResponse.LegacyAddress
       NewAddressResponse.SegWitAddress NewAddressResponse.Error
       NewWalletResponse.Success NewWalletResponse.Mnemonic
       NewWalletResponse.PrivateKeyWIF NewWalletResponse.LegacyAddress
       NewWalletResponse.SegWitAddress NewWalletResponse.Error
       SendTransactionResponse.Success SendTransactionResponse.Txid
       SendTransactionResponse.Error
       ImportKeyResponse.Success ImportKeyResponse.Error
       GetNewAddressResponse.Success GetNewAddressResponse.Address
       GetNewAddressResponse.Error
       GenerateAddressResponse.Success GenerateAddressResponse.Address
       GenerateAddressResponse.Error
       ValidateAddressResponse.Isvalid ValidateAddressResponse.Error
       AddressesResponse.Success AddressesResponse.Addresses
       AddressesResponse.Error
       TransactionsListResponse.Success TransactionsListResponse.Transactions
       TransactionsListResponse.Error];
  repeat match goal with
         | |- context [Json.omitempty ?k EmptyString] =>
             change (Json.omitempty k EmptyString) with (@nil (string * any))
         | |- context [Json.omitempty ?k (String ?c ?s ++ ?t)%string] =>
             change (Json.omitempty k (String c s ++ t)%string)
               with [(k, VString (String c s ++ t)%string)]
         | |- context [Json.omitempty ?k (String ?c ?s)] =>
             change (Json.omitempty k (String c s))
               with [(k, VString (String c s))]
         end.

(** X10 — a mnemonic turned into a WIF over HTTP: the handler answers a
    POST whose body cannot be read, whose mnemonic is empty or whose
    mnemonic does not validate with status 400 and a reason, an empty
    mnemonic being reported as missing before any validation; it answers
    a mnemonic that [GenerateWalletFromMnemonic] accepts with status 200
    and a document of two keys, success and the WIF of that wallet. It
    reads no random byte and sends nothing to the node. *)
Theorem HandleMnemonicToWIF_reply (ws : WalletServer.t) (r : Http.Request.t)
  (st : State) :
  Http.Request.Method r = "POST"%string ->
  writer st = Http.ResponseWriter.new ->
  let st' := snd (HandleMnemonicToWIF ws r st) in
  random st' = random st
  /\ sent st' = sent st
  /\ (forall err,
        DecodeMnemonicToWIFRequest (Http.Request.Body r) = Error err ->
        writer st' = failure 400 "Invalid request format")
  /\ (forall req,
        DecodeMnemonicToWIFRequest (Http.Request.Body r) = Ok req ->
        (MnemonicToWIFRequest.Mnemonic req = EmptyString ->
         writer st' = failure 400 "Mnemonic phrase is required")
        /\ (MnemonicToWIFRequest.Mnemonic req <> EmptyString ->
            Bip39.IsMnemonicValid (MnemonicToWIFRequest.Mnemonic req) = false ->
            writer st'
            = failure 400 "Failed to convert mnemonic: invalid mnemonic phrase")
        /\ (forall wallet,
              MnemonicToWIFRequest.Mnemonic req <> EmptyString ->
              fst (GenerateWalletFromMnemonic
                     (MnemonicToWIFRequest.Mnemonic req) (random st))
              = Ok wallet ->
              writer st'
              = reply 200
                  (VMap [field "success" (VBool true);
                         field "wif" (VString (PrivateKeyWIF wallet))]))).
Proof.
  intros Hm Hw st'. subst st'.
  unfold HandleMnemonicToWIF. run. rewrite Hm.
  change (negb (String.eqb "POST" Http.MethodPost)) with false. run.
  destruct (DecodeMnemonicToWIFRequest (Http.Request.Body r)) as [req|err0].
  2:{ run. fields. respond. rewrite Hw.
      repeat split; intros; try discriminate. }
  destruct (String.eqb_spec (MnemonicToWIFRequest.Mnemonic req) "") as [He|Hne].
  { run. fields. respond. rewrite Hw.
    split; [reflexivity|]. split; [reflexivity|].
    split; [intros; discriminate|].
    intros req' Hreq. injection Hreq as <-.
    repeat split; intros; try contradiction; reflexivity. }
  run. rewrite withRandom_eq. cbn [random fst snd].
  rewrite GenerateWalletFromMnemonic_snd.
  destruct (fst (GenerateWalletFromMnemonic
                   (MnemonicToWIFRequest.Mnemonic req) (random st)))
    as [wallet|err] eqn:Hgen.
  - destruct (FormatFacts.returned_nonempty wallet (returned_fst _ _ _ Hgen))
      as (Nw & _ & _).
    run. fields. rewrite (omitempty_nonempty "wif") by assumption.
    respond. rewrite Hw.
    split; [reflexivity|]. split; [reflexivity|].
    split; [intros; discriminate|].
    intros req' Hreq. injection Hreq as <-.
    split; [intros; contradiction|]. split.
    + intros _ Hv. rewrite GenerateWalletFromMnemonic_eq, Hv in Hgen.
      discriminate.
    + intros wallet' _ Hw'. rewrite Hgen in Hw'. injection Hw' as <-.
      reflexivity.
  - run. fields. respond. rewrite Hw.
    split; [reflexivity|]. split; [reflexivity|].
    split; [intros; discriminate|].
    intros req' Hreq. injection Hreq as <-.
    split; [intros; contradiction|]. split.
    + intros _ Hv. rewrite GenerateWalletFromMnemonic_eq, Hv in Hgen.
      rewrite fst_pair in Hgen. injection Hgen as <-. reflexivity.
    + intros wallet' _ Hw'. rewrite Hgen in Hw'. discriminate.
Qed.

Lemma HandleMnemonicToWIF_ok (ws : WalletServer.t) (r : Http.Request.t)
  (st : State) (req : MnemonicToWIFRequest.t) (wallet : Wallet) :
  Http.Request.Method r = "POST"%string ->
  writer st = Http.ResponseWriter.new ->
  DecodeMnemonicToWIFRequest (Http.Request.Body r) = Ok req ->
  MnemonicToWIFRequest.Mnemonic req <> EmptyString ->
  fst (GenerateWalletFromMnemonic (MnemonicToWIFRequest.Mnemonic req)
         (random st)) = Ok wallet ->
  writer (snd (HandleMnemonicToWIF ws r st))
  = reply 200 (VMap [field "success" (VBool true);
                     field "wif" (VString (PrivateKeyWIF wallet))]).
Proof.
  intros Hm Hw Hreq Hne Hgen.
  destruct (FormatFacts.returned_nonempty wallet (returned_fst _ _ _ Hgen))
    as (Nw & _ & _).
  unfold HandleMnemonicToWIF. run. rewrite Hm, Hreq.
  change (negb (String.eqb "POST" Http.MethodPost)) with false. run.
  destruct (String.eqb_spec (MnemonicToWIFRequest.Mnemonic req) "");
    [contradiction|].
  run. rewrite withRandom_eq. cbn [random fst snd]. rewrite Hgen.
  run. fields. rewrite (omitempty_nonempty "wif") by assumption.
  respond. rewrite Hw. reflexivity.
Qed.

Lemma HandleNewAddress_ok (ws : WalletServer.t) (r : Http.Request.t)
  (st : State) (req : list (string * string)) (mnemonic : string)
  (wallet : Wallet) :
  Http.Request.Method r = "POST"%string ->
  writer st = Http.ResponseWriter.new ->
  DecodeStringMap (Http.Request.Body r) = Ok req ->
  lookupString req "mnemonic" = Some mnemonic ->
  mnemonic <> EmptyString ->
  fst (GenerateWalletFromMnemonic mnemonic (random st)) = Ok wallet ->
  writer (snd (HandleNewAddress ws r st))
  = reply 200
      (VMap [field "success" (VBool true);
             field "legacy_address" (VString (LegacyAddress wallet));
             field "segwit_address" (VString (SegWitAddress wallet))]).
Proof.
  intros Hm Hw Hreq Hlook Hne Hgen.
  destruct (FormatFacts.returned_nonempty wallet (returned_fst _ _ _ Hgen))
    as (_ & Nl & Ns).
  unfold HandleNewAddress. run. rewrite Hm, Hreq.
  change (negb (String.eqb "POST" Http.MethodPost)) with false. run.
  rewrite Hlook. cbn [negb orb].
  destruct (String.eqb_spec mnemonic ""); [contradiction|].
  run. rewrite withRandom_eq. cbn [random fst snd]. rewrite Hgen.
  run. fields. rewrite !omitempty_nonempty by assumption.
  respond. rewrite Hw. reflexivity.
Qed.

Section WordList.
Hypothesis wordList_ok : Bip39Facts.wellFormedWordList wordList = true.

(** X11 — a wallet handed out can be fed back: with the mnemonic of a
    wallet that [GenerateNewWallet] returned, whatever the state of the
    server, the handler of import-mnemonic answers with the WIF of that
    wallet and the handler of new-address with its two addresses, both
    with status 200. *)
Theorem restore_over_http (ws : WalletServer.t) (w w' : World)
  (wallet : Wallet) (r1 r2 : Http.Request.t) (st1 st2 : State)
  (req1 : MnemonicToWIFRequest.t) (req2 : list (string * string)) :
  GenerateNewWallet w = (Ok wallet, w') ->
  Http.Request.Method r1 = "POST"%string ->
  writer st1 = Http.ResponseWriter.new ->
  DecodeMnemonicToWIFRequest (Http.Request.Body r1) = Ok req1 ->
  MnemonicToWIFRequest.Mnemonic req1 = Mnemonic wallet ->
  Http.Request.Method r2 = "POST"%string ->
  writer st2 = Http.ResponseWriter.new ->
  DecodeStringMap (Http.Request.Body r2) = Ok req2 ->
  lookupString req2 "mnemonic" = Some (Mnemonic wallet) ->
  writer (snd (HandleMnemonicToWIF ws r1 st1))
  = reply 200 (VMap [field "success" (VBool true);
                     field "wif" (VString (PrivateKeyWIF wallet))])
  /\ writer (snd (HandleNewAddress ws r2 st2))
     = reply 200
         (VMap [field "success" (VBool true);
                field "legacy_address" (VString (LegacyAddress wallet));
                field "segwit_address" (VString (SegWitAddress wallet))]).
Proof.
  intros Hgen Hm1 Hw1 Hd1 He1 Hm2 Hw2 Hd2 Hl2.
  pose proof (generated_mnemonic_nonempty _ _ _ Hgen) as Nm.
  destruct (EntryPointFacts.generated_from wordList_ok _ _ _ Hgen)
    as (_ & _ & Hdec & Hfrom).
  assert (Hback : forall x,
             fst (GenerateWalletFromMnemonic (Mnemonic wallet) x) = Ok wallet).
  { intros x. rewrite GenerateWalletFromMnemonic_eq, fst_pair.
    rewrite (valid_of_entropy _ _ Hdec). exact Hfrom. }
  split.
  - apply (HandleMnemonicToWIF_ok ws r1 st1 req1); try assumption.
    + rewrite He1. exact Nm.
    + rewrite He1. apply Hback.
  - apply (HandleNewAddress_ok ws r2 st2 req2 (Mnemonic wallet));
      try assumption. apply Hback.
Qed.

End WordList.

(** *** What the handlers leave alone *)

(** A program that leaves one part of the state as it was. *)
Definition preserves {A X} (part : State -> X) (m : IO A) : Prop :=
  forall st, part (snd (m st)) = part st.

Lemma preserves_bind {A B X} (part : State -> X) (m : IO A) (k : A -> IO B) :
  preserves part m -> (forall a, preserves part (k a)) ->
  preserves part (IO.bind m k).
Proof.
  intros Hm Hk st. rewrite bind_eq, Hk. apply Hm.
Qed.

Lemma preserves_if {A X} (part : State -> X) (b : bool) (m1 m2 : IO A) :
  preserves part m1 -> preserves part m2 ->
  preserves part (if b then m1 else m2).
Proof. destruct b; auto. Qed.

Lemma talks_preserves_writer {A} (m : IO A) : talks m -> preserves writer m.
Proof. intros H st. apply (H st). Qed.

Lemma talks_preserves_random {A} (m : IO A) : talks m -> preserves random m.
Proof. intros H st. apply (H st). Qed.

Lemma restoring_preserves_random (mnemonic : string) :
  preserves random (withRandom (GenerateWalletFromMnemonic mnemonic)).
Proof.
  intros st. rewrite withRandom_eq. cbn [snd random].
  apply GenerateWalletFromMnemonic_snd.
Qed.

(** The steps that are one operation on the state. *)
Ltac one_step :=
  intros ?st;
  cbv [Printf Do Getenv HeaderSet WriteHeader Encode updateWriter IO.ret
       rangeKeys];
  rewrite ?withRandom_eq;
  repeat match goal with
         | |- context [if ?b then _ else _] => destruct b
         | |- context [let (_, _) := ?x in _] => destruct x
         end;
  reflexivity.

Ltac preserves_with more :=
  repeat first
    [ more
    | apply preserves_bind; [|intros ?]
    | apply preserves_if
    | match goal with
      | |- preserves _ (match ?x with _ => _ end) => destruct x
      | |- preserves _ (let (_, _) := ?x in _) => destruct x
      end
    | solve [one_step] ].

Lemma call_preserves_writer (c : KernelcoinRPCClient.t) (method : string)
  (params : list any) : preserves writer (call c method params).
Proof. apply talks_preserves_writer, talks_call. Qed.

Lemma call_preserves_random (c : KernelcoinRPCClient.t) (method : string)
  (params : list any) : preserves random (call c method params).
Proof. apply talks_preserves_random, talks_call. Qed.

(** The handlers that ask the node. *)
Definition nodeHandlers
  : list (WalletServer.t -> Http.Request.t -> IO unit) :=
  [HandleBalance; HandleSendTransaction; HandleImportKey;
   HandleListTransactions; HandleGetAddresses; HandleGetNewAddress;
   HandleGenerateAddress; HandleValidateAddress; HandleCheckWallet;
   HandleNetworkInfo; HandleBlockchainInfo].

(** The handlers that make keys. *)
Definition walletHandlers
  : list (WalletServer.t -> Http.Request.t -> IO unit) :=
  [HandleNewWallet; HandleNewAddress; HandleMnemonicToWIF].

Ltac unfold_handlers :=
  cbv delta [HandleBalance HandleSendTransaction HandleImportKey
             HandleNewWallet HandleNewAddress HandleListTransactions
             HandleGetAddresses HandleGetNewAddress HandleGenerateAddress
             HandleValidateAddress HandleCheckWallet HandleMnemonicToWIF
             HandleNetworkInfo HandleBlockchainInfo
             GetBalanceInfo GetBalance ImportPrivateKey SendToAddress
             ValidateAddress ListTransactions GetAddressesByLabel
             GetNewAddress GetNetworkInfo GetBlockchainInfo postOnly];
  cbv beta zeta.

Ltac each_handler H :=
  cbn [In] in H;
  repeat match type of H with
         | _ \/ _ => destruct H as [<-|H]
         | False => contradiction
         end.

(** X12 — keys are made offline and the node is asked without chance:
    the three handlers that make keys (new-wallet, new-address,
    import-mnemonic) send nothing to the node, whatever the request;
    the eleven handlers that ask the node, and also new-address and
    import-mnemonic, read no byte from the random source, so that only
    new-wallet consumes randomness. *)
Theorem keys_offline_node_sober
  (handler : WalletServer.t -> Http.Request.t -> IO unit)
  (ws : WalletServer.t) (r : Http.Request.t) (st : State) :
  (In handler walletHandlers -> sent (snd (handler ws r st)) = sent st)
  /\ (In handler nodeHandlers \/ handler = HandleNewAddress
      \/ handler = HandleMnemonicToWIF ->
      random (snd (handler ws r st)) = random st).
Proof.
  split.
  - intros Hin. revert st. change (preserves sent (handler ws r)).
    unfold walletHandlers in Hin. each_handler Hin;
      unfold_handlers; preserves_with fail.
  - intros Hin. revert st. change (preserves random (handler ws r)).
    assert (H : In handler (HandleNewAddress :: HandleMnemonicToWIF
                            :: nodeHandlers))
      by (destruct Hin as [Hin|[-> | ->]]; cbn [In]; auto).
    clear Hin. unfold nodeHandlers in H. each_handler H;
      unfold_handlers;
      preserves_with ltac:(first [apply call_preserves_random
                                 |apply restoring_preserves_random]).
Qed.

(** *** Every reply is JSON *)

(** The header as it is sent: the one sent with the status, or the one
    set so far, which the server sends with status 200 when the handler
    returns without having written. *)
Definition sentHeader (w : Http.ResponseWriter.t) : list (string * string) :=
  match Http.ResponseWriter.wrote w with
  | Some (_, h) => h
  | None => Http.ResponseWriter.header w
  end.

Definition status (w : Http.ResponseWriter.t) : Z :=
  match Http.ResponseWriter.wrote w with
  | Some (code, _) => code
  | None => Http.StatusOK
  end.

Definition answered (w : Http.ResponseWriter.t) : Prop :=
  sentHeader w = jsonHeader
  /\ In (status w) [200; 400; 405; 500]
  /\ (length (Http.ResponseWriter.body w) <= 1)%nat.

Definition answers {A} (m : IO A) : Prop :=
  forall st,
    writer st = Http.ResponseWriter.new -> answered (writer (snd (m st))).

Lemma answers_bind {A B} (m : IO A) (k : A -> IO B) :
  preserves writer m -> (forall a, answers (k a)) -> answers (IO.bind m k).
Proof.
  intros Hm Hk st Hw. rewrite bind_eq. apply Hk. rewrite Hm. exact Hw.
Qed.

Lemma answers_if {A} (b : bool) (m1 m2 : IO A) :
  answers m1 -> answers m2 -> answers (if b then m1 else m2).
Proof. destruct b; auto. Qed.

Lemma answers_status (code : Z) (v : any) :
  In code [400; 405; 500] ->
  answers (HeaderSet "Content-Type" "application/json" ;;
           WriteHeader code ;; Encode v)%io.
Proof.
  intros Hc st Hw. run. unfold Encode.
  destruct (Json.encodable v); respond; rewrite Hw;
    (split; [reflexivity|]; split; [|cbn; lia]);
    unfold status; cbn [Http.ResponseWriter.wrote In] in *; tauto.
Qed.

Lemma answers_ok (v : any) :
  answers (HeaderSet "Content-Type" "application/json" ;; Encode v)%io.
Proof.
  intros st Hw. run. unfold Encode.
  destruct (Json.encodable v); respond; rewrite Hw;
    (split; [reflexivity|]; split; [|cbn; lia]);
    unfold status; cbn; tauto.
Qed.

Lemma answers_ok_logged (v : any) (format : string) (args : list Log.arg) :
  answers (HeaderSet "Content-Type" "application/json" ;; Encode v ;;
           Printf format args)%io.
Proof.
  intros st Hw. run. unfold Encode.
  destruct (Json.encodable v); respond; rewrite Hw;
    (split; [reflexivity|]; split; [|cbn; lia]);
    unfold status; cbn; tauto.
Qed.

Ltac keeps_writer :=
  preserves_with ltac:(apply call_preserves_writer).

Ltac answers_tac :=
  repeat first
    [ apply answers_ok_logged
    | apply answers_ok
    | apply answers_status; cbn; tauto
    | apply answers_if
    | match goal with
      | |- answers (match ?x with _ => _ end) => destruct x
      | |- answers (let (_, _) := ?x in _) => destruct x
      end
    | apply answers_bind; [solve [keeps_writer]|intros ?] ].

(** X13 — every reply is JSON: each of the fourteen handlers of the
    API, for every request and every state of the node, leaves a
    response whose header, as sent, is Content-Type: application/json,
    whose status is 200, 400, 405 or 500, and whose body holds at most
    one JSON document. *)
Theorem replies_are_json
  (handler : WalletServer.t -> Http.Request.t -> IO unit)
  (ws : WalletServer.t) (r : Http.Request.t) (st : State) :
  In handler (nodeHandlers ++ walletHandlers) ->
  writer st = Http.ResponseWriter.new ->
  answered (writer (snd (handler ws r st))).
Proof.
  intros Hin. revert st. change (answers (handler ws r)).
  unfold nodeHandlers, walletHandlers in Hin. cbn [app] in Hin.
  each_handler Hin; unfold_handlers; answers_tac.
Qed.

(** *** Asking the node *)

(** What a call returns is decided by the node and by the requests sent
    before it. *)
Lemma call_at (c : KernelcoinRPCClient.t) (method : string)
  (params : list any) (st1 st : State) :
  node st1 = node st -> sent st1 = sent st ->
  fst (call c method params st1) = fst (call c method params st).
Proof.
  intros N S.
  rewrite (proj1 (call_answer c method params st1)),
    (proj1 (call_answer c method params st)), N, S.
  reflexivity.
Qed.

Lemma call_sent (c : KernelcoinRPCClient.t) (method : string)
  (params : list any) (st : State) :
  sent (snd (call c method params st)) = sent st ++ traffic c method params.
Proof. apply call_answer. Qed.

(** The answer of the node to validateaddress, read as [ValidateAddress]
    reads it. *)
Definition isvalid (result : Result any) : Result bool :=
  match result with
  | Error err => Error err
  | Ok result =>
      match asMap result with
      | None =>
          Error (Errorf ("unexpected validateaddress type: "
                         ++ typeName result))
      | Some m =>
          match asBool (index m "isvalid") with
          | Some v => Ok v
          | None => Error (Errorf "validateaddress missing isvalid")
          end
      end
  end.

Lemma ValidateAddress_eq (c : KernelcoinRPCClient.t) (addr : string)
  (st : State) :
  fst (ValidateAddress c addr st)
  = isvalid (fst (call c "validateaddress" [VString addr] st))
  /\ snd (ValidateAddress c addr st)
     = snd (call c "validateaddress" [VString addr] st).
Proof.
  unfold ValidateAddress, isvalid. run.
  destruct (fst (call c "validateaddress" [VString addr] st))
    as [result|err]; run; [|auto].
  destruct (asMap result) as [m|]; run; [|auto].
  destruct (asBool (index m "isvalid")); run; auto.
Qed.

Lemma ValidateAddress_at (c : KernelcoinRPCClient.t) (addr : string)
  (st1 st : State) :
  node st1 = node st -> sent st1 = sent st ->
  fst (ValidateAddress c addr st1) = fst (ValidateAddress c addr st).
Proof.
  intros N S.
  rewrite (proj1 (ValidateAddress_eq c addr st1)),
    (proj1 (ValidateAddress_eq c addr st)), (call_at _ _ _ st1 st N S).
  reflexivity.
Qed.

Lemma ValidateAddress_keeps (c : KernelcoinRPCClient.t) (addr : string) :
  preserves writer (ValidateAddress c addr).
Proof. unfold ValidateAddress. keeps_writer. Qed.

Lemma SendToAddress_keeps (c : KernelcoinRPCClient.t) (toAddress : string)
  (amount : PrimFloat.float) :
  preserves writer (SendToAddress c toAddress amount).
Proof. unfold SendToAddress. keeps_writer. Qed.

Lemma ImportPrivateKey_keeps (c : KernelcoinRPCClient.t) (wif : string) :
  preserves writer (ImportPrivateKey c wif).
Proof. unfold ImportPrivateKey. keeps_writer. Qed.

Lemma GetBalanceInfo_keeps (c : KernelcoinRPCClient.t) (address : string) :
  preserves writer (GetBalanceInfo c address).
Proof. unfold GetBalanceInfo. cbv zeta. keeps_writer. Qed.

Lemma ListTransactions_keeps (c : KernelcoinRPCClient.t) (address : string)
  (count : Z) :
  preserves writer (ListTransactions c address count).
Proof. unfold ListTransactions. keeps_writer. Qed.

Lemma GetAddressesByLabel_keeps (c : KernelcoinRPCClient.t) (label : string) :
  preserves writer (GetAddressesByLabel c label).
Proof. unfold GetAddressesByLabel. cbv zeta. keeps_writer. Qed.

(** The node said that the address is valid. *)
Lemma isvalid_true (result : Result any) :
  isvalid result = Ok true <->
  exists m, result = Ok (VMap m) /\ index m "isvalid" = VBool true.
Proof.
  unfold isvalid. split.
  - destruct result as [[| | | | | |m]|err]; try discriminate.
    cbn [asMap]. destruct (index m "isvalid") as [|[|]| | | | |] eqn:E;
      try discriminate.
    intros _. exists m. auto.
  - intros (m & -> & E). cbn [asMap]. rewrite E. reflexivity.
Qed.

(** The value of a key of a JSON object. *)
Definition get (doc : any) (key : string) : any :=
  match doc with
  | VMap m => index m key
  | _ => VNil
  end.

(** X14 — the reply to validateaddress: for a POST whose body can be
    read the handler always answers with status 200, also when the call
    to the node fails; the document says isvalid: true exactly when the
    node answered with an object whose isvalid is the boolean true, and
    isvalid: false in every other case. *)
Theorem HandleValidateAddress_reply (ws : WalletServer.t)
  (r : Http.Request.t) (st : State) (req : ValidateAddressRequest.t) :
  Http.Request.Method r = "POST"%string ->
  writer st = Http.ResponseWriter.new ->
  DecodeValidateAddressRequest (Http.Request.Body r) = Ok req ->
  exists doc valid,
    writer (snd (HandleValidateAddress ws r st)) = reply 200 doc
    /\ get doc "isvalid" = VBool valid
    /\ (valid = true <->
        exists m,
          fst (call (WalletServer.rpcClient ws) "validateaddress"
                 [VString (ValidateAddressRequest.Address req)] st)
          = Ok (VMap m)
          /\ index m "isvalid" = VBool true).
Proof.
  intros Hm Hw Hreq.
  set (c := WalletServer.rpcClient ws).
  set (addr := ValidateAddressRequest.Address req).
  assert (Hrun : writer (snd (HandleValidateAddress ws r st))
                 = match fst (ValidateAddress c addr st) with
                   | Ok valid => reply 200 (VMap [field "isvalid" (VBool valid)])
                   | Error err =>
                       reply 200
                         (VMap [field "isvalid" (VBool false);
                                field "error"
                                  (VString ("Validation error: "
                                            ++ errorString err))])
                   end).
  { unfold HandleValidateAddress. run. rewrite Hm, Hreq.
    change (negb (String.eqb "POST" Http.MethodPost)) with false. run.
    fold c addr.
    rewrite (ValidateAddress_at c addr _ st) by reflexivity.
    destruct (fst (ValidateAddress c addr st)) as [valid|err]; run;
      fields; respond; rewrite ValidateAddress_keeps; cbn [writer];
      rewrite Hw; reflexivity. }
  rewrite Hrun.
  destruct (fst (ValidateAddress c addr st)) as [valid|err] eqn:E.
  - eexists. exists valid. split; [reflexivity|]. split; [reflexivity|].
    rewrite <- isvalid_true, <- (proj1 (ValidateAddress_eq c addr st)), E.
    split; [intros ->; reflexivity|intros H; injection H as ->; reflexivity].
  - eexists. exists false. split; [reflexivity|]. split; [reflexivity|].
    rewrite <- isvalid_true, <- (proj1 (ValidateAddress_eq c addr st)), E.
    split; discriminate.
Qed.

Lemma ValidateAddress_sent (c : KernelcoinRPCClient.t) (addr : string)
  (st : State) :
  sent (snd (ValidateAddress c addr st))
  = sent st ++ traffic c "validateaddress" [VString addr].
Proof. rewrite (proj2 (ValidateAddress_eq c addr st)). apply call_sent. Qed.

(** Bring the result of a request made after some lines were logged
    back to the state the handler started in. *)
Ltac settle lemma st :=
  match goal with
  | |- context [fst (_ (mkState ?a ?b ?n ?s ?l ?p ?w))] =>
      rewrite (lemma (mkState a b n s l p w) st) by reflexivity
  end.

(** Pass over the steps of a program that leave a part of the state as
    it was. *)
Ltac pass part :=
  match goal with
  | |- context [part (snd (?m ?s))] =>
      let H := fresh in
      assert (H : preserves part m) by (preserves_with fail);
      rewrite (H s); clear H
  end.

Lemma SendToAddress_sent (c : KernelcoinRPCClient.t) (toAddress : string)
  (amount : PrimFloat.float) (st : State) :
  sent (snd (SendToAddress c toAddress amount st))
  = sent st ++ traffic c "sendtoaddress" [VString toAddress; VFloat64 amount].
Proof.
  unfold SendToAddress. run.
  destruct (fst (call c "sendtoaddress" _ _)) as [txID|err]; cbv beta iota.
  - destruct (asString txID); pass sent; rewrite call_sent; reflexivity.
  - pass sent. rewrite call_sent. reflexivity.
Qed.

(** X15 — coins are sent only to an address the node has confirmed: the
    handler of send asks the node to send only after the node answered
    validateaddress with an object whose isvalid is the boolean true.
    For another method or an unreadable body it sends nothing at all;
    otherwise it sends the validateaddress request, and after it the
    sendtoaddress request with the address and the amount of the body
    exactly when the node confirmed the address; if not, it answers
    with status 400. *)
Theorem send_guard (ws : WalletServer.t) (r : Http.Request.t) (st : State) :
  let c := WalletServer.rpcClient ws in
  let st' := snd (HandleSendTransaction ws r st) in
  (Http.Request.Method r <> "POST"%string -> sent st' = sent st)
  /\ (forall err,
        DecodeSendTransactionRequest (Http.Request.Body r) = Error err ->
        sent st' = sent st)
  /\ (forall req,
        Http.Request.Method r = "POST"%string ->
        DecodeSendTransactionRequest (Http.Request.Body r) = Ok req ->
        let addr := SendTransactionRequest.ToAddress req in
        let amount := SendTransactionRequest.Amount req in
        let validate := traffic c "validateaddress" [VString addr] in
        let send :=
          traffic c "sendtoaddress" [VString addr; VFloat64 amount] in
        let confirmed :=
          exists m,
            fst (call c "validateaddress" [VString addr] st) = Ok (VMap m)
            /\ index m "isvalid" = VBool true in
        (confirmed -> sent st' = sent st ++ validate ++ send)
        /\ (~ confirmed ->
            sent st' = sent st ++ validate
            /\ (writer st = Http.ResponseWriter.new ->
                writer st' = failure 400 "Invalid recipient address"))).
Proof.
  intros c st'. subst st'.
  split; [|split].
  - intros Hm. unfold HandleSendTransaction. run.
    destruct (String.eqb_spec (Http.Request.Method r) Http.MethodPost);
      [contradiction|].
    cbn [negb]. cbv iota. pass sent. reflexivity.
  - intros err Hreq. unfold HandleSendTransaction. run. rewrite Hreq.
    destruct (negb _); cbv iota; pass sent; reflexivity.
  - intros req Hm Hreq addr amount validate send confirmed.
    assert (Hc : confirmed <-> fst (ValidateAddress c addr st) = Ok true).
    { unfold confirmed.
      rewrite (proj1 (ValidateAddress_eq c addr st)), isvalid_true.
      reflexivity. }
    rewrite !Hc. clear Hc confirmed.
    unfold HandleSendTransaction. run. rewrite Hm, Hreq.
    change (negb (String.eqb "POST" Http.MethodPost)) with false. run.
    fold c addr amount. settle (ValidateAddress_at c addr) st.
    destruct (fst (ValidateAddress c addr st)) as [[|]|err] eqn:E;
      cbv beta iota.
    + split; [intros _|intros H; contradiction H; reflexivity].
      rewrite bind_eq.
      destruct (fst (SendToAddress c addr amount _)); cbv beta iota;
        pass sent; rewrite SendToAddress_sent, ValidateAddress_sent;
        cbn [sent]; rewrite app_assoc; reflexivity.
    + split; [discriminate|intros _]. split.
      * pass sent. rewrite ValidateAddress_sent. reflexivity.
      * intros Hw. run. fields. respond.
        rewrite ValidateAddress_keeps. cbn [writer]. rewrite Hw.
        reflexivity.
    + split; [discriminate|intros _]. split.
      * pass sent. rewrite ValidateAddress_sent. reflexivity.
      * intros Hw. run. fields. respond.
        rewrite ValidateAddress_keeps. cbn [writer]. rewrite Hw.
        reflexivity.
Qed.

(** *** What a call sends and what it logs *)

(** X16 — the request of a call: a call sends at most one request, and
    none when its JSON text cannot be made or the URL of the client does
    not parse; the request is a POST to the URL of the client that
    carries the user and the password of the client as basic
    authentication, the content type application/json, and as body the
    JSON text of the request with version 2.0, the method, the
    parameters and the id 1. *)
Theorem call_sends (c : KernelcoinRPCClient.t) (method : string)
  (params : list any) (st : State) :
  exists new,
    sent (snd (call c method params st)) = sent st ++ new
    /\ (length new <= 1)%nat
    /\ (new = [] <->
        (exists err,
            Marshal {| JSONRPCRequest.JSONRPC := "2.0";
                       JSONRPCRequest.Method := method;
                       JSONRPCRequest.Params := params;
                       JSONRPCRequest.ID := 1 |} = Error err)
        \/ (exists err, ParseURL (KernelcoinRPCClient.url c) = Error err))
    /\ forall q,
         In q new ->
         Http.ClientRequest.Method q = "POST"%string
         /\ Http.ClientRequest.URL q = KernelcoinRPCClient.url c
         /\ Http.ClientRequest.BasicAuth q
            = Some (KernelcoinRPCClient.user c, KernelcoinRPCClient.password c)
         /\ Http.ClientRequest.Header q
            = [("Content-Type", "application/json")%string]
         /\ Marshal {| JSONRPCRequest.JSONRPC := "2.0";
                       JSONRPCRequest.Method := method;
                       JSONRPCRequest.Params := params;
                       JSONRPCRequest.ID := 1 |}
            = Ok (Http.ClientRequest.Body q).
Proof.
  exists (traffic c method params). split; [apply call_sent|].
  unfold traffic, rpcRequest.
  destruct (Marshal _) as [requestBody|e1].
  - destruct (ParseURL (KernelcoinRPCClient.url c)) as [[]|e2].
    + split; [cbn; lia|]. split.
      * split; [discriminate|].
        intros [(err & H)|(err & H)]; discriminate.
      * intros q [<-|[]]. repeat split.
    + split; [cbn; lia|]. split.
      * split; [intros _; right; eauto|reflexivity].
      * intros q [].
  - split; [cbn; lia|]. split.
    + split; [intros _; left; eauto|reflexivity].
    + intros q [].
Qed.

(** X17 — a call reads only the body of the reply: two nodes whose
    replies to every request have the same body, or fail alike, get the
    same result from a call, whatever the status codes and status lines
    of their replies; a reply with an error status whose body is an
    answer without error is taken as a success. *)
Theorem call_reads_the_body_only (c : KernelcoinRPCClient.t)
  (method : string) (params : list any) (st1 st2 : State) :
  sent st1 = sent st2 ->
  (forall q,
      match node st1 (sent st1) q, node st2 (sent st2) q with
      | Ok a, Ok b => Http.Response.Body a = Http.Response.Body b
      | Error e1, Error e2 => e1 = e2
      | _, _ => False
      end) ->
  fst (call c method params st1) = fst (call c method params st2).
Proof.
  intros Hs Hn.
  rewrite (proj1 (call_answer c method params st1)),
    (proj1 (call_answer c method params st2)).
  unfold answer.
  destruct (Marshal _) as [requestBody|e1]; [|reflexivity].
  destruct (ParseURL _) as [[]|e2]; [|reflexivity].
  specialize (Hn (requestOf c requestBody)).
  destruct (node st1 (sent st1) _) as [a|ea],
    (node st2 (sent st2) _) as [b|eb]; try contradiction.
  - rewrite Hn. reflexivity.
  - rewrite Hn. reflexivity.
Qed.

(** The log only grows. *)
Definition grows {A} (m : IO A) : Prop :=
  forall st, exists l, logged (snd (m st)) = logged st ++ l.

Lemma grows_bind {A B} (m : IO A) (k : A -> IO B) :
  grows m -> (forall a, grows (k a)) -> grows (IO.bind m k).
Proof.
  intros Hm Hk st. rewrite bind_eq.
  destruct (Hm st) as (l1 & E1).
  destruct (Hk (fst (m st)) (snd (m st))) as (l2 & E2).
  exists (l1 ++ l2). rewrite E2, E1, app_assoc. reflexivity.
Qed.

Lemma grows_if {A} (b : bool) (m1 m2 : IO A) :
  grows m1 -> grows m2 -> grows (if b then m1 else m2).
Proof. destruct b; auto. Qed.

Lemma grows_Printf (format : string) (args : list Log.arg) :
  grows (Printf format args).
Proof. intros st. eexists. reflexivity. Qed.

Lemma grows_preserves {A} (m : IO A) : preserves logged m -> grows m.
Proof.
  intros H st. exists []. rewrite app_nil_r. apply H.
Qed.

Lemma grows_call (c : KernelcoinRPCClient.t) (method : string)
  (params : list any) : grows (call c method params).
Proof. intros st. apply (talks_call c method params st). Qed.

Ltac grows_tac :=
  repeat first
    [ apply grows_Printf
    | apply grows_call
    | apply grows_bind; [|intros ?]
    | apply grows_if
    | match goal with
      | |- grows (match ?x with _ => _ end) => destruct x
      | |- grows (let (_, _) := ?x in _) => destruct x
      end
    | apply grows_preserves; solve [one_step] ].

Lemma grows_In {A} (m : IO A) (st : State) (line : Log.Entry) :
  grows m -> In line (logged st) -> In line (logged (snd (m st))).
Proof.
  intros H Hin. destruct (H st) as (l & ->). apply in_or_app. auto.
Qed.

(** The first line a call logs holds its parameters, the second, when
    the request has a JSON text, that text. *)
Lemma call_logs (c : KernelcoinRPCClient.t) (method : string)
  (params : list any) (st : State) :
  In (entry "[RPC] Calling method: %s with params: %v"
        [LString method; LValue (VSlice params)])
     (logged (snd (call c method params st)))
  /\ forall requestBody,
       Marshal (rpcRequest method params) = Ok requestBody ->
       In (entry "[RPC] Request body: %s" [LString (toString requestBody)])
          (logged (snd (call c method params st))).
Proof.
  unfold call. cbv zeta. fold (rpcRequest method params). run.
  split.
  - match goal with
    | |- In ?e (logged (snd (?m ?s))) =>
        apply (grows_In m s e); [grows_tac|]
    end.
    cbn [logged]. rewrite <- app_assoc. apply in_or_app. right. left.
    reflexivity.
  - intros requestBody Hb. rewrite Hb. run.
    match goal with
    | |- In ?e (logged (snd (?m ?s))) =>
        apply (grows_In m s e); [grows_tac|]
    end.
    cbn [logged]. apply in_or_app. right. left. reflexivity.
Qed.

(** X18 — an imported key is written to the log: every import of a
    private key logs the WIF among the parameters of the call, whether
    the node can be reached or not, and logs it again inside the JSON
    text of the request when that text can be made. This holds for
    [ImportPrivateKey], for the handler of import on a POST whose body
    can be read, and for the import of the key of the environment when
    the server starts. *)
Theorem import_logs_the_key (c : KernelcoinRPCClient.t) (wif : string)
  (st : State) :
  let line :=
    entry "[RPC] Calling method: %s with params: %v"
      [LString "importprivkey"; LValue (VSlice [VString wif])] in
  In line (logged (snd (ImportPrivateKey c wif st)))
  /\ (forall requestBody,
        Marshal {| JSONRPCRequest.JSONRPC := "2.0";
                   JSONRPCRequest.Method := "importprivkey";
                   JSONRPCRequest.Params := [VString wif];
                   JSONRPCRequest.ID := 1 |} = Ok requestBody ->
        In (entry "[RPC] Request body: %s" [LString (toString requestBody)])
           (logged (snd (ImportPrivateKey c wif st))))
  /\ (forall ws r req,
        WalletServer.rpcClient ws = c ->
        Http.Request.Method r = "POST"%string ->
        DecodeImportKeyRequest (Http.Request.Body r) = Ok req ->
        ImportKeyRequest.WIF req = wif ->
        In line (logged (snd (HandleImportKey ws r st))))
  /\ (forall ws,
        WalletServer.rpcClient ws = c ->
        environ st "WALLET_WIF" = wif ->
        wif <> EmptyString ->
        In line (logged (snd (InitializeWalletFromEnv ws st)))).
Proof.
  intros line.
  assert (Himport : forall st0,
             In line (logged (snd (ImportPrivateKey c wif st0)))
             /\ forall requestBody,
                  Marshal (rpcRequest "importprivkey" [VString wif])
                  = Ok requestBody ->
                  In (entry "[RPC] Request body: %s"
                        [LString (toString requestBody)])
                     (logged (snd (ImportPrivateKey c wif st0)))).
  { intros st0. unfold ImportPrivateKey. run.
    match goal with
    | |- context [snd (call c ?m ?p ?s)] =>
        destruct (call_logs c m p s) as [H1 H2]
    end.
    split; [|intros requestBody Hb; specialize (H2 requestBody Hb)];
      match goal with
      | |- In ?e (logged (snd (?m ?s))) =>
          apply (grows_In m s e); [grows_tac|assumption]
      end. }
  split; [apply Himport|]. split; [apply Himport|]. split.
  - intros ws r req <- Hm Hreq <-.
    unfold HandleImportKey. run. rewrite Hm, Hreq.
    change (negb (String.eqb "POST" Http.MethodPost)) with false. run.
    match goal with
    | |- In ?e (logged (snd (?m ?s))) =>
        apply (grows_In m s e); [grows_tac|apply Himport]
    end.
  - intros ws <- Henv Hne.
    unfold InitializeWalletFromEnv. run. rewrite Henv.
    destruct (String.eqb_spec wif ""); [contradiction|]. run.
    match goal with
    | |- In ?e (logged (snd (?m ?s))) =>
        apply (grows_In m s e); [grows_tac|apply Himport]
    end.
Qed.

(** *** Balances *)

(** The immature amount the handler of balance reports for the three
    amounts of the node. *)
Definition immatureReported (trusted pending immature : PrimFloat.float)
  : PrimFloat.float :=
  PrimFloat.sub
    (PrimFloat.sub
       (PrimFloat.add (PrimFloat.add trusted pending) immature) trusted)
    pending.

Definition balanceDoc (trusted pending immature : PrimFloat.float) : any :=
  VMap [field "total"
          (VFloat64 (PrimFloat.add (PrimFloat.add trusted pending) immature));
        field "confirmed" (VFloat64 trusted);
        field "unconfirmed" (VFloat64 pending);
        field "immature"
          (VFloat64 (immatureReported trusted pending immature))].

(** The response of a handler that set the content type and wrote
    nothing. *)
Definition unsent : Http.ResponseWriter.t :=
  {| Http.ResponseWriter.header := jsonHeader;
     Http.ResponseWriter.wrote := None;
     Http.ResponseWriter.body := [] |}.

Lemma Encode_writer (v : any) (st : State) :
  writer st
  = {| Http.ResponseWriter.header := jsonHeader;
       Http.ResponseWriter.wrote := None;
       Http.ResponseWriter.body := [] |} ->
  writer (snd (Encode v st))
  = if Json.encodable v then reply 200 v else unsent.
Proof.
  intros Hw. unfold Encode.
  destruct (Json.encodable v); respond; rewrite Hw; reflexivity.
Qed.

(** X19 — the balance reply: when the node answers getbalances with an
    object whose member mine is an object, the handler of balance reads
    its members trusted, untrusted_pending and immature, each as zero
    when it is missing or not a number, and reports with status 200 the
    total (trusted + pending) + immature, trusted as confirmed, pending
    as unconfirmed, and as immature the float64 difference (total -
    confirmed) - unconfirmed; when a sum is not finite no document is
    written. The immature amount reported is therefore not always the
    one the node gave: for 0.1, 0.2 and 0.3 it is another number. *)
Theorem balance_reply :
  (forall (ws : WalletServer.t) (r : Http.Request.t) (st : State)
          (balances mine : list (string * any)),
      writer st = Http.ResponseWriter.new ->
      fst (call (WalletServer.rpcClient ws) "getbalances" [] st)
      = Ok (VMap balances) ->
      index balances "mine" = VMap mine ->
      let trusted := float64Or0 (index mine "trusted") in
      let pending := float64Or0 (index mine "untrusted_pending") in
      let immature := float64Or0 (index mine "immature") in
      writer (snd (HandleBalance ws r st))
      = if Json.encodable (balanceDoc trusted pending immature)
        then reply 200 (balanceDoc trusted pending immature)
        else unsent)
  /\ (exists trusted pending immature,
        Json.encodable (balanceDoc trusted pending immature) = true
        /\ immatureReported trusted pending immature <> immature).
Proof.
  split.
  - intros ws r st balances mine Hw Hcall Hmine trusted pending immature.
    unfold HandleBalance, GetBalanceInfo. cbv zeta. run.
    set (c := WalletServer.rpcClient ws) in *.
    settle (call_at c "getbalances" []) st. rewrite Hcall. run.
    cbn [asMap]. run. rewrite Hmine. cbn [asMap]. run.
    cbn [BalanceInfo.Total BalanceInfo.Confirmed BalanceInfo.Unconfirmed].
    fold trusted pending immature.
    unfold HeaderSet. cbn [updateWriter snd].
    match goal with
    | |- writer (snd (Encode _ ?s)) = _ =>
        rewrite (Encode_writer _ s)
    end.
    + reflexivity.
    + cbn [writer]. rewrite call_preserves_writer. cbn [writer].
      rewrite Hw. reflexivity.
  - exists Amounts.tenth, Amounts.fifth, Amounts.threeTenths.
    split; [vm_compute; reflexivity|].
    intros H. apply (f_equal FloatOps.Prim2SF) in H. vm_compute in H.
    discriminate.
Qed.

(** *** Transactions *)

(** The transaction read from an object of the node. *)
Definition transactionOf (txMap : list (string * any))
  : TransactionResponse.t :=
  {| TransactionResponse.Account := getString txMap "account";
     TransactionResponse.Address := getString txMap "address";
     TransactionResponse.Category := getString txMap "category";
     TransactionResponse.Amount := getFloat64 txMap "amount";
     TransactionResponse.Confirmations := getInt txMap "confirmations";
     TransactionResponse.Txid := getString txMap "txid";
     TransactionResponse.Time := getInt64 txMap "time";
     TransactionResponse.TimeReceived := getInt64 txMap "timereceived";
     TransactionResponse.Comment := getString txMap "comment" |}.

(** The elements of a list that are objects. *)
Definition objects (txs : list any) : list (list (string * any)) :=
  flat_map (fun tx => match asMap tx with Some m => [m] | None => [] end) txs.

Lemma collect_objects {B} (f : list (string * any) -> B) (txs : list any) :
  forall acc,
    fold_left (fun acc tx => match asMap tx with
                             | Some m => acc ++ [f m]
                             | None => acc
                             end) txs acc
    = acc ++ map f (objects txs).
Proof.
  induction txs as [|tx txs IH]; intros acc; cbn [fold_left objects flat_map].
  - rewrite app_nil_r. reflexivity.
  - fold (objects txs). rewrite IH. destruct (asMap tx); cbn [app map].
    + rewrite <- app_assoc. reflexivity.
    + reflexivity.
Qed.

Lemma objects_length (txs : list any) : (length (objects txs) <= length txs)%nat.
Proof.
  induction txs as [|tx txs IH]; [reflexivity|].
  cbn [objects flat_map]. fold (objects txs). rewrite length_app.
  destruct (asMap tx); cbn [length]; lia.
Qed.

(** X20 — the list of transactions: the handler asks the node for 50
    transactions unless the query holds a count that parses as a
    number; when the node answers with a list it reports, with status
    200, one transaction for each element that is an object, in the
    order of the node, and drops every other element; when no element
    is an object the reply is the document success: true alone, without
    the key transactions. *)
Theorem list_transactions_reply (ws : WalletServer.t) (r : Http.Request.t)
  (st : State) (count : Z) (txs : list any) :
  writer st = Http.ResponseWriter.new ->
  (Atoi (Http.Request.Query r "count") = Ok count
   /\ Http.Request.Query r "count" <> EmptyString)
  \/ (count = 50
      /\ (Http.Request.Query r "count" = EmptyString
          \/ exists err, Atoi (Http.Request.Query r "count") = Error err)) ->
  fst (call (WalletServer.rpcClient ws) "listtransactions"
         [VString "*"; VInt count; VInt 0; VBool true] st)
  = Ok (VSlice txs) ->
  let listed := map transactionOf (objects txs) in
  let doc :=
    VMap (field "success" (VBool true)
          :: match listed with
             | [] => []
             | _ :: _ =>
                 [field "transactions"
                    (VSlice (map TransactionResponse.toJSON listed))]
             end) in
  (length listed <= length txs)%nat
  /\ writer (snd (HandleListTransactions ws r st))
     = if Json.encodable doc then reply 200 doc else unsent.
Proof.
  intros Hw Hcount Hcall listed doc.
  split; [unfold listed; rewrite length_map; apply objects_length|].
  unfold HandleListTransactions, ListTransactions. cbv zeta.
  set (c := WalletServer.rpcClient ws) in *.
  assert (Hc : (if negb (String.eqb (Http.Request.Query r "count") "")
                then match Atoi (Http.Request.Query r "count") with
                     | Ok n => n
                     | Error _ => 50
                     end
                else 50) = count).
  { destruct Hcount as [[Ha Hne]|[-> [He|(err & Ha)]]].
    - rewrite Ha. destruct (String.eqb_spec (Http.Request.Query r "count") "");
        [contradiction|reflexivity].
    - rewrite He. reflexivity.
    - rewrite Ha. destruct (negb _); reflexivity. }
  rewrite Hc. run.
  settle (call_at c "listtransactions"
            [VString "*"; VInt count; VInt 0; VBool true]) st.
  rewrite Hcall. run. cbn [asSlice]. run.
  pose proof (collect_objects transactionOf txs []) as Hfold.
  unfold transactionOf in Hfold at 1. rewrite Hfold. cbn [app].
  fold listed. unfold HeaderSet. cbn [updateWriter snd].
  match goal with
  | |- writer (snd (Encode ?v ?s)) = _ =>
      rewrite (Encode_writer v s)
  end.
  - unfold TransactionsListResponse.toJSON.
    cbn [TransactionsListResponse.Success TransactionsListResponse.Transactions
         TransactionsListResponse.Error].
    change (Json.omitempty "error" "") with (@nil (string * any)).
    rewrite app_nil_r. unfold doc, Json.omitemptySlice.
    destruct listed; reflexivity.
  - cbn [writer]. rewrite call_preserves_writer. cbn [writer].
    rewrite Hw. reflexivity.
Qed.

(** *** Addresses *)

Lemma remove_nth_perm {A} (d : A) (l : list A) :
  forall i, (i < length l)%nat ->
    Permutation (nth i l d :: (firstn i l ++ skipn (S i) l)) l.
Proof.
  induction l as [|a l IH]; intros i Hi; [cbn in Hi; lia|].
  destruct i as [|i]; [reflexivity|].
  cbn [nth firstn skipn app]. cbn [length] in Hi.
  apply Permutation_trans
    with (a :: nth i l d :: (firstn i l ++ skipn (S i) l)).
  - apply perm_swap.
  - apply perm_skip. apply IH. lia.
Qed.

Lemma remove_nth_length {A} (l : list A) (i : nat) :
  (i < length l)%nat ->
  length (firstn i l ++ skipn (S i) l) = (length l - 1)%nat.
Proof.
  intros Hi. rewrite length_app, length_firstn, length_skipn. lia.
Qed.

(** A range visits every key once, whatever the choices. *)
Lemma visit_perm (fuel : nat) :
  forall picks keys,
    (length keys <= fuel)%nat ->
    Permutation (fst (visit fuel picks keys)) keys.
Proof.
  induction fuel as [|fuel IH]; intros picks keys Hf.
  - destruct keys; [reflexivity|cbn in Hf; lia].
  - destruct keys as [|k0 keys]; [reflexivity|].
    cbn [visit].
    set (l := k0 :: keys) in *.
    assert (Hpos : (0 < length l)%nat) by (unfold l; cbn; lia).
    destruct picks as [|p ps].
    + specialize (IH [] (firstn 0 l ++ skipn 1 l)).
      destruct (visit fuel [] (firstn 0 l ++ skipn 1 l)) as [rest picks''].
      cbn [fst] in *.
      apply Permutation_trans
        with (nth 0 l k0 :: (firstn 0 l ++ skipn 1 l)).
      * apply perm_skip. apply IH. rewrite remove_nth_length; lia.
      * apply remove_nth_perm. lia.
    + assert (Hi : (p mod length l < length l)%nat)
        by (apply Nat.mod_upper_bound; lia).
      set (i := (p mod length l)%nat) in *.
      specialize (IH ps (firstn i l ++ skipn (S i) l)).
      destruct (visit fuel ps (firstn i l ++ skipn (S i) l))
        as [rest picks''].
      cbn [fst] in *.
      apply Permutation_trans
        with (nth i l k0 :: (firstn i l ++ skipn (S i) l)).
      * apply perm_skip. apply IH. rewrite remove_nth_length; lia.
      * apply remove_nth_perm. exact Hi.
Qed.

Lemma collect_all {A} (l : list A) :
  forall acc, fold_left (fun acc a => acc ++ [a]) l acc = acc ++ l.
Proof.
  induction l as [|a l IH]; intros acc; cbn [fold_left].
  - rewrite app_nil_r. reflexivity.
  - rewrite IH, <- app_assoc. reflexivity.
Qed.

Lemma collect_map {A B} (f : A -> B) (l : list A) :
  forall acc, fold_left (fun acc a => acc ++ [f a]) l acc = acc ++ map f l.
Proof.
  induction l as [|a l IH]; intros acc; cbn [fold_left map].
  - rewrite app_nil_r. reflexivity.
  - rewrite IH, <- app_assoc. reflexivity.
Qed.

(** The addresses [GetAddressesByLabel] returns for an object of the
    node. *)
Definition visited (m : list (string * any)) (st : State) : list string :=
  fst (visit (length (keys m)) (picks st) (keys m)).

Lemma visited_keys (m : list (string * any)) (st : State) :
  Permutation (visited m st) (keys m)
  /\ NoDup (visited m st)
  /\ (forall a, In a (visited m st) <-> In a (map fst m)).
Proof.
  assert (Hp : Permutation (visited m st) (keys m))
    by (apply visit_perm; lia).
  split; [exact Hp|]. split.
  - apply (Permutation_NoDup (Permutation_sym Hp)). apply NoDup_nodup.
  - intros a. unfold keys in Hp. split; intros H.
    + apply (nodup_In string_dec). apply (Permutation_in _ Hp H).
    + apply (Permutation_in _ (Permutation_sym Hp)).
      apply (nodup_In string_dec). exact H.
Qed.

Lemma GetAddressesByLabel_at (c : KernelcoinRPCClient.t) (label : string)
  (st1 st : State) (m : list (string * any)) :
  node st1 = node st -> sent st1 = sent st -> picks st1 = picks st ->
  fst (call c "getaddressesbylabel" [VString label] st) = Ok (VMap m) ->
  fst (GetAddressesByLabel c label st1) = Ok (visited m st).
Proof.
  intros N S K Hcall. unfold GetAddressesByLabel. cbv zeta. run.
  settle (call_at c "getaddressesbylabel" [VString label]) st1.
  rewrite (call_at _ _ _ st1 st N S), Hcall. run. cbn [asMap]. run.
  unfold rangeKeys at 1. cbn [picks].
  assert (Hk : picks (snd (call c "getaddressesbylabel" [VString label]
                             (snd (Printf
                                     "[RPC] GetAddressesByLabel: Fetching addresses with label '%s'"
                                     [LString label] st1))))
               = picks st).
  { rewrite <- K.
    assert (H : preserves picks (call c "getaddressesbylabel" [VString label])).
    { unfold call. cbv zeta. preserves_with fail. }
    rewrite H. reflexivity. }
  cbn [Printf snd] in Hk. rewrite Hk. fold (visited m st).
  unfold visited.
  destruct (visit (length (keys m)) (picks st) (keys m)) as [ks picks'].
  run. rewrite (collect_all ks []). reflexivity.
Qed.

Lemma GetAddressesByLabel_Error (c : KernelcoinRPCClient.t) (label : string)
  (st1 st : State) :
  node st1 = node st -> sent st1 = sent st ->
  (forall m, fst (call c "getaddressesbylabel" [VString label] st)
             <> Ok (VMap m)) ->
  exists err, fst (GetAddressesByLabel c label st1) = Error err.
Proof.
  intros N S Hcall. unfold GetAddressesByLabel. cbv zeta. run.
  settle (call_at c "getaddressesbylabel" [VString label]) st1.
  rewrite (call_at _ _ _ st1 st N S).
  destruct (fst (call c "getaddressesbylabel" [VString label] st))
    as [result|err]; run; [|eauto].
  destruct result; cbn [asMap]; run; eauto.
  exfalso. eapply Hcall. reflexivity.
Qed.

Lemma addresses_encodable (addrs : list string) :
  forallb Json.encodable
    (map AddressInfo.toJSON
       (map (fun addr => {| AddressInfo.Address := addr;
                            AddressInfo.Type_ := "Address" |}) addrs))
  = true.
Proof. induction addrs as [|a l IH]; [reflexivity|exact IH]. Qed.

(** X21 — the addresses of the wallet: when the node answers
    getaddressesbylabel with an object, the handler of addresses reports
    with status 200 every key of the object once, each with the type
    Address, in an order the runtime chooses; when the object has no
    key the reply is the document success: true alone, without the key
    addresses. *)
Theorem get_addresses_reply (ws : WalletServer.t) (r : Http.Request.t)
  (st : State) (m : list (string * any)) :
  writer st = Http.ResponseWriter.new ->
  fst (call (WalletServer.rpcClient ws) "getaddressesbylabel"
         [VString ""] st) = Ok (VMap m) ->
  exists addrs,
    Permutation addrs (keys m)
    /\ NoDup addrs
    /\ (forall a, In a addrs <-> In a (map fst m))
    /\ writer (snd (HandleGetAddresses ws r st))
       = reply 200
           (VMap (field "success" (VBool true)
                  :: match addrs with
                     | [] => []
                     | _ :: _ =>
                         [field "addresses"
                            (VSlice
                               (map (fun a =>
                                       VMap [field "address" (VString a);
                                             field "type" (VString "Address")])
                                    addrs))]
                     end)).
Proof.
  intros Hw Hcall. exists (visited m st).
  destruct (visited_keys m st) as (Hp & Hn & Hi).
  split; [exact Hp|]. split; [exact Hn|]. split; [exact Hi|].
  unfold HandleGetAddresses. run.
  set (c := WalletServer.rpcClient ws) in *.
  match goal with
  | |- context [fst (GetAddressesByLabel c "" ?s)] =>
      rewrite (GetAddressesByLabel_at c "" s st m) by (reflexivity || exact Hcall)
  end.
  run. rewrite (collect_map _ (visited m st) []). cbn [app].
  unfold HeaderSet. cbn [updateWriter snd].
  match goal with
  | |- writer (snd (Encode ?v ?s)) = _ => rewrite (Encode_writer v s)
  end.
  - unfold AddressesResponse.toJSON.
    cbn [AddressesResponse.Success AddressesResponse.Addresses
         AddressesResponse.Error].
    change (Json.omitempty "error" "") with (@nil (string * any)).
    rewrite app_nil_r. unfold Json.omitemptySlice.
    destruct (visited m st) as [|a l]; [reflexivity|].
    cbn [app Json.encodable forallb field andb map AddressInfo.toJSON
         AddressInfo.Address AddressInfo.Type_].
    rewrite (addresses_encodable l), map_map. reflexivity.
  - cbn [writer]. rewrite GetAddressesByLabel_keeps. cbn [writer].
    rewrite Hw. reflexivity.
Qed.

(** X22 — is a wallet loaded: the handler of check-wallet always answers
    with status 200; it reports loaded: true exactly when the node
    answered getaddressesbylabel with an object that has at least one
    key, whatever the order in which the keys are visited, and loaded:
    false for an object without keys, for a result that is not an
    object and for a call that failed. *)
Theorem check_wallet_reply (ws : WalletServer.t) (r : Http.Request.t)
  (st : State) :
  writer st = Http.ResponseWriter.new ->
  exists loaded,
    writer (snd (HandleCheckWallet ws r st))
    = reply 200 (VMap [field "loaded" (VBool loaded)])
    /\ (loaded = true <->
        exists key v m,
          fst (call (WalletServer.rpcClient ws) "getaddressesbylabel"
                 [VString ""] st) = Ok (VMap ((key, v) :: m))).
Proof.
  intros Hw.
  assert (Htail : forall b (s : State) format args,
             writer s = Http.ResponseWriter.new ->
             writer (snd ((Printf format args ;;
                           HeaderSet "Content-Type" "application/json" ;;
                           Encode (loadedMap b))%io s))
             = reply 200 (VMap [field "loaded" (VBool b)])).
  { intros b s format args Hs. run. unfold loadedMap. respond.
    rewrite Hs. reflexivity. }
  assert (Hkeep : forall s, writer s = Http.ResponseWriter.new ->
                    writer (snd (GetAddressesByLabel
                                   (WalletServer.rpcClient ws) "" s))
                    = Http.ResponseWriter.new)
    by (intros s Hs; rewrite GetAddressesByLabel_keeps; exact Hs).
  destruct (fst (call (WalletServer.rpcClient ws) "getaddressesbylabel"
                   [VString ""] st))
    as [[| | | | | |m]|err] eqn:Hcall.
  7:{ (* an object *)
      exists (0 <? length (visited m st))%nat. split.
      - unfold HandleCheckWallet. run.
        match goal with
        | |- context [fst (GetAddressesByLabel ?c' "" ?s)] =>
            rewrite (GetAddressesByLabel_at c' "" s st m)
              by (reflexivity || exact Hcall)
        end.
        cbv beta iota zeta. apply Htail. apply Hkeep. exact Hw.
      - destruct (visited_keys m st) as (Hp & _ & _).
        apply Permutation_length in Hp. rewrite Hp.
        destruct m as [|[key v] m].
        + cbn. split; [discriminate|].
          intros (key & v & m' & H). discriminate.
        + split; [intros _; eauto|intros _].
          apply Nat.ltb_lt. unfold keys. cbn [map fst].
          assert (Hin : In key (nodup string_dec (key :: map fst m)))
            by (apply nodup_In; left; reflexivity).
          destruct (nodup string_dec (key :: map fst m));
            [contradiction|cbn; lia]. }
  all: exists false; split;
    [|split; [discriminate|intros (key & v & m' & H); discriminate]];
    unfold HandleCheckWallet; run;
    match goal with
    | |- context [fst (GetAddressesByLabel ?c' "" ?s)] =>
        destruct (GetAddressesByLabel_Error c' "" s st) as (e & ->);
          [reflexivity|reflexivity|rewrite Hcall; discriminate|]
    end;
    cbv beta iota; apply Htail; apply Hkeep; exact Hw.
Qed.

(** *** Sending, importing and new addresses *)

Lemma call_preserves_node (c : KernelcoinRPCClient.t) (method : string)
  (params : list any) : preserves node (call c method params).
Proof. intros st. apply (talks_call c method params st). Qed.

Lemma ValidateAddress_node (c : KernelcoinRPCClient.t) (addr : string)
  (st : State) :
  node (snd (ValidateAddress c addr st)) = node st.
Proof.
  rewrite (proj2 (ValidateAddress_eq c addr st)). apply call_preserves_node.
Qed.

(** The answer of the node to sendtoaddress, read as [SendToAddress]
    reads it. *)
Definition txidOf (result : Result any) : Result string :=
  match result with
  | Error err => Error err
  | Ok txID =>
      match asString txID with
      | Some s => Ok s
      | None => Error (Errorf ("unexpected txid type: " ++ typeName txID))
      end
  end.

Lemma SendToAddress_eq (c : KernelcoinRPCClient.t) (toAddress : string)
  (amount : PrimFloat.float) (st : State) :
  fst (SendToAddress c toAddress amount st)
  = txidOf (fst (call c "sendtoaddress"
                   [VString toAddress; VFloat64 amount] st)).
Proof.
  unfold SendToAddress, txidOf. run.
  settle (call_at c "sendtoaddress" [VString toAddress; VFloat64 amount]) st.
  destruct (fst (call c "sendtoaddress" _ st)) as [txID|err]; run;
    [|reflexivity].
  destruct (asString txID); run; reflexivity.
Qed.

Lemma omitempty_encodable (key s : string) (m : list (string * any)) :
  forallb (fun kv => Json.encodable (snd kv)) (Json.omitempty key s ++ m)
  = forallb (fun kv => Json.encodable (snd kv)) m.
Proof.
  unfold Json.omitempty. destruct (String.eqb s ""); reflexivity.
Qed.

(** X23 — the reply to send: for a POST whose body can be read and whose
    address the node confirmed, the handler answers with status 200,
    success: true and the transaction id when the node answers
    sendtoaddress with a string, the id being left out when it is the
    empty string; it answers with status 400 and the reason when the
    node answers with another value or the call fails. The call is the
    one made after the validateaddress request was sent. *)
Theorem send_reply (ws : WalletServer.t) (r : Http.Request.t)
  (st st1 : State) (req : SendTransactionRequest.t)
  (m : list (string * any)) :
  let c := WalletServer.rpcClient ws in
  let addr := SendTransactionRequest.ToAddress req in
  let amount := SendTransactionRequest.Amount req in
  Http.Request.Method r = "POST"%string ->
  writer st = Http.ResponseWriter.new ->
  DecodeSendTransactionRequest (Http.Request.Body r) = Ok req ->
  fst (call c "validateaddress" [VString addr] st) = Ok (VMap m) ->
  index m "isvalid" = VBool true ->
  node st1 = node st ->
  sent st1 = sent st ++ traffic c "validateaddress" [VString addr] ->
  writer (snd (HandleSendTransaction ws r st))
  = match fst (call c "sendtoaddress" [VString addr; VFloat64 amount] st1) with
    | Ok (VString txid) =>
        reply 200 (VMap (field "success" (VBool true)
                         :: Json.omitempty "txid" txid))
    | Ok other =>
        failure 400 ("Failed to send transaction: unexpected txid type: "
                     ++ typeName other)
    | Error err =>
        failure 400 ("Failed to send transaction: " ++ errorString err)
    end.
Proof.
  intros c addr amount Hm Hw Hreq Hcall Hvalid N S.
  assert (Hv : fst (ValidateAddress c addr st) = Ok true).
  { rewrite (proj1 (ValidateAddress_eq c addr st)). apply isvalid_true.
    exists m. auto. }
  unfold HandleSendTransaction. run. rewrite Hm, Hreq.
  change (negb (String.eqb "POST" Http.MethodPost)) with false. run.
  fold c addr amount. settle (ValidateAddress_at c addr) st.
  rewrite Hv. cbv beta iota. rewrite bind_eq.
  rewrite SendToAddress_eq.
  match goal with
  | |- context [fst (call c "sendtoaddress" ?p ?s)] =>
      rewrite (call_at c "sendtoaddress" p s st1)
        by (rewrite ?ValidateAddress_node, ?ValidateAddress_sent;
            cbn [node sent]; congruence)
  end.
  destruct (fst (call c "sendtoaddress" _ st1)) as [txID|err];
    [destruct txID|]; cbn [txidOf asString typeName]; run; fields;
    unfold Json.omitempty; try destruct (String.eqb _ ""); respond;
    rewrite SendToAddress_keeps, ValidateAddress_keeps; cbn [writer];
    rewrite Hw; reflexivity.
Qed.

Lemma ImportPrivateKey_eq (c : KernelcoinRPCClient.t) (wif : string)
  (st : State) :
  fst (ImportPrivateKey c wif st)
  = fst (call c "importprivkey" [VString wif] st)
  /\ sent (snd (ImportPrivateKey c wif st))
     = sent st ++ traffic c "importprivkey" [VString wif].
Proof.
  unfold ImportPrivateKey. run.
  settle (call_at c "importprivkey" [VString wif]) st.
  destruct (fst (call c "importprivkey" _ st)) as [result|err]; run;
    rewrite call_sent; cbn [sent]; auto.
Qed.

(** X24 — the reply to import: for a POST whose body can be read the
    handler sends one importprivkey request with the WIF of the body;
    it answers with status 200 and success: true whatever the node
    gives as result, and with status 400 and the reason when the call
    fails. *)
Theorem HandleImportKey_reply (ws : WalletServer.t) (r : Http.Request.t)
  (st : State) (req : ImportKeyRequest.t) :
  let c := WalletServer.rpcClient ws in
  let wif := ImportKeyRequest.WIF req in
  let st' := snd (HandleImportKey ws r st) in
  Http.Request.Method r = "POST"%string ->
  writer st = Http.ResponseWriter.new ->
  DecodeImportKeyRequest (Http.Request.Body r) = Ok req ->
  sent st' = sent st ++ traffic c "importprivkey" [VString wif]
  /\ writer st'
     = match fst (call c "importprivkey" [VString wif] st) with
       | Ok _ => reply 200 (VMap [field "success" (VBool true)])
       | Error err =>
           failure 400 ("Failed to import key: " ++ errorString err)
       end.
Proof.
  intros c wif st' Hm Hw Hreq. subst st'.
  unfold HandleImportKey. run. rewrite Hm, Hreq.
  change (negb (String.eqb "POST" Http.MethodPost)) with false. run.
  fold c wif.
  match goal with
  | |- context [fst (ImportPrivateKey c wif ?s)] =>
      rewrite (proj1 (ImportPrivateKey_eq c wif s));
      rewrite (call_at c "importprivkey" [VString wif] s st) by reflexivity;
      pose proof (proj2 (ImportPrivateKey_eq c wif s)) as Hs
  end.
  cbn [sent] in Hs.
  destruct (fst (call c "importprivkey" _ st)) as [result|err]; run;
    (split; [pass sent; exact Hs|]);
    fields; respond; rewrite ImportPrivateKey_keeps; cbn [writer];
    rewrite Hw; reflexivity.
Qed.

(** The answer of the node to getnewaddress, read as [GetNewAddress]
    reads it. *)
Definition addressOf (result : Result any) : Result string :=
  match result with
  | Error err => Error err
  | Ok result =>
      match asString result with
      | Some addr => Ok addr
      | None =>
          Error (Errorf ("unexpected getnewaddress response type: "
                         ++ typeName result))
      end
  end.

Lemma GetNewAddress_eq (c : KernelcoinRPCClient.t)
  (label addressType : string) (st : State) :
  fst (GetNewAddress c label addressType st)
  = addressOf (fst (call c "getnewaddress"
                      [VString label; VString addressType] st))
  /\ sent (snd (GetNewAddress c label addressType st))
     = sent st ++ traffic c "getnewaddress"
                    [VString label; VString addressType].
Proof.
  unfold GetNewAddress, addressOf. run.
  settle (call_at c "getnewaddress" [VString label; VString addressType]) st.
  destruct (fst (call c "getnewaddress" _ st)) as [result|err]; run;
    [destruct (asString result); run|];
    rewrite call_sent; cbn [sent]; auto.
Qed.

Lemma GetNewAddress_keeps (c : KernelcoinRPCClient.t)
  (label addressType : string) :
  preserves writer (GetNewAddress c label addressType).
Proof. unfold GetNewAddress. keeps_writer. Qed.

(** The reply of the two handlers that ask the node for a new address,
    by the method of the request, the address type read from its body
    and the answer of the node. *)
Definition addressReply (method : string) (decoded : Result string)
  (ask : string -> Result any) : Http.ResponseWriter.t :=
  if negb (String.eqb method "POST")
  then reply 405 (VMap [field "error" (VString "POST only")])
  else
    match decoded with
    | Error _ => failure 400 "Invalid request format"
    | Ok addressType =>
        match addressOf (ask addressType) with
        | Ok addr =>
            reply 200 (VMap (field "success" (VBool true)
                             :: Json.omitempty "address" addr))
        | Error err =>
            failure 400 ("Failed to generate address: " ++ errorString err)
        end
    end.

(** The requests the two handlers send. *)
Definition addressTraffic (c : KernelcoinRPCClient.t) (method : string)
  (decoded : Result string) : list Http.ClientRequest.t :=
  if negb (String.eqb method "POST")
  then []
  else
    match decoded with
    | Error _ => []
    | Ok addressType =>
        traffic c "getnewaddress" [VString ""; VString addressType]
    end.

Lemma HandleGetNewAddress_eq (ws : WalletServer.t) (r : Http.Request.t)
  (st : State) :
  let c := WalletServer.rpcClient ws in
  let decoded :=
    match DecodeGetNewAddressRequest (Http.Request.Body r) with
    | Ok req => Ok (GetNewAddressRequest.AddressType req)
    | Error err => Error err
    end in
  writer st = Http.ResponseWriter.new ->
  writer (snd (HandleGetNewAddress ws r st))
  = addressReply (Http.Request.Method r) decoded
      (fun t => fst (call c "getnewaddress" [VString ""; VString t] st))
  /\ sent (snd (HandleGetNewAddress ws r st))
     = sent st ++ addressTraffic c (Http.Request.Method r) decoded.
Proof.
  intros c decoded Hw. subst decoded.
  unfold HandleGetNewAddress, addressReply, addressTraffic. run.
  change Http.MethodPost with "POST"%string.
  destruct (negb (String.eqb (Http.Request.Method r) "POST")).
  { unfold postOnly. run. respond. rewrite Hw, app_nil_r. split; reflexivity. }
  destruct (DecodeGetNewAddressRequest (Http.Request.Body r)) as [req|err0].
  2:{ run. fields. respond. rewrite Hw, app_nil_r. split; reflexivity. }
  run. fold c.
  match goal with
  | |- context [fst (GetNewAddress c "" ?t ?s)] =>
      rewrite (proj1 (GetNewAddress_eq c "" t s));
      rewrite (call_at c "getnewaddress" [VString ""; VString t] s st)
        by reflexivity;
      pose proof (proj2 (GetNewAddress_eq c "" t s)) as Hs
  end.
  cbn [sent] in Hs.
  destruct (addressOf _) as [addr|err]; run;
    (split; [|pass sent; exact Hs]);
    fields; unfold Json.omitempty; try destruct (String.eqb addr "");
    respond; rewrite GetNewAddress_keeps; cbn [writer]; rewrite Hw;
    reflexivity.
Qed.

Lemma HandleGenerateAddress_eq (ws : WalletServer.t) (r : Http.Request.t)
  (st : State) :
  let c := WalletServer.rpcClient ws in
  let decoded :=
    match DecodeGenerateAddressRequest (Http.Request.Body r) with
    | Ok req => Ok (GenerateAddressRequest.Type_ req)
    | Error err => Error err
    end in
  writer st = Http.ResponseWriter.new ->
  writer (snd (HandleGenerateAddress ws r st))
  = addressReply (Http.Request.Method r) decoded
      (fun t => fst (call c "getnewaddress" [VString ""; VString t] st))
  /\ sent (snd (HandleGenerateAddress ws r st))
     = sent st ++ addressTraffic c (Http.Request.Method r) decoded.
Proof.
  intros c decoded Hw. subst decoded.
  unfold HandleGenerateAddress, addressReply, addressTraffic. run.
  change Http.MethodPost with "POST"%string.
  destruct (negb (String.eqb (Http.Request.Method r) "POST")).
  { unfold postOnly. run. respond. rewrite Hw, app_nil_r. split; reflexivity. }
  destruct (DecodeGenerateAddressRequest (Http.Request.Body r)) as [req|err0].
  2:{ run. fields. respond. rewrite Hw, app_nil_r. split; reflexivity. }
  run. fold c.
  match goal with
  | |- context [fst (GetNewAddress c "" ?t ?s)] =>
      rewrite (proj1 (GetNewAddress_eq c "" t s));
      rewrite (call_at c "getnewaddress" [VString ""; VString t] s st)
        by reflexivity;
      pose proof (proj2 (GetNewAddress_eq c "" t s)) as Hs
  end.
  cbn [sent] in Hs.
  destruct (addressOf _) as [addr|err]; run;
    (split; [|pass sent; exact Hs]);
    fields; unfold Json.omitempty; try destruct (String.eqb addr "");
    respond; rewrite GetNewAddress_keeps; cbn [writer]; rewrite Hw;
    reflexivity.
Qed.

(** X25 — a new address from the node: for a POST whose body can be
    read the handler of getnewaddress asks the node for an address with
    the empty label and the address type of the body; it answers with
    status 200, success: true and the address when the node answers
    with a string, the address being left out when it is the empty
    string, and with status 400 and the reason when the node answers
    with another value or the call fails. *)
Theorem get_new_address_reply (ws : WalletServer.t) (r : Http.Request.t)
  (st : State) (req : GetNewAddressRequest.t) :
  let c := WalletServer.rpcClient ws in
  let params := [VString ""; VString (GetNewAddressRequest.AddressType req)] in
  let st' := snd (HandleGetNewAddress ws r st) in
  Http.Request.Method r = "POST"%string ->
  writer st = Http.ResponseWriter.new ->
  DecodeGetNewAddressRequest (Http.Request.Body r) = Ok req ->
  sent st' = sent st ++ traffic c "getnewaddress" params
  /\ writer st'
     = match fst (call c "getnewaddress" params st) with
       | Ok (VString addr) =>
           reply 200 (VMap (field "success" (VBool true)
                            :: Json.omitempty "address" addr))
       | Ok other =>
           failure 400
             ("Failed to generate address: unexpected getnewaddress response type: "
              ++ typeName other)
       | Error err =>
           failure 400 ("Failed to generate address: " ++ errorString err)
       end.
Proof.
  intros c params st' Hm Hw Hreq. subst st' params.
  destruct (HandleGetNewAddress_eq ws r st Hw) as [Hwr Hs].
  rewrite Hwr, Hs, Hm, Hreq. fold c.
  unfold addressReply, addressTraffic.
  change (negb (String.eqb "POST" "POST")) with false. cbv iota.
  split; [reflexivity|].
  destruct (fst (call c "getnewaddress" _ st)) as [[]|err]; reflexivity.
Qed.

(** X26 — the two endpoints for a new address agree: for requests with
    the same method whose bodies give the same address type, or both
    cannot be read, the handler of generate-address leaves the same
    response as the handler of getnewaddress and sends the same request
    to the node. *)
Theorem address_endpoints_agree (ws : WalletServer.t)
  (r1 r2 : Http.Request.t) (st : State) :
  writer st = Http.ResponseWriter.new ->
  Http.Request.Method r1 = Http.Request.Method r2 ->
  match DecodeGetNewAddressRequest (Http.Request.Body r1),
        DecodeGenerateAddressRequest (Http.Request.Body r2) with
  | Ok a, Ok b =>
      GetNewAddressRequest.AddressType a = GenerateAddressRequest.Type_ b
  | Error _, Error _ => True
  | _, _ => False
  end ->
  writer (snd (HandleGetNewAddress ws r1 st))
  = writer (snd (HandleGenerateAddress ws r2 st))
  /\ sent (snd (HandleGetNewAddress ws r1 st))
     = sent (snd (HandleGenerateAddress ws r2 st)).
Proof.
  intros Hw Hm Hreq.
  destruct (HandleGetNewAddress_eq ws r1 st Hw) as [W1 S1].
  destruct (HandleGenerateAddress_eq ws r2 st Hw) as [W2 S2].
  rewrite W1, W2, S1, S2, Hm.
  unfold addressReply, addressTraffic.
  destruct (negb (String.eqb (Http.Request.Method r2) "POST"));
    [split; reflexivity|].
  destruct (DecodeGetNewAddressRequest (Http.Request.Body r1)) as [a|e1],
    (DecodeGenerateAddressRequest (Http.Request.Body r2)) as [b|e2];
    try contradiction; [rewrite Hreq|]; split; reflexivity.
Qed.

(** *** Information of the node *)

(** X27 — network and blockchain information are passed on: whatever
    the method of the request, the two handlers answer with status 200
    and the result of the node as it is, also when it is null, and
    write no document when the result has no JSON text; when the call
    fails they answer with status 500 and a fixed message that does not
    give the reason. *)
Theorem info_relay (ws : WalletServer.t) (r : Http.Request.t) (st : State) :
  writer st = Http.ResponseWriter.new ->
  let c := WalletServer.rpcClient ws in
  writer (snd (HandleNetworkInfo ws r st))
  = match fst (call c "getnetworkinfo" [] st) with
    | Ok info => if Json.encodable info then reply 200 info else unsent
    | Error _ =>
        reply 500 (VMap [field "error" (VString "Failed to get network info")])
    end
  /\ writer (snd (HandleBlockchainInfo ws r st))
     = match fst (call c "getblockchaininfo" [] st) with
       | Ok info => if Json.encodable info then reply 200 info else unsent
       | Error _ =>
           reply 500
             (VMap [field "error" (VString "Failed to get blockchain info")])
       end.
Proof.
  intros Hw c. split.
  - unfold HandleNetworkInfo, GetNetworkInfo. run. fold c.
    settle (call_at c "getnetworkinfo" []) st.
    destruct (fst (call c "getnetworkinfo" [] st)) as [info|err]; run.
    + unfold HeaderSet. cbn [updateWriter snd].
      match goal with
      | |- writer (snd (Encode ?v ?s)) = _ => rewrite (Encode_writer v s)
      end; [reflexivity|].
      cbn [writer]. rewrite call_preserves_writer. cbn [writer].
      rewrite Hw. reflexivity.
    + respond. rewrite call_preserves_writer. cbn [writer]. rewrite Hw.
      reflexivity.
  - unfold HandleBlockchainInfo, GetBlockchainInfo. run. fold c.
    settle (call_at c "getblockchaininfo" []) st.
    destruct (fst (call c "getblockchaininfo" [] st)) as [info|err]; run.
    + unfold HeaderSet. cbn [updateWriter snd].
      match goal with
      | |- writer (snd (Encode ?v ?s)) = _ => rewrite (Encode_writer v s)
      end; [reflexivity|].
      cbn [writer]. rewrite call_preserves_writer. cbn [writer].
      rewrite Hw. reflexivity.
    + respond. rewrite call_preserves_writer. cbn [writer]. rewrite Hw.
      reflexivity.
Qed.

(** *** The key of the environment *)

(** X28 — the wallet of the environment: without WALLET_WIF, or with an
    empty one, [InitializeWalletFromEnv] returns no error, sends
    nothing to the node and logs one line; with a key it sends one
    importprivkey request with that key and returns no error exactly
    when the call succeeds, and the error of the call when it fails. *)
Theorem initialize_from_env (ws : WalletServer.t) (st : State) :
  let c := WalletServer.rpcClient ws in
  let wif := environ st "WALLET_WIF" in
  let out := InitializeWalletFromEnv ws st in
  (wif = EmptyString ->
   fst out = Ok tt
   /\ sent (snd out) = sent st
   /\ logged (snd out)
      = logged st
        ++ [entry "[INIT] No WALLET_WIF environment variable set - wallet will need to be imported manually" []])
  /\ (wif <> EmptyString ->
      sent (snd out) = sent st ++ traffic c "importprivkey" [VString wif]
      /\ match fst (call c "importprivkey" [VString wif] st) with
         | Ok _ => fst out = Ok tt
         | Error err => fst out = Error err
         end).
Proof.
  intros c wif out. subst out. split.
  - intros He. unfold InitializeWalletFromEnv. run. fold wif.
    rewrite He. cbn [String.eqb]. run. repeat split.
  - intros Hne. unfold InitializeWalletFromEnv. run. fold c wif.
    destruct (String.eqb_spec wif ""); [contradiction|]. run.
    match goal with
    | |- context [fst (ImportPrivateKey c wif ?s)] =>
        rewrite (proj1 (ImportPrivateKey_eq c wif s));
        rewrite (call_at c "importprivkey" [VString wif] s st) by reflexivity;
        pose proof (proj2 (ImportPrivateKey_eq c wif s)) as Hs
    end.
    cbn [sent] in Hs.
    destruct (fst (call c "importprivkey" _ st)) as [result|err]; run;
      (split; [exact Hs|reflexivity]).
Qed.

(** *** A wallet that cannot be made *)

(** X29 — a new wallet that fails: when [GenerateNewWallet] fails the
    handler answers a POST with status 500, success: false and the
    reason, without any key of a wallet, and sends nothing to the node;
    a random source that cannot give sixteen bytes is reported as a
    failure to generate entropy. *)
Theorem HandleNewWallet_failure (ws : WalletServer.t) (r : Http.Request.t)
  (st : State) :
  Http.Request.Method r = "POST"%string ->
  writer st = Http.ResponseWriter.new ->
  let st' := snd (HandleNewWallet ws r st) in
  (forall err,
      fst (GenerateNewWallet (random st)) = Error err ->
      writer st'
      = failure 500 ("Failed to generate wallet: " ++ errorString err)
      /\ sent st' = sent st)
  /\ ((length (random st) < 16)%nat ->
      writer st'
      = failure 500 ("Failed to generate wallet: failed to generate entropy: "
                     ++ ErrorText ErrEntropySource)).
Proof.
  intros Hm Hw st'. subst st'.
  assert (Herr : forall err,
             fst (GenerateNewWallet (random st)) = Error err ->
             writer (snd (HandleNewWallet ws r st))
             = failure 500 ("Failed to generate wallet: " ++ errorString err)
             /\ sent (snd (HandleNewWallet ws r st)) = sent st).
  { intros err Hgen. unfold HandleNewWallet. run. rewrite Hm.
    change (negb (String.eqb "POST" Http.MethodPost)) with false. run.
    rewrite withRandom_eq. cbn [fst snd random]. rewrite Hgen. run.
    fields. respond. rewrite Hw. split; reflexivity. }
  split; [exact Herr|].
  intros Hlt.
  apply (Herr (Errorfw "failed to generate entropy" ErrEntropySource)).
  rewrite GenerateNewWallet_eq.
  destruct (Nat.ltb_spec (length (random st)) 16); [reflexivity|lia].
Qed.

End WithPrimitives.
End ServerFacts.

(** ** A run on stand-in primitives

    The theorems above hold for every choice of the primitives. Here
    they are applied to one choice that is small enough to run: digests
    that repeat one byte computed from the sum of the input, a public
    key that repeats the low byte of the scalar, and 2048 three-letter
    words. Nothing is said through it about the real hash functions;
    it shows the hypotheses of the theorems at work on a concrete
    run. *)

Module StandIn.
Import WalletFacts.

Definition digest (n : nat) (m : list byte) : array n :=
  mkArray n (repeat (z2b (1 + fold_left Z.add (map b2z m) 0 mod 200)) n)
    (repeat_length _ n).

Definition threeLetters (i : nat) : string :=
  let z := Z.of_nat i in
  toString [z2b (97 + z / 256); z2b (97 + (z / 16) mod 16);
            z2b (97 + z mod 16)].

Definition primitives : Primitives :=
  {| sha256 := digest 32;
     sha512 := digest 64;
     ripemd160 := digest 20;
     pubkeyCompressed := fun d => mkArray 33 (repeat (z2b d) 33)
                                    (repeat_length _ 33);
     wordList := map threeLetters (seq 0 2048) |}.

(** The random source holds seventeen bytes. *)
Definition source : World :=
  map z2b [1; 2; 3; 4; 5; 6; 7; 8; 9; 10; 11; 12; 13; 14; 15; 16; 17].

(** The wallet [GenerateNewWallet] returns from that source. *)
Definition generated : Wallet :=
  {| Mnemonic := "aai aia gai afa dad eca bcb cal aga ded ebo bai";
     PrivateKeyHex :=
       "a9a9a9a9a9a9a9a9a9a9a9a9a9a9a9ac344befdc4b1869322a04ec90093d2725";
     PrivateKeyWIF := "5EvTY96AYWhmZZo8P5xhzFpRWNuertV8XVgc6KRGubTvsY9DReUQ";
     PublicKeyHex :=
       "252525252525252525252525252525252525252525252525252525252525252525";
     LegacyAddress := "KGpWYAeubYdcVWPe7Ttefkexky459sdNqv";
     SegWitAddress := "kcn1qd95kj6tfd95kj6tfd95kj6tfd95kj6tf5rdx2v";
     PublicKeyHash := "6969696969696969696969696969696969696969";
     DerivationPath := "m/44'/2'/0'/0/0" |}.


Lemma wordList_ok :
  Bip39Facts.wellFormedWordList (wordList (Primitives := primitives)) = true.
Proof. vm_compute. reflexivity. Qed.

Lemma generated_ok :
  GenerateNewWallet (P := primitives) source = (Ok generated, [x11]).
Proof. vm_compute. reflexivity. Qed.

Lemma generated_returned : returned (P := primitives) generated.
Proof. left. exists source, [x11]. exact generated_ok. Qed.


(** The generated wallet instantiates C4. *)
Lemma addresses_well_formed_witness :
  returned (P := primitives) generated
  /\ ltac:(let t := type of (@addresses_well_formed primitives generated
                              generated_returned) in exact t).
Proof.
  split; [exact generated_returned|].
  exact (@addresses_well_formed primitives generated generated_returned).
Defined.

(** The generated wallet instantiates C5. *)
Lemma wif_encoding_witness :
  returned (P := primitives) generated
  /\ ltac:(let t := type of (@wif_encoding primitives generated
                              generated_returned) in exact t).
Proof.
  split; [exact generated_returned|].
  exact (@wif_encoding primitives generated generated_returned).
Defined.

(** The generated wallet instantiates the amended C7. *)
Lemma change_and_address_index_not_hardened_witness :
  returned (P := primitives) generated
  /\ ltac:(let t := type of (@change_and_address_index_not_hardened primitives
                              generated generated_returned) in exact t).
Proof.
  split; [exact generated_returned|].
  exact (@change_and_address_index_not_hardened primitives generated
           generated_returned).
Defined.

(** The source of seventeen bytes instantiates C8. *)
Lemma GenerateNewWallet_entropy_witness :
  Bip39Facts.wellFormedWordList (wordList (Primitives := primitives)) = true
  /\ ltac:(let t := type of (@GenerateNewWallet_entropy primitives wordList_ok
                              source) in exact t).
Proof.
  split; [exact wordList_ok|].
  exact (@GenerateNewWallet_entropy primitives wordList_ok source).
Defined.

(** The generated wallet instantiates C9. *)
Lemma restore_after_generate_witness :
  Bip39Facts.wellFormedWordList (wordList (Primitives := primitives)) = true
  /\ GenerateNewWallet (P := primitives) source = (Ok generated, [x11])
  /\ ltac:(let t := type of (@restore_after_generate primitives wordList_ok
                              source [x11] generated generated_ok) in exact t).
Proof.
  split; [exact wordList_ok|]. split; [exact generated_ok|].
  exact (@restore_after_generate primitives wordList_ok source [x11] generated
           generated_ok).
Defined.








End StandIn.

(** ** A run of the server on a stand-in runtime

    The theorems on the client and the handlers hold for every runtime
    and every node. Here they are applied to one that is small enough
    to run: the JSON text of a request is the name of its method, a
    node that sends every request body back, a reader of responses that
    answers by the method named in the body, and readers of request
    bodies that take the body as the one string of the structure. *)

Module ServerRun.
Import WalletFacts StandIn FormatFacts EntryPointFacts ServerFacts.
Import Log.

(** What the stand-in node answers to validateaddress. *)
Definition confirmation : list (string * any) :=
  [field "address" (VString "KGpWYAeubYdcVWPe7Ttefkexky459sdNqv");
   field "isvalid" (VBool true)].

(** What the stand-in node answers to a method. *)
Definition resultOf (method : string) : any :=
  if String.eqb method "validateaddress" then VMap confirmation
  else if String.eqb method "getaddressesbylabel" then
    VMap [field "KGpWYAeubYdcVWPe7Ttefkexky459sdNqv"
            (VMap [field "purpose" (VString "receive")]);
          field "kcn1qd95kj6tfd95kj6tfd95kj6tfd95kj6tf5rdx2v" (VMap [])]
  else if String.eqb method "listtransactions" then
    VSlice [VMap [field "address"
                    (VString "KGpWYAeubYdcVWPe7Ttefkexky459sdNqv");
                  field "category" (VString "receive");
                  field "amount" (VFloat64 Amounts.tenth);
                  field "confirmations" (VFloat64 PrimFloat.one);
                  field "txid" (VString "00ff")];
            VString "not an object";
            VMap [field "category" (VString "send");
                  field "txid" (VString "11ee")]]
  else if String.eqb method "sendtoaddress" then
    VString "5b1c0ffee5b1c0ffee5b1c0ffee5b1c0ffee5b1c0ffee5b1c0ffee5b1c0ffee0"
  else if String.eqb method "getnewaddress" then
    VString "kcn1qd95kj6tfd95kj6tfd95kj6tfd95kj6tf5rdx2v"
  else VNil.

Definition runtime : Runtime :=
  {| Marshal := fun req => Ok (ofString (JSONRPCRequest.Method req));
     Unmarshal := fun b =>
       Ok {| JSONRPCResponse.JSONRPC := "2.0";
             JSONRPCResponse.Result := resultOf (toString b);
             JSONRPCResponse.Error := VNil;
             JSONRPCResponse.ID := 1 |};
     DecodeSendTransactionRequest := fun b =>
       Ok {| SendTransactionRequest.ToAddress := toString b;
             SendTransactionRequest.Amount := PrimFloat.one |};
     DecodeImportKeyRequest := fun b =>
       Ok {| ImportKeyRequest.WIF := toString b |};
     DecodeMnemonicToWIFRequest := fun b =>
       Ok {| MnemonicToWIFRequest.Mnemonic := toString b |};
     DecodeStringMap := fun b => Ok [("mnemonic"%string, toString b)];
     DecodeGetNewAddressRequest := fun b =>
       Ok {| GetNewAddressRequest.AddressType := toString b |};
     DecodeGenerateAddressRequest := fun b =>
       Ok {| GenerateAddressRequest.Type_ := toString b |};
     DecodeValidateAddressRequest := fun b =>
       Ok {| ValidateAddressRequest.Address := toString b |};
     FormatValue := typeName;
     ErrorText := fun _ => "error"%string;
     ParseURL := fun _ => Ok tt;
     Atoi := fun s => if String.eqb s "7" then Ok 7 else Error ErrEntropySource;
     ConvertOutOfRange := fun _ => 0 |}.

(** The node sends the body of the request back, with status 200. *)
Definition echo (_ : list Http.ClientRequest.t) (q : Http.ClientRequest.t)
  : Result Http.Response.t :=
  Ok {| Http.Response.StatusCode := 200;
        Http.Response.Status := "200 OK";
        Http.Response.Body := Ok (Http.ClientRequest.Body q) |}.

(** The same node behind a proxy that turns every status into 502. *)
Definition echo502 (_ : list Http.ClientRequest.t) (q : Http.ClientRequest.t)
  : Result Http.Response.t :=
  Ok {| Http.Response.StatusCode := 502;
        Http.Response.Status := "502 Bad Gateway";
        Http.Response.Body := Ok (Http.ClientRequest.Body q) |}.

Definition server : WalletServer.t :=
  NewWalletServer "http://127.0.0.1:9332" "user" "secret".

(** The state before a request: the seventeen random bytes of [source],
    an empty environment, nothing sent and nothing logged. *)
Definition st0 : State :=
  {| random := source;
     environ := fun _ => EmptyString;
     node := echo;
     sent := [];
     logged := [];
     picks := [1%nat];
     writer := Http.ResponseWriter.new |}.

Definition st502 : State :=
  {| random := source;
     environ := fun _ => EmptyString;
     node := echo502;
     sent := [];
     logged := [];
     picks := [];
     writer := Http.ResponseWriter.new |}.

Definition post (body : string) : Http.Request.t :=
  {| Http.Request.Method := "POST";
     Http.Request.RemoteAddr := "127.0.0.1:50000";
     Http.Request.Body := ofString body;
     Http.Request.Query := fun _ => EmptyString |}.

Definition get_ : Http.Request.t :=
  {| Http.Request.Method := "GET";
     Http.Request.RemoteAddr := "127.0.0.1:50000";
     Http.Request.Body := [];
     Http.Request.Query := fun _ => EmptyString |}.

(** The state in which the handler of send asks the node to send: the
    validateaddress request for the legacy address of the generated
    wallet has been sent. *)
Definition st1 : State :=
  {| random := source;
     environ := fun _ => EmptyString;
     node := echo;
     sent := traffic (R := runtime) (WalletServer.rpcClient server)
               "validateaddress" [VString (LegacyAddress generated)];
     logged := [];
     picks := [];
     writer := Http.ResponseWriter.new |}.

(** A state whose random source has one byte left. *)
Definition stDry : State :=
  {| random := [x11];
     environ := fun _ => EmptyString;
     node := echo;
     sent := [];
     logged := [];
     picks := [];
     writer := Http.ResponseWriter.new |}.

(** The mnemonic of the generated wallet with other spacing. *)
Definition spaced : string :=
  " aai  aia gai afa dad eca bcb cal aga ded ebo bai ".

(** A second source with the same first sixteen bytes. *)
Definition source' : World := firstn 16 source ++ [x11; x11].

(** The transactions and the addresses the stand-in node reports. *)
Definition txs0 : list any :=
  match resultOf "listtransactions" with VSlice l => l | _ => [] end.

Definition addresses0 : list (string * any) :=
  match resultOf "getaddressesbylabel" with VMap m => m | _ => [] end.

Lemma generated_ok' :
  GenerateNewWallet (P := primitives) source' = (Ok generated, [x11; x11]).
Proof. vm_compute. reflexivity. Qed.

Lemma spaced_fields :
  Strings.Fields spaced = Strings.Fields (Mnemonic generated).
Proof. vm_compute. reflexivity. Qed.

Lemma post_method (body : string) :
  Http.Request.Method (post body) = "POST"%string.
Proof. reflexivity. Qed.

Lemma get_method : Http.Request.Method get_ <> "POST"%string.
Proof. cbn. discriminate. Qed.

Lemma st0_fresh : writer st0 = Http.ResponseWriter.new.
Proof. reflexivity. Qed.

Lemma st0_generates :
  GenerateNewWallet (P := primitives) (random st0) = (Ok generated, [x11]).
Proof. exact generated_ok. Qed.

Lemma post_mnemonic :
  DecodeMnemonicToWIFRequest (Runtime := runtime)
    (Http.Request.Body (post (Mnemonic generated)))
  = Ok {| MnemonicToWIFRequest.Mnemonic := Mnemonic generated |}.
Proof. vm_compute. reflexivity. Qed.

Lemma post_map :
  DecodeStringMap (Runtime := runtime)
    (Http.Request.Body (post (Mnemonic generated)))
  = Ok [("mnemonic"%string, Mnemonic generated)].
Proof. vm_compute. reflexivity. Qed.

Lemma map_mnemonic :
  lookupString [("mnemonic"%string, Mnemonic generated)] "mnemonic"
  = Some (Mnemonic generated).
Proof. reflexivity. Qed.

Lemma post_address :
  DecodeValidateAddressRequest (Runtime := runtime)
    (Http.Request.Body (post (LegacyAddress generated)))
  = Ok {| ValidateAddressRequest.Address := LegacyAddress generated |}.
Proof. vm_compute. reflexivity. Qed.

Lemma same_sent : sent st0 = sent st502.
Proof. reflexivity. Qed.

Lemma same_bodies (q : Http.ClientRequest.t) :
  match node st0 (sent st0) q, node st502 (sent st502) q with
  | Ok a, Ok b => Http.Response.Body a = Http.Response.Body b
  | Error e1, Error e2 => e1 = e2
  | _, _ => False
  end.
Proof. reflexivity. Qed.

Lemma count_default :
  (Atoi (Runtime := runtime) (Http.Request.Query get_ "count") = Ok 50
   /\ Http.Request.Query get_ "count" <> EmptyString)
  \/ (50 = 50
      /\ (Http.Request.Query get_ "count" = EmptyString
          \/ exists err,
               Atoi (Runtime := runtime) (Http.Request.Query get_ "count")
               = Error err)).
Proof. right. split; [reflexivity|]. left. reflexivity. Qed.

Lemma node_lists :
  fst (call (R := runtime) (WalletServer.rpcClient server) "listtransactions"
         [VString "*"; VInt 50; VInt 0; VBool true] st0)
  = Ok (VSlice txs0).
Proof. vm_compute. reflexivity. Qed.

Lemma node_addresses :
  fst (call (R := runtime) (WalletServer.rpcClient server)
         "getaddressesbylabel" [VString ""] st0)
  = Ok (VMap addresses0).
Proof. vm_compute. reflexivity. Qed.

Lemma new_wallet_posts :
  In (HandleNewWallet (P := primitives) (R := runtime))
     (postHandlers (P := primitives) (R := runtime)).
Proof. right. right. left. reflexivity. Qed.

Lemma balance_handled :
  In (HandleBalance (R := runtime))
     (nodeHandlers (R := runtime)
      ++ walletHandlers (P := primitives) (R := runtime)).
Proof. apply in_or_app. left. left. reflexivity. Qed.

(** The generated wallet instantiates X1. *)
Lemma legacy_address_shape_witness :
  returned (P := primitives) generated
  /\ ltac:(let t := type of (@legacy_address_shape primitives generated
                              generated_returned) in exact t).
Proof.
  split; [exact generated_returned|].
  exact (@legacy_address_shape primitives generated generated_returned).
Defined.

(** The generated wallet instantiates X2. *)
Lemma wif_shape_witness :
  returned (P := primitives) generated
  /\ ltac:(let t := type of (@wif_shape primitives generated
                              generated_returned) in exact t).
Proof.
  split; [exact generated_returned|].
  exact (@wif_shape primitives generated generated_returned).
Defined.

(** The generated wallet instantiates X3. *)
Lemma segwit_address_shape_witness :
  returned (P := primitives) generated
  /\ ltac:(let t := type of (@segwit_address_shape primitives generated
                              generated_returned) in exact t).
Proof.
  split; [exact generated_returned|].
  exact (@segwit_address_shape primitives generated generated_returned).
Defined.

(** The generated wallet instantiates X4. *)
Lemma hex_fields_shape_witness :
  returned (P := primitives) generated
  /\ ltac:(let t := type of (@hex_fields_shape primitives generated
                              generated_returned) in exact t).
Proof.
  split; [exact generated_returned|].
  exact (@hex_fields_shape primitives generated generated_returned).
Defined.

(** The mnemonic of the generated wallet and the same words with other
    spacing instantiate X6. *)
Lemma spacing_of_the_phrase_witness :
  Strings.Fields spaced = Strings.Fields (Mnemonic generated)
  /\ ltac:(let t := type of (@spacing_of_the_phrase primitives spaced
                              (Mnemonic generated) source spaced_fields)
           in exact t).
Proof.
  split; [exact spaced_fields|].
  exact (@spacing_of_the_phrase primitives spaced (Mnemonic generated) source
           spaced_fields).
Defined.

(** Two sources with the same first sixteen bytes instantiate X7. *)
Lemma mnemonic_names_entropy_witness :
  Bip39Facts.wellFormedWordList (wordList (Primitives := primitives)) = true
  /\ GenerateNewWallet (P := primitives) source = (Ok generated, [x11])
  /\ GenerateNewWallet (P := primitives) source' = (Ok generated, [x11; x11])
  /\ ltac:(let t := type of (@mnemonic_names_entropy primitives wordList_ok
                              source [x11] source' [x11; x11]
                              generated generated generated_ok generated_ok')
           in exact t).
Proof.
  split; [exact wordList_ok|]. split; [exact generated_ok|].
  split; [exact generated_ok'|].
  exact (@mnemonic_names_entropy primitives wordList_ok source [x11] source'
           [x11; x11] generated generated generated_ok generated_ok').
Defined.

(** A GET to new-wallet instantiates X8. *)
Lemma post_only_witness :
  In (HandleNewWallet (P := primitives) (R := runtime))
     (postHandlers (P := primitives) (R := runtime))
  /\ Http.Request.Method get_ <> "POST"%string
  /\ writer st0 = Http.ResponseWriter.new
  /\ ltac:(let t := type of (@post_only primitives runtime HandleNewWallet
                              server get_ st0 new_wallet_posts get_method
                              st0_fresh) in exact t).
Proof.
  split; [exact new_wallet_posts|]. split; [exact get_method|].
  split; [exact st0_fresh|].
  exact (@post_only primitives runtime HandleNewWallet server get_ st0
           new_wallet_posts get_method st0_fresh).
Defined.

(** A POST to new-wallet with the random bytes of [source] instantiates
    X9. *)
Lemma HandleNewWallet_reply_witness :
  Http.Request.Method (post "") = "POST"%string
  /\ writer st0 = Http.ResponseWriter.new
  /\ GenerateNewWallet (P := primitives) (random st0) = (Ok generated, [x11])
  /\ ltac:(let t := type of (@HandleNewWallet_reply primitives runtime server
                              (post "") st0 generated [x11] (post_method "")
                              st0_fresh st0_generates) in exact t).
Proof.
  split; [exact (post_method "")|]. split; [exact st0_fresh|].
  split; [exact st0_generates|].
  exact (@HandleNewWallet_reply primitives runtime server (post "") st0
           generated [x11] (post_method "") st0_fresh st0_generates).
Defined.

(** A POST of the mnemonic of the generated wallet instantiates X10. *)
Lemma HandleMnemonicToWIF_reply_witness :
  Http.Request.Method (post (Mnemonic generated)) = "POST"%string
  /\ writer st0 = Http.ResponseWriter.new
  /\ ltac:(let t := type of (@HandleMnemonicToWIF_reply primitives runtime
                              server (post (Mnemonic generated)) st0
                              (post_method _) st0_fresh) in exact t).
Proof.
  split; [exact (post_method _)|]. split; [exact st0_fresh|].
  exact (@HandleMnemonicToWIF_reply primitives runtime server
           (post (Mnemonic generated)) st0 (post_method _) st0_fresh).
Defined.

(** The mnemonic of the generated wallet, posted to import-mnemonic and
    to new-address, instantiates X11. *)
Lemma restore_over_http_witness :
  Bip39Facts.wellFormedWordList (wordList (Primitives := primitives)) = true
  /\ GenerateNewWallet (P := primitives) source = (Ok generated, [x11])
  /\ DecodeMnemonicToWIFRequest (Runtime := runtime)
       (Http.Request.Body (post (Mnemonic generated)))
     = Ok {| MnemonicToWIFRequest.Mnemonic := Mnemonic generated |}
  /\ DecodeStringMap (Runtime := runtime)
       (Http.Request.Body (post (Mnemonic generated)))
     = Ok [("mnemonic"%string, Mnemonic generated)]
  /\ ltac:(let t := type of (@restore_over_http primitives runtime wordList_ok
                              server source [x11] generated
                              (post (Mnemonic generated))
                              (post (Mnemonic generated)) st0 st502
                              {| MnemonicToWIFRequest.Mnemonic :=
                                   Mnemonic generated |}
                              [("mnemonic"%string, Mnemonic generated)]
                              generated_ok (post_method _) st0_fresh
                              post_mnemonic eq_refl (post_method _) eq_refl
                              post_map map_mnemonic) in exact t).
Proof.
  split; [exact wordList_ok|]. split; [exact generated_ok|].
  split; [exact post_mnemonic|]. split; [exact post_map|].
  exact (@restore_over_http primitives runtime wordList_ok server source [x11]
           generated (post (Mnemonic generated)) (post (Mnemonic generated))
           st0 st502
           {| MnemonicToWIFRequest.Mnemonic := Mnemonic generated |}
           [("mnemonic"%string, Mnemonic generated)]
           generated_ok (post_method _) st0_fresh post_mnemonic eq_refl
           (post_method _) eq_refl post_map map_mnemonic).
Defined.

(** A request for the balance instantiates X13. *)
Lemma replies_are_json_witness :
  In (HandleBalance (R := runtime))
     (nodeHandlers (R := runtime)
      ++ walletHandlers (P := primitives) (R := runtime))
  /\ writer st0 = Http.ResponseWriter.new
  /\ ltac:(let t := type of (@replies_are_json primitives runtime HandleBalance
                              server get_ st0 balance_handled st0_fresh)
           in exact t).
Proof.
  split; [exact balance_handled|]. split; [exact st0_fresh|].
  exact (@replies_are_json primitives runtime HandleBalance server get_ st0
           balance_handled st0_fresh).
Defined.

(** A POST of the legacy address of the generated wallet instantiates
    X14. *)
Lemma HandleValidateAddress_reply_witness :
  Http.Request.Method (post (LegacyAddress generated)) = "POST"%string
  /\ writer st0 = Http.ResponseWriter.new
  /\ DecodeValidateAddressRequest (Runtime := runtime)
       (Http.Request.Body (post (LegacyAddress generated)))
     = Ok {| ValidateAddressRequest.Address := LegacyAddress generated |}
  /\ ltac:(let t := type of (@HandleValidateAddress_reply runtime server
                              (post (LegacyAddress generated)) st0
                              {| ValidateAddressRequest.Address :=
                                   LegacyAddress generated |}
                              (post_method _) st0_fresh post_address)
           in exact t).
Proof.
  split; [exact (post_method _)|]. split; [exact st0_fresh|].
  split; [exact post_address|].
  exact (@HandleValidateAddress_reply runtime server
           (post (LegacyAddress generated)) st0
           {| ValidateAddressRequest.Address := LegacyAddress generated |}
           (post_method _) st0_fresh post_address).
Defined.

(** The node and the same node behind the proxy instantiate X17. *)
Lemma call_reads_the_body_only_witness :
  sent st0 = sent st502
  /\ (forall q,
         match node st0 (sent st0) q, node st502 (sent st502) q with
         | Ok a, Ok b => Http.Response.Body a = Http.Response.Body b
         | Error e1, Error e2 => e1 = e2
         | _, _ => False
         end)
  /\ ltac:(let t := type of (@call_reads_the_body_only runtime
                              (WalletServer.rpcClient server)
                              "validateaddress"
                              [VString (LegacyAddress generated)]
                              st0 st502 same_sent same_bodies) in exact t).
Proof.
  split; [exact same_sent|]. split; [exact same_bodies|].
  exact (@call_reads_the_body_only runtime (WalletServer.rpcClient server)
           "validateaddress" [VString (LegacyAddress generated)] st0 st502
           same_sent same_bodies).
Defined.

(** The three elements the stand-in node lists, two of them objects,
    instantiate X20. *)
Lemma list_transactions_reply_witness :
  writer st0 = Http.ResponseWriter.new
  /\ fst (call (R := runtime) (WalletServer.rpcClient server)
            "listtransactions" [VString "*"; VInt 50; VInt 0; VBool true] st0)
     = Ok (VSlice txs0)
  /\ ltac:(let t := type of (@list_transactions_reply runtime server get_ st0
                              50 txs0 st0_fresh count_default node_lists)
           in exact t).
Proof.
  split; [exact st0_fresh|]. split; [exact node_lists|].
  exact (@list_transactions_reply runtime server get_ st0 50 txs0 st0_fresh
           count_default node_lists).
Defined.

(** The two addresses the stand-in node reports instantiate X21. *)
Lemma get_addresses_reply_witness :
  writer st0 = Http.ResponseWriter.new
  /\ fst (call (R := runtime) (WalletServer.rpcClient server)
            "getaddressesbylabel" [VString ""] st0)
     = Ok (VMap addresses0)
  /\ ltac:(let t := type of (@get_addresses_reply runtime server get_ st0
                              addresses0 st0_fresh node_addresses)
           in exact t).
Proof.
  split; [exact st0_fresh|]. split; [exact node_addresses|].
  exact (@get_addresses_reply runtime server get_ st0 addresses0 st0_fresh
           node_addresses).
Defined.

(** A request to check-wallet instantiates X22. *)
Lemma check_wallet_reply_witness :
  writer st0 = Http.ResponseWriter.new
  /\ ltac:(let t := type of (@check_wallet_reply runtime server get_ st0
                              st0_fresh) in exact t).
Proof.
  split; [exact st0_fresh|].
  exact (@check_wallet_reply runtime server get_ st0 st0_fresh).
Defined.

Definition sendRequest : SendTransactionRequest.t :=
  {| SendTransactionRequest.ToAddress := LegacyAddress generated;
     SendTransactionRequest.Amount := PrimFloat.one |}.

Lemma post_send :
  DecodeSendTransactionRequest (Runtime := runtime)
    (Http.Request.Body (post (LegacyAddress generated)))
  = Ok sendRequest.
Proof. vm_compute. reflexivity. Qed.

Lemma node_confirms :
  fst (call (R := runtime) (WalletServer.rpcClient server) "validateaddress"
         [VString (SendTransactionRequest.ToAddress sendRequest)] st0)
  = Ok (VMap confirmation).
Proof. vm_compute. reflexivity. Qed.

Lemma confirmed_isvalid : index confirmation "isvalid" = VBool true.
Proof. reflexivity. Qed.

Lemma st1_node : node st1 = node st0.
Proof. reflexivity. Qed.

Lemma st1_sent :
  sent st1
  = sent st0
    ++ traffic (R := runtime) (WalletServer.rpcClient server)
         "validateaddress"
         [VString (SendTransactionRequest.ToAddress sendRequest)].
Proof. reflexivity. Qed.

(** A POST of the legacy address of the generated wallet to send
    instantiates X23. *)
Lemma send_reply_witness :
  DecodeSendTransactionRequest (Runtime := runtime)
    (Http.Request.Body (post (LegacyAddress generated)))
  = Ok sendRequest
  /\ fst (call (R := runtime) (WalletServer.rpcClient server)
            "validateaddress"
            [VString (SendTransactionRequest.ToAddress sendRequest)] st0)
     = Ok (VMap confirmation)
  /\ index confirmation "isvalid" = VBool true
  /\ node st1 = node st0
  /\ ltac:(let t := type of (@send_reply runtime server
                              (post (LegacyAddress generated)) st0 st1
                              sendRequest confirmation (post_method _) st0_fresh
                              post_send node_confirms confirmed_isvalid
                              st1_node st1_sent) in exact t).
Proof.
  split; [exact post_send|]. split; [exact node_confirms|].
  split; [exact confirmed_isvalid|]. split; [exact st1_node|].
  exact (@send_reply runtime server (post (LegacyAddress generated)) st0 st1
           sendRequest confirmation (post_method _) st0_fresh post_send
           node_confirms confirmed_isvalid st1_node st1_sent).
Defined.

Lemma post_wif :
  DecodeImportKeyRequest (Runtime := runtime)
    (Http.Request.Body (post (PrivateKeyWIF generated)))
  = Ok {| ImportKeyRequest.WIF := PrivateKeyWIF generated |}.
Proof. vm_compute. reflexivity. Qed.

(** A POST of the WIF of the generated wallet to import instantiates
    X24. *)
Lemma HandleImportKey_reply_witness :
  Http.Request.Method (post (PrivateKeyWIF generated)) = "POST"%string
  /\ writer st0 = Http.ResponseWriter.new
  /\ DecodeImportKeyRequest (Runtime := runtime)
       (Http.Request.Body (post (PrivateKeyWIF generated)))
     = Ok {| ImportKeyRequest.WIF := PrivateKeyWIF generated |}
  /\ ltac:(let t := type of (@HandleImportKey_reply runtime server
                              (post (PrivateKeyWIF generated)) st0
                              {| ImportKeyRequest.WIF :=
                                   PrivateKeyWIF generated |}
                              (post_method _) st0_fresh post_wif)
           in exact t).
Proof.
  split; [exact (post_method _)|]. split; [exact st0_fresh|].
  split; [exact post_wif|].
  exact (@HandleImportKey_reply runtime server
           (post (PrivateKeyWIF generated)) st0
           {| ImportKeyRequest.WIF := PrivateKeyWIF generated |}
           (post_method _) st0_fresh post_wif).
Defined.

Lemma post_type :
  DecodeGetNewAddressRequest (Runtime := runtime)
    (Http.Request.Body (post "bech32"))
  = Ok {| GetNewAddressRequest.AddressType := "bech32" |}.
Proof. vm_compute. reflexivity. Qed.

(** A POST of the address type bech32 to getnewaddress instantiates
    X25. *)
Lemma get_new_address_reply_witness :
  Http.Request.Method (post "bech32") = "POST"%string
  /\ writer st0 = Http.ResponseWriter.new
  /\ DecodeGetNewAddressRequest (Runtime := runtime)
       (Http.Request.Body (post "bech32"))
     = Ok {| GetNewAddressRequest.AddressType := "bech32" |}
  /\ ltac:(let t := type of (@get_new_address_reply runtime server
                              (post "bech32") st0
                              {| GetNewAddressRequest.AddressType := "bech32" |}
                              (post_method _) st0_fresh post_type)
           in exact t).
Proof.
  split; [exact (post_method _)|]. split; [exact st0_fresh|].
  split; [exact post_type|].
  exact (@get_new_address_reply runtime server (post "bech32") st0
           {| GetNewAddressRequest.AddressType := "bech32" |}
           (post_method _) st0_fresh post_type).
Defined.

Lemma same_type :
  match DecodeGetNewAddressRequest (Runtime := runtime)
          (Http.Request.Body (post "bech32")),
        DecodeGenerateAddressRequest (Runtime := runtime)
          (Http.Request.Body (post "bech32")) with
  | Ok a, Ok b =>
      GetNewAddressRequest.AddressType a = GenerateAddressRequest.Type_ b
  | Error _, Error _ => True
  | _, _ => False
  end.
Proof. reflexivity. Qed.

(** The same POST to getnewaddress and to generate-address instantiates
    X26. *)
Lemma address_endpoints_agree_witness :
  writer st0 = Http.ResponseWriter.new
  /\ match DecodeGetNewAddressRequest (Runtime := runtime)
             (Http.Request.Body (post "bech32")),
           DecodeGenerateAddressRequest (Runtime := runtime)
             (Http.Request.Body (post "bech32")) with
     | Ok a, Ok b =>
         GetNewAddressRequest.AddressType a = GenerateAddressRequest.Type_ b
     | Error _, Error _ => True
     | _, _ => False
     end
  /\ ltac:(let t := type of (@address_endpoints_agree runtime server
                              (post "bech32") (post "bech32") st0 st0_fresh
                              eq_refl same_type) in exact t).
Proof.
  split; [exact st0_fresh|]. split; [exact same_type|].
  exact (@address_endpoints_agree runtime server (post "bech32")
           (post "bech32") st0 st0_fresh eq_refl same_type).
Defined.

(** A request for the information of the node instantiates X27. *)
Lemma info_relay_witness :
  writer st0 = Http.ResponseWriter.new
  /\ ltac:(let t := type of (@info_relay runtime server get_ st0 st0_fresh)
           in exact t).
Proof.
  split; [exact st0_fresh|].
  exact (@info_relay runtime server get_ st0 st0_fresh).
Defined.

(** A POST to new-wallet when the random source has one byte left
    instantiates X29. *)
Lemma HandleNewWallet_failure_witness :
  Http.Request.Method (post "") = "POST"%string
  /\ writer stDry = Http.ResponseWriter.new
  /\ ltac:(let t := type of (@HandleNewWallet_failure primitives runtime
                              server (post "") stDry (post_method "")
                              eq_refl) in exact t).
Proof.
  split; [exact (post_method "")|]. split; [reflexivity|].
  exact (@HandleNewWallet_failure primitives runtime server (post "") stDry
           (post_method "") eq_refl).
Defined.

End ServerRun.
